(* ===== verification/_CoqProject ===== *)
-Q . S2P
Prelude.v
JsString.v
JsNumber.v
Utf8.v
SecureLog.v
ServiceWorker.v
Json.v
Timers.v
Auth.v
Subscriptions.v
Sharing.v
Channels.v
Watcher.v
Cli.v
StoreFile.v
Url.v
JsonValue.v
Inspect.v
Backend.v
Polling.v
Format.v
Pagination.v
Soroban.v
ContractTypes.v
Errors.v
Markup.v
ProposalForms.v
ProposalDialogs.v
NewProposalDialog.v
Api.v
Stores.v
Toasts.v
Panels.v
PageParts.v
Detail.v
Events.v
Monitor.v
AdminMonitor.v
Token.v
Governance.v
GovernanceLife.v
EndToEnd.v
Rent.v
TokenRent.v
Delegated.v
Upgrade.v
Queries.v
Treasury.v
DaoLife.v
Prefs.v
Unused.v
App.v
AppWallet.v
