(* ===== verification/Prelude.v ===== *)
(** * CosmosVote: a verification library

    CosmosVote is an on-chain governance system. Three TypeScript programs,
    three Rust contracts, a Rust library for log lines, a service worker and three
    operational scripts make it up; this library models them all.

    ** The system and the files that model it

    The notification service (notification-service/src) watches the governance
    contract and tells subscribers. The command line edits a subscription file;
    the watcher polls Horizon, asks the store who is concerned and hands each
    event to the notifier, which calls every configured channel.
    - [Auth] : auth.ts, the API keys, roles and the guard [requireRole].
    - [Subscriptions] : types.ts and subscriptions.ts. State: [Disk], the file.
      Operations: [load], [save], [addSubscriber], [removeSubscriber],
      [listSubscribers], [saveCursor], [matchingSubscribers]. [spec_cmd] is the
      abstract store: commands on a list of subscribers and a cursor.
    - [Sharing] : the file between processes. An operation is cut at its reading, the
      opening of the file, which empties it, and the writing; the steps of several
      processes interleave.
    - [Channels] : channels.ts and notifier.ts, the plugins behind the interface
      [NotificationChannel] with its laws [LawfulChannel], and [notify].
    - [Watcher] : watcher.ts, [parseEvent], [fetchNewEvents], [processEvents],
      [poll] and the loop [polls]; a [Round] is a poll with the steps of other processes
      at each of its points.
    - [Cli] : index.ts, one run of [main].
    - [StoreFile] : the subscription file as bytes of JSON, the types of types.ts as
      types of JSON values, and the codec [json_codec] that [load] and [save] use.

    The backend service (backend/src) polls an RPC node and posts to a webhook.
    - [Backend] : notificationService.ts, errorTracking.ts, index.ts.
    - [Timers] : the self-rescheduling timer loops of this service and of the
      polling hook, seen from the JavaScript engine.

    The front end (frontend/src) shows proposals and builds transactions.
    - [Format] : types.ts, utils.ts, ProposalCard.tsx.
    - [Pagination] : Pagination.tsx and the list state of App.tsx.
    - [Markup] : elements, styles, and what clicks and keys on a tree of them call.
    - [ProposalForms] : the handlers of CreateProposalForm.tsx and NewProposalForm.tsx.
      [ProposalDialogs], [NewProposalDialog] : the elements of these two components,
      and a user at work in them.
    - [Errors] : errors.ts.  [Events] : events.ts.
    - [Api] : config.ts and api.ts.  [Stores] : walletStore.ts, proposalStore.ts.
    - [Polling] : usePolling.ts.  [Toasts] : Toast.tsx, ToastContext.tsx.
    - [Panels] : VoteSimulationPreview.tsx, DelegationPanel.tsx,
      UserDashboard.tsx, Header.tsx, ConnectWalletModal.tsx, ConfirmModal.tsx,
      ErrorBoundary.tsx and the focus trap of ProposalDetail.tsx.
    - [PageParts] : the elements of Pagination.tsx, ConfirmModal.tsx,
      ConnectWalletModal.tsx, Spinner.tsx and ProposalSkeleton.tsx.
    - [Detail] : the rest of ProposalDetail.tsx.  [App] : the rest of App.tsx.
      [AppWallet] : the wallet handlers of App.tsx, in their several variants.
    - [ServiceWorker] : public/sw.js, over the caches of the browser.
    - [Url] : getUrlParams and setUrlParams of App.tsx.
    - [Prefs] : useTheme.ts, i18n.ts, LanguageSwitcher.tsx, analytics.ts,
      useMeta.ts, AriaLive.tsx, usePWAInstall.ts and main.tsx.
    - [Unused] : useI18n and useToast, I18nContext.tsx, WalletContext.tsx.

    The contracts (contracts/) hold the proposals, the votes and the funds. They
    run on the host of [Soroban]: contexts, authorisation, traps, integers with
    their range, and calls that are rolled back when they fail.
    - [ContractTypes] : the governance error codes and the argument checks of
      create_proposal.  [Events] : what the governance and token contracts publish.
    - [Token] : token/src, its storage and entry points, and histories of calls.
    - [Governance] : governance/src, the same; what it asks of the token and the
      treasury is in the [World] of a call.
    - [GovernanceLife] : the effect of each governance call on the proposals and
      votes, which the entry points implement; the invariant; the theorems.
    - [Rent] : the lives of the governance contract's storage entries, on a host
      that may refuse to extend them.  [TokenRent] : the same for the token, with its
      temporary entries.
    - [Upgrade] : upgrade of both contracts, and the decision between several
      choices.
    - [Delegated] : what delegations do to the votes.  [Queries] : the listing and
      configuration queries.
    - [Treasury] : treasury/src, and the execution of a proposal through the
      three contracts at their addresses ([Dao]).  [DaoLife] : histories of calls on
      the three contracts. What contracts at other addresses do (another voting token,
      another treasury, the asset of an action) comes with each call, arbitrary, as
      [Foreign].

    The scripts (scripts/) are run by operators.
    - [Monitor] : monitor.js, the rules on batches of events, the requests and the
      loop.  [AdminMonitor] : admin_monitor.js, overlapping polls and alerts.
    - [Inspect] : inspect-state.js, one run of [main] on any answers.

    Across the parts:
    - [EndToEnd] : from the calls of the governance contract, through its events and
      Horizon's log of them, to what the watcher tells the subscribers.
    - [SecureLog] : notification/src, the masking of addresses in log lines.

    Underneath, [JsString] and [JsNumber] model the values of the language: a
    string is a list of 16-bit code units with the UTF-8 length the contracts
    count, and a number is a double with its rounding, [Number(string)], integer
    tests, comparison, [String(number)] and [toFixed]. [Utf8] turns strings into
    bytes and back, [Json] prints and parses JSON, and [JsonValue] has the operators
    of the language on values whose shape nobody checked.

    ** How the code is modelled

    A function that may throw or reject returns [res E A]. State is passed explicitly:
    a record per component, one function per handler. An asynchronous function is cut
    at its awaits: a function up to the await and one for the settling, and the
    requests in flight are part of the state, so that events, timers and answers come
    in any order (a history, see below). Components with a contract to their clients
    state it as a class or a record of laws: [StoreCodec] for the text of the store
    (its instance is [json_codec]), [LawfulChannel] for channels, [Pages] for a client
    that pages through a log as Horizon's collections do, [lawful_encoder] for the
    integer types of the SDK, [Serves] for a server that reflects a contract state.
    The method the watcher calls on its client, contractEvents, is not one that
    Horizon.Server documents: theorems with [Pages] are about a client that has it,
    and [watcher_without_client_method] is about one that has not. Third-party code
    (Horizon, the RPC server, the Stellar SDK, mail and HTTP clients, wallet
    extensions, Sentry) is a parameter, and so are random identifiers, the clock, the
    environment and the locale files.

    ** What the theorems show

    - Proposals and votes: after any history of calls the tallies are the sums of
      the recorded votes; a proposal only moves along its states, for the reasons
      the contract gives; a vote belongs to its voter; finalisation decides once,
      by quorum and majority; with a token that keeps snapshots the votes never
      exceed the supply, and with the token of this repository they can, by no more
      than what is credited to anyone while the proposal exists and the voting token is
      this one.
    - Tokens and funds: the supply is conserved and nobody is debited without
      consent; the delegated weight is the sum it should be for a list without
      repetitions; the treasury pays exactly what the proposals executed on it say, each
      once, and loses nothing else but to burns by the token's administrator, whatever
      other contracts do; whoever initialises it first owns it; native payments fail.
      These suppose that the token was not initialised with a negative supply, which
      it does not refuse.
    - End to end: the states of proposals that subscribers are told are those the
      contract had at one moment of its history, and, when no two processes edit the
      file at once, the present ones once the watcher has read the log.
    - Delegation and storage: delegated balances are voted by nobody; on a host that
      refuses to extend missing entries nobody can vote, and with short lives the
      longest proposal is lost; an allowance ends with its entry, before its date, and
      a delegation freezes; on a host that never refuses, lives change nothing, and
      on any host the supply is conserved.
    - Queries: pages list every proposal once, in order.
    - Access: the administrator role is granted for exactly the requests that
      present the configured key; without keys everything is refused.
    - The store refines its abstract specification under any sequence of
      commands, and what overlapping processes can lose.
    - Delivery: against a paged log, with polls failing and the command line at work
      in any interleaving, no relevant event is passed over; when the file can be
      written and no process reads it before and writes it after a step of another,
      each is delivered exactly once and in order, and a watcher that keeps polling
      catches up; every lifecycle event of the contract is recognised; each listed
      subscriber is sent a request that tells the event at every address it gave, and
      each reports its own result. Also where this stops: a page without relevant
      events is polled for ever; a store that cannot be written, or an overlapping
      write that brings an old cursor back, makes a page be delivered again; and a
      process that reads the file while another writes it loses the store.
    - The command line: what is subscribed is what was given, and [main] is the
      store's commands.
    - The file: it keeps its type, and the declared one as long as the events are
      spelt right; the store is read back from the bytes of its JSON whatever the
      strings hold.
    - Clients of the contract: no read of the front end reaches the server, because
      its simulation account is malformed; the inspection tool names its arguments in
      a way the Stellar command line refuses and shows no proposal. The vote buttons of
      the dialog vote for nothing.
    - Scripts: each rule of the monitor alerts exactly when it should on the topics it
      looks for, but it recognises no event the RPC server delivers (topics are base64
      texts of XDR), and a refusal of the server silences it; the other monitor
      announces exactly four events, goes through the history once if its polls do not
      overlap, and tells Slack a length that is too short, so that no alert can be
      read.
    - Logs and offline: no log line contains a fragment of an address; the installed
      service worker answers every offline request, and makes no answer up.
    - Addresses: the search and the filter are read back from the query.
    - Loops: failure counting and alerts, a service started once has one loop,
      stopping ends it, the back-off of the hook; the restarts that leak, and the answer
      that ends the loop for good.
    - Numbers: token amounts are grouped and cut correctly for every amount and
      every number of decimals, the quorum percentage is the exact quotient cut
      at 100, fees below 2^52 stroops print exactly.
    - Lists: the pages partition the filtered proposals, the page numbers offered
      are the right ones, the list that is fetched is complete.
    - Forms: what a form accepts passes the argument checks of the contract, for which
      inputs, and where the two disagree or the SDK refuses a number; submission ends
      within twenty status requests with the outcome of the first decisive answer;
      messages are never stale.
    - Dialogs: what each gesture anywhere in them calls; the markup lets no gesture
      start a second submission or a second connection while one is in flight; what is
      drawn in red is what assistive technology is told; the page controls lead to
      pages that exist.
    - Shared state: wallet and vote stores, the wallet of the application, toasts with
      their timers, the theme across tabs, the analytics queue.
    - Tables: error codes and event types against the contracts.

    ** Bounds and fuel

    Fixpoints are structural except six, which take fuel: [dec_digits] (one more than
    the binary logarithm, shown enough by [dec_fuel_enough]), [strip] (the binary
    logarithm, [strip_odd]), and the two searches of [string_of_pos]: the decimal
    exponent starts from an estimate by the binary logarithm and takes at most eight
    steps, and a double needs at most seventeen digits to be told apart. The parser of
    JSON takes one more than the length of its text, shown enough for every printed
    text ([print_reads_back]); the loop of the inspection tool, whose end depends on
    answers, returns nothing without enough fuel, and count + 1 is shown enough
    ([inspect_shows_no_proposal]). The confirmation loop of the form has the source's
    own bound of twenty attempts. Counts and identifiers are integers without bound
    where the source uses bigint, doubles where it uses numbers, and integers with
    checked bounds in the contracts; a theorem that needs a number to be exact says up
    to where.

    ** What is not modelled

    Layout; the elements and styles of the components other than those of
    [ProposalDialogs], [NewProposalDialog] and [PageParts]; focus, and keys other than
    Enter and those of the focus trap; wall-clock time; locale-dependent dates. JSON
    members named like array indices, or toString, have no special place or meaning.
    Of App.tsx the variants of a handler that differ in the prompt's text only; the
    names that ProposalDetail.tsx uses and no file declares are arguments: both files
    do not compile as committed. Of WalletContext.tsx, which does not load, what is
    not an error text. Of the contracts the code that replaces theirs, the restoring
    of entries, the version, and of the multi-choice vote, which is declared only in
    part, all but the decision. A
    subscription file of another shape than the one written here is read as no store
    (the source casts it unchecked; [file_stays_typed] shows that this service writes
    no such file). Shell scripts, tests and build files. *)

From stdpp Require Import prelude list relations.
From Stdlib Require Import ZArith Lia.

(** ** Results

    JavaScript exceptions and rejected promises, and the [Result] values of the
    contracts, are values of [res E A]: [Ok a] for a normal return and [Err e]
    for a thrown error. *)

Inductive res (E A : Type) : Type :=
| Ok (a : A)
| Err (e : E).
Arguments Ok {E A} a.
Arguments Err {E A} e.

Global Instance res_ret {E} : MRet (res E) := fun A a => Ok a.
Global Instance res_bind {E} : MBind (res E) := fun A B f m =>
  match m with Ok a => f a | Err e => Err e end.
Global Instance res_fmap {E} : FMap (res E) := fun A B f m =>
  match m with Ok a => Ok (f a) | Err e => Err e end.
Global Instance res_eq_dec {E A} `{EqDecision E, EqDecision A} : EqDecision (res E A).
Proof. solve_decision. Defined.

Definition is_ok {E A} (r : res E A) : bool :=
  match r with Ok _ => true | Err _ => false end.

(** A guard that throws: [if (!b) throw e] . *)
Definition ensure {E} (b : bool) (e : E) : res E () := if b then Ok () else Err e.

(** [o.ok_or(e)?] of the contracts, [o ?? throw e] of the services. *)
Definition ok_or {E A} (o : option A) (e : E) : res E A :=
  match o with Some a => Ok a | None => Err e end.

Lemma bind_Ok_inv {E A B} (f : A → res E B) (m : res E A) b :
  m ≫= f = Ok b → ∃ a, m = Ok a ∧ f a = Ok b.
Proof. destruct m as [a|e]; [by eauto | done]. Qed.

Lemma ensure_Ok_inv {E} (b : bool) (e : E) u : ensure b e = Ok u → b = true.
Proof. by destruct b. Qed.

Lemma ok_or_Ok_inv {E A} (o : option A) (e : E) a : ok_or o e = Ok a → o = Some a.
Proof. destruct o; by inversion 1. Qed.

(** [res_simpl] takes apart a hypothesis saying that a handler returned [Ok]:
    it names every intermediate value and keeps every guard as a fact. *)
Ltac res_step H :=
  match type of H with
  | mbind _ _ = Ok _ =>
      let a := fresh "r" in let Ha := fresh "Hr" in
      apply bind_Ok_inv in H as (a & Ha & H); res_step Ha; res_step H
  | ensure _ _ = Ok _ => apply ensure_Ok_inv in H
  | ok_or _ _ = Ok _ => apply ok_or_Ok_inv in H
  | Ok _ = Ok _ => injection H as H
  | mret _ = Ok _ => injection H as H
  | Err _ = Ok _ => discriminate H
  | _ => idtac
  end.
Ltac res_simpl H := cbv beta zeta in H; res_step H; simplify_eq.

(** [split_guards] turns boolean guards in the context into propositions. *)
Ltac bool_prop_step :=
  match goal with
  | H : bool_decide _ = true |- _ => apply bool_decide_eq_true in H
  | H : bool_decide _ = false |- _ => apply bool_decide_eq_false in H
  | H : negb _ = true |- _ => apply negb_true_iff in H
  | H : negb _ = false |- _ => apply negb_false_iff in H
  | H : _ && _ = true |- _ => apply andb_true_iff in H as [? ?]
  | H : _ || _ = false |- _ => apply orb_false_iff in H as [? ?]
  | H : (_ <? _)%Z = true |- _ => apply Z.ltb_lt in H
  | H : (_ <? _)%Z = false |- _ => apply Z.ltb_ge in H
  | H : (_ <=? _)%Z = true |- _ => apply Z.leb_le in H
  | H : (_ <=? _)%Z = false |- _ => apply Z.leb_gt in H
  | H : (_ =? _)%Z = true |- _ => apply Z.eqb_eq in H
  | H : (_ =? _)%Z = false |- _ => apply Z.eqb_neq in H
  end.
Ltac bool_prop := repeat bool_prop_step.

(** ** Step relations: an invariant that every step preserves holds in every
    reachable state. *)
Lemma rtc_preserves {S} (R : relation S) (P : S → Prop) :
  (∀ s t, R s t → P s → P t) → ∀ s t, rtc R s t → P s → P t.
Proof. intros Hstep s t Hst. induction Hst; eauto. Qed.

(** ** Histories

    A component driven from outside is a function from actions and states to
    states: partial when an action may not be possible ([run]), total otherwise
    (a left fold). *)
Section histories.
  Context {A S : Type}.

Fixpoint run (act : A → S → option S) (l : list A) (s : S) : option S :=
  match l with
  | [] => Some s
  | a :: l' => act a s ≫= run act l'
  end.

Lemma run_app act l1 l2 s : run act (l1 ++ l2) s = run act l1 s ≫= run act l2.
Proof.
  revert s; induction l1 as [|a l1 IH]; intros s; [done|]. simpl.
  destruct (act a s); [apply IH|done].
Qed.

Lemma run_preserves act (P : A → Prop) (Q : S → Prop) :
  (∀ a s s', P a → act a s = Some s' → Q s → Q s') →
  ∀ l s s', Forall P l → run act l s = Some s' → Q s → Q s'.
Proof.
  intros Hstep l. induction l as [|a l IH]; intros s s' Hl Hs HQ; simplify_eq/=; [done|].
  apply bind_Some in Hs as (s1 & H1 & H2). inversion Hl; subst. eauto.
Qed.

Lemma fold_preserves (handle : A → S → S) (Q : S → Prop) :
  (∀ a s, Q s → Q (handle a s)) → ∀ l s, Q s → Q (foldl (flip handle) s l).
Proof. intros Hstep l. induction l as [|a l IH]; intros s Hs; [done|]. simpl. auto. Qed.
End histories.

(** ** Lists *)
Section list_lemmas.
  Context {A B : Type}.
  Implicit Types (l k : list A).

Lemma filter_all (P : A → Prop) `{∀ x, Decision (P x)} l :
  Forall P l → filter P l = l.
Proof. induction 1; [done|]. rewrite filter_cons_True by done. by f_equal. Qed.

Lemma filter_none (P : A → Prop) `{∀ x, Decision (P x)} l :
  Forall (λ x, ¬ P x) l → filter P l = [].
Proof. induction 1; [done|]. by rewrite filter_cons_False by done. Qed.

Lemma Forall_filter_keep (Q P : A → Prop) `{∀ x, Decision (P x)} l :
  Forall Q l → Forall Q (filter P l).
Proof. induction 1; [done|]. rewrite filter_cons. case_decide; auto. Qed.

Lemma omap_app_lists (f : A → option B) l k : omap f (l ++ k) = omap f l ++ omap f k.
Proof. induction l as [|x l IH]; [done|]. csimpl. destruct (f x); csimpl; by rewrite IH. Qed.

Lemma last_snoc_default l (x d : A) : default d (last (l ++ [x])) = x.
Proof. by rewrite last_snoc. Qed.
End list_lemmas.

(** A literal object used as a table, [table[key]]: the first binding. *)
Fixpoint assoc {K V} `{EqDecision K} (k : K) (t : list (K * V)) : option V :=
  match t with
  | [] => None
  | (k', v) :: t' => if decide (k = k') then Some v else assoc k t'
  end.

(** Lemmas that close the routine side conditions of the components. *)
Create HintDb cosmos.
#[export] Hint Resolve Forall_nil_2 Forall_cons_2 Forall_filter_keep rtc_refl rtc_once : cosmos.
