(* ===== verification/JsString.v ===== *)
(** * JavaScript strings

    A JavaScript string is a sequence of 16-bit code units; [length], [slice]
    and [startsWith] count code units. The contracts receive the same text as
    UTF-8 bytes ([nativeToScVal(_, {type: 'string'})]) and count bytes. Literals
    of the sources are written [js "..."], the literal being UTF-8. *)

From Stdlib Require Import Ascii String ZArith Lia.
From stdpp Require Import prelude list strings.
From S2P Require Import Prelude.

Local Open Scope Z_scope.

Abbreviation jstr := (list Z).

(** ** UTF-8 and UTF-16 *)
Definition utf16_of_code (c : Z) : jstr :=
  if c <? 0x10000 then [c]
  else let d := c - 0x10000 in
       [0xD800 + Z.shiftr d 10; 0xDC00 + Z.land d 0x3FF].

Fixpoint utf8_units (bs : list Z) : jstr :=
  match bs with
  | [] => []
  | b0 :: r0 =>
      if b0 <? 0x80 then b0 :: utf8_units r0
      else match r0 with
      | [] => []
      | b1 :: r1 =>
          if b0 <? 0xE0 then
            utf16_of_code (Z.lor (Z.shiftl (Z.land b0 0x1F) 6) (Z.land b1 0x3F))
              ++ utf8_units r1
          else match r1 with
          | [] => []
          | b2 :: r2 =>
              if b0 <? 0xF0 then
                utf16_of_code (Z.lor (Z.shiftl (Z.land b0 0xF) 12)
                  (Z.lor (Z.shiftl (Z.land b1 0x3F) 6) (Z.land b2 0x3F)))
                  ++ utf8_units r2
              else match r2 with
              | [] => []
              | b3 :: r3 =>
                  utf16_of_code (Z.lor (Z.shiftl (Z.land b0 0x7) 18)
                    (Z.lor (Z.shiftl (Z.land b1 0x3F) 12)
                    (Z.lor (Z.shiftl (Z.land b2 0x3F) 6) (Z.land b3 0x3F))))
                    ++ utf8_units r3
              end
          end
      end
  end.

Definition js (s : string) : jstr :=
  utf8_units (List.map (fun a => Z.of_nat (nat_of_ascii a)) (list_ascii_of_string s)).

(** Number of UTF-8 bytes of a string of code units; an unpaired surrogate is
    encoded as U+FFFD, three bytes. *)
Definition is_high (u : Z) : bool := (0xD800 <=? u) && (u <? 0xDC00).
Definition is_low (u : Z) : bool := (0xDC00 <=? u) && (u <? 0xE000).

Fixpoint utf8_length (s : jstr) : Z :=
  match s with
  | [] => 0
  | u :: s' =>
      if u <? 0x80 then 1 + utf8_length s'
      else if u <? 0x800 then 2 + utf8_length s'
      else match s' with
           | v :: s'' => if is_high u && is_low v then 4 + utf8_length s''
                         else 3 + utf8_length s'
           | [] => 3
           end
  end.

Definition jlen (s : jstr) : Z := Z.of_nat (length s).
Definition ascii_str (s : jstr) : Prop := Forall (fun u => 0 <= u < 0x80) s.

(** [s.startsWith(p)] *)
Fixpoint startsWith (s p : jstr) : bool :=
  match p, s with
  | [], _ => true
  | a :: p', b :: s' => (a =? b) && startsWith s' p'
  | _ :: _, [] => false
  end.

(** [s.includes(p)] *)
Fixpoint includes (s p : jstr) : bool :=
  startsWith s p || match s with [] => false | _ :: s' => includes s' p end.

(** [s.slice(a, b)] and [s.slice(a)] for 0 <= a, 0 <= b; [s.slice(-k)] and
    [s.slice(0, -k)] for k > 0. *)
Definition slice (s : jstr) (a b : nat) : jstr := take (b - a) (drop a s).
Definition slice_from (s : jstr) (a : nat) : jstr := drop a s.
Definition slice_last (s : jstr) (k : nat) : jstr := drop (length s - k) s.
Definition slice_butlast (s : jstr) (k : nat) : jstr := take (length s - k) s.

(** [s.trim()] : WhiteSpace and LineTerminator of ECMAScript. *)
Definition is_space (u : Z) : bool :=
  bool_decide (u ∈ [9; 10; 11; 12; 13; 32; 0xA0; 0x1680; 0x2028; 0x2029; 0x202F;
                    0x205F; 0x3000; 0xFEFF]) || ((0x2000 <=? u) && (u <=? 0x200A)).
Fixpoint trimStart (s : jstr) : jstr :=
  match s with
  | u :: s' => if is_space u then trimStart s' else s
  | [] => []
  end.
Definition trimEnd (s : jstr) : jstr := reverse (trimStart (reverse s)).
Definition trim (s : jstr) : jstr := trimEnd (trimStart s).

(** [s.split(c)] for a one-unit separator. *)
Fixpoint split_unit (c : Z) (s : jstr) : list jstr :=
  match s with
  | [] => [[]]
  | u :: s' =>
      match split_unit c s' with
      | w :: ws => if u =? c then [] :: w :: ws else (u :: w) :: ws
      | [] => [[u]]
      end
  end.

(** [s.padStart(n, c)] and [s.padEnd(n, c)] for a one-unit filler. *)
Definition padStart (s : jstr) (n : nat) (c : Z) : jstr := replicate (n - length s) c ++ s.
Definition padEnd (s : jstr) (n : nat) (c : Z) : jstr := s ++ replicate (n - length s) c.

(** [ws.join(sep)] *)
Fixpoint join (sep : jstr) (ws : list jstr) : jstr :=
  match ws with
  | [] => []
  | [w] => w
  | w :: ws' => w ++ sep ++ join sep ws'
  end.

(** [String(n)] for an integer (a bigint, or a number below 10^21): decimal digits. *)
Fixpoint dec_digits (fuel : nat) (n : Z) : jstr :=
  match fuel with
  | O => []
  | S f => (if n <? 10 then [] else dec_digits f (n / 10)) ++ [48 + n mod 10]
  end.
Definition dec_fuel (n : Z) : nat := S (Z.to_nat (Z.log2 n)).
Definition dec_of_nonneg (n : Z) : jstr := dec_digits (dec_fuel n) n.
Definition dec_of (n : Z) : jstr :=
  if n <? 0 then 45 :: dec_of_nonneg (- n) else dec_of_nonneg n.

Definition is_digit (u : Z) : bool := (48 <=? u) && (u <=? 57).
Definition dec_value (s : jstr) : Z := fold_left (fun acc u => 10 * acc + (u - 48)) s 0.

(** JavaScript truthiness of an optional string: undefined and the empty string
    are falsy. *)
Definition truthy (o : option jstr) : bool :=
  match o with Some (_ :: _) => true | _ => false end.

(** [a ?? b] *)
Definition nullish {A} (a b : option A) : option A :=
  match a with Some x => Some x | None => b end.

(** ** Lemmas *)

Lemma startsWith_spec s p : startsWith s p = true ↔ p `prefix_of` s.
Proof.
  revert s; induction p as [|a p IH]; intros [|b s]; simpl.
  - split; [intros _; apply prefix_nil | done].
  - split; [intros _; apply prefix_nil | done].
  - split; [done | intros H; by apply prefix_nil_not in H].
  - rewrite andb_true_iff, Z.eqb_eq, IH. split.
    + intros [-> ?]. by apply prefix_cons.
    + intros H. split; [by eapply eq_sym, eq_sym, prefix_cons_inv_1 | by eapply prefix_cons_inv_2].
Qed.

Lemma startsWith_app p k : startsWith (p ++ k) p = true.
Proof. apply startsWith_spec. by exists k. Qed.

Lemma includes_spec s p : includes s p = true ↔ ∃ k1 k2, s = k1 ++ p ++ k2.
Proof.
  induction s as [|u s IH]; cbn [includes]; rewrite orb_true_iff, startsWith_spec.
  - split.
    + intros [[k ->]|?]; [by exists [], k | done].
    + intros (k1 & k2 & Hs). left. symmetry in Hs.
      apply app_eq_nil in Hs as [_ Hs]. exists k2. done.
  - rewrite IH. split.
    + intros [[k ->]|(k1 & k2 & ->)]; [by exists [], k | by exists (u :: k1), k2].
    + intros ([|x k1] & k2 & Hs); simplify_eq/=; [left; by exists k2 | right; by eauto].
Qed.

Lemma includes_nil s : includes s [] = true.
Proof. apply includes_spec. by exists [], s. Qed.

(** Splitting on a unit and joining with it gives the string back. *)
Lemma split_unit_ne c s : split_unit c s ≠ [].
Proof. destruct s as [|u s]; simpl; [done|]. destruct (split_unit c s); [done|]. by case_match. Qed.

Lemma join_split c s : join [c] (split_unit c s) = s.
Proof.
  induction s as [|u s IH]; [done|]; simpl.
  pose proof (split_unit_ne c s) as Hne.
  destruct (split_unit c s) as [|w ws]; [done|].
  destruct (Z.eqb_spec u c) as [->|_]; simpl; [by rewrite <- IH|].
  destruct ws as [|w' ws]; simpl in *; by rewrite <- IH.
Qed.

Lemma split_unit_app_sep c w s :
  c ∉ w → split_unit c (w ++ c :: s) = w :: split_unit c s.
Proof.
  induction w as [|u w IH]; intros Hc; simpl.
  - pose proof (split_unit_ne c s). destruct (split_unit c s); [done|]. by rewrite Z.eqb_refl.
  - apply not_elem_of_cons in Hc as [Hu Hc]. rewrite (IH Hc).
    by destruct (Z.eqb_spec u c); [congruence|].
Qed.

Lemma split_unit_absent c w : c ∉ w → split_unit c w = [w].
Proof.
  induction w as [|u w IH]; intros Hc; [done|]; simpl.
  apply not_elem_of_cons in Hc as [Hu Hc]. rewrite (IH Hc).
  by destruct (Z.eqb_spec u c); [congruence|].
Qed.

(** Splitting what was joined. *)
Lemma split_join c ws :
  ws ≠ [] → Forall (λ w, c ∉ w) ws → split_unit c (join [c] ws) = ws.
Proof.
  intros Hne Hws. induction Hws as [|w ws Hw Hws IH]; [done|].
  destruct ws as [|w' ws]; [by apply split_unit_absent|].
  change (join [c] (w :: w' :: ws)) with (w ++ [c] ++ join [c] (w' :: ws)).
  simpl ([c] ++ _). rewrite split_unit_app_sep by done. f_equal. by apply IH.
Qed.

Lemma trimStart_suffix s : trimStart s `suffix_of` s.
Proof.
  induction s as [|u s IH]; simpl; [done|].
  case_match; [by apply suffix_cons_r | done].
Qed.

Lemma trimEnd_prefix s : trimEnd s `prefix_of` s.
Proof.
  unfold trimEnd. destruct (trimStart_suffix (reverse s)) as [k Hk].
  exists (reverse k). rewrite <- reverse_app, <- Hk. by rewrite reverse_involutive.
Qed.

Lemma trim_sublist s : trim s `sublist_of` s.
Proof.
  unfold trim. transitivity (trimStart s).
  - destruct (trimEnd_prefix (trimStart s)) as [k Hk]. rewrite Hk at 2.
    by apply sublist_inserts_r.
  - destruct (trimStart_suffix s) as [k Hk]. rewrite Hk at 2. by apply sublist_inserts_l.
Qed.

Lemma trim_length s : (length (trim s) ≤ length s)%nat.
Proof. apply sublist_length, trim_sublist. Qed.

Lemma sublist_Forall {A} (P : A → Prop) l k : l `sublist_of` k → Forall P k → Forall P l.
Proof. intros Hs. rewrite !list.Forall_forall. intros HP x Hx. apply HP. by eapply elem_of_sublist. Qed.

Lemma trim_ascii s : ascii_str s → ascii_str (trim s).
Proof. apply sublist_Forall, trim_sublist. Qed.

(** An ASCII string has as many bytes as code units; in general a string has
    at least as many bytes as code units. *)
Lemma utf8_length_ascii s : ascii_str s → utf8_length s = jlen s.
Proof.
  unfold jlen. induction 1 as [|u s Hu _ IH]; [done|]; simpl.
  destruct (Z.ltb_spec u 0x80); lia.
Qed.

Lemma utf8_length_bounds_aux n s :
  (length s ≤ n)%nat → jlen s ≤ utf8_length s ≤ 3 * jlen s.
Proof.
  unfold jlen. revert s; induction n as [|n IH]; intros [|u s] Hn;
    cbn [length utf8_length] in *; try lia.
  pose proof (IH s ltac:(lia)) as H1.
  destruct (u <? 0x80); [lia|]. destruct (u <? 0x800); [lia|].
  destruct s as [|v s]; [cbn [length]; lia|].
  pose proof (IH s ltac:(cbn [length] in *; lia)) as H2.
  destruct (is_high u && is_low v); cbn [length] in *; lia.
Qed.

Lemma utf8_length_bounds s : jlen s ≤ utf8_length s ≤ 3 * jlen s.
Proof. by eapply utf8_length_bounds_aux. Qed.

(** Decimal printing and reading. *)
Lemma dec_value_app s u : dec_value (s ++ [u]) = 10 * dec_value s + (u - 48).
Proof. unfold dec_value. by rewrite fold_left_app. Qed.

Lemma dec_digits_value fuel n :
  0 <= n < 10 ^ Z.of_nat fuel → dec_value (dec_digits fuel n) = n.
Proof.
  revert n; induction fuel as [|f IH]; intros n Hn.
  { change (10 ^ Z.of_nat 0) with 1 in Hn. unfold dec_value; simpl; lia. }
  cbn [dec_digits]. rewrite dec_value_app.
  pose proof (Z.div_mod n 10 ltac:(lia)).
  destruct (Z.ltb_spec n 10).
  - rewrite Z.mod_small by lia. unfold dec_value; simpl; lia.
  - rewrite IH; [lia|]. rewrite Nat2Z.inj_succ, Z.pow_succ_r in Hn by lia.
    split; [apply Z.div_pos; lia | apply Z.div_lt_upper_bound; lia].
Qed.

Lemma dec_fuel_enough n : 0 <= n → n < 10 ^ Z.of_nat (dec_fuel n).
Proof.
  intros Hn. unfold dec_fuel. rewrite Nat2Z.inj_succ, Z2Nat.id by apply Z.log2_nonneg.
  destruct (Z.eq_dec n 0) as [->|Hn0]; [done|].
  pose proof (Z.log2_spec n ltac:(lia)) as [_ Hlt].
  eapply Z.lt_le_trans; [done|]. apply Z.pow_le_mono_l.
  pose proof (Z.log2_nonneg n); lia.
Qed.

Lemma dec_value_of_nonneg n : 0 <= n → dec_value (dec_of_nonneg n) = n.
Proof. intros. apply dec_digits_value. split; [done | by apply dec_fuel_enough]. Qed.

Lemma dec_digits_Forall fuel n :
  0 <= n → Forall (fun u => is_digit u = true) (dec_digits fuel n).
Proof.
  revert n; induction fuel as [|f IH]; intros n Hn; [done|]. cbn [dec_digits].
  apply Forall_app. split.
  - destruct (n <? 10); [done|]. apply IH. apply Z.div_pos; lia.
  - constructor; [|done]. unfold is_digit.
    pose proof (Z.mod_pos_bound n 10 ltac:(lia)).
    apply andb_true_iff; rewrite !Z.leb_le; lia.
Qed.

Lemma dec_of_nonneg_digits n : 0 <= n → Forall (fun u => is_digit u = true) (dec_of_nonneg n).
Proof. apply dec_digits_Forall. Qed.

Lemma dec_of_nonneg_ne n : dec_of_nonneg n ≠ [].
Proof. unfold dec_of_nonneg, dec_fuel. cbn [dec_digits]. by destruct (if n <? 10 then _ else _). Qed.

Lemma dec_of_nonneg_eq n : 0 <= n → dec_of n = dec_of_nonneg n.
Proof. intros. unfold dec_of. by destruct (Z.ltb_spec n 0); [lia|]. Qed.

Lemma dec_of_nonneg_inj n m :
  0 <= n → 0 <= m → dec_of_nonneg n = dec_of_nonneg m → n = m.
Proof. intros Hn Hm Heq. by rewrite <- (dec_value_of_nonneg n), <- (dec_value_of_nonneg m), Heq. Qed.

#[export] Hint Resolve dec_of_nonneg_digits dec_of_nonneg_ne trim_ascii : cosmos.
