(* ===== verification/JsNumber.v ===== *)
(** * JavaScript numbers

    A number is NaN, an infinity or a finite double [Fin m e], the value m * 2^e
    with [m] odd (or both zero), so that Leibniz equality is numeric equality.
    The sign of zero is not kept: no operation of the sources observes it.
    [round_ratio] is rounding to nearest, ties to even, with gradual underflow
    and overflow to infinity; [js_Number] is [Number(string)], and the other
    definitions are the operations the sources apply to numbers. *)
From Stdlib Require Import Ascii String ZArith Lia.
From stdpp Require Import prelude list strings.
From S2P Require Import Prelude JsString.
Local Open Scope Z_scope.

Inductive jsnum := NaN | Inf (neg : bool) | Fin (m e : Z).
Global Instance jsnum_eq_dec : EqDecision jsnum.
Proof. solve_decision. Defined.

(** ** Normal forms *)
Fixpoint strip (fuel : nat) (m e : Z) : Z * Z :=
  match fuel with
  | O => (m, e)
  | S f => if Z.even m then strip f (m / 2) (e + 1) else (m, e)
  end.

Definition canon (m e : Z) : jsnum :=
  if m =? 0 then Fin 0 0
  else let '(m', e') := strip (Z.to_nat (Z.log2 (Z.abs m))) m e in Fin m' e'.

Definition num_of_Z (n : Z) : jsnum := canon n 0.

(** ** Rounding p / q to a double, 0 <= p, 0 < q *)
Definition floor_log2 (p q : Z) : Z :=
  let k := Z.log2 p - Z.log2 q in
  if p * 2 ^ (Z.max 0 (- k)) <? q * 2 ^ (Z.max 0 k) then k - 1 else k.

Definition div_half_even (num den : Z) : Z :=
  let m := num / den in
  let r := num mod den in
  if 2 * r <? den then m
  else if den <? 2 * r then m + 1
  else if Z.even m then m else m + 1.

Definition round_ratio (p q : Z) : jsnum :=
  if p =? 0 then Fin 0 0
  else
    let e := Z.max (floor_log2 p q - 52) (-1074) in
    let m := div_half_even (p * 2 ^ (Z.max 0 (- e))) (q * 2 ^ (Z.max 0 e)) in
    if 2 ^ 1024 <=? m * 2 ^ (Z.max 0 e) then Inf false else canon m e.

Definition neg_num (x : jsnum) : jsnum :=
  match x with NaN => NaN | Inf b => Inf (negb b) | Fin m e => Fin (- m) e end.

(** ** [Number(string)] *)
Fixpoint span (p : Z → bool) (s : jstr) : jstr * jstr :=
  match s with
  | u :: s' => if p u then let '(a, b) := span p s' in (u :: a, b) else ([], s)
  | [] => ([], [])
  end.

Definition parse_exponent (s : jstr) : option Z :=
  match s with
  | [] => Some 0
  | c :: r =>
      if (c =? 101) || (c =? 69) then
        let '(sg, r') := match r with
          | u :: r1 => if u =? 45 then (-1, r1) else if u =? 43 then (1, r1) else (1, r)
          | [] => (1, r)
          end in
        let '(ds, rest) := span is_digit r' in
        match ds, rest with
        | _ :: _, [] => Some (sg * dec_value ds)
        | _, _ => None
        end
      else None
  end.

Definition parse_unsigned (s : jstr) : jsnum :=
  if bool_decide (s = js "Infinity") then Inf false
  else
    let '(ip, r1) := span is_digit s in
    let '(fp, r2) := match r1 with
      | c :: r => if c =? 46 then span is_digit r else ([], r1)
      | [] => ([], [])
      end in
    match ip ++ fp, parse_exponent r2 with
    | (_ :: _) as ds, Some x =>
        let x' := x - Z.of_nat (length fp) in
        round_ratio (dec_value ds * 10 ^ (Z.max 0 x')) (10 ^ (Z.max 0 (- x')))
    | _, _ => NaN
    end.

(** [0x], [0o] and [0b] literals: value of the digits, if all are digits. *)
Definition digit_value (u : Z) : Z :=
  if is_digit u then u - 48
  else if (97 <=? u) && (u <=? 122) then u - 87
  else if (65 <=? u) && (u <=? 90) then u - 55 else 99.

Definition parse_radix (radix : Z) (ds : jstr) : jsnum :=
  match ds with
  | [] => NaN
  | _ => if forallb (λ u, digit_value u <? radix) ds
         then round_ratio (fold_left (λ acc u, radix * acc + digit_value u) ds 0) 1
         else NaN
  end.

Definition parse_signed (s : jstr) : jsnum :=
  match s with
  | u :: r => if u =? 45 then neg_num (parse_unsigned r)
              else if u =? 43 then parse_unsigned r else parse_unsigned s
  | [] => parse_unsigned []
  end.

Definition js_Number (s : jstr) : jsnum :=
  match trim s with
  | [] => Fin 0 0
  | 48 :: u :: ds =>
      if (u =? 120) || (u =? 88) then parse_radix 16 ds
      else if (u =? 111) || (u =? 79) then parse_radix 8 ds
      else if (u =? 98) || (u =? 66) then parse_radix 2 ds
      else parse_signed (trim s)
  | _ => parse_signed (trim s)
  end.

(** ** Tests and comparisons *)
Definition isNaN (x : jsnum) : bool := match x with NaN => true | _ => false end.
Definition isInteger (x : jsnum) : bool :=
  match x with Fin m e => (0 <=? e) || (m =? 0) | _ => false end.

(** [x < y]; false when either is NaN. *)
Definition num_lt (x y : jsnum) : bool :=
  match x, y with
  | NaN, _ | _, NaN => false
  | Inf true, Inf true => false
  | Inf true, _ => true
  | _, Inf true => false
  | Inf false, _ => false
  | _, Inf false => true
  | Fin m e, Fin m' e' =>
      m * 2 ^ (e - Z.min e e') <? m' * 2 ^ (e' - Z.min e e')
  end.
Definition num_le (x y : jsnum) : bool :=
  negb (isNaN x) && negb (isNaN y) && negb (num_lt y x).

(** [Math.round(x)]: the nearest integer, ties towards plus infinity. *)
Definition math_round (x : jsnum) : jsnum :=
  match x with
  | Fin m e => if 0 <=? e then x else num_of_Z ((m + 2 ^ (- e - 1)) / 2 ^ (- e))
  | _ => x
  end.

(** [BigInt(x)]: [None] is the RangeError of a non-integer. *)
Definition BigInt (x : jsnum) : option Z :=
  match x with
  | Fin m e => if isInteger x then Some (m * 2 ^ e) else None
  | _ => None
  end.

(** [BigInt(string)]: [None] is the SyntaxError of a text that is not an integer
    literal. *)
Definition bigint_radix (radix : Z) (ds : jstr) : option Z :=
  match ds with
  | [] => None
  | _ => if forallb (λ u, digit_value u <? radix) ds
         then Some (fold_left (λ acc u, radix * acc + digit_value u) ds 0) else None
  end.
Definition BigInt_of_string (s : jstr) : option Z :=
  match trim s with
  | [] => Some 0
  | 45 :: ds => Z.opp <$> bigint_radix 10 ds
  | 43 :: ds => bigint_radix 10 ds
  | 48 :: 120 :: ds | 48 :: 88 :: ds => bigint_radix 16 ds
  | 48 :: 111 :: ds | 48 :: 79 :: ds => bigint_radix 8 ds
  | 48 :: 98 :: ds | 48 :: 66 :: ds => bigint_radix 2 ds
  | ds => bigint_radix 10 ds
  end.

(** [x / d] for a positive integer constant [d]. *)
Definition num_div_Z (x : jsnum) (d : Z) : jsnum :=
  match x with
  | Fin m e =>
      let r := round_ratio (Z.abs m * 2 ^ (Z.max 0 e)) (d * 2 ^ (Z.max 0 (- e))) in
      if m <? 0 then neg_num r else r
  | _ => x
  end.

(** ** [String(x)]: the shortest decimal that rounds to [x]. *)

(** Least [n] with x < 10^n, for x = p / q, searched upwards from [n]. *)
Fixpoint dec_exponent (fuel : nat) (p q n : Z) : Z :=
  match fuel with
  | O => n
  | S f => if p * 10 ^ (Z.max 0 (- n)) <? q * 10 ^ (Z.max 0 n) then n
           else dec_exponent f p q (n + 1)
  end.

Definition scale10 (p q s : Z) : Z * Z := (p * 10 ^ (Z.max 0 s), q * 10 ^ (Z.max 0 (- s))).

Fixpoint shortest_from (fuel : nat) (k : Z) (x : jsnum) (p q n : Z) : Z * Z :=
  let '(num, den) := scale10 p q (k - n) in
  let s := div_half_even num den in
  match fuel with
  | O => (s, k)
  | S f =>
      let '(num', den') := scale10 s 1 (n - k) in
      if bool_decide (round_ratio num' den' = x) then (s, k)
      else shortest_from f (k + 1) x p q n
  end.

Definition zeros (n : Z) : jstr := replicate (Z.to_nat n) 48.

Definition string_of_pos (m e : Z) : jstr :=
  let p := m * 2 ^ (Z.max 0 e) in
  let q := 2 ^ (Z.max 0 (- e)) in
  let n0 := dec_exponent 8 p q (floor_log2 p q * 30103 / 100000 - 1) in
  let '(s, k) := shortest_from 17 1 (Fin m e) p q n0 in
  let ds := dec_of_nonneg s in
  (* rounding up may reach the next power of ten *)
  let n := if 10 ^ k <=? s then n0 + 1 else n0 in
  let ds := if 10 ^ k <=? s then [49] else ds in
  let k := Z.of_nat (length ds) in
  if (k <=? n) && (n <=? 21) then ds ++ zeros (n - k)
  else if (0 <? n) && (n <=? 21) then
    take (Z.to_nat n) ds ++ [46] ++ drop (Z.to_nat n) ds
  else if (-6 <? n) && (n <=? 0) then js "0." ++ zeros (- n) ++ ds
  else
    let x := n - 1 in
    let ex := (if x <? 0 then [45] else [43]) ++ dec_of_nonneg (Z.abs x) in
    match ds with
    | [d] => d :: 101 :: ex
    | d :: ds' => d :: 46 :: ds' ++ 101 :: ex
    | [] => []
    end.

Definition string_of_num (x : jsnum) : jstr :=
  match x with
  | NaN => js "NaN"
  | Inf false => js "Infinity"
  | Inf true => js "-Infinity"
  | Fin m e => if m =? 0 then [48]
               else if m <? 0 then 45 :: string_of_pos (- m) e else string_of_pos m e
  end.

(** [x.toFixed(f)] *)
Definition toFixed_pos (m e f : Z) : jstr :=
  let p := m * 2 ^ (Z.max 0 e) * 10 ^ f in
  let q := 2 ^ (Z.max 0 (- e)) in
  let n := (2 * p + q) / (2 * q) in
  let ds := padStart (dec_of_nonneg n) (S (Z.to_nat f)) 48 in
  if f =? 0 then ds
  else slice_butlast ds (Z.to_nat f) ++ [46] ++ slice_last ds (Z.to_nat f).

Definition toFixed (x : jsnum) (f : Z) : jstr :=
  match x with
  | Fin m e =>
      if num_lt x (num_of_Z (10 ^ 21)) && num_lt (num_of_Z (- 10 ^ 21)) x
      then if m <? 0 then 45 :: toFixed_pos (- m) e f else toFixed_pos m e f
      else string_of_num x
  | _ => string_of_num x
  end.

(** ** Evaluation *)
Example Number_dec : js_Number (js " 12.50 ") = Fin 25 (-1).
Proof. vm_compute. reflexivity. Qed.
Example Number_exp : BigInt (js_Number (js "1e3")) = Some 1000.
Proof. vm_compute. reflexivity. Qed.
Example Number_tenth : js_Number (js "0.1") = Fin 3602879701896397 (-55).
Proof. vm_compute. reflexivity. Qed.
Example Number_bad : js_Number (js "12px") = NaN.
Proof. vm_compute. reflexivity. Qed.
Example Number_hex : BigInt (js_Number (js "0xff")) = Some 255.
Proof. vm_compute. reflexivity. Qed.
Example Number_overflow : js_Number (js "1e400") = Inf false.
Proof. vm_compute. reflexivity. Qed.
Example Number_2p53_1 : BigInt (js_Number (js "9007199254740993")) = Some 9007199254740992.
Proof. vm_compute. reflexivity. Qed.
Example String_tenth : string_of_num (js_Number (js "0.1")) = js "0.1".
Proof. vm_compute. reflexivity. Qed.
Example String_big : string_of_num (js_Number (js "164090849041387521")) = js "164090849041387520".
Proof. vm_compute. reflexivity. Qed.
Example String_exp : string_of_num (js_Number (js "12345e30")) = js "1.2345e+34".
Proof. vm_compute. reflexivity. Qed.
Example String_small : string_of_num (js_Number (js "0.00000123")) = js "0.00000123".
Proof. vm_compute. reflexivity. Qed.
Example toFixed_ex : toFixed (num_div_Z (js_Number (js "123456789")) 10000000) 7 = js "12.3456789".
Proof. vm_compute. reflexivity. Qed.

(** ** Lemmas *)

(** The normal form keeps the value and is unique. *)
Lemma strip_spec fuel m e :
  let '(m', e') := strip fuel m e in e <= e' ∧ m = m' * 2 ^ (e' - e).
Proof.
  revert m e; induction fuel as [|f IH]; intros m e; cbn [strip].
  - split; [lia|]. rewrite Z.sub_diag. lia.
  - destruct (Z.even m) eqn:Hev; [|split; [lia|]; rewrite Z.sub_diag; lia].
    specialize (IH (m / 2) (e + 1)). destruct (strip f (m / 2) (e + 1)) as [m' e'].
    destruct IH as [Hle Hm]. split; [lia|].
    apply Z.even_spec in Hev as [h ->]. rewrite Z.mul_comm, Z.div_mul in Hm by lia.
    replace (e' - e) with (Z.succ (e' - (e + 1))) by lia.
    rewrite Z.pow_succ_r by lia. lia.
Qed.

Lemma strip_odd fuel m e :
  m ≠ 0 → Z.log2 (Z.abs m) <= Z.of_nat fuel → Z.odd (strip fuel m e).1 = true.
Proof.
  revert m e; induction fuel as [|f IH]; intros m e Hm Hf; cbn [strip].
  - assert (Z.abs m = 1) as Habs.
    { pose proof (Z.log2_nonneg (Z.abs m)). pose proof (Z.log2_spec (Z.abs m) ltac:(lia)).
      assert (Z.log2 (Z.abs m) = 0) as Hl by lia. rewrite Hl in *. lia. }
    destruct (Z.abs_eq_or_opp m) as [H|H]; rewrite Habs in H; simpl.
    + by rewrite <- H. + by replace m with (-1) by lia.
  - destruct (Z.even m) eqn:Hev; [|simpl; by rewrite <- Z.negb_even, Hev].
    apply Z.even_spec in Hev as [h ->]. rewrite Z.mul_comm, Z.div_mul by lia.
    apply IH; [lia|]. rewrite Z.abs_mul in Hf. change (Z.abs 2) with 2 in Hf.
    rewrite Z.log2_double in Hf by lia. lia.
Qed.

(** An odd multiple of a power of two is written in one way. *)
Lemma odd_pow_unique m1 e1 m2 e2 e :
  Z.odd m1 = true → Z.odd m2 = true → e <= e1 → e <= e2 →
  m1 * 2 ^ (e1 - e) = m2 * 2 ^ (e2 - e) → m1 = m2 ∧ e1 = e2.
Proof.
  intros Ho1 Ho2 H1 H2 Heq.
  assert (∀ a b x y, Z.odd a = true → 0 <= x → x < y → a * 2 ^ x = b * 2 ^ y → False) as Hlt.
  { intros a b x y Ha Hx Hxy Hab.
    replace y with (Z.succ (y - x - 1) + x) in Hab by lia.
    rewrite Z.pow_add_r, Z.pow_succ_r, !Z.mul_assoc in Hab by lia.
    apply Z.mul_reg_r in Hab; [|apply Z.pow_nonzero; lia].
    rewrite Hab, <- Z.negb_even, (Z.mul_comm b 2), <- Z.mul_assoc, Z.even_mul in Ha. done. }
  destruct (Z.lt_trichotomy (e1 - e) (e2 - e)) as [Hc|[Hc|Hc]].
  - exfalso. by apply (Hlt m1 m2 (e1 - e) (e2 - e)); try lia.
  - rewrite Hc in Heq. apply Z.mul_reg_r in Heq; [lia | apply Z.pow_nonzero; lia].
  - exfalso. by apply (Hlt m2 m1 (e2 - e) (e1 - e)); try lia.
Qed.

Lemma canon_spec m e :
  m ≠ 0 →
  ∃ m' e', canon m e = Fin m' e' ∧ Z.odd m' = true ∧ e <= e' ∧ m = m' * 2 ^ (e' - e).
Proof.
  intros Hm. unfold canon. destruct (Z.eqb_spec m 0); [done|].
  pose proof (strip_spec (Z.to_nat (Z.log2 (Z.abs m))) m e) as Hs.
  pose proof (strip_odd (Z.to_nat (Z.log2 (Z.abs m))) m e Hm
    ltac:(pose proof (Z.log2_nonneg (Z.abs m)); lia)) as Ho.
  destruct (strip _ m e) as [m' e']. destruct Hs. eauto 10.
Qed.

Lemma canon_shift m j e : 0 <= j → canon (m * 2 ^ j) e = canon m (e + j).
Proof.
  intros Hj. destruct (Z.eq_dec m 0) as [->|Hm]; [done|].
  assert (0 < 2 ^ j) by (apply Z.pow_pos_nonneg; lia).
  destruct (canon_spec (m * 2 ^ j) e ltac:(lia)) as (m1 & e1 & -> & Ho1 & Hle1 & Hv1).
  destruct (canon_spec m (e + j) Hm) as (m2 & e2 & -> & Ho2 & Hle2 & Hv2).
  destruct (odd_pow_unique m1 e1 m2 e2 e) as [-> ->]; try done; try lia.
  rewrite <- Hv1, Hv2, <- Z.mul_assoc, <- Z.pow_add_r by lia. do 2 f_equal. lia.
Qed.

Lemma num_of_Z_spec n :
  ∃ m e, num_of_Z n = Fin m e ∧ 0 <= e ∧ n = m * 2 ^ e.
Proof.
  unfold num_of_Z. destruct (Z.eq_dec n 0) as [->|Hn]; [by exists 0, 0|].
  destruct (canon_spec n 0 Hn) as (m & e & -> & _ & He & Hv).
  exists m, e. by rewrite Z.sub_0_r in Hv.
Qed.

Lemma pow2_pos k : 0 <= k → 0 < 2 ^ k.
Proof. intros. apply Z.pow_pos_nonneg; lia. Qed.

Lemma ltb_mul_r a b c : 0 < c → (a * c <? b * c) = (a <? b).
Proof.
  intros Hc. destruct (Z.ltb_spec a b), (Z.ltb_spec (a * c) (b * c)); nia || done.
Qed.

(** Comparing two finite doubles at any common scale. *)
Lemma num_lt_scale m e m' e' k :
  k <= e → k <= e' →
  num_lt (Fin m e) (Fin m' e') = (m * 2 ^ (e - k) <? m' * 2 ^ (e' - k)).
Proof.
  intros H1 H2. cbn [num_lt]. set (j := Z.min e e').
  rewrite <- (ltb_mul_r _ _ (2 ^ (j - k))) by (apply pow2_pos; lia).
  rewrite <- !Z.mul_assoc, <- !Z.pow_add_r by lia. do 2 f_equal; f_equal; lia.
Qed.

Lemma num_lt_Z_r m e a :
  num_lt (Fin m e) (num_of_Z a) = (m * 2 ^ (Z.max 0 e) <? a * 2 ^ (Z.max 0 (- e))).
Proof.
  destruct (num_of_Z_spec a) as (m' & e' & -> & He' & ->).
  rewrite (num_lt_scale m e m' e' (Z.min 0 e)) by lia.
  rewrite <- Z.mul_assoc, <- Z.pow_add_r by lia. do 2 f_equal; f_equal; lia.
Qed.

Lemma num_lt_Z_l m e a :
  num_lt (num_of_Z a) (Fin m e) = (a * 2 ^ (Z.max 0 (- e)) <? m * 2 ^ (Z.max 0 e)).
Proof.
  destruct (num_of_Z_spec a) as (m' & e' & -> & He' & ->).
  rewrite (num_lt_scale m' e' m e (Z.min 0 e)) by lia.
  rewrite <- Z.mul_assoc, <- Z.pow_add_r by lia. do 2 f_equal; f_equal; lia.
Qed.

Lemma num_lt_of_Z a b : num_lt (num_of_Z a) (num_of_Z b) = (a <? b).
Proof.
  destruct (num_of_Z_spec a) as (m & e & -> & He & ->). rewrite num_lt_Z_r.
  rewrite (Z.max_l 0 (- e)), (Z.max_r 0 e), Z.mul_1_r by lia. done.
Qed.

Lemma isNaN_num_of_Z n : isNaN (num_of_Z n) = false.
Proof. by destruct (num_of_Z_spec n) as (? & ? & -> & _). Qed.

Lemma isInteger_num_of_Z n : isInteger (num_of_Z n) = true.
Proof.
  destruct (num_of_Z_spec n) as (m & e & -> & He & _). simpl.
  by destruct (Z.leb_spec 0 e); [|lia].
Qed.

Lemma BigInt_num_of_Z n : BigInt (num_of_Z n) = Some n.
Proof.
  pose proof (isInteger_num_of_Z n) as Hi.
  destruct (num_of_Z_spec n) as (m & e & Heq & He & ->). rewrite Heq in *.
  unfold BigInt. by rewrite Hi.
Qed.

Lemma num_of_Z_inj a b : num_of_Z a = num_of_Z b → a = b.
Proof. intros H. apply (f_equal BigInt) in H. rewrite !BigInt_num_of_Z in H. congruence. Qed.

Lemma math_round_num_of_Z n : math_round (num_of_Z n) = num_of_Z n.
Proof.
  destruct (num_of_Z_spec n) as (m & e & -> & He & _). simpl.
  by destruct (Z.leb_spec 0 e); [|lia].
Qed.

(** A finite double between two integers rounds to an integer between them. *)
Lemma math_round_between a b x :
  num_lt x (num_of_Z a) = false → num_lt (num_of_Z b) x = false → isNaN x = false →
  ∃ n, BigInt (math_round x) = Some n ∧ a <= n <= b.
Proof.
  intros Ha Hb Hn. destruct x as [|[]|m e]; try done.
  { destruct (num_of_Z_spec a) as (? & ? & Heq & _). by rewrite Heq in Ha. }
  { destruct (num_of_Z_spec b) as (? & ? & Heq & _). by rewrite Heq in Hb. }
  rewrite num_lt_Z_r in Ha. rewrite num_lt_Z_l in Hb. bool_prop.
  unfold math_round. destruct (Z.leb_spec 0 e) as [He|He].
  - exists (m * 2 ^ e). rewrite (Z.max_r 0 e), (Z.max_l 0 (- e)), Z.pow_0_r, Z.mul_1_r in * by lia.
    split; [|lia]. unfold BigInt, isInteger. by destruct (Z.leb_spec 0 e); [|lia].
  - rewrite (Z.max_l 0 e), (Z.max_r 0 (- e)), Z.pow_0_r, Z.mul_1_r in * by lia.
    eexists; split; [apply BigInt_num_of_Z|].
    pose proof (pow2_pos (- e) ltac:(lia)) as Hp.
    assert (2 ^ (- e) = 2 * 2 ^ (- e - 1)) as Hh.
    { rewrite <- Z.pow_succ_r by lia. f_equal. lia. }
    pose proof (pow2_pos (- e - 1) ltac:(lia)) as Hp'.
    split; [apply Z.div_le_lower_bound; nia | apply Z.lt_succ_r, Z.div_lt_upper_bound; nia].
Qed.

(** Integers up to 2^53 are represented exactly. *)
Lemma div_half_even_exact m d : 0 < d → div_half_even (m * d) d = m.
Proof.
  intros Hd. unfold div_half_even. rewrite Z.div_mul, Z.mod_mul by lia.
  by destruct (Z.ltb_spec (2 * 0) d); [|lia].
Qed.

Lemma floor_log2_int n : 0 < n → floor_log2 n 1 = Z.log2 n.
Proof.
  intros Hn. unfold floor_log2. change (Z.log2 1) with 0. rewrite Z.sub_0_r.
  pose proof (Z.log2_nonneg n). pose proof (Z.log2_spec n Hn).
  rewrite Z.max_l, Z.max_r, Z.mul_1_r, Z.mul_1_l by lia.
  by destruct (Z.ltb_spec n (2 ^ Z.log2 n)); [lia|].
Qed.

Lemma round_ratio_exact n : 0 <= n <= 2 ^ 53 → round_ratio n 1 = num_of_Z n.
Proof.
  intros Hn. unfold round_ratio. destruct (Z.eqb_spec n 0) as [->|Hn0]; [done|].
  rewrite floor_log2_int by lia.
  assert (Z.log2 n <= 53) as Hl.
  { change 53 with (Z.log2 (2 ^ 53)). apply Z.log2_le_mono; lia. }
  pose proof (Z.log2_nonneg n).
  rewrite (Z.max_l (_ - 52)) by lia. set (k := Z.log2 n) in *.
  destruct (Z.eq_dec k 53) as [Hk|Hk].
  - assert (n = 2 ^ 53) as ->.
    { apply Z.le_antisymm; [lia|]. rewrite <- Hk. apply Z.log2_spec; lia. }
    rewrite Hk. vm_compute. done.
  - rewrite (Z.max_r 0 (- _)), (Z.max_l 0 (k - 52)), Z.pow_0_r by lia.
    change (1 * 1) with 1.
    replace (div_half_even (n * 2 ^ (- (k - 52))) 1) with (n * 2 ^ (- (k - 52)))
      by (symmetry; rewrite <- (Z.mul_1_r (n * _)) at 1; apply div_half_even_exact; lia).
    rewrite Z.mul_1_r.
    assert (0 < 2 ^ (- (k - 52))) by (apply pow2_pos; lia).
    assert (n * 2 ^ (- (k - 52)) < 2 ^ 1024) as Hlt.
    { apply Z.lt_le_trans with (2 ^ 53 * 2 ^ 53); [|vm_compute; done].
      apply Z.mul_lt_mono_nonneg; [lia| |lia|].
      - pose proof (Z.log2_spec n ltac:(lia)) as [_ Hub]. fold k in Hub.
        eapply Z.lt_le_trans; [done|]. apply Z.pow_le_mono_r; lia.
      - apply Z.pow_lt_mono_r; lia. }
    destruct (Z.leb_spec (2 ^ 1024) (n * 2 ^ (- (k - 52)))); [lia|].
    rewrite canon_shift by lia. unfold num_of_Z. f_equal. lia.
Qed.

Lemma div_half_even_ge a d : 0 < d → a / d <= div_half_even a d.
Proof. intros. unfold div_half_even. repeat case_match; lia. Qed.

Lemma num_lt_canon_r m e a : 0 <= e → num_lt (canon m e) (num_of_Z a) = (m * 2 ^ e <? a).
Proof.
  intros He. rewrite <- num_lt_of_Z. f_equal. unfold num_of_Z. by rewrite canon_shift, Z.add_0_l.
Qed.

Lemma isNaN_canon m e : isNaN (canon m e) = false.
Proof. unfold canon. case_match; [done|]. by case_match. Qed.

(** Rounding an integer beyond 2^53 stays beyond it. *)
Lemma round_ratio_large n a :
  2 ^ 53 < n → a <= 2 ^ 53 →
  num_lt (round_ratio n 1) (num_of_Z a) = false ∧ isNaN (round_ratio n 1) = false.
Proof.
  intros Hn Ha. unfold round_ratio. destruct (Z.eqb_spec n 0); [lia|].
  rewrite floor_log2_int by lia.
  assert (53 <= Z.log2 n) by (apply Z.log2_le_pow2; lia).
  rewrite (Z.max_l (Z.log2 n - 52)), (Z.max_l 0 (- _)), (Z.max_r 0), Z.pow_0_r, Z.mul_1_r, Z.mul_1_l by lia.
  set (e := Z.log2 n - 52). assert (0 < 2 ^ e) by (apply pow2_pos; lia).
  assert (2 ^ 53 <= div_half_even n (2 ^ e) * 2 ^ e) as Hm.
  { pose proof (div_half_even_ge n (2 ^ e) ltac:(lia)).
    assert (2 ^ 52 <= n / 2 ^ e).
    { apply Z.div_le_lower_bound; [lia|]. rewrite <- Z.pow_add_r by lia.
      replace (e + 52) with (Z.log2 n) by (unfold e; lia). apply Z.log2_spec; lia. }
    assert (2 ^ 1 <= 2 ^ e) by (apply Z.pow_le_mono_r; lia).
    change (2 ^ 53) with (2 ^ 52 * 2 ^ 1). apply Z.mul_le_mono_nonneg; lia. }
  case_match.
  - by destruct (num_of_Z_spec a) as (? & ? & -> & _).
  - rewrite num_lt_canon_r, isNaN_canon by lia. split; [|done]. apply Z.ltb_ge. lia.
Qed.

(** Reading back a decimal integer. *)
Lemma span_all p s : Forall (λ u, p u = true) s → span p s = (s, []).
Proof. induction 1 as [|u s Hu _ IH]; [done|]. cbn [span]. by rewrite Hu, IH. Qed.

Lemma digit_range u : is_digit u = true ↔ 48 <= u <= 57.
Proof. unfold is_digit. rewrite andb_true_iff, !Z.leb_le. done. Qed.

Lemma digit_not_space u : is_digit u = true → is_space u = false.
Proof.
  rewrite digit_range. intros Hu. unfold is_space. apply orb_false_iff. split.
  - apply bool_decide_eq_false. set_unfold. lia.
  - apply andb_false_iff. left. apply Z.leb_gt. lia.
Qed.

Lemma trimStart_no_space s : Forall (λ u, is_space u = false) s → trimStart s = s.
Proof. destruct 1 as [|u s Hu _]; [done|]. simpl. by rewrite Hu. Qed.

Lemma trim_no_space s : Forall (λ u, is_space u = false) s → trim s = s.
Proof.
  intros Hs. unfold trim, trimEnd. rewrite (trimStart_no_space s) by done.
  rewrite trimStart_no_space by (by apply Forall_reverse). apply reverse_involutive.
Qed.

Lemma parse_unsigned_digits s :
  s ≠ [] → Forall (λ u, is_digit u = true) s →
  parse_unsigned s = round_ratio (dec_value s) 1.
Proof.
  intros Hne Hs. unfold parse_unsigned.
  rewrite bool_decide_false, (span_all is_digit s) by
    (done || (intros ->; inversion Hs as [|? ? Hd]; by vm_compute in Hd)).
  rewrite app_nil_r. destruct s as [|u s]; [done|]. cbn [parse_exponent].
  cbn [length]. change (10 ^ (Z.max 0 (0 - Z.of_nat 0))) with 1.
  change (10 ^ (Z.max 0 (- (0 - Z.of_nat 0)))) with 1. by rewrite Z.mul_1_r.
Qed.

Lemma parse_signed_digits s :
  s ≠ [] → Forall (λ u, is_digit u = true) s →
  parse_signed s = round_ratio (dec_value s) 1.
Proof.
  intros Hne Hs. rewrite <- parse_unsigned_digits by done.
  destruct Hs as [|u s Hu Hs]; [done|]. apply digit_range in Hu. unfold parse_signed.
  destruct (Z.eqb_spec u 45), (Z.eqb_spec u 43); lia || done.
Qed.

Lemma js_Number_digits s :
  s ≠ [] → Forall (λ u, is_digit u = true) s → js_Number s = round_ratio (dec_value s) 1.
Proof.
  intros Hne Hs. rewrite <- parse_signed_digits by done. unfold js_Number.
  rewrite trim_no_space.
  2: { eapply Forall_impl; [done|]. apply digit_not_space. }
  destruct Hs as [|u s Hu Hs]; [done|]. destruct Hs as [|v s Hv Hs].
  { by repeat case_match. }
  apply digit_range in Hv.
  assert (∀ c, (c < 48 ∨ 57 < c) → (v =? c) = false) as Hc by (intros; apply Z.eqb_neq; lia).
  rewrite !Hc by lia. by repeat case_match.
Qed.

(** A decimal integer up to 2^53 is read exactly. *)
Lemma js_Number_dec n : 0 <= n <= 2 ^ 53 → js_Number (dec_of_nonneg n) = num_of_Z n.
Proof.
  intros Hn. rewrite js_Number_digits; [| apply dec_of_nonneg_ne | apply dec_of_nonneg_digits; lia].
  rewrite dec_value_of_nonneg by lia. by apply round_ratio_exact.
Qed.

#[export] Hint Rewrite BigInt_num_of_Z isInteger_num_of_Z isNaN_num_of_Z num_lt_of_Z
  math_round_num_of_Z : jsnum.
