(* ===== verification/Utf8.v ===== *)
(** * UTF-8

    How a string becomes bytes when it is written to a file or put in an address,
    and how bytes become a string: an unpaired surrogate is written as U+FFFD, and
    each malformed sequence is read as U+FFFD, cut as the Encoding standard says.
    A well-formed string survives the trip. *)
From Stdlib Require Import Ascii String ZArith Lia.
From stdpp Require Import prelude list strings.
From S2P Require Import Prelude JsString.
Local Open Scope Z_scope.

Module Utf8.

Definition replacement : Z := 0xFFFD.
Definition is_surrogate (u : Z) : bool := is_high u || is_low u.

(** The scalar values of a string. *)
Fixpoint code_points (s : jstr) : list Z :=
  match s with
  | [] => []
  | u :: s' =>
      match s' with
      | v :: s'' =>
          if is_high u && is_low v
          then 0x10000 + (u - 0xD800) * 0x400 + (v - 0xDC00) :: code_points s''
          else (if is_surrogate u then replacement else u) :: code_points s'
      | [] => [if is_surrogate u then replacement else u]
      end
  end.

Definition utf8_of_code (c : Z) : list Z :=
  if c <? 0x80 then [c]
  else if c <? 0x800 then [0xC0 + c / 0x40; 0x80 + c mod 0x40]
  else if c <? 0x10000 then [0xE0 + c / 0x1000; 0x80 + c / 0x40 mod 0x40; 0x80 + c mod 0x40]
  else [0xF0 + c / 0x40000; 0x80 + c / 0x1000 mod 0x40; 0x80 + c / 0x40 mod 0x40; 0x80 + c mod 0x40].
Definition utf8_encode (s : jstr) : list Z := concat (List.map utf8_of_code (code_points s)).

(** The decoder: [need] continuation bytes missing, the next one between [lo]
    and [hi], [cp] read so far. *)
Fixpoint decode (need lo hi cp : Z) (bs : list Z) : jstr :=
  match bs with
  | [] => if need =? 0 then [] else [replacement]
  | b :: r =>
      if negb (need =? 0) && (lo <=? b) && (b <=? hi) then
        let cp' := cp * 0x40 + (b - 0x80) in
        if need =? 1 then utf16_of_code cp' ++ decode 0 0x80 0xBF 0 r
        else decode (need - 1) 0x80 0xBF cp' r
      else
        (if need =? 0 then [] else [replacement]) ++
        if b <? 0x80 then b :: decode 0 0x80 0xBF 0 r
        else if (0xC2 <=? b) && (b <=? 0xDF) then decode 1 0x80 0xBF (b - 0xC0) r
        else if (0xE0 <=? b) && (b <=? 0xEF) then
          decode 2 (if b =? 0xE0 then 0xA0 else 0x80) (if b =? 0xED then 0x9F else 0xBF) (b - 0xE0) r
        else if (0xF0 <=? b) && (b <=? 0xF4) then
          decode 3 (if b =? 0xF0 then 0x90 else 0x80) (if b =? 0xF4 then 0x8F else 0xBF) (b - 0xF0) r
        else replacement :: decode 0 0x80 0xBF 0 r
  end.
Definition utf8_decode (bs : list Z) : jstr := decode 0 0x80 0xBF 0 bs.

(** Code units, none of them an unpaired surrogate. *)
Fixpoint well_formed (s : jstr) : bool :=
  match s with
  | [] => true
  | u :: s' =>
      (0 <=? u) && (u <? 0x10000) &&
      if is_high u
      then match s' with v :: s'' => is_low v && well_formed s'' | [] => false end
      else negb (is_low u) && well_formed s'
  end.

Example encode_ex :
  utf8_encode (js "aé€🚀") = [97; 0xC3; 0xA9; 0xE2; 0x82; 0xAC; 0xF0; 0x9F; 0x9A; 0x80].
Proof. vm_compute. reflexivity. Qed.
Example decode_ex :
  utf8_decode [97; 0xF0; 0x80; 0x80; 98; 0xE2; 0x82; 99; 0xC3] =
    [97; 0xFFFD; 0xFFFD; 0xFFFD; 98; 0xFFFD; 99; 0xFFFD].
Proof. vm_compute. reflexivity. Qed.

(** ** Lemmas *)
Definition is_scalar (c : Z) : bool := (0 <=? c) && (c <? 0x110000) && negb (is_surrogate c).

Lemma is_scalar_spec c :
  is_scalar c = true ↔ 0 <= c < 0x110000 ∧ ¬ (0xD800 <= c < 0xE000).
Proof.
  unfold is_scalar, is_surrogate, is_high, is_low.
  rewrite !andb_true_iff, negb_true_iff, orb_false_iff, !andb_false_iff, !Z.leb_le, !Z.ltb_lt, !Z.leb_gt,
    !Z.ltb_ge. lia.
Qed.

(** One step of the decoder on a byte that is expected, and on a first byte. *)
Lemma decode_more need lo hi cp b r :
  0 < need → lo <= b <= hi →
  decode need lo hi cp (b :: r) =
    if need =? 1 then utf16_of_code (cp * 0x40 + (b - 0x80)) ++ decode 0 0x80 0xBF 0 r
    else decode (need - 1) 0x80 0xBF (cp * 0x40 + (b - 0x80)) r.
Proof.
  intros Hn Hb. cbn [decode].
  rewrite (proj2 (Z.eqb_neq need 0)), (proj2 (Z.leb_le lo b)), (proj2 (Z.leb_le b hi)) by lia. done.
Qed.
Lemma decode_last lo hi cp b r :
  lo <= b <= hi →
  decode 1 lo hi cp (b :: r) = utf16_of_code (cp * 0x40 + (b - 0x80)) ++ decode 0 0x80 0xBF 0 r.
Proof. intros. by rewrite decode_more by lia. Qed.

Ltac decide_bytes :=
  repeat match goal with
  | |- context [?a <? ?b] => destruct (Z.ltb_spec a b); try lia
  | |- context [?a <=? ?b] => destruct (Z.leb_spec a b); try lia
  end; cbn [andb negb app].

Lemma decode_first b r :
  0 <= b ->
  decode 0 0x80 0xBF 0 (b :: r) =
    if b <? 0x80 then b :: decode 0 0x80 0xBF 0 r
    else if (0xC2 <=? b) && (b <=? 0xDF) then decode 1 0x80 0xBF (b - 0xC0) r
    else if (0xE0 <=? b) && (b <=? 0xEF) then
      decode 2 (if b =? 0xE0 then 0xA0 else 0x80) (if b =? 0xED then 0x9F else 0xBF) (b - 0xE0) r
    else if (0xF0 <=? b) && (b <=? 0xF4) then
      decode 3 (if b =? 0xF0 then 0x90 else 0x80) (if b =? 0xF4 then 0x8F else 0xBF) (b - 0xF0) r
    else replacement :: decode 0 0x80 0xBF 0 r.
Proof. done. Qed.

Lemma decode_code c r :
  is_scalar c = true → utf8_decode (utf8_of_code c ++ r) = utf16_of_code c ++ utf8_decode r.
Proof.
  intros Hc%is_scalar_spec. unfold utf8_decode, utf8_of_code.
  destruct (Z.ltb_spec c 0x80).
  { cbn [app]. rewrite decode_first by lia. decide_bytes. unfold utf16_of_code. decide_bytes. done. }
  destruct (Z.ltb_spec c 0x800).
  { cbn [app]. rewrite decode_first by (Z.to_euclidean_division_equations; lia).
    assert (2 <= c / 0x40 < 0x20) as Hq by (Z.to_euclidean_division_equations; lia).
    pose proof (Z.mod_pos_bound c 0x40 ltac:(lia)). decide_bytes.
    rewrite decode_last by lia. do 2 f_equal. Z.to_euclidean_division_equations; lia. }
  destruct (Z.ltb_spec c 0x10000).
  { cbn [app]. rewrite decode_first by (Z.to_euclidean_division_equations; lia).
    assert (0 <= c / 0x1000 < 0x10) as Hq by (Z.to_euclidean_division_equations; lia).
    pose proof (Z.mod_pos_bound c 0x40 ltac:(lia)). pose proof (Z.mod_pos_bound (c / 0x40) 0x40 ltac:(lia)).
    decide_bytes. rewrite decode_more; [|lia|].
    2: { destruct (Z.eqb_spec (0xE0 + c / 0x1000) 0xE0), (Z.eqb_spec (0xE0 + c / 0x1000) 0xED);
         Z.to_euclidean_division_equations; lia. }
    change (2 =? 1) with false. cbn match. change (2 - 1) with 1. rewrite decode_last by lia.
    do 2 f_equal. Z.to_euclidean_division_equations; lia. }
  cbn [app]. rewrite decode_first by (Z.to_euclidean_division_equations; lia).
  assert (0 <= c / 0x40000 < 5) as Hq by (Z.to_euclidean_division_equations; lia).
  pose proof (Z.mod_pos_bound c 0x40 ltac:(lia)). pose proof (Z.mod_pos_bound (c / 0x40) 0x40 ltac:(lia)).
  pose proof (Z.mod_pos_bound (c / 0x1000) 0x40 ltac:(lia)).
  decide_bytes. rewrite decode_more; [|lia|].
  2: { destruct (Z.eqb_spec (0xF0 + c / 0x40000) 0xF0), (Z.eqb_spec (0xF0 + c / 0x40000) 0xF4);
       Z.to_euclidean_division_equations; lia. }
  change (3 =? 1) with false. cbn match. change (3 - 1) with 2. rewrite decode_more by lia.
  change (2 =? 1) with false. cbn match. change (2 - 1) with 1. rewrite decode_last by lia.
  do 2 f_equal. Z.to_euclidean_division_equations; lia.
Qed.
Lemma decode_codes cs :
  Forall (λ c, is_scalar c = true) cs →
  utf8_decode (concat (List.map utf8_of_code cs)) = concat (List.map utf16_of_code cs).
Proof.
  induction 1 as [|c cs Hc _ IH]; [done|]. cbn [List.map concat]. by rewrite decode_code, IH.
Qed.

Lemma pair_code u v :
  is_high u = true → is_low v = true →
  let c := 0x10000 + (u - 0xD800) * 0x400 + (v - 0xDC00) in
  is_scalar c = true ∧ utf16_of_code c = [u; v].
Proof.
  intros Hu Hv c. unfold is_high, is_low in *. bool_prop. split; [apply is_scalar_spec; unfold c; lia|].
  unfold utf16_of_code. destruct (Z.ltb_spec c 0x10000); [unfold c in *; lia|].
  change 0x3FF with (Z.ones 10). rewrite Z.shiftr_div_pow2, Z.land_ones by lia.
  unfold c. f_equal; [|f_equal]; Z.to_euclidean_division_equations; lia.
Qed.
Lemma unit_code u :
  0 <= u < 0x10000 → is_surrogate u = false → is_scalar u = true ∧ utf16_of_code u = [u].
Proof.
  intros Hu Hs. unfold is_surrogate, is_high, is_low in Hs. bool_prop. split.
  - apply is_scalar_spec. rewrite !andb_false_iff, !Z.leb_gt, !Z.ltb_ge in *. lia.
  - unfold utf16_of_code. destruct (Z.ltb_spec u 0x10000); [done|lia].
Qed.

Lemma well_formed_codes_aux n s :
  (length s ≤ n)%nat → well_formed s = true →
  Forall (λ c, is_scalar c = true) (code_points s) ∧ concat (List.map utf16_of_code (code_points s)) = s.
Proof.
  revert s. induction n as [|n IH]; intros [|u s] Hn;
    [by intros _; split; [constructor|] | simpl in Hn; lia | by intros _; split; [constructor|] |].
  cbn [well_formed].
  simpl in Hn. rewrite !andb_true_iff, Z.leb_le, Z.ltb_lt. intros [[Hu0 Hu1] Hw].
  destruct (is_high u) eqn:Hh.
  - destruct s as [|v s]; [done|]. apply andb_true_iff in Hw as [Hv Hw]. cbn [code_points].
    rewrite Hh, Hv. cbn [andb]. destruct (IH s) as [H1 H2]; [simpl in Hn; lia|done|].
    destruct (pair_code u v Hh Hv) as [H3 H4]. cbn [List.map concat]. rewrite H2, H4.
    split; [by constructor|done].
  - apply andb_true_iff in Hw as [Hl Hw]. apply negb_true_iff in Hl.
    assert (is_surrogate u = false) as Hs by (unfold is_surrogate; by rewrite Hh, Hl).
    destruct (unit_code u ltac:(lia) Hs) as [H3 H4].
    destruct s as [|v s]; cbn [code_points]; rewrite Hs; [rewrite H4 || idtac|rewrite Hh; cbn [andb]].
    + cbn [List.map concat]. rewrite H4. split; [by constructor|done].
    + destruct (IH (v :: s)) as [H1 H2]; [lia|done|]. cbn [List.map concat]. cbn [List.map concat] in H2.
      split; [by constructor|]. rewrite H4. cbn [app]. f_equal. exact H2.
Qed.

(** A well-formed string is read back from its bytes. *)
Lemma decode_encode_utf8 s : well_formed s = true → utf8_decode (utf8_encode s) = s.
Proof.
  intros Hs. destruct (well_formed_codes_aux (length s) s ltac:(done) Hs) as [H1 H2].
  unfold utf8_encode. by rewrite decode_codes.
Qed.

(** The bytes are as many as the contracts count, and are bytes. *)
Lemma utf8_of_code_bytes c : is_scalar c = true → Forall (λ b, 0 <= b < 0x100) (utf8_of_code c).
Proof.
  intros Hc%is_scalar_spec. unfold utf8_of_code.
  destruct (Z.ltb_spec c 0x80); [|destruct (Z.ltb_spec c 0x800); [|destruct (Z.ltb_spec c 0x10000)]];
    repeat apply Forall_cons_2; try apply Forall_nil_2; Z.to_euclidean_division_equations; lia.
Qed.
Lemma utf8_encode_bytes s : well_formed s = true → Forall (λ b, 0 <= b < 0x100) (utf8_encode s).
Proof.
  intros Hs. destruct (well_formed_codes_aux (length s) s ltac:(done) Hs) as [H _].
  unfold utf8_encode. induction H as [|c cs Hc _ IH]; [done|]. cbn [List.map concat].
  apply Forall_app. split; [by apply utf8_of_code_bytes | done].
Qed.

Lemma utf8_encode_length s : well_formed s = true → Z.of_nat (length (utf8_encode s)) = utf8_length s.
Proof.
  remember (length s) as n eqn:Hn. assert (length s ≤ n)%nat as Hle by lia. clear Hn. revert s Hle.
  induction n as [|n IH]; intros [|u s] Hle; cbn [well_formed]; [done|simpl in Hle; lia|done|].
  simpl in Hle. rewrite !andb_true_iff, Z.leb_le, Z.ltb_lt. intros [[Hu0 Hu1] Hw].
  unfold utf8_encode in *. destruct (is_high u) eqn:Hh.
  - destruct s as [|v s]; [done|]. apply andb_true_iff in Hw as [Hv Hw]. cbn [code_points utf8_length].
    rewrite Hh, Hv. cbn [andb List.map concat]. rewrite length_app, Nat2Z.inj_add, IH; [|simpl in Hle; lia|done].
    unfold is_high, is_low in *. bool_prop. unfold utf8_of_code. decide_bytes. cbn [length]. lia.
  - apply andb_true_iff in Hw as [Hl Hw]. apply negb_true_iff in Hl.
    assert (is_surrogate u = false) as Hs by (unfold is_surrogate; by rewrite Hh, Hl).
    destruct s as [|v s].
    + cbn [code_points utf8_length]. rewrite Hs. cbn [List.map concat]. unfold utf8_of_code. decide_bytes; done.
    + specialize (IH (v :: s) ltac:(lia) Hw).
      change (code_points (u :: v :: s)) with (if is_high u && is_low v
        then 0x10000 + (u - 0xD800) * 0x400 + (v - 0xDC00) :: code_points s
        else (if is_surrogate u then replacement else u) :: code_points (v :: s)).
      change (utf8_length (u :: v :: s)) with (if u <? 0x80 then 1 + utf8_length (v :: s)
        else if u <? 0x800 then 2 + utf8_length (v :: s)
        else if is_high u && is_low v then 4 + utf8_length s else 3 + utf8_length (v :: s)).
      rewrite Hs, Hh. cbn [andb]. cbn [List.map concat]. rewrite length_app, Nat2Z.inj_add, IH.
      unfold utf8_of_code. decide_bytes; cbn [length]; lia.
Qed.

(** ** Bytes cut short *)
Definition bytes_of (cs : list Z) : list Z := concat (List.map utf8_of_code cs).
Definition units_of (cs : list Z) : jstr := concat (List.map utf16_of_code cs).

Lemma utf8_of_code_length c : is_scalar c = true →
  (length (utf8_of_code c) ≤ 3 * length (utf16_of_code c) ∧ 1 ≤ length (utf8_of_code c) ≤ 4)%nat.
Proof.
  intros _. unfold utf8_of_code, utf16_of_code.
  destruct (Z.ltb_spec c 0x80), (Z.ltb_spec c 0x800), (Z.ltb_spec c 0x10000); simpl; lia.
Qed.

(** A character cut in two is read as one replacement. *)
Lemma decode_cut c k :
  is_scalar c = true → (0 < k < length (utf8_of_code c))%nat →
  utf8_decode (take k (utf8_of_code c)) = [replacement].
Proof.
  intros Hc%is_scalar_spec Hk. revert Hk. unfold utf8_decode, utf8_of_code.
  destruct (Z.ltb_spec c 0x80); [simpl; lia|]. destruct (Z.ltb_spec c 0x800).
  { intros Hk. destruct k as [|[|k]]; simpl in Hk; try lia. cbn [take].
    assert (2 <= c / 0x40 < 0x20) by (Z.to_euclidean_division_equations; lia).
    rewrite decode_first by lia. by decide_bytes. }
  destruct (Z.ltb_spec c 0x10000).
  { assert (0 <= c / 0x1000 < 0x10) by (Z.to_euclidean_division_equations; lia).
    pose proof (Z.mod_pos_bound (c / 0x40) 0x40 ltac:(lia)).
    intros Hk. destruct k as [|[|[|k]]]; simpl in Hk; try lia; cbn [take];
      rewrite decode_first by lia; decide_bytes; [done|].
    rewrite decode_more; [done|lia|].
    destruct (Z.eqb_spec (0xE0 + c / 0x1000) 0xE0), (Z.eqb_spec (0xE0 + c / 0x1000) 0xED);
      Z.to_euclidean_division_equations; lia. }
  assert (0 <= c / 0x40000 < 5) by (Z.to_euclidean_division_equations; lia).
  pose proof (Z.mod_pos_bound (c / 0x40) 0x40 ltac:(lia)).
  pose proof (Z.mod_pos_bound (c / 0x1000) 0x40 ltac:(lia)).
  assert ((if 0xF0 + c / 0x40000 =? 0xF0 then 0x90 else 0x80) <= 0x80 + c / 0x1000 mod 0x40 <=
    (if 0xF0 + c / 0x40000 =? 0xF4 then 0x8F else 0xBF)).
  { destruct (Z.eqb_spec (0xF0 + c / 0x40000) 0xF0), (Z.eqb_spec (0xF0 + c / 0x40000) 0xF4);
      Z.to_euclidean_division_equations; lia. }
  intros Hk. destruct k as [|[|[|[|k]]]]; simpl in Hk; try lia; cbn [take];
    rewrite decode_first by lia; decide_bytes; [done| |];
    rewrite decode_more by (assumption || lia); change (3 =? 1) with false; cbn match; [done|].
  change (3 - 1) with 2. by rewrite decode_more by lia.
Qed.

(** The first [k] bytes give the characters that fit, and a replacement when the
    next one is cut. *)
Lemma decode_take cs k :
  Forall (λ c, is_scalar c = true) cs → (k ≤ length (bytes_of cs))%nat →
  ∃ cs1 cs2 e, cs = cs1 ++ cs2 ∧ (length (bytes_of cs1) ≤ k < length (bytes_of cs1) + 4)%nat ∧
    utf8_decode (take k (bytes_of cs)) = units_of cs1 ++ e ∧ (e = [] ∨ e = [replacement]).
Proof.
  intros Hcs. revert k. induction Hcs as [|c cs Hc _ IH]; intros k Hk.
  { exists [], [], []. simpl in *. assert (k = 0)%nat as -> by lia. split_and!; auto; lia. }
  destruct (utf8_of_code_length c Hc) as [_ Hlen]. unfold bytes_of in *. cbn [List.map concat] in *.
  rewrite length_app in Hk. destruct (decide (k < length (utf8_of_code c))%nat) as [Hlt|Hge].
  - rewrite take_app_le by lia. destruct k as [|k].
    + exists [], (c :: cs), []. split_and!; auto; simpl; lia.
    + exists [], (c :: cs), [replacement]. rewrite decode_cut by (done || lia). split_and!; auto; simpl; lia.
  - destruct (IH (k - length (utf8_of_code c))%nat) as (cs1 & cs2 & e & -> & Hlen1 & Hd & He); [lia|].
    exists (c :: cs1), cs2, e. split; [done|]. cbn [List.map concat]. rewrite length_app. split; [lia|].
    split; [|done]. rewrite take_app_ge by lia. rewrite decode_code by done.
    rewrite Hd. unfold units_of. cbn [List.map concat]. by rewrite app_assoc.
Qed.

(** The bytes are at most three for each unit. *)
Lemma bytes_of_length cs :
  Forall (λ c, is_scalar c = true) cs → (length (bytes_of cs) ≤ 3 * length (units_of cs))%nat.
Proof.
  unfold bytes_of, units_of. induction 1 as [|c cs Hc _ IH]; [done|]. cbn [List.map concat].
  rewrite !length_app. pose proof (proj1 (utf8_of_code_length c Hc)). lia.
Qed.

(** So a well-formed string read from its first [k] bytes. *)
Lemma decode_encode_take s k :
  well_formed s = true → (k ≤ length (utf8_encode s))%nat →
  ∃ p q e, s = p ++ q ∧ utf8_decode (take k (utf8_encode s)) = p ++ e ∧ (e = [] ∨ e = [replacement]) ∧
    (k < 3 * length p + 4 ∧ length (utf8_encode s) - k ≤ 3 * length q)%nat.
Proof.
  intros Hs Hk. destruct (well_formed_codes_aux (length s) s ltac:(done) Hs) as [H1 H2].
  change (utf8_encode s) with (bytes_of (code_points s)) in *. fold (units_of (code_points s)) in H2.
  destruct (decode_take _ k H1 Hk) as (cs1 & cs2 & e & Hcs & Hlen & Hd & He).
  rewrite Hcs in H1, H2. apply Forall_app in H1 as [Hf1 Hf2].
  exists (units_of cs1), (units_of cs2), e.
  pose proof (bytes_of_length cs1 Hf1). pose proof (bytes_of_length cs2 Hf2).
  split; [rewrite <- H2; unfold units_of; by rewrite map_app, concat_app|]. split; [done|]. split; [done|].
  rewrite Hcs. unfold bytes_of in *. rewrite map_app, concat_app, length_app. lia.
Qed.

End Utf8.
