(* ===== verification/SecureLog.v ===== *)
(** * The log lines of the notification library (notification/src/secure_log.rs)

    The library masks addresses, hashes and webhook addresses before they are
    logged. A Rust string is the list of its UTF-8 bytes: [len] counts bytes, and
    a slice panics when a bound is past the end or inside a character. A function
    that can panic returns an option, [None] being the panic. *)
From Stdlib Require Import Ascii String ZArith Lia.
From stdpp Require Import prelude list strings.
From S2P Require Import Prelude JsString.
Local Open Scope Z_scope.

Module SecureLog.

(** ** Strings *)
Notation str := (list Z).

(** A literal, by its bytes. *)
Definition lit (s : string) : str :=
  List.map (λ a, Z.of_nat (nat_of_ascii a)) (list_ascii_of_string s).
Definition ellipsis : str := lit "…".

(** [s.is_char_boundary(i)]: the ends, and every byte that does not continue a
    character. *)
Definition continues (b : Z) : bool := (0x80 <=? b) && (b <? 0xC0).
Definition is_char_boundary (s : str) (i : nat) : bool :=
  bool_decide (i = 0%nat) ||
  match s !! i with
  | Some b => negb (continues b)
  | None => bool_decide (i = length s)
  end.

(** [&s[..i]] and [&s[i..]] *)
Definition slice_to (s : str) (i : nat) : option str :=
  if is_char_boundary s i then Some (take i s) else None.
Definition slice_from (s : str) (i : nat) : option str :=
  if is_char_boundary s i then Some (drop i s) else None.

(** [s.strip_prefix(p)] *)
Definition strip_prefix (s p : str) : option str :=
  if startsWith s p then Some (drop (length p) s) else None.

(** ** Masking *)
Definition masked : str := lit "[masked]".

Definition mask_address (addr : str) : option str :=
  if (length addr <? 10)%nat then Some masked
  else first ← slice_to addr 6;
       last ← slice_from addr (length addr - 4);
       Some (first ++ ellipsis ++ last).

Definition mask_tx_hash (hash : str) : option str :=
  if (length hash <? 8)%nat then Some masked
  else first ← slice_to hash 8; Some (first ++ ellipsis).

Definition mask_email (_email : str) : str := lit "[email]".

Definition slash : Z := 47.
Definition https : str := lit "https://".
Definition http : str := lit "http://".

Definition sanitise_webhook_url (url : str) : str :=
  match (match strip_prefix url https with Some rest => Some rest | None => strip_prefix url http end) with
  | Some rest =>
      let host := default rest (head (split_unit slash rest)) in
      let scheme := if startsWith url https then lit "https" else lit "http" in
      scheme ++ lit "://" ++ host
  | None => url
  end.

(** ** Log entries *)
Record SafeLogEntry := {
  event_id : str;
  kind : str;
  masked_actor : option str;
  proposal_id : option Z }.

Definition from_proposal_created (id : str) (pid : Z) : option SafeLogEntry :=
  m ← mask_tx_hash id;
  Some {| event_id := m; kind := lit "proposal_created"; masked_actor := None; proposal_id := Some pid |}.

Definition from_vote_cast (id : str) (pid : Z) (voter : str) : option SafeLogEntry :=
  m ← mask_tx_hash id;
  a ← mask_address voter;
  Some {| event_id := m; kind := lit "vote_cast"; masked_actor := Some a; proposal_id := Some pid |}.

Definition from_proposal_finalised (id : str) (pid : Z) : option SafeLogEntry :=
  m ← mask_tx_hash id;
  Some {| event_id := m; kind := lit "proposal_finalised"; masked_actor := None; proposal_id := Some pid |}.

Definition to_log_line (e : SafeLogEntry) : str :=
  let actor := default [] ((λ a, lit " actor=" ++ a) <$> masked_actor e) in
  let pid := default [] ((λ p, lit " proposal_id=" ++ dec_of p) <$> proposal_id e) in
  lit "[INFO] event=" ++ event_id e ++ lit " kind=" ++ kind e ++ pid ++ actor.

(** The tests of the source. *)
Example mask_standard : mask_address (lit "GABCDE1234567890FGHIJ") = Some (lit "GABCDE…GHIJ").
Proof. reflexivity. Qed.
Example sanitise_strips :
  sanitise_webhook_url (lit "https://hooks.example.com/gov/proposals?token=secret") =
    lit "https://hooks.example.com" ∧
  sanitise_webhook_url (lit "http://internal.corp/webhook") = lit "http://internal.corp" ∧
  sanitise_webhook_url (lit "not-a-url") = lit "not-a-url".
Proof. split_and!; reflexivity. Qed.
Example vote_line :
  to_log_line <$> from_vote_cast (lit "txhash12345678") 2 (lit "GABCDE1234567890FGHIJ") =
    Some (lit "[INFO] event=txhash12… kind=vote_cast proposal_id=2 actor=GABCDE…GHIJ").
Proof. reflexivity. Qed.

(** ** Runs of address characters

    Stellar addresses are written in the alphabet A-Z, 2-7. The maximal runs of
    such characters of a string, where an address it contains must be. *)
Definition letter (u : Z) : bool := (65 <=? u) && (u <=? 90).
Definition base32 (u : Z) : bool := letter u || ((50 <=? u) && (u <=? 55)).

Fixpoint runs (s : str) : list str :=
  match s with
  | [] => [[]]
  | u :: s' =>
      if base32 u
      then match runs s' with r :: rs => (u :: r) :: rs | [] => [[u]] end
      else [] :: runs s'
  end.

(** A fragment of an address: nine characters or more, from a letter on. *)
Definition address_fragment (w : str) : bool :=
  (9 <=? length w)%nat && forallb base32 w && match w with u :: _ => letter u | [] => false end.

Lemma runs_ne s : ∃ r rs, runs s = r :: rs.
Proof. destruct s as [|u s]; simpl; [by eauto|]. destruct (base32 u); [|by eauto]. destruct (runs s); eauto. Qed.

Lemma runs_app_sep a c b : base32 c = false → runs (a ++ c :: b) = runs a ++ runs b.
Proof.
  intros Hc. induction a as [|u a IH]; simpl; [by rewrite Hc|]. destruct (base32 u); rewrite IH; [|done].
  destruct (runs_ne a) as (r & rs & ->). done.
Qed.

Lemma runs_length s : Forall (λ r, (length r ≤ length s)%nat) (runs s).
Proof.
  induction s as [|u s IH]; simpl; [by constructor|].
  assert (Forall (λ r, (length r ≤ S (length s))%nat) (runs s)) as IH'
    by (eapply Forall_impl; [exact IH|]; simpl; lia).
  destruct (base32 u); [|constructor; [simpl; lia | done]].
  destruct (runs_ne s) as (r & rs & Hr). rewrite Hr in *. inversion IH; inversion IH'; subst.
  constructor; [simpl; lia | done].
Qed.

Lemma runs_Forall (P : Z → Prop) s : Forall P s → Forall (Forall P) (runs s).
Proof.
  induction 1 as [|u s Hu Hs IH]; simpl; [by repeat constructor|].
  destruct (base32 u); [|by constructor].
  destruct (runs_ne s) as (r & rs & Hr). rewrite Hr in *. inversion IH; subst. by repeat constructor.
Qed.

(** A word of address characters lies within a run. *)
Lemma startsWith_run s w r rs :
  forallb base32 w = true → startsWith s w = true → runs s = r :: rs → startsWith r w = true.
Proof.
  revert s r rs; induction w as [|a w IH]; intros [|b s] r rs Hw Hs Hr; [by destruct r | by destruct r | done |]. simpl in *.
  apply andb_true_iff in Hw as [Ha Hw], Hs as [<-%Z.eqb_eq Hs]. rewrite Ha in Hr.
  destruct (runs_ne s) as (r' & rs' & Hr'). rewrite Hr' in Hr. injection Hr as <- <-. simpl.
  by rewrite Z.eqb_refl, (IH s r' rs').
Qed.

Lemma includes_run s w :
  forallb base32 w = true → includes s w = true → Exists (λ r, includes r w = true) (runs s).
Proof.
  intros Hw. induction s as [|u s IH]; intros Hs.
  { apply Exists_cons_hd. done. }
  cbn [includes] in Hs. apply orb_true_iff in Hs as [Hs|Hs].
  - destruct (runs_ne (u :: s)) as (r & rs & Hr). rewrite Hr. apply Exists_cons_hd.
    pose proof (startsWith_run _ _ _ _ Hw Hs Hr). destruct r; cbn [includes]; by rewrite H.
  - specialize (IH Hs). simpl. destruct (base32 u); [|by apply Exists_cons_tl].
    destruct (runs_ne s) as (r & rs & Hr). rewrite Hr in *.
    apply Exists_cons in IH as [IH|IH]; [apply Exists_cons_hd; cbn [includes]; rewrite IH; apply orb_true_r|].
    by apply Exists_cons_tl.
Qed.

(** A run that cannot hold a fragment: it is short, or has no letter. *)
Definition harmless (r : str) : Prop := (length r ≤ 8)%nat ∨ Forall (λ u, letter u = false) r.

Lemma harmless_excludes r w : harmless r → address_fragment w = true → includes r w = false.
Proof.
  unfold address_fragment. intros Hr Hw. apply not_true_is_false. intros (k1 & k2 & ->)%includes_spec.
  apply andb_true_iff in Hw as [[Hlen%Nat.leb_le _]%andb_true_iff Hl].
  destruct w as [|u w]; [done|].
  destruct Hr as [Hr|Hr]; [rewrite !length_app in Hr; lia|].
  apply Forall_app in Hr as [_ Hr]. apply Forall_cons in Hr as [Hu _]. congruence.
Qed.

Lemma harmless_runs_exclude s w :
  Forall harmless (runs s) → address_fragment w = true → includes s w = false.
Proof.
  intros Hs Hw. apply not_true_is_false. intros Hi.
  apply includes_run in Hi; [|unfold address_fragment in Hw; bool_prop; done].
  apply Exists_exists in Hi as (r & Hr & Hi).
  rewrite (harmless_excludes r w) in Hi; [done| |done]. by eapply list.Forall_forall in Hs.
Qed.

Lemma short_runs s : (length s ≤ 8)%nat → Forall harmless (runs s).
Proof.
  intros Hs. eapply Forall_impl; [apply runs_length|]. simpl. intros r Hr. left. lia.
Qed.
Lemma letterless_runs s : Forall (λ u, letter u = false) s → Forall harmless (runs s).
Proof. intros Hs. eapply Forall_impl; [by apply runs_Forall|]. by right. Qed.
Lemma harmless_runs_app a c b :
  base32 c = false → Forall harmless (runs a) → Forall harmless (runs b) →
  Forall harmless (runs (a ++ c :: b)).
Proof. intros. rewrite runs_app_sep by done. by apply Forall_app. Qed.

Lemma ellipsis_runs a b :
  (length a ≤ 8)%nat → (length b ≤ 5)%nat → Forall harmless (runs (a ++ ellipsis ++ b)).
Proof.
  intros Ha Hb. change (a ++ ellipsis ++ b) with (a ++ 226 :: 128 :: 166 :: b).
  apply harmless_runs_app; [done | by apply short_runs|]. apply short_runs. simpl. lia.
Qed.

Lemma slice_to_take s i r : slice_to s i = Some r → r = take i s.
Proof. unfold slice_to. case_match; by intros [= <-]. Qed.
Lemma slice_from_drop s i r : slice_from s i = Some r → r = drop i s.
Proof. unfold slice_from. case_match; by intros [= <-]. Qed.

Lemma mask_tx_hash_runs h m : mask_tx_hash h = Some m → Forall harmless (runs m).
Proof.
  unfold mask_tx_hash. case_match; [intros [= <-]; by apply short_runs|].
  intros (r & ->%slice_to_take & [= <-])%bind_Some. rewrite <- (app_nil_r ellipsis).
  apply ellipsis_runs; [rewrite length_take; lia | simpl; lia].
Qed.

Lemma mask_address_runs a m : mask_address a = Some m → Forall harmless (runs m).
Proof.
  unfold mask_address. case_match; [intros [= <-]; by apply short_runs|].
  intros (r & ->%slice_to_take & (r2 & ->%slice_from_drop & [= <-])%bind_Some)%bind_Some.
  apply ellipsis_runs; [rewrite length_take | rewrite length_drop]; lia.
Qed.

Lemma dec_of_letterless p : 0 <= p → Forall harmless (runs (dec_of p)).
Proof.
  intros Hp. apply letterless_runs. rewrite dec_of_nonneg_eq by done.
  eapply Forall_impl; [by apply dec_of_nonneg_digits|]. unfold is_digit, letter. simpl. intros u Hu.
  bool_prop. apply andb_false_iff. rewrite !Z.leb_gt. lia.
Qed.

Ltac literal_runs := apply (bool_decide_unpack _); vm_compute; reflexivity.

(** The entries the library makes of an event. *)
Definition entry_of (e : SafeLogEntry) (id : str) (pid : Z) (voter : str) : Prop :=
  from_proposal_created id pid = Some e ∨ from_vote_cast id pid voter = Some e ∨
  from_proposal_finalised id pid = Some e.

Global Instance harmless_dec r : Decision (harmless r).
Proof. unfold harmless. apply _. Defined.

(** Every line is a concatenation cut at characters no address has. *)
Lemma line_runs m k p a :
  Forall harmless (runs m) → Forall harmless (runs k) → Forall harmless (runs (dec_of p)) →
  default True ((λ x, Forall harmless (runs x)) <$> a) →
  Forall harmless (runs (to_log_line
    {| event_id := m; kind := k; masked_actor := a; proposal_id := Some p |})).
Proof.
  intros Hm Hk Hp Ha.
  assert (to_log_line {| event_id := m; kind := k; masked_actor := a; proposal_id := Some p |} =
    lit "[INFO] event" ++ 61 :: m ++ 32 :: lit "kind" ++ 61 :: k ++ 32 :: lit "proposal_id" ++
    61 :: dec_of p ++ match a with Some x => 32 :: lit "actor" ++ 61 :: x | None => [] end) as ->.
  { unfold to_log_line. destruct a; cbn -[dec_of]; rewrite <- ?app_assoc; reflexivity. }
  repeat (apply harmless_runs_app; [reflexivity | first [assumption | literal_runs] |]).
  destruct a as [a|]; [|by rewrite app_nil_r].
  repeat (apply harmless_runs_app; [reflexivity | first [assumption | literal_runs] |]). done.
Qed.

Lemma entry_runs e id pid voter :
  0 <= pid → entry_of e id pid voter → Forall harmless (runs (to_log_line e)).
Proof.
  intros Hp [H|[H|H]].
  - apply bind_Some in H as (m & Hm & [= <-]). apply line_runs; [by eapply mask_tx_hash_runs | literal_runs |
      by apply dec_of_letterless | done].
  - apply bind_Some in H as (m & Hm & (a & Ha & [= <-])%bind_Some).
    apply line_runs; [by eapply mask_tx_hash_runs | literal_runs | by apply dec_of_letterless |].
    by eapply mask_address_runs.
  - apply bind_Some in H as (m & Hm & [= <-]). apply line_runs; [by eapply mask_tx_hash_runs | literal_runs |
      by apply dec_of_letterless | done].
Qed.

(** What a slice at an ASCII position needs. *)
Lemma boundary_ascii s i : Forall (λ b, 0 <= b < 0x80) s → (i ≤ length s)%nat → is_char_boundary s i = true.
Proof.
  intros Hs Hi. unfold is_char_boundary. destruct (s !! i) as [b|] eqn:Hb.
  - eapply Forall_lookup_1 in Hs; [|done]. unfold continues.
    destruct (Z.leb_spec 0x80 b); [lia|]. apply orb_true_r.
  - apply lookup_ge_None in Hb. rewrite (bool_decide_true (i = length s)) by lia. apply orb_true_r.
Qed.

(** ** Properties *)

(** C20. No address in the log: whatever event, proposal and voter an entry is
    made of, its line contains no fragment of an address, nine characters or
    more of the alphabet A-Z, 2-7 from a letter on, and so no address at all. *)
Theorem log_lines_hide_addresses (e : SafeLogEntry) (id voter w : str) (pid : Z) :
  0 <= pid → entry_of e id pid voter → address_fragment w = true →
  includes (to_log_line e) w = false.
Proof. intros Hp He Hw. apply harmless_runs_exclude; [|done]. by eapply entry_runs. Qed.

Lemma log_lines_hide_addresses_witness :
  let voter := lit "GA2C5RFPE6GCKMY3US5PAB6UZLKIGSPIUKSLRB6Q723BM2OARMDUYEJ5" in
  ∃ e, from_vote_cast (lit "4f1c9e7a02") 7 voter = Some e ∧
    includes (to_log_line e) voter = false ∧
    includes (to_log_line e) (take 9 voter) = false.
Proof.
  intros voter. eexists. split; [vm_compute; reflexivity|].
  split; apply (log_lines_hide_addresses _ (lit "4f1c9e7a02") voter _ 7);
    first [lia | right; left; vm_compute; reflexivity | vm_compute; reflexivity].
Defined.

(** What an address is masked to: a text of ASCII characters gives the fixed
    mask when it has fewer than ten, and otherwise its first six and last four
    characters, so that ten characters are all shown; the function panics
    exactly when one of the two cuts falls inside a character. *)
Theorem mask_address_exact :
  (∀ a, Forall (λ b, 0 <= b < 0x80) a →
     mask_address a = Some (if (length a <? 10)%nat then masked
                            else take 6 a ++ ellipsis ++ drop (length a - 4) a)) ∧
  (∀ a, Forall (λ b, 0 <= b < 0x80) a → length a = 10%nat →
     ∃ x y, a = x ++ y ∧ mask_address a = Some (x ++ ellipsis ++ y)) ∧
  (∀ a, mask_address a = None ↔
     (10 ≤ length a)%nat ∧ is_char_boundary a 6 && is_char_boundary a (length a - 4) = false).
Proof.
  assert (∀ a, Forall (λ b, 0 <= b < 0x80) a →
     mask_address a = Some (if (length a <? 10)%nat then masked
                            else take 6 a ++ ellipsis ++ drop (length a - 4) a)) as H1.
  { intros a Ha. unfold mask_address. destruct (Nat.ltb_spec (length a) 10); [done|].
    unfold slice_to, slice_from. by rewrite !boundary_ascii by (done || lia). }
  split_and!; [done| |].
  - intros a Ha Hl. exists (take 6 a), (drop 6 a). rewrite take_drop, H1, Hl by done. done.
  - intros a. unfold mask_address, slice_to, slice_from. destruct (Nat.ltb_spec (length a) 10).
    + split; [done|lia].
    + destruct (is_char_boundary a 6), (is_char_boundary a (length a - 4)); simpl; naive_solver.
Qed.

(** What a webhook address is cut to: the scheme and everything up to the first
    slash after it; other texts are left alone, and cutting twice changes
    nothing. A query that no slash precedes stays. *)
Theorem sanitise_webhook_url_exact :
  (∀ scheme host path, scheme = https ∨ scheme = http → slash ∉ host →
     sanitise_webhook_url (scheme ++ host ++ slash :: path) = scheme ++ host ∧
     sanitise_webhook_url (scheme ++ host) = scheme ++ host) ∧
  (∀ url, startsWith url https = false → startsWith url http = false →
     sanitise_webhook_url url = url) ∧
  (∀ url, sanitise_webhook_url (sanitise_webhook_url url) = sanitise_webhook_url url).
Proof.
  assert (∀ scheme rest, scheme = https ∨ scheme = http →
    sanitise_webhook_url (scheme ++ rest) = scheme ++ default rest (head (split_unit slash rest))) as Hs.
  { intros scheme rest [->| ->]; unfold sanitise_webhook_url, strip_prefix.
    - by rewrite !startsWith_app.
    - change (startsWith (http ++ rest) https) with false. by rewrite !startsWith_app. }
  assert (∀ scheme host, scheme = https ∨ scheme = http → slash ∉ host →
    sanitise_webhook_url (scheme ++ host) = scheme ++ host) as Hh.
  { intros scheme host Hsc Hn. by rewrite Hs, split_unit_absent. }
  split_and!.
  - intros scheme host path Hsc Hn. split; [|by apply Hh]. by rewrite Hs, split_unit_app_sep.
  - intros url H1 H2. unfold sanitise_webhook_url, strip_prefix. by rewrite H1, H2.
  - assert (∀ rest, slash ∉ default rest (head (split_unit slash rest))) as Hhost.
    { intros rest. induction rest as [|u rest IH]; [by apply not_elem_of_nil|]. simpl.
      pose proof (split_unit_ne slash rest). destruct (split_unit slash rest) as [|w ws]; [done|].
      destruct (Z.eqb_spec u slash); simpl in *; [by apply not_elem_of_nil|]. set_solver. }
    intros url. destruct (startsWith url https) eqn:H1.
    { apply startsWith_spec in H1 as [rest ->]. rewrite Hs by by left. by apply Hh; [left|]. }
    destruct (startsWith url http) eqn:H2.
    { apply startsWith_spec in H2 as [rest ->]. rewrite Hs by by right. by apply Hh; [right|]. }
    unfold sanitise_webhook_url at 2 3, strip_prefix. rewrite H1, H2.
    unfold sanitise_webhook_url, strip_prefix. by rewrite H1, H2.
Qed.

(** The query of an address without a path is logged. *)
Example query_without_path_is_kept :
  sanitise_webhook_url (lit "https://hooks.example.com?token=secret") =
    lit "https://hooks.example.com?token=secret".
Proof. reflexivity. Qed.

End SecureLog.
