(* ===== verification/ServiceWorker.v ===== *)
(** * The service worker of the front end (frontend/public/sw.js)

    Three handlers over the browser's named caches. A response reaches the page
    before its copy is stored, so the copies on their way are part of the state
    and are stored in any order. The network is an argument of each event. *)
From Stdlib Require Import Ascii String ZArith Lia.
From stdpp Require Import prelude list strings.
From S2P Require Import Prelude JsString.
Local Open Scope Z_scope.

Module ServiceWorker.

Definition CACHE : jstr := js "cosmosvote-v1".
Definition APP_SHELL : list jstr :=
  [js "/"; js "/index.html"; js "/offline.html"; js "/manifest.json"; js "/favicon.svg"].

Record Request := { method : jstr; url : jstr; mode : jstr }.
Record Response := { status : Z; body : jstr }.
(** [response.ok] *)
Definition ok (r : Response) : bool := (200 <=? status r) && (status r <? 300).

(** ** The caches of the browser

    A cache maps addresses to responses; the storage keeps its caches in the order
    they were created, and is searched in that order. *)
Notation cache := (list (jstr * Response)).
Notation storage := (list (jstr * cache)).

(** [cache.put(request, response)]: a response that is partial is refused. *)
Definition cache_put (u : jstr) (r : Response) (c : cache) : cache :=
  if status r =? 206 then c else (u, r) :: filter (λ e, e.1 ≠ u) c.

(** [caches.open(name)] creates the cache when there is none of the name. *)
Definition open (name : jstr) (s : storage) : storage :=
  match assoc name s with Some _ => s | None => s ++ [(name, [])] end.
Definition update (name : jstr) (f : cache → cache) (s : storage) : storage :=
  (λ e, if decide (e.1 = name) then (e.1, f e.2) else e) <$> s.

(** [caches.match(request)] *)
Fixpoint match_ (u : jstr) (s : storage) : option Response :=
  match s with
  | [] => None
  | (_, c) :: s' => match assoc u c with Some r => Some r | None => match_ u s' end
  end.

Section worker.
  (** The address of a path of this site. *)
  Variable resolve : jstr → jstr.

(** The worker's state: the browser's caches, and the copies not yet stored. *)
Record State := { caches : storage; pending : list (jstr * Response) }.

(** ** install: [cache.addAll(APP_SHELL)] fetches all of them and stores them when
    every answer is a success, and nothing otherwise. *)
Fixpoint fetch_all (network : jstr → option Response) (us : list jstr) : option cache :=
  match us with
  | [] => Some []
  | u :: us' =>
      r ← network (resolve u);
      if ok r && negb (status r =? 206) then rs ← fetch_all network us'; Some ((resolve u, r) :: rs) else None
  end.
Definition put_all (rs : cache) (c : cache) : cache := foldl (λ c e, cache_put e.1 e.2 c) c rs.

Definition install (network : jstr → option Response) (s : State) : bool * State :=
  let opened := open CACHE (caches s) in
  match fetch_all network APP_SHELL with
  | Some rs => (true, {| caches := update CACHE (put_all rs) opened; pending := pending s |})
  | None => (false, {| caches := opened; pending := pending s |})
  end.

(** ** activate: every other cache is deleted. *)
Definition activate (s : State) : State :=
  {| caches := filter (λ e, e.1 = CACHE) (caches s); pending := pending s |}.

(** ** fetch: what the page gets. [NotHandled]: the browser goes on by itself;
    [NoResponse]: the promise gives no response, which is a network error. *)
Inductive Answer := NotHandled | Respond (r : Response) | NoResponse.

Definition unavailable : Response := {| status := 503; body := [] |}.

Definition fetch (network : jstr → option Response) (q : Request) (s : State) : Answer * State :=
  if bool_decide (method q ≠ js "GET") then (NotHandled, s)
  else match network (url q) with
       | Some response =>
           (Respond response, {| caches := caches s; pending := pending s ++ [(url q, response)] |})
       | None =>
           (match match_ (url q) (caches s) with
            | Some cached => Respond cached
            | None =>
                if bool_decide (mode q = js "navigate")
                then match match_ (resolve (js "/offline.html")) (caches s) with
                     | Some r => Respond r
                     | None => NoResponse
                     end
                else Respond unavailable
            end, s)
       end.

(** The [i]-th copy on its way is stored. *)
Definition store (i : nat) (s : State) : State :=
  match pending s !! i with
  | Some (u, r) => {| caches := update CACHE (cache_put u r) (open CACHE (caches s));
                      pending := delete i (pending s) |}
  | None => s
  end.

(** ** The life of a worker: the events after its installation, in any order. *)
Inductive Event :=
| Activate
| Fetch (network : jstr → option Response) (q : Request)
| Store (i : nat).
Definition handle (e : Event) (s : State) : State :=
  match e with
  | Activate => activate s
  | Fetch network q => (fetch network q s).2
  | Store i => store i s
  end.
Definition life (es : list Event) (s : State) : State := foldl (flip handle) s es.

End worker.
(** ** Lemmas *)
Section lemmas.
  Variable resolve : jstr → jstr.
  Implicit Types (s : State) (c : cache).

Lemma assoc_elem {K V} `{EqDecision K} (k : K) (t : list (K * V)) v : assoc k t = Some v → (k, v) ∈ t.
Proof.
  induction t as [|[k' v'] t IH]; [done|]. cbn [assoc]. destruct (decide (k = k')) as [->|_].
  - intros [= ->]. by left.
  - intros H. right. by apply IH.
Qed.
Lemma assoc_filter_ne (u v : jstr) c :
  u ≠ v → assoc u (filter (λ e, e.1 ≠ v) c) = assoc u c.
Proof.
  intros Hne. induction c as [|[w r] c IH]; [done|]. rewrite filter_cons. cbn [fst assoc].
  destruct (decide (w ≠ v)) as [Hw|Hw]; cbn [assoc]; rewrite IH; [done|].
  destruct (decide (u = w)) as [->|]; [|done]. by destruct Hw.
Qed.

(** A copy that is stored replaces the one before, unless it is partial. *)
Lemma assoc_put u v r c :
  assoc u (cache_put v r c) = if decide (u = v ∧ status r ≠ 206) then Some r else assoc u c.
Proof.
  unfold cache_put. destruct (Z.eqb_spec (status r) 206) as [Hs|Hs].
  - rewrite decide_False; [done|]. by intros [_ ?].
  - cbn [assoc]. destruct (decide (u = v)) as [->|Hne].
    + by rewrite decide_True.
    + rewrite decide_False by naive_solver. by apply assoc_filter_ne.
Qed.
Lemma put_elem e v r c : e ∈ cache_put v r c → e = (v, r) ∨ e ∈ c.
Proof.
  unfold cache_put. destruct (_ =? _); [by right|].
  intros [->|He]%elem_of_cons; [by left|]. apply list_elem_of_filter in He as [_ He]. by right.
Qed.

(** The worker's cache is there and holds the address. *)
Definition holds (u : jstr) (s : State) : Prop :=
  ∃ c, (CACHE, c) ∈ caches s ∧ is_Some (assoc u c).

Lemma match_elem u n c (st : storage) : (n, c) ∈ st → is_Some (assoc u c) → is_Some (match_ u st).
Proof.
  intros Hn Hu. induction st as [|[n' c'] st IH]; [by apply elem_of_nil in Hn|]. cbn [match_].
  destruct (assoc u c') eqn:Hc; [by eauto|]. apply elem_of_cons in Hn as [[= -> ->]|Hn].
  - rewrite Hc in Hu. by destruct Hu.
  - by apply IH.
Qed.
Lemma match_from u r (st : storage) : match_ u st = Some r → ∃ n c, (n, c) ∈ st ∧ (u, r) ∈ c.
Proof.
  induction st as [|[n c] st IH]; [done|]. cbn [match_]. destruct (assoc u c) eqn:Hc.
  - intros [= ->]. exists n, c. split; [by left | by apply assoc_elem].
  - intros (n' & c' & Hn & Hr)%IH. exists n', c'. split; [by right | done].
Qed.

Lemma open_elem e n (st : storage) : e ∈ st → e ∈ open n st.
Proof. unfold open. intros He. case_match; [done|]. apply elem_of_app. by left. Qed.
Lemma open_from m c n (st : storage) : (m, c) ∈ open n st → (m, c) ∈ st ∨ c = [].
Proof.
  unfold open. case_match; [by left|]. intros [?|He]%elem_of_app; [by left|].
  apply list_elem_of_singleton in He. right. congruence.
Qed.
Lemma open_there n (st : storage) : ∃ c, (n, c) ∈ open n st.
Proof.
  unfold open. destruct (assoc n st) as [c|] eqn:Hn.
  - exists c. by apply assoc_elem.
  - exists []. apply elem_of_app. right. by left.
Qed.
Lemma update_elem n f c (st : storage) : (n, c) ∈ st → (n, f c) ∈ update n f st.
Proof.
  intros Hc. unfold update. apply list_elem_of_fmap. exists (n, c). split; [|done]. cbn.
  by rewrite decide_True.
Qed.
Lemma update_from m c n f (st : storage) :
  (m, c) ∈ update n f st → ∃ c', (m, c') ∈ st ∧ (c = c' ∨ c = f c').
Proof.
  unfold update. intros ([m' c'] & He & Hin)%list_elem_of_fmap. cbn in He.
  case_decide; simplify_eq; eauto.
Qed.

Lemma handle_holds e u s : holds u s → holds u (handle resolve e s).
Proof.
  intros (c & Hc & Hu). destruct e as [|net q|i]; cbn [handle].
  - exists c. split; [|done]. cbn [activate caches]. apply list_elem_of_filter. done.
  - exists c. split; [|done]. unfold fetch. case_bool_decide; [done|]. by destruct (net (url q)).
  - unfold store. destruct (pending s !! i) as [[v r]|]; [|by exists c].
    exists (cache_put v r c). split; [by apply update_elem, open_elem|].
    rewrite assoc_put. case_decide; eauto.
Qed.
Lemma life_holds es u s : holds u s → holds u (life resolve es s).
Proof. apply (fold_preserves (handle resolve) (holds u)). intros e s'. apply handle_holds. Qed.

(** Where a response the worker may give comes from. *)
Definition stocked (u : jstr) (r : Response) (s : State) : Prop :=
  (∃ n c, (n, c) ∈ caches s ∧ (u, r) ∈ c) ∨ (u, r) ∈ pending s.
(** The network gave this response to a request of this event. *)
Definition heard (u : jstr) (r : Response) (e : Event) : Prop :=
  match e with Fetch net q => method q = js "GET" ∧ url q = u ∧ net u = Some r | _ => False end.

Lemma handle_stocked e u r s : stocked u r (handle resolve e s) → stocked u r s ∨ heard u r e.
Proof.
  destruct e as [|net q|i]; cbn [handle heard].
  - intros [(n & c & Hn & Hc)|Hp]; [|by left; right]. cbn [activate caches] in Hn.
    apply list_elem_of_filter in Hn as [_ Hn]. left. left. eauto.
  - unfold fetch. case_bool_decide as Hm; [by left|]. destruct (net (url q)) as [r'|] eqn:Hq; [|by left].
    cbn [snd]. intros [H|Hp]; [by left; left|]. cbn [pending] in Hp.
    apply elem_of_app in Hp as [Hp|Hp]; [by left; right|]. apply list_elem_of_singleton in Hp.
    injection Hp as -> ->. right. split; [|done]. by destruct (decide (method q = js "GET")).
  - unfold store. destruct (pending s !! i) as [[v r']|] eqn:Hi; [|by left].
    intros [(n & c & Hn & Hc)|Hp]; left.
    + cbn [caches] in Hn. apply update_from in Hn as (c' & Hn & Heq).
      assert ((u, r) = (v, r') ∨ (u, r) ∈ c') as [[= -> ->]|Hc'].
      { destruct Heq as [->| ->]; [by right | by apply put_elem]. }
      * right. by eapply list_elem_of_lookup_2.
      * apply open_from in Hn as [Hn| ->]; [left; eauto | by apply elem_of_nil in Hc'].
    + right. cbn [pending] in Hp. apply list_elem_of_lookup in Hp as [k Hk].
      apply list_elem_of_lookup. destruct (decide (k < i)%nat).
      * rewrite list_lookup_delete_lt in Hk by done. eauto.
      * rewrite list_lookup_delete_ge in Hk by lia. eauto.
Qed.
Lemma life_stocked es u r s :
  stocked u r (life resolve es s) → stocked u r s ∨ Exists (heard u r) es.
Proof.
  revert s. induction es as [|e es IH]; intros s H; [by left|]. unfold life in *. cbn [foldl] in H.
  apply IH in H as [H|H]; [|right; by apply Exists_cons_tl].
  apply handle_stocked in H as [H|H]; [by left | right; by apply Exists_cons_hd].
Qed.
End lemmas.

(** ** Installation *)
Section installation.
  Variable resolve : jstr → jstr.

Lemma fetch_all_Some net us rs :
  fetch_all resolve net us = Some rs →
  rs.*1 = resolve <$> us ∧ Forall (λ e, net e.1 = Some e.2 ∧ ok e.2 = true ∧ status e.2 ≠ 206) rs.
Proof.
  revert rs. induction us as [|u us IH]; intros rs H; cbn [fetch_all] in H; [by simplify_eq|].
  apply bind_Some in H as (r & Hr & H). destruct (ok r) eqn:Hok; [|done].
  destruct (Z.eqb_spec (status r) 206); [done|]. simpl in H.
  apply bind_Some in H as (rs' & Hrs & [= <-]). destruct (IH _ Hrs) as [H1 H2]. split.
  - csimpl. by rewrite H1.
  - by constructor.
Qed.
Lemma put_all_holds rs c u :
  Forall (λ e, status e.2 ≠ 206) rs → u ∈ rs.*1 → is_Some (assoc u (put_all rs c)).
Proof.
  induction rs as [|[v r] rs IH] using rev_ind; intros Hs Hu; [by apply elem_of_nil in Hu|].
  apply Forall_app in Hs as [Hs [Hr _]%Forall_cons]. unfold put_all. rewrite foldl_app. cbn [foldl fst snd].
  rewrite assoc_put. case_decide as Hd; [by eauto|]. apply IH; [done|].
  rewrite fmap_app in Hu. apply elem_of_app in Hu as [Hu|Hu]; [done|].
  apply list_elem_of_singleton in Hu. by destruct Hd.
Qed.
Lemma put_all_elem rs c e : e ∈ put_all rs c → e ∈ rs ∨ e ∈ c.
Proof.
  induction rs as [|[v r] rs IH] using rev_ind; [by right|]. unfold put_all. rewrite foldl_app. cbn [foldl fst snd].
  intros [->|He]%put_elem.
  - left. apply elem_of_app. right. by left.
  - destruct (IH He); [left; apply elem_of_app; by left | by right].
Qed.

Lemma install_holds net s0 s u :
  install resolve net s0 = (true, s) → u ∈ resolve <$> APP_SHELL → holds u s.
Proof.
  unfold install. destruct (fetch_all resolve net APP_SHELL) as [rs|] eqn:Hf; intros [= <-] Hu.
  apply fetch_all_Some in Hf as [H1 H2]. destruct (open_there CACHE (caches s0)) as [c Hc].
  exists (put_all rs c). split; [by apply update_elem|]. apply put_all_holds.
  - eapply Forall_impl; [exact H2|]. naive_solver.
  - by rewrite H1.
Qed.
Lemma install_stocked net s0 s b u r :
  install resolve net s0 = (b, s) → stocked u r s →
  stocked u r s0 ∨ (u ∈ resolve <$> APP_SHELL ∧ net u = Some r).
Proof.
  unfold install. intros Hs [(n & c & Hn & Hc)|Hp].
  - destruct (fetch_all resolve net APP_SHELL) as [rs|] eqn:Hf; injection Hs as <- <-; cbn [caches] in Hn.
    + apply fetch_all_Some in Hf as [H1 H2]. apply update_from in Hn as (c' & Hn & Hcc).
      assert ((u, r) ∈ rs ∨ (u, r) ∈ c') as [Hr|Hc'].
      { destruct Hcc as [->| ->]; [by right | by apply put_all_elem]. }
      * right. rewrite <- H1. eapply list.Forall_forall in H2 as (H2 & _); [|exact Hr].
        split; [|done]. apply list_elem_of_fmap. by exists (u, r).
      * apply open_from in Hn as [Hn| ->]; [left; left; eauto | by apply elem_of_nil in Hc'].
    + apply open_from in Hn as [Hn| ->]; [left; left; eauto | by apply elem_of_nil in Hc].
  - left. right. destruct (fetch_all resolve net APP_SHELL); by simplify_eq.
Qed.
End installation.

(** ** Properties *)
Section properties.
  Variable resolve : jstr → jstr.

(** C26. An installed worker always answers, and never makes an answer up: once the
    installation has succeeded, whatever was requested, answered, stored and
    activated since, a GET that the network does not answer gets a response; it is
    one that the network gave before for that address, or was in the browser's
    caches for it; or, for a page, one of these for the offline page; or, for
    anything else, an empty 503. *)
Theorem offline_requests_are_answered (net0 net : jstr → option Response) (s0 s : State)
    (es : list Event) (q : Request) :
  install resolve net0 s0 = (true, s) → method q = js "GET" → net (url q) = None →
  let known u r := stocked u r s0 ∨ (u ∈ resolve <$> APP_SHELL ∧ net0 u = Some r) ∨ Exists (heard u r) es in
  ∃ r, (fetch resolve net q (life resolve es s)).1 = Respond r ∧
    (known (url q) r ∨
     (mode q = js "navigate" ∧ known (resolve (js "/offline.html")) r) ∨
     (mode q ≠ js "navigate" ∧ r = unavailable)).
Proof.
  intros Hi Hm Hn known.
  assert (∀ u r, match_ u (caches (life resolve es s)) = Some r → known u r) as Hk.
  { intros u r (n & c & Hc & Hr)%match_from. unfold known.
    destruct (life_stocked resolve es u r s) as [Hs|Hs]; [left; eauto| |by right; right].
    destruct (install_stocked resolve _ _ _ _ _ _ Hi Hs); [by left | by right; left]. }
  unfold fetch. rewrite bool_decide_false by (by intros H; apply H). rewrite Hn.
  destruct (match_ (url q) _) as [r|] eqn:Hu; [by eauto|].
  case_bool_decide as Hmode; [|by eauto 6].
  assert (holds (resolve (js "/offline.html")) (life resolve es s)) as (c & Hc & Ho).
  { apply life_holds. eapply install_holds; [exact Hi|]. apply list_elem_of_fmap.
    exists (js "/offline.html"). split; [done|]. right. right. by left. }
  destruct (match_elem _ _ _ _ Hc Ho) as [r Hr]. cbn [fst]. rewrite Hr. exists r. eauto 6.
Qed.

(** Installation is all or nothing: it succeeds exactly when every file of the
    shell is answered with a success, and a failed one leaves the worker's cache as
    it was, created empty if there was none. *)
Theorem install_all_or_nothing (net : jstr → option Response) (s : State) :
  ((install resolve net s).1 = true ↔
     Forall (λ p, ∃ r, net (resolve p) = Some r ∧ ok r = true ∧ status r ≠ 206) APP_SHELL) ∧
  ((install resolve net s).1 = false →
     caches (install resolve net s).2 = open CACHE (caches s)).
Proof.
  unfold install. destruct (fetch_all resolve net APP_SHELL) as [rs|] eqn:Hf; cbn [fst snd]; split; try done.
  - apply fetch_all_Some in Hf as [H1 H2]. split; [intros _|done]. apply list.Forall_forall. intros p Hp.
    assert (resolve p ∈ rs.*1) as Hr by (rewrite H1; by apply list_elem_of_fmap_2).
    apply list_elem_of_fmap in Hr as ([u r] & Hu & Hr). eapply list.Forall_forall in H2; [|exact Hr].
    cbn in *. subst u. naive_solver.
  - split; [done|]. intros Hall. exfalso. revert Hf. generalize APP_SHELL, Hall.
    intros us Hus. induction Hus as [|p us (r & Hr & Hok & Hs) _ IH]; cbn [fetch_all]; [done|].
    rewrite Hr. cbn. rewrite Hok, (proj2 (Z.eqb_neq _ _) Hs). cbn.
    destruct (fetch_all resolve net us); [done|]. by intros _; apply IH.
Qed.
End properties.

(** ** What offline pages show *)
Definition page (n : Z) (text : string) : Response := {| status := n; body := js text |}.
Definition site (p : jstr) : jstr := js "https://vote.example" ++ p.
Definition online (u : jstr) : option Response := Some (page 200 "page").
Definition navigation : Request := {| method := js "GET"; url := site (js "/"); mode := js "navigate" |}.
Definition browser : State := {| caches := [(js "cosmosvote-v0", [])]; pending := [] |}.
Definition installed : State := (install site online browser).2.

(** Every answer is stored, an error page too: after one failure of the server the
    good copy is gone, and the error is what the page shows offline. *)
Theorem error_page_replaces_copy :
  (fetch site (λ _, None) navigation installed).1 = Respond (page 200 "page") ∧
  (fetch site (λ _, None) navigation
     (life site [Fetch (λ _, Some (page 500 "error")) navigation; Store 0] installed)).1 =
    Respond (page 500 "error").
Proof. split; vm_compute; reflexivity. Qed.

(** Copies are stored in the order their streams end, not in that of the
    answers: an older answer can replace a newer one. *)
Theorem older_copy_wins :
  (fetch site (λ _, None) navigation
     (life site [Fetch (λ _, Some (page 200 "old")) navigation;
                 Fetch (λ _, Some (page 200 "new")) navigation; Store 1; Store 0] installed)).1 =
    Respond (page 200 "old").
Proof. vm_compute. reflexivity. Qed.

Lemma offline_requests_are_answered_witness :
  let es := [Activate; Fetch (λ _, Some (page 200 "fresh")) navigation; Store 0] in
  let other := {| method := js "GET"; url := site (js "/p/7"); mode := js "navigate" |} in
  (fetch site (λ _, None) navigation (life site es installed)).1 = Respond (page 200 "fresh") ∧
  (∃ r, (fetch site (λ _, None) navigation (life site es installed)).1 = Respond r) ∧
  (∃ r, (fetch site (λ _, None) other (life site es installed)).1 = Respond r).
Proof.
  intros es other. split; [vm_compute; reflexivity|].
  assert (install site online browser = (true, installed)) as Hi by (vm_compute; reflexivity).
  split.
  - destruct (offline_requests_are_answered site online (λ _, None) browser installed es navigation Hi
      eq_refl eq_refl) as (r & Hr & _). exists r. exact Hr.
  - destruct (offline_requests_are_answered site online (λ _, None) browser installed es other Hi
      eq_refl eq_refl) as (r & Hr & _). exists r. exact Hr.
Defined.

End ServiceWorker.
