(* ===== verification/Json.v ===== *)
(** * JSON texts

    Values of JSON, [JSON.stringify(v, null, gap)] and [JSON.parse]. The printer
    escapes what ECMAScript escapes, unpaired surrogates included; the parser
    reads the whole grammar, the last of two members with one name being kept.
    Members keep their order: a member whose name is an array index would be
    listed first, and no source has one. Numbers are doubles. *)
From Stdlib Require Import Ascii String ZArith Lia.
From stdpp Require Import prelude list strings.
From S2P Require Import Prelude JsString JsNumber Utf8.
Local Open Scope Z_scope.

Module Json.

Unset Elimination Schemes.
Inductive json :=
| JNull
| JBool (b : bool)
| JNum (x : jsnum)
| JStr (s : jstr)
| JArr (l : list json)
| JObj (l : list (jstr * json)).
Set Elimination Schemes.

(** Induction on the members at every depth. *)
Lemma json_ind (P : json → Prop) :
  P JNull → (∀ b, P (JBool b)) → (∀ x, P (JNum x)) → (∀ s, P (JStr s)) →
  (∀ l, Forall P l → P (JArr l)) → (∀ l, Forall (λ kv, P kv.2) l → P (JObj l)) → ∀ v, P v.
Proof.
  intros Hn Hb Hx Hs Ha Ho. fix IH 1.
  intros [|b|x|s|l|l]; [exact Hn | apply Hb | apply Hx | apply Hs | |].
  - apply Ha. induction l as [|v l IHl]; [by apply Forall_nil|]. by apply Forall_cons.
  - apply Ho. induction l as [|[k v] l IHl]; [by apply Forall_nil|]. apply Forall_cons.
    split; [exact (IH v) | exact IHl].
Qed.

(** ** JSON.stringify *)
Definition hex_digit (d : Z) : Z := if d <? 10 then 48 + d else 87 + d.
(** [\uXXXX] *)
Definition unicode_escape (u : Z) : jstr :=
  [92; 117; hex_digit (u / 4096); hex_digit (u / 256 mod 16); hex_digit (u / 16 mod 16);
   hex_digit (u mod 16)].
Definition short_escapes : list (Z * Z) :=
  [(34, 34); (92, 92); (8, 98); (12, 102); (10, 110); (13, 114); (9, 116)].
Definition is_control (u : Z) : bool := (0 <=? u) && (u <? 32).
Definition escape_unit (u : Z) : jstr :=
  match assoc u short_escapes with
  | Some c => [92; c]
  | None => if is_control u then unicode_escape u else [u]
  end.
Fixpoint quote_units (s : jstr) : jstr :=
  match s with
  | [] => []
  | u :: s' =>
      if is_high u
      then match s' with
           | v :: s'' => if is_low v then u :: v :: quote_units s''
                         else unicode_escape u ++ quote_units s'
           | [] => unicode_escape u
           end
      else (if is_low u then unicode_escape u else escape_unit u) ++ quote_units s'
  end.
Definition quote (s : jstr) : jstr := 34 :: quote_units s ++ [34].

(** The line break of depth [d] and the separator after a name; without a gap the
    text is on one line. *)
Definition newline (gap d : nat) : jstr :=
  match gap with O => [] | _ => 10 :: replicate (gap * d) 32 end.
Definition colon (gap : nat) : jstr := match gap with O => [58] | _ => [58; 32] end.

(** [o items c] on the lines of depth [d]. *)
Definition bracket (gap d : nat) (o c : Z) (items : list jstr) : jstr :=
  match items with
  | [] => [o; c]
  | _ => o :: newline gap (S d) ++ join (44 :: newline gap (S d)) items ++ newline gap d ++ [c]
  end.

Fixpoint print (gap d : nat) (v : json) : jstr :=
  match v with
  | JNull => js "null"
  | JBool b => if b then js "true" else js "false"
  | JNum (Fin _ _ as x) => string_of_num x
  | JNum _ => js "null"
  | JStr s => quote s
  | JArr l => bracket gap d 91 93 (List.map (print gap (S d)) l)
  | JObj l => bracket gap d 123 125
                (List.map (λ kv, quote kv.1 ++ colon gap ++ print gap (S d) kv.2) l)
  end.
Definition stringify (gap : nat) (v : json) : jstr := print gap 0 v.

(** ** JSON.parse *)
Definition is_ws (u : Z) : bool := bool_decide (u ∈ [9; 10; 13; 32]).
Fixpoint skip_ws (s : jstr) : jstr :=
  match s with
  | u :: s' => if is_ws u then skip_ws s' else s
  | [] => []
  end.

(** The characters after a backslash, but for [u]. *)
Definition unescape (c : Z) : option Z :=
  assoc c [(34, 34); (92, 92); (47, 47); (98, 8); (102, 12); (110, 10); (114, 13); (116, 9)].
Definition hex4 (a b c d : Z) : option Z :=
  if forallb (λ u, digit_value u <? 16) [a; b; c; d]
  then Some (digit_value a * 4096 + digit_value b * 256 + digit_value c * 16 + digit_value d)
  else None.

(** After the opening quote: the string and what follows the closing quote. *)
Fixpoint string_body (s : jstr) : option (jstr * jstr) :=
  match s with
  | [] => None
  | u :: r =>
      if u =? 34 then Some ([], r)
      else if u =? 92 then
        match r with
        | c :: r1 =>
            match unescape c with
            | Some x => '(t, r') ← string_body r1; Some (x :: t, r')
            | None =>
                if c =? 117 then
                  match r1 with
                  | h1 :: h2 :: h3 :: h4 :: r2 =>
                      x ← hex4 h1 h2 h3 h4; '(t, r') ← string_body r2; Some (x :: t, r')
                  | _ => None
                  end
                else None
            end
        | [] => None
        end
      else if is_control u then None
      else '(t, r') ← string_body r; Some (u :: t, r')
  end.

(** A number: the longest run of its characters, which must follow the grammar. *)
Definition is_num_char (u : Z) : bool := is_digit u || bool_decide (u ∈ [43; 45; 46; 69; 101]).
Definition is_literal (s : jstr) : bool :=
  let s1 := match s with 45 :: r => r | _ => s end in
  let '(ip, r1) := span is_digit s1 in
  match ip with
  | [] => false
  | d :: ds =>
      (negb (d =? 48) || bool_decide (ds = [])) &&
      match r1 with
      | 46 :: r => let '(fp, r2) := span is_digit r in
                   negb (bool_decide (fp = [])) && bool_decide (is_Some (parse_exponent r2))
      | _ => bool_decide (is_Some (parse_exponent r1))
      end
  end.
Definition parse_number (s : jstr) : option (json * jstr) :=
  let '(lit, r) := span is_num_char s in
  if is_literal lit then Some (JNum (js_Number lit), r) else None.

Definition keyword (w : jstr) (v : json) (s : jstr) : option (json * jstr) :=
  if startsWith s w then Some (v, drop (length w) s) else None.

(** Of two members with one name the second value is kept, in the first place. *)
Fixpoint put_member (k : jstr) (v : json) (l : list (jstr * json)) : list (jstr * json) :=
  match l with
  | [] => [(k, v)]
  | (k', v') :: l' => if bool_decide (k = k') then (k, v) :: l' else (k', v') :: put_member k v l'
  end.
Definition members_of (l : list (jstr * json)) : list (jstr * json) :=
  foldl (λ acc kv, put_member kv.1 kv.2 acc) [] l.

(** [value fuel s] reads a value at the head of [s]; the fuel bounds the depth of
    the calls, and one more than the length of the text is enough. *)
Fixpoint value (fuel : nat) (s : jstr) : option (json * jstr) :=
  match fuel with
  | O => None
  | S f =>
      match skip_ws s with
      | [] => None
      | u :: r =>
          if u =? 34 then '(t, r') ← string_body r; Some (JStr t, r')
          else if u =? 91 then
            match skip_ws r with
            | 93 :: r' => Some (JArr [], r')
            | _ => '(l, r') ← elements f r; Some (JArr l, r')
            end
          else if u =? 123 then
            match skip_ws r with
            | 125 :: r' => Some (JObj [], r')
            | _ => '(l, r') ← members f r; Some (JObj (members_of l), r')
            end
          else if u =? 110 then keyword (js "null") JNull (u :: r)
          else if u =? 116 then keyword (js "true") (JBool true) (u :: r)
          else if u =? 102 then keyword (js "false") (JBool false) (u :: r)
          else parse_number (u :: r)
      end
  end
with elements (fuel : nat) (s : jstr) : option (list json * jstr) :=
  match fuel with
  | O => None
  | S f =>
      '(v, r) ← value f s;
      match skip_ws r with
      | 44 :: r' => '(l, r'') ← elements f r'; Some (v :: l, r'')
      | 93 :: r' => Some ([v], r')
      | _ => None
      end
  end
with members (fuel : nat) (s : jstr) : option (list (jstr * json) * jstr) :=
  match fuel with
  | O => None
  | S f =>
      match skip_ws s with
      | 34 :: r0 =>
          '(k, r1) ← string_body r0;
          match skip_ws r1 with
          | 58 :: r2 =>
              '(v, r3) ← value f r2;
              match skip_ws r3 with
              | 44 :: r4 => '(l, r5) ← members f r4; Some ((k, v) :: l, r5)
              | 125 :: r4 => Some ([(k, v)], r4)
              | _ => None
              end
          | _ => None
          end
      | _ => None
      end
  end.

Definition parse (s : jstr) : option json :=
  '(v, r) ← value (S (length s)) s;
  if bool_decide (skip_ws r = []) then Some v else None.

(** ** Evaluation *)
Example stringify_ex :
  stringify 2 (JObj [(js "a", JArr [JNum (num_of_Z 1); JStr [34; 10; 0xD800]]); (js "b", JObj [])])
  = js "{" ++ [10] ++ js "  " ++ quote (js "a") ++ js ": [" ++ [10] ++ js "    1," ++ [10]
      ++ js "    " ++ [34; 92; 34; 92; 110] ++ js "\ud800" ++ [34; 10] ++ js "  ]," ++ [10]
      ++ js "  " ++ quote (js "b") ++ js ": {}" ++ [10] ++ js "}".
Proof. vm_compute. reflexivity. Qed.
Example parse_ex :
  parse (js " [ 1.50 , true,{ " ++ quote (js "k") ++ js " :null} ] ")
  = Some (JArr [JNum (Fin 3 (-1)); JBool true; JObj [(js "k", JNull)]]).
Proof. vm_compute. reflexivity. Qed.
Example parse_bad : parse (js "[1,]") = None ∧ parse (js "01") = None ∧ parse (js "1 2") = None.
Proof. vm_compute. done. Qed.
Example parse_twice :
  parse (js "{" ++ quote (js "k") ++ js ":1," ++ quote (js "k") ++ js ":2}")
  = Some (JObj [(js "k", JNum (num_of_Z 2))]).
Proof. vm_compute. done. Qed.
(** ** Lemmas *)
Lemma high_low u : is_high u = true → is_low u = false.
Proof. unfold is_high, is_low. intros H. bool_prop. lia. Qed.
Lemma surrogate_range u : is_high u = true ∨ is_low u = true → 0xD800 <= u < 0xE000.
Proof. unfold is_high, is_low. intros [H|H]; bool_prop; lia. Qed.

Lemma digit_value_hex d : 0 <= d < 16 → digit_value (hex_digit d) = d.
Proof.
  intros Hd. unfold digit_value, hex_digit, is_digit. destruct (Z.ltb_spec d 10).
  - rewrite (proj2 (andb_true_iff _ _)); [lia|]. rewrite !Z.leb_le. lia.
  - rewrite (proj2 (andb_false_iff _ _)) by (rewrite !Z.leb_gt; lia).
    rewrite (proj2 (andb_true_iff _ _)); [lia|]. rewrite !Z.leb_le. lia.
Qed.

Lemma string_body_unicode u s :
  0 <= u < 0x10000 →
  string_body (unicode_escape u ++ s) = '(t, r) ← string_body s; Some (u :: t, r).
Proof.
  intros Hu. cbn [unicode_escape app string_body]. change (92 =? 34) with false.
  change (92 =? 92) with true. change (unescape 117) with (@None Z). change (117 =? 117) with true.
  cbn match. unfold hex4, forallb. rewrite !digit_value_hex by (Z.to_euclidean_division_equations; lia).
  rewrite !(proj2 (Z.ltb_lt _ _)) by (Z.to_euclidean_division_equations; lia). cbn [andb].
  change (Some ?x ≫= ?f) with (f x). cbn beta.
  replace (u / 4096 * 4096 + u / 256 mod 16 * 256 + u / 16 mod 16 * 16 + u mod 16) with u; [done|].
  Z.to_euclidean_division_equations; lia.
Qed.

Lemma string_body_raw u s :
  u ≠ 34 → u ≠ 92 → is_control u = false →
  string_body (u :: s) = '(t, r) ← string_body s; Some (u :: t, r).
Proof.
  intros H1 H2 H3. cbn [string_body]. rewrite (proj2 (Z.eqb_neq _ _) H1), (proj2 (Z.eqb_neq _ _) H2), H3.
  done.
Qed.

Lemma string_body_escape u s :
  string_body (escape_unit u ++ s) = '(t, r) ← string_body s; Some (u :: t, r).
Proof.
  unfold escape_unit, short_escapes, assoc.
  destruct (decide (u = 34)) as [->|H1]; [done|]. destruct (decide (u = 92)) as [->|H2]; [done|].
  destruct (decide (u = 8)) as [->|_]; [done|]. destruct (decide (u = 12)) as [->|_]; [done|].
  destruct (decide (u = 10)) as [->|_]; [done|]. destruct (decide (u = 13)) as [->|_]; [done|].
  destruct (decide (u = 9)) as [->|_]; [done|].
  destruct (is_control u) eqn:Hc; [|by apply string_body_raw].
  apply string_body_unicode. unfold is_control in Hc. bool_prop. lia.
Qed.

Lemma string_body_surrogate u s :
  is_high u = true ∨ is_low u = true →
  string_body (u :: s) = ('(t, r) ← string_body s; Some (u :: t, r)) ∧
  string_body (unicode_escape u ++ s) = '(t, r) ← string_body s; Some (u :: t, r).
Proof.
  intros Hu%surrogate_range. split; [apply string_body_raw; try lia | apply string_body_unicode; lia].
  unfold is_control. apply andb_false_iff. rewrite Z.ltb_ge. lia.
Qed.

(** A quoted string is read back, whatever its units. *)
Lemma string_body_quote_aux n s r :
  (length s ≤ n)%nat → string_body (quote_units s ++ 34 :: r) = Some (s, r).
Proof.
  revert s. induction n as [|n IH]; intros [|u s] Hn; [done|simpl in Hn; lia|done|].
  cbn [quote_units]. simpl in Hn. destruct (is_high u) eqn:Hh.
  - destruct s as [|v s].
    { rewrite (proj2 (string_body_surrogate u _ (or_introl Hh))). done. }
    destruct (is_low v) eqn:Hv.
    + cbn [app]. rewrite (proj1 (string_body_surrogate u _ (or_introl Hh))).
      rewrite (proj1 (string_body_surrogate v _ (or_intror Hv))). rewrite IH; [done|simpl in Hn; lia].
    + rewrite <- app_assoc, (proj2 (string_body_surrogate u _ (or_introl Hh))). rewrite IH; [done|lia].
  - rewrite <- app_assoc. destruct (is_low u) eqn:Hl.
    + rewrite (proj2 (string_body_surrogate u _ (or_intror Hl))). rewrite IH; [done|lia].
    + rewrite string_body_escape, IH; [done|lia].
Qed.
Lemma string_body_quote s r : string_body (quote_units s ++ 34 :: r) = Some (s, r).
Proof. by eapply string_body_quote_aux. Qed.

(** *** Blanks *)
Lemma skip_ws_head u s : is_ws u = false → skip_ws (u :: s) = u :: s.
Proof. cbn [skip_ws]. by intros ->. Qed.
Lemma skip_ws_newline gap d s : skip_ws (newline gap d ++ s) = skip_ws s.
Proof.
  destruct gap as [|g]; [done|]. unfold newline. cbn [app]. cbn [skip_ws].
  change (is_ws 10) with true. cbn match. induction (S g * d)%nat as [|k IH]; [done|]. exact IH.
Qed.
Lemma skip_ws_colon gap s : skip_ws (drop 1 (colon gap) ++ s) = skip_ws s.
Proof. by destruct gap. Qed.

(** [value] and [members] start by skipping blanks. *)
Lemma value_skip fuel s s' : skip_ws s = skip_ws s' → value fuel s = value fuel s'.
Proof. intros H. destruct fuel; [done|]. cbn [value]. by rewrite H. Qed.
Lemma members_skip fuel s s' : skip_ws s = skip_ws s' → members fuel s = members fuel s'.
Proof. intros H. destruct fuel; [done|]. cbn [members]. by rewrite H. Qed.
Lemma elements_skip fuel s s' : skip_ws s = skip_ws s' → elements fuel s = elements fuel s'.
Proof. intros H. destruct fuel; [done|]. cbn [elements]. by rewrite (value_skip fuel s s'). Qed.

(** ** Printable values: finite numbers whose text reads as themselves, and
    objects whose names are distinct. *)
Definition num_ok (x : jsnum) : bool :=
  match x with Fin _ _ => true | _ => false end && is_literal (string_of_num x)
    && forallb is_num_char (string_of_num x) && bool_decide (js_Number (string_of_num x) = x).
Fixpoint printable (v : json) : bool :=
  match v with
  | JNull | JBool _ | JStr _ => true
  | JNum x => num_ok x
  | JArr l => forallb printable l
  | JObj l => forallb (λ kv, printable kv.2) l && bool_decide (NoDup l.*1)
  end.

Definition stops (r : jstr) : Prop :=
  match r with [] => True | u :: _ => is_num_char u = false end.

Lemma span_stop p s r :
  forallb p s = true → match r with [] => True | u :: _ => p u = false end → span p (s ++ r) = (s, r).
Proof.
  intros Hs Hr. induction s as [|u s IH]; cbn [app span forallb] in *.
  - destruct r as [|u r]; [done|]. cbn [span]. by rewrite Hr.
  - apply andb_true_iff in Hs as [-> Hs]. by rewrite (IH Hs).
Qed.

Lemma literal_head x : num_ok x = true → ∃ u s, string_of_num x = u :: s ∧ is_num_char u = true.
Proof.
  unfold num_ok. rewrite !andb_true_iff. intros [[[_ Hl] Hc] _].
  destruct (string_of_num x) as [|u s]; [done|]. cbn [forallb] in Hc.
  apply andb_true_iff in Hc as [Hu _]. by exists u, s.
Qed.

(** The first unit of a printed value opens it. *)
Definition opens (u : Z) : bool := is_num_char u || bool_decide (u ∈ [34; 91; 123; 110; 116; 102]).
Lemma opens_head u : opens u = true → is_ws u = false ∧ u ≠ 93 ∧ u ≠ 125.
Proof.
  unfold opens, is_num_char, is_digit, is_ws. intros H.
  rewrite !orb_true_iff, andb_true_iff, !bool_decide_eq_true, !Z.leb_le in H.
  rewrite bool_decide_eq_false. set_solver by lia.
Qed.

Lemma print_head gap d v :
  printable v = true → ∃ u s, print gap d v = u :: s ∧ opens u = true.
Proof.
  destruct v as [|[]|x|s|l|l]; cbn [printable print]; intros Hv; try by do 2 eexists.
  - destruct (literal_head x Hv) as (u & s & Hs & Hu). destruct x; try done. rewrite Hs.
    exists u, s. split; [done|]. unfold opens. by rewrite Hu.
  - unfold bracket. destruct (List.map _ _); by do 2 eexists.
  - unfold bracket. destruct (List.map _ _); by do 2 eexists.
Qed.

Lemma number_print x r :
  num_ok x = true → stops r → parse_number (string_of_num x ++ r) = Some (JNum x, r).
Proof.
  unfold num_ok. rewrite !andb_true_iff, bool_decide_eq_true. intros [[[_ Hl] Hc] Hx] Hr.
  unfold parse_number. rewrite (span_stop is_num_char); [|done|by destruct r]. by rewrite Hl, Hx.
Qed.

Lemma num_char_not u (l : list Z) :
  is_num_char u = true → forallb (λ c, negb (is_num_char c)) l = true → u ∉ l.
Proof.
  intros Hu Hl Hin. apply list_elem_of_In, (proj1 (forallb_forall _ _) Hl) in Hin. by rewrite Hu in Hin.
Qed.

(** A number at the head of the text. *)
Lemma value_number fuel x r :
  num_ok x = true → stops r → value (S fuel) (string_of_num x ++ r) = Some (JNum x, r).
Proof.
  intros Hx Hr. destruct (literal_head x Hx) as (u & s & Hs & Hu).
  pose proof (number_print x r Hx Hr) as Hn. rewrite Hs in *. cbn [value app] in *.
  pose proof (num_char_not u [34; 91; 123; 110; 116; 102; 9; 10; 13; 32] Hu eq_refl) as Hnot.
  rewrite skip_ws_head.
  - rewrite !(proj2 (Z.eqb_neq _ _)) by set_solver. exact Hn.
  - unfold is_ws. apply bool_decide_eq_false. set_solver.
Qed.

Lemma value_string fuel s r : value (S fuel) (quote s ++ r) = Some (JStr s, r).
Proof.
  unfold quote. cbn [app value]. rewrite skip_ws_head by done. change (34 =? 34) with true. cbn match.
  rewrite <- app_assoc. cbn [app]. by rewrite string_body_quote.
Qed.

(** The text of a non-empty list of items at depth [d], up to the closing bracket. *)
Definition items_text (gap d : nat) (c : Z) (items : list jstr) (r : jstr) : jstr :=
  newline gap (S d) ++ join (44 :: newline gap (S d)) items ++ newline gap d ++ c :: r.
Lemma items_text_cons gap d c w w' ws r :
  items_text gap d c (w :: w' :: ws) r = newline gap (S d) ++ w ++ 44 :: items_text gap d c (w' :: ws) r.
Proof. unfold items_text. cbn [join]. by rewrite <- !app_assoc. Qed.
Lemma items_text_one gap d c w r :
  items_text gap d c [w] r = newline gap (S d) ++ w ++ newline gap d ++ c :: r.
Proof. done. Qed.
Lemma bracket_text gap d o c items r :
  items ≠ [] → bracket gap d o c items ++ r = o :: items_text gap d c items r.
Proof.
  intros Hi. unfold bracket, items_text. destruct items; [done|]. cbn [app]. by rewrite <- !app_assoc.
Qed.
Lemma stops_newline gap d c r : is_num_char c = false → stops (newline gap d ++ c :: r).
Proof. by destruct gap. Qed.

(** The parser reads back, at the head of any text it can stop in. *)
Definition reads_back (gap : nat) (v : json) : Prop := ∀ d fuel r,
  printable v = true → (length (print gap d v) ≤ fuel)%nat → stops r →
  value fuel (print gap d v ++ r) = Some (v, r).

Lemma join_length_2 s sep w w' ws :
  (length w + 1 + length (join (s :: sep) (w' :: ws)) ≤ length (join (s :: sep) (w :: w' :: ws)))%nat.
Proof.
  change (join (s :: sep) (w :: w' :: ws)) with (w ++ (s :: sep) ++ join (s :: sep) (w' :: ws)).
  rewrite !length_app. cbn [length]. lia.
Qed.

Lemma elements_print gap d l : l ≠ [] → Forall (reads_back gap) l → forallb printable l = true →
  ∀ fuel r, (length (join (44%Z :: newline gap (S d)) (List.map (print gap (S d)) l)) < fuel)%nat →
  elements fuel (items_text gap d 93 (List.map (print gap (S d)) l) r) = Some (l, r).
Proof.
  intros Hne Hl. induction Hl as [|v l Hv Hl IH]; [done|]. clear Hne. intros Hp fuel r Hf.
  cbn [forallb] in Hp. apply andb_true_iff in Hp as [Hpv Hpl].
  destruct fuel as [|fuel]; [lia|]. cbn [List.map] in *. destruct l as [|v' l].
  - rewrite items_text_one, (elements_skip _ _ _ (skip_ws_newline _ _ _)). cbn [elements].
    cbn [List.map join] in Hf. rewrite Hv; [|done|lia|by apply stops_newline]. cbn [mbind option_bind].
    rewrite skip_ws_newline, skip_ws_head by done. done.
  - cbn [List.map] in *. rewrite items_text_cons, (elements_skip _ _ _ (skip_ws_newline _ _ _)).
    cbn [elements]. pose proof (join_length_2 44 (newline gap (S d)) (print gap (S d) v)
      (print gap (S d) v') (List.map (print gap (S d)) l)) as Hj.
    rewrite Hv; [|done|lia|done]. cbn [mbind option_bind]. rewrite skip_ws_head by done.
    rewrite IH; [done|done|done|lia].
Qed.

Definition member_text (gap d : nat) (kv : jstr * json) : jstr :=
  quote kv.1 ++ colon gap ++ print gap (S d) kv.2.

Lemma members_print gap d l : l ≠ [] → Forall (λ kv, reads_back gap kv.2) l →
  forallb (λ kv, printable kv.2) l = true →
  ∀ fuel r, (length (join (44%Z :: newline gap (S d)) (List.map (member_text gap d) l)) < fuel)%nat →
  members fuel (items_text gap d 125 (List.map (member_text gap d) l) r) = Some (l, r).
Proof.
  intros Hne Hl. induction Hl as [|[k v] l Hv Hl IH]; [done|]. clear Hne. intros Hp fuel r Hf.
  cbn [forallb snd] in Hp, Hv. apply andb_true_iff in Hp as [Hpv Hpl].
  destruct fuel as [|fuel]; [lia|]. cbn [List.map] in *.
  assert (∀ s, members (S fuel) (member_text gap d (k, v) ++ s) =
    '(v, r3) ← value fuel (print gap (S d) v ++ s);
    match skip_ws r3 with
    | 44 :: r4 => '(l, r5) ← members fuel r4; Some ((k, v) :: l, r5)
    | 125 :: r4 => Some ([(k, v)], r4)
    | _ => None
    end) as Hstep.
  { intros s. unfold member_text. cbn [fst snd]. rewrite <- !app_assoc. unfold quote. cbn [members app].
    rewrite skip_ws_head by done. rewrite <- app_assoc. cbn [app]. rewrite string_body_quote. cbn [mbind option_bind].
    destruct gap; cbn [colon app]; rewrite skip_ws_head by done; [done|].
    by rewrite (value_skip fuel (32 :: _) (print (S gap) (S d) v ++ s)). }
  assert (2 + length (print gap (S d) v) ≤ length (member_text gap d (k, v)))%nat as Hlen.
  { unfold member_text, quote. cbn [fst snd length app]. rewrite !length_app. cbn [length]. lia. }
  destruct l as [|kv l]; cbn [List.map] in *.
  - rewrite items_text_one, (members_skip _ _ _ (skip_ws_newline _ _ _)), Hstep. cbn [join] in Hf.
    rewrite Hv; [|done|lia|by apply stops_newline]. cbn [mbind option_bind].
    rewrite skip_ws_newline, skip_ws_head by done. done.
  - rewrite items_text_cons, (members_skip _ _ _ (skip_ws_newline _ _ _)), Hstep.
    pose proof (join_length_2 44 (newline gap (S d)) (member_text gap d (k, v)) (member_text gap d kv)
      (List.map (member_text gap d) l)) as Hj.
    rewrite Hv; [|done|lia|done]. cbn [mbind option_bind]. rewrite skip_ws_head by done.
    rewrite IH; [done|done|done|lia].
Qed.

Lemma put_member_new k v l : k ∉ l.*1 → put_member k v l = l ++ [(k, v)].
Proof.
  induction l as [|[k' v'] l IH]; [done|]. csimpl. intros [Hk Hl]%not_elem_of_cons.
  rewrite bool_decide_false by done. by rewrite IH.
Qed.
Lemma members_of_distinct_acc acc l :
  NoDup (acc ++ l).*1 → foldl (λ a kv, put_member kv.1 kv.2 a) acc l = acc ++ l.
Proof.
  revert acc. induction l as [|[k v] l IH]; intros acc Hnd; cbn [foldl fst snd]; [by rewrite app_nil_r|].
  rewrite put_member_new, IH; [by rewrite <- app_assoc|by rewrite <- app_assoc|].
  rewrite fmap_app in Hnd. apply NoDup_app in Hnd as (_ & Hd & _). intros Hk. apply (Hd k Hk). csimpl.
  left.
Qed.
Lemma members_of_distinct l : NoDup l.*1 → members_of l = l.
Proof. intros. unfold members_of. by apply (members_of_distinct_acc []). Qed.

Lemma map_ne {A B} (f : A → B) l : l ≠ [] → List.map f l ≠ [].
Proof. by destruct l. Qed.

(** The head of the items of a list that is not empty. *)
Lemma items_head gap d c w ws r u s :
  w = u :: s → is_ws u = false → ∃ t, skip_ws (items_text gap d c (w :: ws) r) = u :: t.
Proof.
  intros -> Hu. destruct ws.
  - rewrite items_text_one, skip_ws_newline. cbn [app]. rewrite skip_ws_head by done. eauto.
  - rewrite items_text_cons, skip_ws_newline. cbn [app]. rewrite skip_ws_head by done. eauto.
Qed.

Lemma print_reads_back gap v : reads_back gap v.
Proof.
  induction v as [|[]|x|s|l IH|l IH] using json_ind; intros d fuel r Hp Hf Hr;
    (destruct fuel as [|fuel]; [exfalso; destruct (print_head gap d _ Hp) as (u & s' & Heq & _);
      rewrite Heq in Hf; simpl in Hf; lia|]); cbn [print printable] in *.
  1-3: cbn; by destruct r.
  - destruct x; [done|done|]. by apply value_number.
  - apply value_string.
  - destruct l as [|v l]; [done|]. rewrite bracket_text by (by apply map_ne). cbn [value].
    rewrite skip_ws_head by done. change (91 =? 34) with false. change (91 =? 91) with true. cbn match.
    pose proof Hp as Hp'. cbn [forallb] in Hp'. apply andb_true_iff in Hp' as [Hpv _].
    destruct (print_head gap (S d) v Hpv) as (u & s & Hu & Ho). destruct (opens_head u Ho) as (Hw & H93 & _).
    destruct (items_head gap d 93 _ (List.map (print gap (S d)) l) r u s Hu Hw) as [t Ht].
    change (List.map (print gap (S d)) (v :: l))
      with (print gap (S d) v :: List.map (print gap (S d)) l) in *. rewrite Ht.
    change (print gap (S d) v :: List.map (print gap (S d)) l)
      with (List.map (print gap (S d)) (v :: l)) in *.
    rewrite elements_print; [by repeat (case_match; try done)|done|done|done|].
    unfold bracket in Hf. cbn [List.map] in Hf. cbn [length] in Hf. rewrite !length_app in Hf. cbn [List.map].
    cbn [length] in Hf. lia.
  - rewrite andb_true_iff, bool_decide_eq_true in Hp. destruct Hp as [Hp Hnd].
    destruct l as [|[k v] l]; [done|]. rewrite bracket_text by (by apply map_ne). cbn [value].
    rewrite skip_ws_head by done. change (123 =? 34) with false. change (123 =? 91) with false.
    change (123 =? 123) with true. cbn match.
    fold (member_text gap d) in *.
    destruct (items_head gap d 125 (member_text gap d (k, v)) (List.map (member_text gap d) l) r 34
      (quote_units k ++ [34] ++ colon gap ++ print gap (S d) v)) as [t Ht];
      [unfold member_text, quote; cbn [app fst snd]; by rewrite <- app_assoc|done|].
    change (List.map (member_text gap d) ((k, v) :: l))
      with (member_text gap d (k, v) :: List.map (member_text gap d) l) in *.
    change (List.map (λ kv, quote kv.1 ++ colon gap ++ print gap (S d) kv.2) ((k, v) :: l))
      with (member_text gap d (k, v) :: List.map (member_text gap d) l) in *.
    rewrite Ht.
    change (member_text gap d (k, v) :: List.map (member_text gap d) l)
      with (List.map (member_text gap d) ((k, v) :: l)) in *.
    rewrite members_print; [cbn [mbind option_bind]; by rewrite members_of_distinct|done|done|done|].
    unfold bracket in Hf. cbn [List.map length] in *. rewrite !length_app in Hf. cbn [length] in Hf. lia.
Qed.

(** What is printed is read back as it was, with any gap. *)
Lemma parse_stringify_json gap v : printable v = true → parse (stringify gap v) = Some v.
Proof.
  intros Hv. unfold parse, stringify. rewrite <- (app_nil_r (print gap 0 v)) at 2.
  rewrite print_reads_back; [done|done|lia|done].
Qed.

(** ** The text is well-formed, whatever the strings hold: unpaired surrogates
    are escaped. *)
Definition units (s : jstr) : bool := forallb (λ u, (0 <=? u) && (u <? 0x10000)) s.
Fixpoint units_json (v : json) : bool :=
  match v with
  | JStr s => units s
  | JArr l => forallb units_json l
  | JObj l => forallb (λ kv, units kv.1 && units_json kv.2) l
  | _ => true
  end.

Lemma well_formed_app s t : Utf8.well_formed s = true → Utf8.well_formed t = true → Utf8.well_formed (s ++ t) = true.
Proof.
  remember (length s) as n eqn:Hn. assert (length s ≤ n)%nat as Hle by lia. clear Hn. revert s Hle.
  induction n as [|n IH]; intros [|u s] Hle Hs Ht; cbn [app]; try done; [simpl in Hle; lia|].
  cbn [Utf8.well_formed] in *. simpl in Hle. apply andb_true_iff in Hs as [-> Hs]. cbn [andb].
  destruct (is_high u).
  - destruct s as [|v s]; [done|]. cbn [app]. apply andb_true_iff in Hs as [-> Hs]. cbn [andb].
    apply IH; [simpl in Hle; lia|done|done].
  - apply andb_true_iff in Hs as [-> Hs]. cbn [andb]. apply IH; [lia|done|done].
Qed.
Lemma well_formed_ascii s : forallb (λ u, (0 <=? u) && (u <? 0x80)) s = true → Utf8.well_formed s = true.
Proof.
  induction s as [|u s IH]; [done|]. cbn [forallb Utf8.well_formed]. intros H. bool_prop.
  rewrite IH by done. unfold is_high, is_low.
  destruct (Z.leb_spec 0 u), (Z.ltb_spec u 0x10000), (Z.leb_spec 0xD800 u), (Z.leb_spec 0xDC00 u); done || lia.
Qed.
Lemma well_formed_unit u : 0 <= u < 0x10000 → is_high u = false → is_low u = false →
  Utf8.well_formed [u] = true.
Proof.
  intros Hu Hh Hl. cbn [Utf8.well_formed]. rewrite Hh, Hl.
  destruct (Z.leb_spec 0 u), (Z.ltb_spec u 0x10000); done || lia.
Qed.

Lemma hex_digit_range d : 0 <= d < 16 → 48 <= hex_digit d < 103.
Proof. unfold hex_digit. destruct (Z.ltb_spec d 10); lia. Qed.
Lemma well_formed_escape u : 0 <= u < 0x10000 → Utf8.well_formed (unicode_escape u) = true.
Proof.
  intros Hu. apply well_formed_ascii. unfold unicode_escape. cbn [forallb].
  pose proof (hex_digit_range (u / 4096) ltac:(Z.to_euclidean_division_equations; lia)).
  pose proof (hex_digit_range (u / 256 mod 16) ltac:(Z.to_euclidean_division_equations; lia)).
  pose proof (hex_digit_range (u / 16 mod 16) ltac:(Z.to_euclidean_division_equations; lia)).
  pose proof (hex_digit_range (u mod 16) ltac:(Z.to_euclidean_division_equations; lia)).
  rewrite !(proj2 (Z.leb_le _ _)), !(proj2 (Z.ltb_lt _ _)) by lia. done.
Qed.
Lemma well_formed_escape_unit u :
  0 <= u < 0x10000 → is_high u = false → is_low u = false → Utf8.well_formed (escape_unit u) = true.
Proof.
  intros Hu Hh Hl. unfold escape_unit, short_escapes, assoc.
  repeat (case_decide; [done|]). destruct (is_control u); [by apply well_formed_escape|].
  by apply well_formed_unit.
Qed.

Lemma well_formed_quote_units s : units s = true → Utf8.well_formed (quote_units s) = true.
Proof.
  remember (length s) as n eqn:Hn. assert (length s ≤ n)%nat as Hle by lia. clear Hn. revert s Hle.
  induction n as [|n IH]; intros [|u s] Hle Hs; try done; [simpl in Hle; lia|].
  unfold units in Hs. cbn [forallb] in Hs. apply andb_true_iff in Hs as [Hu Hs]. simpl in Hle.
  assert (0 <= u < 0x10000) as Hu' by (bool_prop; lia). cbn [quote_units]. destruct (is_high u) eqn:Hh.
  - destruct s as [|v s]; [by apply well_formed_escape|].
    destruct (is_low v) eqn:Hv.
    + cbn [Utf8.well_formed]. rewrite Hu, Hh, Hv. cbn [andb]. cbn [forallb] in Hs.
      apply andb_true_iff in Hs as [_ Hs]. apply IH; [simpl in Hle; lia|done].
    + apply well_formed_app; [by apply well_formed_escape|]. apply IH; [lia|done].
  - apply well_formed_app; [|apply IH; [lia|done]].
    destruct (is_low u) eqn:Hl; [by apply well_formed_escape | by apply well_formed_escape_unit].
Qed.
Lemma well_formed_quote s : units s = true → Utf8.well_formed (quote s) = true.
Proof.
  intros Hs. apply (well_formed_app [34]); [done|]. apply well_formed_app; [|done].
  by apply well_formed_quote_units.
Qed.

Lemma well_formed_newline gap d : Utf8.well_formed (newline gap d) = true.
Proof.
  destruct gap as [|g]; [done|]. unfold newline. apply (well_formed_app [10]); [done|].
  apply well_formed_ascii. induction (S g * d)%nat; done.
Qed.
Lemma well_formed_join sep ws :
  Utf8.well_formed sep = true → Forall (λ w, Utf8.well_formed w = true) ws → Utf8.well_formed (join sep ws) = true.
Proof.
  intros Hsep. induction 1 as [|w ws Hw Hws IH]; [done|]. destruct ws as [|w' ws]; [done|].
  change (join sep (w :: w' :: ws)) with (w ++ sep ++ join sep (w' :: ws)).
  apply well_formed_app; [done|]. by apply well_formed_app.
Qed.
Lemma well_formed_bracket gap d o c items :
  Utf8.well_formed [o; c] = true → Utf8.well_formed [o] = true → Utf8.well_formed [c] = true →
  Forall (λ w, Utf8.well_formed w = true) items → Utf8.well_formed (bracket gap d o c items) = true.
Proof.
  intros Hoc Ho Hc Hi. unfold bracket. destruct items as [|w ws]; [done|].
  apply (well_formed_app [o]); [done|]. apply well_formed_app; [apply well_formed_newline|].
  apply well_formed_app; [|apply well_formed_app; [apply well_formed_newline|done]].
  apply well_formed_join; [|done]. apply (well_formed_app [44]); [done|apply well_formed_newline].
Qed.
Lemma well_formed_number x : num_ok x = true → Utf8.well_formed (string_of_num x) = true.
Proof.
  unfold num_ok. rewrite !andb_true_iff. intros [[_ Hc] _]. apply well_formed_ascii.
  rewrite forallb_forall in *. intros u Hu. specialize (Hc u Hu). unfold is_num_char, is_digit in Hc.
  rewrite orb_true_iff, bool_decide_eq_true, andb_true_iff, !Z.leb_le in Hc.
  rewrite andb_true_iff, Z.leb_le, Z.ltb_lt. set_solver by lia.
Qed.

Lemma well_formed_print gap v :
  ∀ d, printable v = true → units_json v = true → Utf8.well_formed (print gap d v) = true.
Proof.
  induction v as [|[]|x|s|l IH|l IH] using json_ind; intros d Hp Hu; try done; cbn [printable units_json print] in *.
  - destruct x; [done|done|]. by apply well_formed_number.
  - by apply well_formed_quote.
  - apply well_formed_bracket; [done..|]. clear -IH Hp Hu. induction IH as [|v l Hv _ IH]; [constructor|].
    cbn [forallb List.map] in *. apply andb_true_iff in Hp as [? ?], Hu as [? ?]. constructor; auto.
  - apply andb_true_iff in Hp as [Hp _]. apply well_formed_bracket; [done..|]. clear -IH Hp Hu.
    induction IH as [|[k v] l Hv _ IH]; [constructor|]. cbn [forallb List.map fst snd] in *.
    apply andb_true_iff in Hp as [? ?], Hu as [[? ?]%andb_true_iff ?]. constructor; [|auto].
    apply well_formed_app; [by apply well_formed_quote|].
    apply well_formed_app; [by destruct gap|auto].
Qed.

(** *** Texts cut short *)

(** A string ends at a quotation mark, and whatever follows is left. *)
Lemma string_body_closes_aux n s t r :
  (length s ≤ n)%nat → string_body s = Some (t, r) →
  ∃ w, s = w ++ 34 :: r ∧ ∀ x, string_body (w ++ 34 :: x) = Some (t, x).
Proof.
  assert (∀ (w0 : jstr) u s' t', (∀ y, string_body (w0 ++ y) = '(a, b) ← string_body y; Some (u :: a, b)) →
    (∃ w, s' = w ++ 34 :: r ∧ ∀ x, string_body (w ++ 34 :: x) = Some (t', x)) →
    ∃ w, w0 ++ s' = w ++ 34 :: r ∧ ∀ x, string_body (w ++ 34 :: x) = Some (u :: t', x)) as Hstep.
  { intros w0 u s' t' Hw (w & -> & Hx). exists (w0 ++ w). split; [by rewrite app_assoc|].
    intros x. by rewrite <- app_assoc, Hw, Hx. }
  revert s t. induction n as [|n IH]; intros [|u s] t Hn Hs; [done|simpl in Hn; lia|done|].
  simpl in Hn. cbn [string_body] in Hs. destruct (Z.eqb_spec u 34) as [->|H34].
  { injection Hs as <- <-. by exists []. }
  destruct (Z.eqb_spec u 92) as [->|H92].
  - destruct s as [|c s]; [done|]. destruct (unescape c) as [v|] eqn:Hc.
    + apply bind_Some in Hs as ([t' r'] & Hs & [= <- <-]).
      apply (Hstep [92; c] v s t'); [|apply IH; [simpl in Hn; lia|done]].
      intros y. cbn [app string_body]. by rewrite Hc.
    + destruct (Z.eqb_spec c 117) as [->|]; [|done].
      destruct s as [|h1 [|h2 [|h3 [|h4 s]]]]; try done.
      apply bind_Some in Hs as (v & Hv & ([t' r'] & Hs & [= <- <-])%bind_Some).
      apply (Hstep [92; 117; h1; h2; h3; h4] v s t'); [|apply IH; [simpl in Hn; lia|done]].
      intros y. cbn [app string_body]. rewrite Hc. cbn -[hex4]. by rewrite Hv.
  - destruct (is_control u) eqn:Hu; [done|]. apply bind_Some in Hs as ([t' r'] & Hs & [= <- <-]).
    apply (Hstep [u] u s t'); [|apply IH; [lia|done]]. intros y. by apply string_body_raw.
Qed.
Lemma string_body_closes s t r :
  string_body s = Some (t, r) →
  ∃ w, s = w ++ 34 :: r ∧ ∀ x, string_body (w ++ 34 :: x) = Some (t, x).
Proof. by apply (string_body_closes_aux (length s)). Qed.

(** A quoted string whose closing mark is cut off is no string, with or without the
    replacement of a character that was cut in two. *)
Lemma string_body_cut s p q e :
  quote_units s ++ [34; 125] = p ++ q → (2 ≤ length q)%nat → e = [] ∨ e = [Utf8.replacement] →
  string_body (p ++ e) = None.
Proof.
  intros Hpq Hq He. destruct (string_body (p ++ e)) as [[t r]|] eqn:Hs; [|done]. exfalso.
  apply string_body_closes in Hs as (w & Hw & Hx).
  assert (∃ r', p = w ++ 34 :: r') as [r' ->].
  { destruct He as [-> | ->]; [exists r; by rewrite app_nil_r in Hw|].
    destruct r as [|v r _] using rev_ind; [by apply app_inj_2 in Hw as [_ [=]]|].
    rewrite app_comm_cons, app_assoc in Hw. apply app_inj_tail in Hw as [-> _]. by eexists. }
  pose proof (Hx (r' ++ q)) as Hall. rewrite <- app_assoc in Hpq. cbn [app] in Hpq.
  rewrite <- Hpq, string_body_quote in Hall. injection Hall as _ Hr.
  apply (f_equal length) in Hr. rewrite length_app in Hr. simpl in Hr. lia.
Qed.

(** Nor is an object whose first member is such a string. *)
Lemma parse_cut k p : string_body p = None → parse (123 :: quote k ++ 58 :: 34 :: p) = None.
Proof.
  intros Hp. unfold parse, quote. rewrite <- app_comm_cons, <- app_assoc. cbn [app].
  remember (length (123 :: 34 :: quote_units k ++ 34 :: 58 :: 34 :: p)) as f eqn:Hf.
  destruct f as [|[|f]]; [simpl in Hf; lia..|].
  assert (value (S (S (S f))) (123 :: 34 :: quote_units k ++ 34 :: 58 :: 34 :: p) = None) as ->; [|done].
  cbn [value]. rewrite skip_ws_head by done. change (123 =? 34) with false. change (123 =? 91) with false.
  change (123 =? 123) with true. cbn match. rewrite skip_ws_head by done. cbn match.
  assert (members (S (S f)) (34 :: quote_units k ++ 34 :: 58 :: 34 :: p) = None) as ->; [|done].
  cbn [members]. rewrite skip_ws_head by done. cbn match. rewrite string_body_quote.
  change (Some ?x ≫= ?g) with (g x). cbn beta iota. rewrite skip_ws_head by done. cbn match.
  assert (value (S f) (34 :: p) = None) as ->; [|done].
  cbn [value]. rewrite skip_ws_head by done. change (34 =? 34) with true. cbn match. by rewrite Hp.
Qed.

(** Quoting after a well-formed text starts afresh. *)
Lemma quote_units_app s t : Utf8.well_formed s = true → quote_units (s ++ t) = quote_units s ++ quote_units t.
Proof.
  remember (length s) as n eqn:Hn. assert (length s ≤ n)%nat as Hle by lia. clear Hn. revert s Hle.
  induction n as [|n IH]; intros [|u s] Hle; try (by intros); [simpl in Hle; lia|].
  cbn [Utf8.well_formed]. intros [_ Hw]%andb_true_iff. simpl in Hle. cbn [app quote_units].
  destruct (is_high u) eqn:Hh.
  - destruct s as [|v s]; [done|]. apply andb_true_iff in Hw as [Hv Hw]. cbn [app]. rewrite Hv.
    rewrite IH; [done|simpl in Hle; lia|done].
  - apply andb_true_iff in Hw as [_ Hw]. rewrite IH by (done || lia). by rewrite app_assoc.
Qed.

End Json.
