(* ===== verification/Timers.v ===== *)
(** * Self-rescheduling timer loops

    The backend service and the polling hook of the front end are both loops
    that wait for an asynchronous call and then arm a timer that starts the next
    round. [Loop] is what the JavaScript engine and the component keep of such
    loops: the armed timers, the rounds whose call is still pending, and the last
    timer handle the component remembers. Nothing ties the remembered handle to
    the armed timers: that relation is an invariant of a component, or not. *)
From stdpp Require Import prelude list gmap.
From S2P Require Import Prelude.

Module Timers.

Record Loop := {
  armed : gset nat;          (* timers the engine will fire *)
  inflight : nat;            (* rounds awaiting their asynchronous call *)
  handle : option nat;       (* the timer handle the component remembers *)
  fresh : nat }.             (* the next handle setTimeout returns *)

Definition idle : Loop := {| armed := ∅; inflight := 0; handle := None; fresh := 0 |}.

(** A round starts and awaits its call. *)
Definition begin_round (l : Loop) : Loop :=
  {| armed := armed l; inflight := S (inflight l); handle := handle l; fresh := fresh l |}.

(** The call settles and the round arms the next timer, [t = setTimeout(..)]. *)
Definition rearm (l : Loop) : Loop :=
  {| armed := {[fresh l]} ∪ armed l; inflight := pred (inflight l);
     handle := Some (fresh l); fresh := S (fresh l) |}.

(** The call settles with an exception the round does not catch: no timer follows. *)
Definition abandon (l : Loop) : Loop :=
  {| armed := armed l; inflight := pred (inflight l); handle := handle l; fresh := fresh l |}.

(** Timer [t] fires; the callback starts a round when [go]. *)
Definition fire (t : nat) (go : bool) (l : Loop) : Loop :=
  let l' := {| armed := armed l ∖ {[t]}; inflight := inflight l;
               handle := handle l; fresh := fresh l |} in
  if go then begin_round l' else l'.

(** [if (t) clearTimeout(t)] on the remembered handle. *)
Definition clear (l : Loop) : Loop :=
  match handle l with
  | Some t => {| armed := armed l ∖ {[t]}; inflight := inflight l;
                 handle := handle l; fresh := fresh l |}
  | None => l
  end.

(** How many loops are alive, and how many engine steps are left once no timer
    callback starts a round. *)
Definition live (l : Loop) : nat := inflight l + size (armed l).
Definition fuel (l : Loop) : nat := 2 * inflight l + size (armed l).

(** Handles are allocated in order. *)
Definition wf (l : Loop) : Prop :=
  (∀ t, t ∈ armed l → t < fresh l) ∧ ∀ t, handle l = Some t → t < fresh l.

(** One loop at most, and a remembered handle for it when it is waiting. *)
Definition single (l : Loop) : Prop :=
  live l ≤ 1 ∧ ∀ t, t ∈ armed l → handle l = Some t.

Lemma idle_wf : wf idle.
Proof. split; [set_solver|done]. Qed.
Lemma begin_round_wf l : wf l → wf (begin_round l).
Proof. done. Qed.
Lemma rearm_wf l : wf l → wf (rearm l).
Proof.
  intros [H1 H2]. split; simpl; [|intros t [= <-]; lia].
  intros t Ht. apply elem_of_union in Ht as [Ht|Ht]; [set_solver by lia|]. specialize (H1 t Ht). lia.
Qed.
Lemma abandon_wf l : wf l → wf (abandon l).
Proof. done. Qed.
Lemma single_abandon l : single l → single (abandon l).
Proof. intros [H1 H2]. split; [unfold live in *; simpl; lia | done]. Qed.
Lemma fuel_abandon l : 0 < inflight l → fuel (abandon l) < fuel l.
Proof. unfold fuel; simpl. lia. Qed.
Lemma fire_wf t go l : wf l → wf (fire t go l).
Proof. intros [H1 H2]. destruct go; split; simpl; set_solver. Qed.
Lemma clear_wf l : wf l → wf (clear l).
Proof. intros [H1 H2]. unfold clear. destruct (handle l) eqn:Hh; split; simpl; set_solver. Qed.

Lemma live_begin l : live (begin_round l) = S (live l).
Proof. done. Qed.
Lemma live_rearm l : wf l → 0 < inflight l → live (rearm l) = live l.
Proof.
  intros [H _] Hi. unfold live; simpl. rewrite size_union, size_singleton; [lia|].
  assert (fresh l ∉ armed l) by (intros Hf; specialize (H _ Hf); lia). set_solver.
Qed.
Lemma live_fire t go l : t ∈ armed l → live (fire t go l) = if go then live l else pred (live l).
Proof.
  intros Ht.
  assert (size (armed l ∖ {[t]}) = pred (size (armed l)) ∧ 0 < size (armed l)) as [Hs Hp].
  { rewrite size_difference by set_solver. rewrite size_singleton.
    assert (size ({[t]} : gset nat) ≤ size (armed l)) by (apply subseteq_size; set_solver).
    rewrite size_singleton in *. lia. }
  unfold live. destruct go; simpl; rewrite Hs; lia.
Qed.
Lemma live_clear l : live (clear l) ≤ live l.
Proof.
  unfold clear, live. destruct (handle l); simpl; [|done].
  assert (size (armed l ∖ {[n]}) ≤ size (armed l)) by (apply subseteq_size; set_solver). lia.
Qed.

Lemma fuel_rearm l : wf l → 0 < inflight l → fuel (rearm l) = pred (fuel l).
Proof. intros Hw Hi. pose proof (live_rearm l Hw Hi). unfold fuel, live in *. simpl in *. lia. Qed.
Lemma fuel_fire_stop t l : t ∈ armed l → fuel (fire t false l) < fuel l.
Proof.
  intros Ht. pose proof (live_fire t false l Ht) as Hl. unfold fuel, live in *. simpl in *.
  assert (size (armed l) ≠ 0).
  { intros H0. apply size_empty_inv in H0. set_solver. }
  lia.
Qed.
Lemma fuel_clear l : fuel (clear l) ≤ fuel l.
Proof. pose proof (live_clear l). unfold fuel, live, clear in *. destruct (handle l); simpl in *; lia. Qed.

Lemma size_one_elem (X : gset nat) t u : size X ≤ 1 → t ∈ X → u ∈ X → t = u.
Proof.
  intros Hs Ht Hu. apply (size_singleton_inv X); [|done..].
  assert (size X ≠ 0) by (intros ?%size_empty_inv; set_solver). lia.
Qed.

Lemma single_idle : single idle.
Proof. split; [apply (Nat.le_succ_diag_r 0) | set_solver]. Qed.
Lemma single_begin l : live l = 0 → single (begin_round l).
Proof.
  intros Hl. split; [rewrite live_begin; lia|]. simpl. intros t Ht. unfold live in Hl.
  assert (size (armed l) = 0) as ?%size_empty_inv by lia. set_solver.
Qed.
Lemma single_rearm l : wf l → 0 < inflight l → single l → single (rearm l).
Proof.
  intros Hw Hi [Hs _]. split; [by rewrite live_rearm|]. simpl. intros t Ht.
  unfold live in Hs. assert (size (armed l) = 0) as ?%size_empty_inv by lia. set_solver.
Qed.
Lemma single_fire t go l : t ∈ armed l → single l → single (fire t go l).
Proof.
  intros Ht [Hs Hh]. split; [rewrite live_fire by done; destruct go; lia|].
  unfold live in Hs. intros u Hu. exfalso.
  assert (u ∈ armed l ∧ u ≠ t) as [Hu1 Hu2] by (destruct go; simpl in Hu; set_solver).
  apply Hu2. apply (size_one_elem (armed l)); [lia|done..].
Qed.
Lemma single_clear l : single l → single (clear l).
Proof.
  intros [Hs Hh]. split; [pose proof (live_clear l); lia|].
  unfold clear. destruct (handle l) eqn:Hl; simpl; try rewrite Hl; intros t Ht; [|by apply Hh].
  specialize (Hh t). set_solver.
Qed.

(** Clearing the remembered handle of a single waiting loop stops it. *)
Lemma clear_single_waiting l : single l → inflight l = 0 → live (clear l) = 0.
Proof.
  intros [Hs Hh] Hi. unfold live, clear. destruct (handle l) as [t|] eqn:Hl; simpl; rewrite Hi; simpl.
  - apply size_empty_iff. set_solver.
  - apply size_empty_iff. set_solver.
Qed.

End Timers.

#[export] Hint Resolve Timers.idle_wf Timers.begin_round_wf Timers.rearm_wf Timers.fire_wf
  Timers.clear_wf Timers.single_idle Timers.single_begin Timers.single_rearm Timers.single_fire
  Timers.single_clear Timers.abandon_wf Timers.single_abandon : cosmos.
