(* ===== verification/Auth.v ===== *)
(** * Role-based access control of the notification service
    (notification-service/src/auth.ts)

    The two API keys are module constants read once from the environment, so
    they are parameters of the section: [None] is an unset variable. The role
    resolution, the role order and the guard with its two error codes are the
    functions of the file; the warning printed at start-up is not modelled. *)
From Stdlib Require Import Ascii String ZArith Lia.
From stdpp Require Import prelude list strings.
From S2P Require Import Prelude JsString.
Local Open Scope Z_scope.

Module Auth.

(** [type Role = 'admin' | 'viewer' | 'none'] *)
Inductive Role := admin | viewer | none.
Global Instance Role_eq_dec : EqDecision Role.
Proof. solve_decision. Defined.

Inductive AuthCode := UNAUTHORIZED | FORBIDDEN.
Record AuthError := { message : jstr; code : AuthCode }.

(** [process.env.X ?? ''] *)
Definition env_key (v : option jstr) : jstr := default [] v.

Section keys.
  Variables ADMIN_API_KEY VIEWER_API_KEY : option jstr.

Definition ADMIN_KEY : jstr := env_key ADMIN_API_KEY.
Definition VIEWER_KEY : jstr := env_key VIEWER_API_KEY.

(** What loading the module warns of. *)
Definition startup_warning : option jstr :=
  if bool_decide (ADMIN_KEY = [])
  then Some (js "[auth] WARNING: ADMIN_API_KEY is not set. Admin endpoints are unprotected. Set ADMIN_API_KEY in production.")
  else None.

(** The token of a header that is present: [Bearer ] is stripped when there. *)
Definition bearer_token (authHeader : jstr) : jstr :=
  if startsWith authHeader (js "Bearer ") then slice_from authHeader 7 else authHeader.

(** A key grants its role when it is configured and the token equals it. *)
Definition key_grants (key token : jstr) : bool :=
  truthy (Some key) && bool_decide (token = key).

Definition resolveRole (authHeader : option jstr) : Role :=
  match authHeader with
  | None | Some [] => none
  | Some h =>
      let token := bearer_token h in
      if key_grants ADMIN_KEY token then admin
      else if key_grants VIEWER_KEY token then viewer
      else none
  end.

Definition hasRole (actual required : Role) : bool :=
  match required with
  | none => true
  | viewer => bool_decide (actual = viewer) || bool_decide (actual = admin)
  | admin => bool_decide (actual = admin)
  end.

Definition requireRole (authHeader : option jstr) (required : Role) : res AuthError () :=
  let role := resolveRole authHeader in
  ensure (hasRole role required)
    (if bool_decide (role = none)
     then {| message := js "Unauthorized: missing or invalid API key."; code := UNAUTHORIZED |}
     else {| message := js "Forbidden: insufficient role."; code := FORBIDDEN |}).

(** ** The access order *)
Definition role_rank (r : Role) : Z := match r with none => 0 | viewer => 1 | admin => 2 end.

(** ** Lemmas *)

(** A header presents a key when it is the key itself, or [Bearer ] followed by
    the key; the bare form cannot itself start with [Bearer ]. *)
Definition presents (h key : jstr) : Prop :=
  h = js "Bearer " ++ key ∨ (h = key ∧ startsWith h (js "Bearer ") = false).

Lemma bearer_token_spec h key : bearer_token h = key ↔ presents h key.
Proof.
  unfold bearer_token, presents, slice_from.
  destruct (startsWith h (js "Bearer ")) eqn:Hs.
  - apply startsWith_spec in Hs as [k ->]. rewrite (drop_app_length' _ _ 7) by done.
    split; [intros ->; by left|]. intros [H|[_ H]]; [by apply app_inv_head in H | done].
  - split; [by right|]. intros [->|[<- _]]; [by rewrite startsWith_app in Hs | done].
Qed.

Lemma key_grants_spec key token : key_grants key token = true ↔ key ≠ [] ∧ token = key.
Proof.
  unfold key_grants. rewrite andb_true_iff, bool_decide_eq_true.
  destruct key; simpl; by intuition.
Qed.

Lemma presents_ne h key : presents h key → key ≠ [] → h ≠ [].
Proof. intros [->|[-> _]]; done. Qed.

Lemma resolveRole_present h :
  h ≠ [] →
  resolveRole (Some h) =
    if key_grants ADMIN_KEY (bearer_token h) then admin
    else if key_grants VIEWER_KEY (bearer_token h) then viewer else none.
Proof. by destruct h. Qed.

Lemma resolveRole_admin h :
  resolveRole (Some h) = admin ↔ ADMIN_KEY ≠ [] ∧ presents h ADMIN_KEY.
Proof.
  rewrite <- bearer_token_spec, <- key_grants_spec. destruct h as [|u h].
  - split; [done|]. rewrite key_grants_spec. intros [Hne Heq]. by rewrite <- Heq in Hne.
  - rewrite resolveRole_present by done.
    repeat case_match; naive_solver.
Qed.

Lemma resolveRole_viewer h :
  resolveRole (Some h) = viewer ↔
    VIEWER_KEY ≠ [] ∧ presents h VIEWER_KEY ∧ ¬ (ADMIN_KEY ≠ [] ∧ presents h ADMIN_KEY).
Proof.
  rewrite <- !bearer_token_spec.
  pose proof (key_grants_spec ADMIN_KEY (bearer_token h)) as Ha.
  pose proof (key_grants_spec VIEWER_KEY (bearer_token h)) as Hv.
  destruct h as [|u h].
  - split; [done|]. intros (Hne & Heq & _). by rewrite <- Heq in Hne.
  - rewrite resolveRole_present by done. repeat case_match; naive_solver.
Qed.

Lemma hasRole_rank a r : hasRole a r = (role_rank r <=? role_rank a).
Proof. by destruct a, r. Qed.

Lemma requireRole_Ok h r : requireRole h r = Ok () ↔ role_rank r <= role_rank (resolveRole h).
Proof.
  unfold requireRole, ensure. rewrite hasRole_rank, <- Z.leb_le.
  by destruct (role_rank r <=? role_rank (resolveRole h)).
Qed.

(** ** Properties *)

(** C19. The admin guard of the notification service lets a request through
    exactly when an admin key is configured and the Authorization header is that
    key, bare or after [Bearer ]; an unset key opens the guard to nobody. *)
Theorem requireRole_admin_exact (h : option jstr) :
  requireRole h admin = Ok () ↔
    ∃ hv, h = Some hv ∧ ADMIN_KEY ≠ [] ∧ presents hv ADMIN_KEY.
Proof.
  rewrite requireRole_Ok. split.
  - destruct h as [hv|]; [|simpl; lia]. intros H. exists hv. split; [done|].
    apply resolveRole_admin. destruct (resolveRole (Some hv)); simpl in *; by (lia || idtac).
  - intros (hv & -> & H). apply resolveRole_admin in H as ->. simpl; lia.
Qed.

(** The guard respects the order none < viewer < admin: it succeeds exactly
    when the resolved role is at least the required one; it fails with
    UNAUTHORIZED when no role was resolved and with FORBIDDEN when a role was
    resolved but is too weak, and passing a requirement passes every weaker one. *)
Theorem requireRole_by_rank (h : option jstr) (r : Role) :
  match requireRole h r with
  | Ok _ => role_rank r <= role_rank (resolveRole h) ∧
            ∀ r', role_rank r' <= role_rank r → requireRole h r' = Ok ()
  | Err e => role_rank (resolveRole h) < role_rank r ∧
             (code e = UNAUTHORIZED ↔ resolveRole h = none) ∧
             (code e = FORBIDDEN ↔ resolveRole h = viewer ∧ r = admin)
  end.
Proof.
  unfold requireRole at 1. rewrite hasRole_rank. unfold ensure.
  destruct (Z.leb_spec (role_rank r) (role_rank (resolveRole h))) as [Hle|Hlt].
  - split; [done|]. intros r' Hr'. apply requireRole_Ok. lia.
  - split; [done|]. destruct (resolveRole h), r; simpl in *; (lia || naive_solver).
Qed.

End keys.

(** The warning says that the administrator's operations are unprotected; where it is
    given, no header at all is let through to them. *)
Theorem warned_is_closed (admin_key viewer_key h : option jstr) :
  is_Some (startup_warning admin_key) → ∃ e, requireRole admin_key viewer_key h admin = Err e.
Proof.
  unfold startup_warning. case_bool_decide as Hk; [|by intros []]. intros _.
  assert (resolveRole admin_key viewer_key h ≠ admin) as Hn.
  { destruct h as [h|]; [|done]. by intros [Hne _]%resolveRole_admin. }
  unfold requireRole. destruct (resolveRole admin_key viewer_key h); [done|..]; simpl; eauto.
Qed.
Lemma warned_is_closed_witness :
  ∃ e, requireRole None (Some (js "viewer-key")) (Some (js "Bearer viewer-key")) admin = Err e.
Proof. apply warned_is_closed. vm_compute. by eexists. Defined.

(** With neither key configured every header, present or not, is refused by
    both guards: there is no open development mode. *)
Theorem no_keys_no_open_mode (h : option jstr) :
  (∃ e, requireRole None None h admin = Err e ∧ code e = UNAUTHORIZED) ∧
  (∃ e, requireRole None None h viewer = Err e ∧ code e = UNAUTHORIZED).
Proof.
  assert (resolveRole None None h = none) as Hn by (by destruct h as [[|]|]).
  split; unfold requireRole; rewrite Hn; simpl; eauto.
Qed.

End Auth.
