(* ===== verification/Subscriptions.v ===== *)
(** * The subscription store of the notification service
    (notification-service/src/types.ts and subscriptions.ts)

    The store is one JSON file that every operation loads, edits and writes
    back. [Disk] is the state of that file: its contents, whether its directory
    exists and whether the file system accepts writes. JSON.stringify and
    JSON.parse are the interface [StoreCodec]; the operations are proved against
    its law. The identifier drawn by crypto.randomUUID is an argument. *)
From Stdlib Require Import Ascii String ZArith Lia.
From stdpp Require Import prelude list strings countable.
From S2P Require Import Prelude JsString JsNumber.
Local Open Scope Z_scope.

Module Subscriptions.

(** ** types.ts *)
Inductive GovernanceEventType := created | voted | final | exec | cancel.
Global Instance GovernanceEventType_eq_dec : EqDecision GovernanceEventType.
Proof. solve_decision. Defined.

(** The string a member of the union is at run time. *)
Definition event_tag (t : GovernanceEventType) : jstr :=
  match t with
  | created => js "created" | voted => js "voted" | final => js "final"
  | exec => js "exec" | cancel => js "cancel"
  end.

(** A subscriber as stored: [events] holds strings, since the command line
    stores what it is given without checking it against the union. *)
Record Subscriber := {
  id : jstr;
  proposalId : option jstr;
  events : list jstr;
  email : option jstr;
  webhookUrl : option jstr;
  slackWebhookUrl : option jstr;
  discordWebhookUrl : option jstr }.
Global Instance Subscriber_eq_dec : EqDecision Subscriber.
Proof. solve_decision. Defined.

Record SubscriptionStore := { subscribers : list Subscriber; cursor : jstr }.
Global Instance SubscriptionStore_eq_dec : EqDecision SubscriptionStore.
Proof. solve_decision. Defined.

(** A Horizon contract event record, as far as the sources read it: each topic's
    decoded [value], the elements of the decoded value tuple after [toString()]
    ([None] for a missing element), the closing time and the paging identifier. *)
Record HorizonRecord := {
  rec_id : jstr;
  topic : option (list (option jstr));
  value_tuple : option (list (option jstr));
  ledger_closed_at : option jstr }.

Record GovernanceEvent := {
  ev_type : jstr;
  ev_proposalId : option jstr;
  ev_ledger : jsnum;
  ev_raw : HorizonRecord }.

(** ** The JSON codec: what the module needs of JSON.stringify and JSON.parse.
    [parse] is [None] where JSON.parse throws, as it does on an empty text. *)
Class StoreCodec := {
  stringify : SubscriptionStore → jstr;
  parse : jstr → option SubscriptionStore;
  parse_stringify (s : SubscriptionStore) : parse (stringify s) = Some s;
  parse_empty : parse [] = None }.

(** ** The file *)
Record Disk := { file : option jstr; dir_exists : bool; writable : bool }.

Definition default_store : SubscriptionStore := {| subscribers := []; cursor := js "now" |}.

Section store.
  Context `{!StoreCodec}.

(** [load]: any failure of the read or of the parse gives the empty store. *)
Definition load (d : Disk) : SubscriptionStore :=
  match file d with
  | None => default_store
  | Some raw => default default_store (parse raw)
  end.

(** [save]: creates the directory when missing, then writes the file; it throws
    when the file system refuses. *)
Definition save (store : SubscriptionStore) (d : Disk) : res () () * Disk :=
  if writable d
  then (Ok (), {| file := Some (stringify store); dir_exists := true; writable := true |})
  else (Err (), d).

(** The edits the mutating operations make to the loaded store. *)
Definition with_cursor (c : jstr) (store : SubscriptionStore) : SubscriptionStore :=
  {| subscribers := subscribers store; cursor := c |}.
Definition pushed (s : Subscriber) (store : SubscriptionStore) : SubscriptionStore :=
  {| subscribers := subscribers store ++ [s]; cursor := cursor store |}.

Definition getStore (d : Disk) : SubscriptionStore := load d.

Definition saveCursor (c : jstr) (d : Disk) : res () () * Disk :=
  let store := load d in
  save (with_cursor c store) d.

(** The options of [addSubscriber], before the identifier is drawn. *)
Record AddOpts := {
  o_proposalId : option jstr;
  o_events : list jstr;
  o_email : option jstr;
  o_webhookUrl : option jstr;
  o_slackWebhookUrl : option jstr;
  o_discordWebhookUrl : option jstr }.

Inductive AddError := NoChannel | WriteFailed.

Definition has_channel (o : AddOpts) : bool :=
  truthy (o_email o) || truthy (o_webhookUrl o) || truthy (o_slackWebhookUrl o)
    || truthy (o_discordWebhookUrl o).

Definition subscriber_of (uuid : jstr) (o : AddOpts) : Subscriber := {|
  id := uuid; proposalId := o_proposalId o; events := o_events o; email := o_email o;
  webhookUrl := o_webhookUrl o; slackWebhookUrl := o_slackWebhookUrl o;
  discordWebhookUrl := o_discordWebhookUrl o |}.

Definition addSubscriber (uuid : jstr) (opts : AddOpts) (d : Disk)
    : res AddError Subscriber * Disk :=
  if has_channel opts then
    let store := load d in
    let subscriber := subscriber_of uuid opts in
    match save (pushed subscriber store) d with
    | (Ok _, d') => (Ok subscriber, d')
    | (Err _, d') => (Err WriteFailed, d')
    end
  else (Err NoChannel, d).

Definition removeSubscriber (sid : jstr) (d : Disk) : res () bool * Disk :=
  let store := load d in
  let kept := filter (λ s, id s ≠ sid) (subscribers store) in
  if bool_decide (length kept = length (subscribers store)) then (Ok false, d)
  else match save {| subscribers := kept; cursor := cursor store |} d with
       | (Ok _, d') => (Ok true, d')
       | (Err e, d') => (Err e, d')
       end.

Definition listSubscribers (d : Disk) : list Subscriber := subscribers (load d).

(** The predicate of [matchingSubscribers]. *)
Definition matches (eventType : jstr) (pid : option jstr) (s : Subscriber) : bool :=
  bool_decide (eventType ∈ events s)
    && negb (truthy (proposalId s) && negb (bool_decide (proposalId s = pid))).

Definition matchingSubscribers (eventType : jstr) (pid : option jstr) (d : Disk)
    : list Subscriber :=
  filter (λ s, matches eventType pid s = true) (subscribers (load d)).

(** ** The operations as commands on the file *)
Inductive Cmd :=
| Add (uuid : jstr) (opts : AddOpts)
| Remove (sid : jstr)
| SaveCursor (c : jstr)
| List
| Match (eventType : jstr) (pid : option jstr).

Inductive Reply :=
| RSubscriber (s : Subscriber)
| RRemoved (b : bool)
| RSaved
| RList (l : list Subscriber)
| RAddError (e : AddError)
| RWriteError.

Definition run_cmd (c : Cmd) (d : Disk) : Reply * Disk :=
  match c with
  | Add u o => match addSubscriber u o d with
               | (Ok s, d') => (RSubscriber s, d')
               | (Err e, d') => (RAddError e, d')
               end
  | Remove i => match removeSubscriber i d with
                | (Ok b, d') => (RRemoved b, d')
                | (Err _, d') => (RWriteError, d')
                end
  | SaveCursor k => match saveCursor k d with
                    | (Ok _, d') => (RSaved, d')
                    | (Err _, d') => (RWriteError, d')
                    end
  | List => (RList (listSubscribers d), d)
  | Match t p => (RList (matchingSubscribers t p d), d)
  end.

Fixpoint run_cmds (cs : list Cmd) (d : Disk) : list Reply * Disk :=
  match cs with
  | [] => ([], d)
  | c :: cs' => let '(r, d1) := run_cmd c d in
                let '(rs, d2) := run_cmds cs' d1 in (r :: rs, d2)
  end.
End store.

(** ** Abstract specification: the store as a value, with no file. *)
Definition spec_cmd (c : Cmd) (st : SubscriptionStore) : Reply * SubscriptionStore :=
  match c with
  | Add u o =>
      if has_channel o
      then let s := subscriber_of u o in
           (RSubscriber s, pushed s st)
      else (RAddError NoChannel, st)
  | Remove i =>
      (RRemoved (bool_decide (i ∈ id <$> subscribers st)),
       {| subscribers := filter (λ s, id s ≠ i) (subscribers st); cursor := cursor st |})
  | SaveCursor k => (RSaved, with_cursor k st)
  | List => (RList (subscribers st), st)
  | Match t p => (RList (filter (λ s, matches t p s = true) (subscribers st)), st)
  end.

Fixpoint spec_cmds (cs : list Cmd) (st : SubscriptionStore) : list Reply * SubscriptionStore :=
  match cs with
  | [] => ([], st)
  | c :: cs' => let '(r, st1) := spec_cmd c st in
                let '(rs, st2) := spec_cmds cs' st1 in (r :: rs, st2)
  end.

(** ** Lemmas *)
Section lemmas.
  Context `{!StoreCodec}.
  Implicit Types (d : Disk) (st : SubscriptionStore) (s : Subscriber).

Lemma save_writable st d :
  writable d = true →
  save st d = (Ok (), {| file := Some (stringify st); dir_exists := true; writable := true |}).
Proof. unfold save. by intros ->. Qed.

Lemma save_unwritable st d : writable d = false → save st d = (Err (), d).
Proof. unfold save. by intros ->. Qed.

Lemma load_saved st b w : load {| file := Some (stringify st); dir_exists := b; writable := w |} = st.
Proof. unfold load; simpl. by rewrite parse_stringify. Qed.

Lemma filter_id_length_eq i (l : list Subscriber) :
  length (filter (λ s, id s ≠ i) l) = length l ↔ i ∉ id <$> l.
Proof.
  induction l as [|s l IH]; [set_solver|]. rewrite filter_cons. csimpl.
  pose proof (length_filter (λ s, id s ≠ i) l).
  rewrite not_elem_of_cons. case_decide as Hd; simpl.
  - rewrite <- IH. split; [intros; split; [congruence|lia] | intros [_ ?]; lia].
  - split; [intros; lia | intros [? _]; congruence].
Qed.

Lemma filter_id_absent i (l : list Subscriber) :
  i ∉ id <$> l → filter (λ s, id s ≠ i) l = l.
Proof.
  intros Hi. apply filter_all, list.Forall_forall. intros s Hs Heq. apply Hi.
  apply list_elem_of_fmap. by exists s.
Qed.

Lemma run_cmd_refines c d :
  writable d = true →
  let '(r, d') := run_cmd c d in spec_cmd c (load d) = (r, load d') ∧ writable d' = true.
Proof.
  intros Hw. destruct c as [u o|i|k| |t p]; simpl; [| | |done|done].
  - unfold addSubscriber. destruct (has_channel o); [|done].
    rewrite save_writable by done. by rewrite load_saved.
  - unfold removeSubscriber. case_bool_decide as Hlen.
    + apply filter_id_length_eq in Hlen. rewrite bool_decide_false, filter_id_absent by done.
      by destruct (load d).
    + rewrite save_writable, load_saved by done. rewrite bool_decide_true; [done|].
      rewrite filter_id_length_eq in Hlen. by apply dec_stable.
  - unfold saveCursor. by rewrite save_writable, load_saved by done.
Qed.

Lemma run_cmd_unwritable c d :
  writable d = false → (run_cmd c d).2 = d.
Proof.
  intros Hw. destruct c as [u o|i|k| |t p]; simpl; [| | |done|done].
  - unfold addSubscriber. destruct (has_channel o); [|done]. by rewrite save_unwritable.
  - unfold removeSubscriber. case_bool_decide; [done|]. by rewrite save_unwritable.
  - unfold saveCursor. by rewrite save_unwritable.
Qed.

(** A subscriber with at least one channel. *)
Definition reachable_by_someone s : bool :=
  truthy (email s) || truthy (webhookUrl s) || truthy (slackWebhookUrl s)
    || truthy (discordWebhookUrl s).

Lemma spec_cmd_channels c st :
  Forall (λ s, reachable_by_someone s = true) (subscribers st) →
  Forall (λ s, reachable_by_someone s = true) (subscribers (spec_cmd c st).2).
Proof.
  intros Hall. destruct c as [u o|i|k| |t p]; simpl; try done.
  - destruct (has_channel o) eqn:Hc; [|done]. simpl.
    apply Forall_app. split; [done|]. by constructor.
  - by apply Forall_filter_keep.
Qed.

Lemma run_cmds_refines cs d :
  writable d = true →
  spec_cmds cs (load d) = ((run_cmds cs d).1, load (run_cmds cs d).2).
Proof.
  revert d; induction cs as [|c cs IH]; intros d Hw; [done|]; simpl.
  pose proof (run_cmd_refines c d Hw) as Hc. destruct (run_cmd c d) as [r d1].
  destruct Hc as [-> Hw1]. rewrite (IH d1 Hw1). by destruct (run_cmds cs d1).
Qed.

Lemma spec_cmds_channels cs st :
  Forall (λ s, reachable_by_someone s = true) (subscribers st) →
  Forall (λ s, reachable_by_someone s = true) (subscribers (spec_cmds cs st).2).
Proof.
  revert st; induction cs as [|c cs IH]; intros st Hst; [done|]; simpl.
  pose proof (spec_cmd_channels c st Hst) as Hc. destruct (spec_cmd c st) as [r st1].
  specialize (IH st1 Hc). by destruct (spec_cmds cs st1).
Qed.

Lemma run_cmds_unwritable cs d : writable d = false → (run_cmds cs d).2 = d.
Proof.
  intros Hw. induction cs as [|c cs IH]; [done|]; simpl.
  pose proof (run_cmd_unwritable c d Hw). destruct (run_cmd c d) as [r d1]; simpl in *; subst d1.
  by destruct (run_cmds cs d).
Qed.

Lemma run_cmds_channels cs d :
  Forall (λ s, reachable_by_someone s = true) (subscribers (load d)) →
  Forall (λ s, reachable_by_someone s = true) (subscribers (load (run_cmds cs d).2)).
Proof.
  intros Hall. destruct (writable d) eqn:Hw.
  - apply (spec_cmds_channels cs) in Hall. by rewrite run_cmds_refines in Hall.
  - by rewrite run_cmds_unwritable.
Qed.

Lemma matchingSubscribers_elem t p d s :
  s ∈ matchingSubscribers t p d ↔ s ∈ subscribers (load d) ∧ matches t p s = true.
Proof. unfold matchingSubscribers. rewrite list_elem_of_filter. tauto. Qed.

Lemma matches_spec t p s :
  matches t p s = true ↔
    t ∈ events s ∧ (proposalId s = None ∨ proposalId s = Some [] ∨ proposalId s = p).
Proof.
  unfold matches. rewrite andb_true_iff, bool_decide_eq_true, negb_true_iff, andb_false_iff,
    negb_false_iff, bool_decide_eq_true.
  destruct (proposalId s) as [[|u q]|]; simpl; naive_solver.
Qed.
End lemmas.

(** A reply that tells the caller the file was written. *)
Definition reports_write (r : Reply) : bool :=
  match r with RSubscriber _ | RRemoved true | RSaved => true | _ => false end.

Lemma run_cmd_unwritable_reply `{!StoreCodec} c d r d' :
  writable d = false → run_cmd c d = (r, d') → reports_write r = false.
Proof.
  intros Hw. destruct c as [u o|i|k| |t p]; simpl; [| | |naive_solver|naive_solver].
  - unfold addSubscriber. destruct (has_channel o); [|naive_solver].
    rewrite save_unwritable by done. naive_solver.
  - unfold removeSubscriber. case_bool_decide; [naive_solver|].
    rewrite save_unwritable by done. naive_solver.
  - unfold saveCursor. rewrite save_unwritable by done. naive_solver.
Qed.

(** ** Two processes on one file

    The watcher and the command line are separate processes. Each mutating
    operation reads the file and later writes it back, and nothing locks the
    file in between: [PLoad f] is about to read, [PSave st] is about to write
    the store it computed, [PDone] has written. *)
Inductive Proc :=
| PLoad (edit : SubscriptionStore → SubscriptionStore)
| PSave (st : SubscriptionStore)
| PDone.

Section processes.
  Context `{!StoreCodec}.

Inductive proc_step : Disk * Proc → Disk * Proc → Prop :=
| step_load d f : proc_step (d, PLoad f) (d, PSave (f (load d)))
| step_save d st d' : save st d = (Ok (), d') → proc_step (d, PSave st) (d', PDone).

Inductive sys_step : Disk * Proc * Proc → Disk * Proc * Proc → Prop :=
| step_left d p q d' p' : proc_step (d, p) (d', p') → sys_step (d, p, q) (d', p', q)
| step_right d p q d' q' : proc_step (d, q) (d', q') → sys_step (d, p, q) (d', p, q').

(** Where two edits of the same store can stand while they run. *)
Definition sys_inv (f g : SubscriptionStore → SubscriptionStore) (st : SubscriptionStore)
    (x : Disk * Proc * Proc) : Prop :=
  let '(d, p, q) := x in
  writable d = true ∧
  match p, q with
  | PLoad f', PLoad g' => f' = f ∧ g' = g ∧ load d = st
  | PSave a, PLoad g' => g' = g ∧ a = f st ∧ load d = st
  | PLoad f', PSave b => f' = f ∧ b = g st ∧ load d = st
  | PDone, PLoad g' => g' = g ∧ load d = f st
  | PLoad f', PDone => f' = f ∧ load d = g st
  | PSave a, PSave b => a = f st ∧ b = g st ∧ load d = st
  | PDone, PSave b => load d = f st ∧ (b = g st ∨ b = g (f st))
  | PSave a, PDone => load d = g st ∧ (a = f st ∨ a = f (g st))
  | PDone, PDone => load d ∈ [f st; g st; g (f st); f (g st)]
  end.

Lemma save_Ok_inv st d d' :
  save st d = (Ok (), d') →
  d' = {| file := Some (stringify st); dir_exists := true; writable := true |}.
Proof. unfold save. destruct (writable d); naive_solver. Qed.

Lemma sys_inv_step f g st x y : sys_step x y → sys_inv f g st x → sys_inv f g st y.
Proof.
  intros Hst Hinv.
  destruct Hst as [d p q d' p' Hp|d p q d' q' Hq];
    [inversion Hp as [? h|? h ? Hs]|inversion Hq as [? h|? h ? Hs]]; simplify_eq;
    try apply save_Ok_inv in Hs as ->; simpl in *; destruct Hinv as [Hw Hinv];
    (split; [done|]); rewrite ?load_saved;
    [destruct q | destruct q | destruct p | destruct p]; destruct_and?; subst;
    first [by auto | split; [done | right; congruence] | destruct_or?; subst; set_solver].
Qed.

Lemma sys_two_edits f g d d' :
  writable d = true →
  rtc sys_step (d, PLoad f, PLoad g) (d', PDone, PDone) →
  load d' ∈ [f (load d); g (load d); g (f (load d)); f (g (load d))].
Proof.
  intros Hw Hrtc.
  apply (rtc_preserves sys_step (sys_inv f g (load d)) (sys_inv_step f g (load d))) in Hrtc;
    [by destruct Hrtc | done].
Qed.

(** The interleaving read, read, write, write keeps only the last write. *)
Lemma sys_overwrite f g d :
  writable d = true →
  ∃ d', rtc sys_step (d, PLoad f, PLoad g) (d', PDone, PDone) ∧ load d' = f (load d).
Proof.
  intros Hw. pose proof (save_writable (g (load d)) d Hw) as Hg. eexists. split.
  - eapply rtc_l; [by apply step_left, step_load|].
    eapply rtc_l; [by apply step_right, step_load|].
    eapply rtc_l; [by eapply step_right, step_save|].
    eapply rtc_once, step_left, step_save. by apply save_writable.
  - by rewrite load_saved.
Qed.

(** Run one after the other, the operations are what their names say. *)
Lemma saveCursor_is_edit c d : saveCursor c d = save (with_cursor c (load d)) d.
Proof. done. Qed.

Lemma addSubscriber_is_edit u o d :
  has_channel o = true →
  (addSubscriber u o d).2 = (save (pushed (subscriber_of u o) (load d)) d).2.
Proof. unfold addSubscriber. intros ->. by destruct (save _ d) as [[]]. Qed.
End processes.

(** ** A codec for evaluating the model: the bits of stdpp's encoding. *)
Global Instance Subscriber_countable : Countable Subscriber.
Proof.
  refine (inj_countable'
    (λ s, (id s, proposalId s, events s, email s, webhookUrl s, slackWebhookUrl s,
           discordWebhookUrl s))
    (λ '(a, b, c, d, e, f, g), Build_Subscriber a b c d e f g) _).
  by intros [].
Defined.
Global Instance SubscriptionStore_countable : Countable SubscriptionStore.
Proof.
  refine (inj_countable' (λ s, (subscribers s, cursor s))
    (λ '(a, b), Build_SubscriptionStore a b) _).
  by intros [].
Defined.

Definition bit_codec : StoreCodec.
Proof.
  refine {| stringify s := [Zpos (encode s)];
            parse r := match r with [Zpos p] => decode p | _ => None end |}; [|done].
  intros s. apply decode_encode.
Defined.

(** ** Properties *)
Section properties.
  Context `{!StoreCodec}.

(** C8. The file implements the abstract store: on a writable disk every
    sequence of operations gives the replies of the specification and leaves a
    file that loads as the specification's store; on a disk that refuses writes
    the file is untouched and no reply claims a write. *)
Theorem store_refines_spec (cs : list Cmd) (d : Disk) :
  if writable d
  then spec_cmds cs (load d) = ((run_cmds cs d).1, load (run_cmds cs d).2)
  else (run_cmds cs d).2 = d ∧ Forall (λ r, reports_write r = false) (run_cmds cs d).1.
Proof.
  destruct (writable d) eqn:Hw; [by apply run_cmds_refines|].
  induction cs as [|c cs IH]; [done|]; simpl.
  pose proof (run_cmd_unwritable c d Hw) as Hd.
  destruct (run_cmd c d) as [r d1] eqn:Hr; simpl in Hd; subst d1.
  destruct (run_cmds cs d) as [rs d2]; simpl in *; destruct IH as [-> IH]. split; [done|].
  constructor; [|done]. by eapply run_cmd_unwritable_reply.
Qed.

(** Exactly the subscribers that listed the event type and either filter on
    no proposal (absent or empty filter) or on this one are matched, in the
    order in which they subscribed. *)
Theorem matchingSubscribers_exact (t : jstr) (p : option jstr) (d : Disk) :
  matchingSubscribers t p d `sublist_of` subscribers (load d) ∧
  ∀ s, s ∈ matchingSubscribers t p d ↔
    s ∈ subscribers (load d) ∧ t ∈ events s ∧
    (proposalId s = None ∨ proposalId s = Some [] ∨ proposalId s = p).
Proof.
  split; [apply sublist_filter|]. intros s.
  rewrite matchingSubscribers_elem, matches_spec. tauto.
Qed.

(** [removeSubscriber] reports whether the identifier was present; a removal
    drops exactly the records with that identifier and keeps the others, their
    order and the cursor, and a miss does not touch the file. *)
Theorem removeSubscriber_exact (i : jstr) (d : Disk) :
  writable d = true →
  let '(r, d') := removeSubscriber i d in
  r = Ok (bool_decide (i ∈ id <$> subscribers (load d))) ∧
  subscribers (load d') = filter (λ s, id s ≠ i) (subscribers (load d)) ∧
  cursor (load d') = cursor (load d) ∧
  (r = Ok false → d' = d).
Proof.
  intros Hw. pose proof (run_cmd_refines (Remove i) d Hw) as Href; simpl in Href.
  destruct (removeSubscriber i d) as [[b|e] d'] eqn:Hrm; [|naive_solver].
  destruct Href as [[= -> <-] _]. split_and!; try done. intros Hf.
  unfold removeSubscriber in Hrm. by repeat case_match; simplify_eq.
Qed.

(** A cursor save by the watcher and a subscription by the command line that
    overlap end in one of three stores: both edits, or either one alone; the
    store without the new subscriber is reachable although the command line has
    reported success. *)
Theorem overlapping_processes_lose_updates (c u : jstr) (o : AddOpts) (d : Disk) :
  writable d = true →
  let st := load d in
  let start := (d, PLoad (with_cursor c), PLoad (pushed (subscriber_of u o))) in
  (∀ d', rtc sys_step start (d', PDone, PDone) →
     load d' ∈ [with_cursor c (pushed (subscriber_of u o) st); with_cursor c st;
                pushed (subscriber_of u o) st]) ∧
  (∃ d', rtc sys_step start (d', PDone, PDone) ∧ load d' = with_cursor c st).
Proof.
  intros Hw st start. split; [|by apply sys_overwrite].
  intros d' Hrtc. apply sys_two_edits in Hrtc; [|done]. fold st in Hrtc.
  unfold with_cursor, pushed in *; simpl in *. set_solver.
Qed.
End properties.

(** The theorems at concrete inputs. *)
Definition example_opts : AddOpts := {|
  o_proposalId := None; o_events := [js "created"]; o_email := Some (js "a@b.c");
  o_webhookUrl := None; o_slackWebhookUrl := None; o_discordWebhookUrl := None |}.
Definition example_disk : Disk := {| file := None; dir_exists := false; writable := true |}.
Definition example_store : SubscriptionStore :=
  pushed (subscriber_of (js "u2") example_opts)
    (pushed (subscriber_of (js "u1") example_opts) default_store).
Definition stored_disk : Disk :=
  {| file := Some (@stringify bit_codec example_store); dir_exists := true; writable := true |}.

Lemma store_refines_spec_witness :
  let cs := [Add (js "u1") example_opts; SaveCursor (js "41"); List] in
  @load bit_codec (@run_cmds bit_codec cs example_disk).2 =
    {| subscribers := [subscriber_of (js "u1") example_opts]; cursor := js "41" |}.
Proof.
  intros cs. pose proof (@store_refines_spec bit_codec cs example_disk) as H.
  cbn [writable example_disk] in H. by apply (f_equal snd) in H.
Defined.

Lemma removeSubscriber_exact_witness :
  let '(r, d') := @removeSubscriber bit_codec (js "u1") stored_disk in
  r = Ok true ∧
  subscribers (@load bit_codec d') = [subscriber_of (js "u2") example_opts].
Proof.
  pose proof (@removeSubscriber_exact bit_codec (js "u1") stored_disk eq_refl) as H.
  destruct (@removeSubscriber bit_codec _ _) as [r d']. destruct H as (-> & Hs & _).
  unfold stored_disk in Hs at 1. rewrite Hs, (load_saved example_store). by split; vm_compute.
Defined.

Lemma overlapping_processes_lose_updates_witness :
  ∃ d', rtc (@sys_step bit_codec)
    (example_disk, PLoad (with_cursor (js "41")), PLoad (pushed (subscriber_of (js "u1") example_opts)))
    (d', PDone, PDone) ∧ @load bit_codec d' = {| subscribers := []; cursor := js "41" |}.
Proof.
  exact (proj2 (@overlapping_processes_lose_updates bit_codec (js "41") (js "u1")
    example_opts example_disk eq_refl)).
Defined.

End Subscriptions.
