(* ===== verification/Sharing.v ===== *)
(** * One subscription file, several processes
    (notification-service/src/subscriptions.ts)

    The watcher and every run of the command line are processes of their own on
    the same file. An operation that edits the store reads the file, computes the
    new store, opens the file for writing, which empties it, and writes the text;
    nothing locks the file, so the steps of one process can fall between the steps
    of another. [Shared] is the file and what the processes that have read it are
    about to write; [Act] is one step of the other processes. *)
From Stdlib Require Import Ascii String ZArith Lia.
From stdpp Require Import prelude list strings.
From S2P Require Import Prelude JsString JsNumber Subscriptions.

Module Sharing.
Import Subscriptions.

Record Shared := { disk : Disk; pending : list SubscriptionStore }.

(** The store an operation writes when it has read [st], if it writes. *)
Definition to_write (c : Cmd) (st : SubscriptionStore) : option SubscriptionStore :=
  match c with
  | Add u o => if has_channel o then Some (pushed (subscriber_of u o) st) else None
  | Remove i =>
      let kept := filter (λ s, id s ≠ i) (subscribers st) in
      if bool_decide (length kept = length (subscribers st)) then None
      else Some {| subscribers := kept; cursor := cursor st |}
  | SaveCursor k => Some (with_cursor k st)
  | List | Match _ _ => None
  end.

(** [fs.writeFileSync] opens the file with its old text thrown away. *)
Definition opened (d : Disk) : Disk :=
  if writable d then {| file := Some []; dir_exists := true; writable := true |} else d.

(** A step of the other processes: a whole operation at once; a process that
    starts and reads; the [i]-th waiting process opening the file, or writing its
    store; the file system beginning or ceasing to accept writes. A process that
    dies takes no further step. *)
Inductive Act :=
| Whole (c : Cmd)
| Begin (c : Cmd)
| Open (i : nat)
| Finish (i : nat)
| Permit (b : bool).

Section acts.
  Context `{!StoreCodec}.

Definition act (a : Act) (sh : Shared) : Shared :=
  match a with
  | Whole c => {| disk := (run_cmd c (disk sh)).2; pending := pending sh |}
  | Begin c => {| disk := disk sh;
                  pending := pending sh ++ option_list (to_write c (load (disk sh))) |}
  | Open i => match pending sh !! i with
              | Some _ => {| disk := opened (disk sh); pending := pending sh |}
              | None => sh
              end
  | Finish i => match pending sh !! i with
                | Some st => {| disk := (save st (disk sh)).2; pending := delete i (pending sh) |}
                | None => sh
                end
  | Permit b => {| disk := {| file := file (disk sh); dir_exists := dir_exists (disk sh);
                              writable := b |}; pending := pending sh |}
  end.

Definition acts (l : list Act) (sh : Shared) : Shared := foldl (flip act) sh l.

(** [saveCursor] among the steps of others: those before its write opens the file,
    and those before the text is in the file. *)
Definition saveCursor_among (c : jstr) (amid torn : list Act) (sh : Shared)
    : res () () * Shared :=
  let store := load (disk sh) in
  let sh1 := acts amid sh in
  let sh2 := acts torn {| disk := opened (disk sh1); pending := pending sh1 |} in
  let '(r, d) := save (with_cursor c store) (disk sh2) in
  (r, {| disk := d; pending := pending sh2 |}).

(** ** The steps of an operation in a row are the operation *)
Lemma save_opened st d : save st (opened d) = save st d.
Proof. unfold save, opened. by destruct (writable d) eqn:Hw; rewrite ?Hw. Qed.

Lemma run_cmd_writes c d :
  (run_cmd c d).2 = match to_write c (load d) with Some st => (save st d).2 | None => d end.
Proof.
  destruct c as [u o|i|k| |t p]; cbn [run_cmd to_write]; [| | |done|done].
  - unfold addSubscriber. destruct (has_channel o); [|done]. by destruct (save _ d) as [[]].
  - unfold removeSubscriber. case_bool_decide; [done|]. by destruct (save _ d) as [[]].
  - unfold saveCursor. by destruct (save _ d) as [[]].
Qed.

Lemma whole_steps c sh :
  let n := length (pending sh) in
  acts [Begin c; Open n; Finish n] sh = act (Whole c) sh.
Proof.
  destruct sh as [d ps]. cbn -[to_write run_cmd save]. rewrite run_cmd_writes.
  destruct (to_write c (load d)) as [st|]; cbn -[save].
  - rewrite list_lookup_middle by done. cbn -[save]. rewrite list_lookup_middle by done.
    rewrite save_opened, delete_middle, app_nil_r. done.
  - by rewrite app_nil_r, (lookup_ge_None_2 ps) by done; cbn -[save];
      rewrite (lookup_ge_None_2 ps).
Qed.

Lemma saveCursor_alone c sh :
  saveCursor_among c [] [] sh =
    (let '(r, d) := saveCursor c (disk sh) in (r, {| disk := d; pending := pending sh |})).
Proof. unfold saveCursor_among, saveCursor. cbn -[save]. by rewrite save_opened. Qed.

(** ** The cursors around

    What a reader can find as the cursor, now or once a waiting process has written. *)
Definition held (sh : Shared) : list jstr := cursor (load (disk sh)) :: (cursor <$> pending sh).

(** The commands of the command line: all but the watcher's own cursor save. *)
Definition cli_cmd (c : Cmd) : Prop := match c with SaveCursor _ => False | _ => True end.
Definition cli_act (a : Act) : Prop :=
  match a with Whole c | Begin c => cli_cmd c | _ => True end.
(** A run of the command line that overlaps nothing. *)
Definition whole_act (a : Act) : Prop := match a with Whole c => cli_cmd c | _ => False end.

Lemma to_write_cursor c st st' : cli_cmd c → to_write c st = Some st' → cursor st' = cursor st.
Proof. intros Hc. destruct c; cbn [to_write]; try done; repeat case_match; naive_solver. Qed.

Lemma load_empty d : file d = Some [] → load d = default_store.
Proof. unfold load. intros ->. by rewrite parse_empty. Qed.

Lemma load_opened d : load (opened d) = load d ∨ load (opened d) = default_store.
Proof. unfold opened. destruct (writable d); [right; by apply load_empty | by left]. Qed.

Lemma load_save st d : load (save st d).2 = st ∨ load (save st d).2 = load d.
Proof. unfold save. destruct (writable d); [left; apply load_saved | by right]. Qed.

(** No step of the command line makes a cursor up: it keeps the cursors around, or
    the file is found empty, which reads as [now]. *)
Lemma act_cursors (P : jstr → Prop) a sh :
  P (js "now") → cli_act a → Forall P (held sh) → Forall P (held (act a sh)).
Proof.
  intros Hnow Ha. unfold held. rewrite !Forall_cons. intros [Hc Hp].
  destruct a as [c|c|i|i|b]; cbn [act disk pending]; [| | | |done].
  - split; [|done]. rewrite run_cmd_writes. destruct (to_write c _) as [st|] eqn:Hw; [|done].
    destruct (load_save st (disk sh)) as [->| ->]; [|done].
    by rewrite (to_write_cursor _ _ _ Ha Hw).
  - split; [done|]. rewrite fmap_app. apply Forall_app. split; [done|].
    destruct (to_write c _) as [st|] eqn:Hw; cbn; [|done].
    apply Forall_singleton. by rewrite (to_write_cursor _ _ _ Ha Hw).
  - destruct (pending sh !! i); cbn [disk pending]; [|done]. split; [|done].
    by destruct (load_opened (disk sh)) as [->| ->].
  - destruct (pending sh !! i) as [st|] eqn:Hi; cbn [disk pending]; [|done].
    rewrite Forall_fmap in *. split; [|by apply Forall_delete].
    destruct (load_save st (disk sh)) as [->| ->]; [|done].
    eapply (Forall_lookup_1 (P ∘ cursor) _ _ _ Hp Hi).
Qed.

Lemma acts_cursors (P : jstr → Prop) l sh :
  P (js "now") → Forall cli_act l → Forall P (held sh) → Forall P (held (acts l sh)).
Proof.
  intros Hnow Hl. revert sh. induction Hl as [|a l Ha _ IH]; intros sh Hsh; [done|].
  apply IH. by apply act_cursors.
Qed.

(** Runs that overlap nothing leave the cursor and nothing waiting. *)
Lemma run_cmd_cli c d :
  cli_cmd c →
  cursor (load (run_cmd c d).2) = cursor (load d) ∧ writable (run_cmd c d).2 = writable d.
Proof.
  intros Hc. rewrite run_cmd_writes. destruct (to_write c (load d)) as [st|] eqn:Hw; [|done].
  unfold save. destruct (writable d) eqn:Hd; [|done]. cbn [snd writable].
  by rewrite load_saved, (to_write_cursor _ _ _ Hc Hw).
Qed.

Lemma acts_whole l sh :
  Forall whole_act l →
  cursor (load (disk (acts l sh))) = cursor (load (disk sh)) ∧
  writable (disk (acts l sh)) = writable (disk sh) ∧ pending (acts l sh) = pending sh.
Proof.
  intros Hl. revert sh. induction Hl as [|a l Ha _ IH]; intros sh; [done|].
  destruct a as [c| | | |]; try done.
  change (acts (Whole c :: l) sh) with (acts l (act (Whole c) sh)).
  destruct (IH (act (Whole c) sh)) as (-> & -> & ->). cbn [act disk pending].
  by destruct (run_cmd_cli c (disk sh) Ha) as [-> ->].
Qed.

(** A process that reads while another has the file open finds nothing there: when
    it then writes, every subscriber and the cursor are gone, whatever the process
    that had opened the file was doing. *)
Theorem reading_an_open_file_loses_the_store (u : jstr) (o : AddOpts) (i : nat) (sh : Shared) :
  writable (disk sh) = true → has_channel o = true → is_Some (pending sh !! i) →
  let n := length (pending sh) in
  load (disk (acts [Open i; Begin (Add u o); Finish i; Open (n - 1); Finish (n - 1)] sh)) =
    pushed (subscriber_of u o) default_store.
Proof.
  intros Hw Ho [st Hi] n. pose proof (lookup_lt_Some _ _ _ Hi) as Hlt.
  set (new := pushed (subscriber_of u o) default_store).
  set (empty := {| file := Some []; dir_exists := true; writable := true |}).
  set (sh1 := {| disk := empty; pending := pending sh |}).
  assert (act (Open i) sh = sh1) as H1
    by (cbn [act]; rewrite Hi; unfold opened; by rewrite Hw).
  assert (act (Begin (Add u o)) sh1 = {| disk := empty; pending := pending sh ++ [new] |}) as H2.
  { cbn [act to_write disk sh1]. by rewrite Ho, (load_empty empty). }
  assert (delete i (pending sh ++ [new]) !! (n - 1)%nat = Some new) as Hlast.
  { rewrite list_lookup_delete_ge by (unfold n; lia).
    replace (S (n - 1)) with n by (unfold n; lia). unfold n. by rewrite list_lookup_middle. }
  unfold acts. cbn [foldl flip]. rewrite H1, H2. cbn [act pending].
  rewrite lookup_app_l, Hi by done. cbn [act pending disk]. rewrite Hlast. cbn [act pending disk].
  rewrite Hlast. cbn [disk]. unfold save, opened. cbn [writable snd empty]. by rewrite load_saved.
Qed.
End acts.

Lemma reading_an_open_file_loses_the_store_witness :
  let sh := {| disk := stored_disk; pending := [example_store] |} in
  let act_list := [Open 0; Begin (Add (js "u3") example_opts); Finish 0; Open 0; Finish 0] in
  subscribers (@load bit_codec (disk (@acts bit_codec act_list sh))) =
    [subscriber_of (js "u3") example_opts].
Proof.
  intros sh act_list.
  exact (f_equal subscribers (@reading_an_open_file_loses_the_store bit_codec (js "u3")
    example_opts 0 sh eq_refl eq_refl (ex_intro _ example_store eq_refl))).
Defined.
End Sharing.
