(* ===== verification/Channels.v ===== *)
(** * Delivery channels and the notifier of the notification service
    (notification-service/src/channels.ts and notifier.ts)

    A channel is a plugin: a name, a configuration test and a delivery. The
    registry is a list of plugins and [notify] is written against the plugin
    interface only, so its theorems are proved for any registry of
    [LawfulChannel]s and then applied to [CHANNELS]. The mail and HTTP clients
    are third-party code: [deliver] answers each request with [None] when the
    promise resolves and [Some message] when it rejects. *)
From Stdlib Require Import Ascii String ZArith Lia.
From stdpp Require Import prelude list strings.
From S2P Require Import Prelude JsString JsNumber Subscriptions.
Local Open Scope Z_scope.

Module Channels.
Import Subscriptions.

Notation event := GovernanceEvent.

(** ** Messages *)
Definition labels : list (jstr * jstr) :=
  [(js "created", js "A new governance proposal has been created.");
   (js "voted", js "A vote has been cast on a proposal.");
   (js "final", js "A proposal has been finalized.");
   (js "exec", js "A proposal has been executed.");
   (js "cancel", js "A proposal has been cancelled.")].

Definition newline : jstr := [10].
Definition backticks : jstr := js "```".

Definition buildTextMessage (ev : event) : jstr :=
  let base := default (js "Governance event: " ++ ev_type ev) (assoc (ev_type ev) labels) in
  let ledger := newline ++ js "Ledger: " ++ string_of_num (ev_ledger ev) in
  match ev_proposalId ev with
  | Some ((_ :: _) as p) => base ++ newline ++ js "Proposal ID: " ++ p ++ ledger
  | _ => base ++ ledger
  end.

Definition verb : list (jstr * jstr) :=
  [(js "created", js "created"); (js "voted", js "vote cast on");
   (js "final", js "finalized"); (js "exec", js "executed"); (js "cancel", js "cancelled")].

Definition buildSubjectLine (ev : event) : jstr :=
  let action := default (ev_type ev) (assoc (ev_type ev) verb) in
  match ev_proposalId ev with
  | Some ((_ :: _) as p) => js "CosmosVote: proposal #" ++ p ++ js " " ++ action
  | _ => js "CosmosVote: proposal " ++ action
  end.

(** ** The mail transport, from the environment *)
Record Transport := {
  tr_host : option jstr; tr_port : jsnum; tr_user : option jstr; tr_pass : option jstr }.
(** [Number(process.env.SMTP_PORT ?? 587)]: a variable that is set, if only to
    nothing, replaces the default. *)
Definition transporter (SMTP_HOST SMTP_PORT SMTP_USER SMTP_PASS : option jstr) : Transport := {|
  tr_host := SMTP_HOST;
  tr_port := match SMTP_PORT with Some p => js_Number p | None => num_of_Z 587 end;
  tr_user := SMTP_USER; tr_pass := SMTP_PASS |}.
Example port_unset : tr_port (transporter None None None None) = num_of_Z 587.
Proof. reflexivity. Qed.
Example port_empty : tr_port (transporter None (Some []) None None) = num_of_Z 0.
Proof. reflexivity. Qed.

(** ** Requests *)
Inductive Body :=
| EventBody (ev : event)
| SlackBody (text : jstr) (section_text : jstr)
| DiscordBody (content : jstr).

Inductive Outbound :=
| SendMail (from : option jstr) (to subject text : jstr)
| HttpPost (url : jstr) (body : Body) (timeout : Z).

(** A delivery: the requests it made, and the error message it was rejected with. *)
Record Attempt := { requests : list Outbound; rejected : option jstr }.
Definition no_attempt : Attempt := {| requests := []; rejected := None |}.

(** ** The plugin interface *)
Record NotificationChannel := {
  name : jstr;
  isConfigured : Subscriber → bool;
  send : Subscriber → event → Attempt }.

Section channels.
  (** The environment and the transports. *)
  Variables EMAIL_FROM SLACK_WEBHOOK_URL DISCORD_WEBHOOK_URL : option jstr.
  Variable deliver : Outbound → option jstr.

Definition request (r : Outbound) : Attempt := {| requests := [r]; rejected := deliver r |}.

(** ** The four channels *)
Definition EmailChannel : NotificationChannel := {|
  name := js "email";
  isConfigured s := truthy (email s);
  send s ev :=
    match email s with
    | Some ((_ :: _) as to) =>
        request (SendMail EMAIL_FROM to (buildSubjectLine ev) (buildTextMessage ev))
    | _ => no_attempt
    end |}.

Definition WebhookChannel : NotificationChannel := {|
  name := js "webhook";
  isConfigured s := truthy (webhookUrl s);
  send s ev :=
    match webhookUrl s with
    | Some ((_ :: _) as url) => request (HttpPost url (EventBody ev) 10000)
    | _ => no_attempt
    end |}.

Definition slack_url (s : Subscriber) : option jstr :=
  nullish (slackWebhookUrl s) SLACK_WEBHOOK_URL.

Definition emoji : list (jstr * jstr) :=
  [(js "created", js ":memo:"); (js "voted", js ":ballot_box:");
   (js "final", js ":checkered_flag:"); (js "exec", js ":rocket:"); (js "cancel", js ":x:")].

Definition SlackChannel : NotificationChannel := {|
  name := js "slack";
  isConfigured s := truthy (slack_url s);
  send s ev :=
    match slack_url s with
    | Some ((_ :: _) as url) =>
        let text := buildTextMessage ev in
        let icon := default (js ":bell:") (assoc (ev_type ev) emoji) in
        request (HttpPost url
          (SlackBody (icon ++ js " *CosmosVote* — " ++ buildSubjectLine ev)
             (icon ++ js " *" ++ buildSubjectLine ev ++ js "*" ++ newline
                ++ backticks ++ text ++ backticks)) 10000)
    | _ => no_attempt
    end |}.

Definition discord_url (s : Subscriber) : option jstr :=
  nullish (discordWebhookUrl s) DISCORD_WEBHOOK_URL.

Definition DiscordChannel : NotificationChannel := {|
  name := js "discord";
  isConfigured s := truthy (discord_url s);
  send s ev :=
    match discord_url s with
    | Some ((_ :: _) as url) =>
        let text := buildTextMessage ev in
        request (HttpPost url
          (DiscordBody (js "**CosmosVote** — " ++ buildSubjectLine ev ++ newline
             ++ backticks ++ newline ++ text ++ newline ++ backticks)) 10000)
    | _ => no_attempt
    end |}.

Definition CHANNELS : list NotificationChannel :=
  [EmailChannel; WebhookChannel; SlackChannel; DiscordChannel].

(** ** notifier.ts *)
Record ChannelResult := { channel : jstr; success : bool; error : option jstr }.

(** One task of [notify]: attempt the channel, turn a rejection into a result. *)
Definition task_result (ch : NotificationChannel) (s : Subscriber) (ev : event) : ChannelResult :=
  match rejected (send ch s ev) with
  | None => {| channel := name ch; success := true; error := None |}
  | Some m => {| channel := name ch; success := false; error := Some m |}
  end.

Definition configured (chs : list NotificationChannel) (s : Subscriber) : list NotificationChannel :=
  filter (λ ch, isConfigured ch s = true) chs.

(** [notify] over a registry: the results in registry order (Promise.all keeps
    it) and the requests each task made. The tasks are started together and do
    not read each other's state, so their requests are listed per task. *)
Definition notify_with (chs : list NotificationChannel) (s : Subscriber) (ev : event)
    : list ChannelResult * list Outbound :=
  (map (λ ch, task_result ch s ev) (configured chs s),
   configured chs s ≫= λ ch, requests (send ch s ev)).

Definition notify (s : Subscriber) (ev : event) : list ChannelResult * list Outbound :=
  notify_with CHANNELS s ev.

(** ** The addresses of a subscriber, independently of the channels *)
Inductive Medium := ByMail | ByHttp.

(** Where a request goes. *)
Definition addressed (r : Outbound) : Medium * jstr :=
  match r with SendMail _ to _ _ => (ByMail, to) | HttpPost url _ _ => (ByHttp, url) end.

(** The addresses a subscriber gave: its mail address and its three URLs, those
    that are not empty. *)
Definition own_addresses (s : Subscriber) : list (Medium * jstr) :=
  omap (λ a : Medium * option jstr,
      match a.2 with Some ((_ :: _) as t) => Some (a.1, t) | _ => None end)
    [(ByMail, email s); (ByHttp, webhookUrl s); (ByHttp, slackWebhookUrl s);
     (ByHttp, discordWebhookUrl s)].

(** A request that tells the event: the event itself, or the text about it. *)
Definition tells (ev : event) (r : Outbound) : Prop :=
  match r with
  | SendMail _ _ subject text => subject = buildSubjectLine ev ∧ text = buildTextMessage ev
  | HttpPost _ (EventBody e) _ => e = ev
  | HttpPost _ (SlackBody _ text) _ | HttpPost _ (DiscordBody text) _ =>
      ∃ before after, text = before ++ buildTextMessage ev ++ after
  end.

(** ** What a channel promises to the notifier *)
Class LawfulChannel (ch : NotificationChannel) : Prop := {
  configured_request s ev :
    isConfigured ch s = true →
    ∃ r, requests (send ch s ev) = [r] ∧ rejected (send ch s ev) = deliver r;
  unconfigured_silent s ev : isConfigured ch s = false → send ch s ev = no_attempt;
  request_tells s ev r : r ∈ requests (send ch s ev) → tells ev r }.

(** A text within another, found by dropping what precedes it. *)
Lemma within_here (text q : jstr) : ∃ before after, text ++ q = before ++ text ++ after.
Proof. by exists [], q. Qed.
Lemma within_after (p t text : jstr) :
  (∃ before after, t = before ++ text ++ after) →
  ∃ before after, p ++ t = before ++ text ++ after.
Proof. intros (b & a & ->). exists (p ++ b), a. by rewrite <- app_assoc. Qed.

(** The three laws, by cases on the address the channel reads. *)
Ltac solve_channel :=
  constructor; [intros s ev | intros s ev | intros s ev r];
  cbn [isConfigured send EmailChannel WebhookChannel SlackChannel DiscordChannel];
  match goal with |- context [match ?o with Some _ => _ | None => _ end] =>
    destruct o as [[|? ?]|] end;
  cbn [truthy request requests rejected no_attempt];
  rewrite ?list_elem_of_singleton, ?elem_of_nil; intros;
  try discriminate; try contradiction; subst; eauto; cbn [tells];
  first [by auto | repeat first [apply within_here | apply within_after]].

Global Instance EmailChannel_lawful : LawfulChannel EmailChannel.
Proof. solve_channel. Qed.
Global Instance WebhookChannel_lawful : LawfulChannel WebhookChannel.
Proof. solve_channel. Qed.
Global Instance SlackChannel_lawful : LawfulChannel SlackChannel.
Proof. solve_channel. Qed.
Global Instance DiscordChannel_lawful : LawfulChannel DiscordChannel.
Proof. solve_channel. Qed.

Lemma CHANNELS_lawful : Forall LawfulChannel CHANNELS.
Proof. repeat (apply Forall_cons_2; [apply _|]). by apply Forall_nil_2. Qed.

(** ** Lemmas: any registry of lawful channels *)
Lemma configured_cons ch chs s :
  configured (ch :: chs) s =
    if isConfigured ch s then ch :: configured chs s else configured chs s.
Proof.
  unfold configured. rewrite filter_cons.
  by destruct (isConfigured ch s); case_decide.
Qed.

Lemma notify_with_outcomes chs s ev :
  Forall LawfulChannel chs →
  let '(results, reqs) := notify_with chs s ev in
  Forall2 (λ res r, error res = deliver r ∧ success res = bool_decide (deliver r = None))
    results reqs ∧
  map channel results = map name (configured chs s).
Proof.
  unfold notify_with. induction 1 as [|ch chs Hch _ [IH1 IH2]]; [by split|].
  rewrite configured_cons. destruct (isConfigured ch s) eqn:Hc; [|done].
  destruct (configured_request s ev Hc) as (r & Hr & Hrej). csimpl.
  rewrite Hr. csimpl. unfold task_result at 1 3. rewrite Hrej. split.
  - constructor; [|done]. by destruct (deliver r).
  - by destruct (deliver r); simpl; rewrite IH2.
Qed.

(** What a subscriber is sent, with the name of the channel that sends it. *)
Definition wanted (chs : list NotificationChannel) (s : Subscriber) (ev : event)
    : list (jstr * Outbound) :=
  omap (λ ch, pair (name ch) <$> head (requests (send ch s ev))) chs.

Definition result_of (n : jstr) (answer : option jstr) : ChannelResult :=
  {| channel := n; success := bool_decide (answer = None); error := answer |}.

Lemma notify_with_wanted chs s ev :
  Forall LawfulChannel chs →
  notify_with chs s ev =
    (map (λ nr, result_of nr.1 (deliver nr.2)) (wanted chs s ev), map snd (wanted chs s ev)).
Proof.
  unfold notify_with, wanted. induction 1 as [|ch chs Hch _ IH]; [done|].
  injection IH as IH1 IH2. rewrite configured_cons. csimpl.
  destruct (isConfigured ch s) eqn:Hc.
  - destruct (configured_request s ev Hc) as (r & Hr & Hrej). csimpl. rewrite Hr, IH1. csimpl.
    rewrite IH2. unfold task_result. rewrite Hrej. by destruct (deliver r).
  - by rewrite (unconfigured_silent s ev Hc), IH1, IH2.
Qed.

Lemma configured_elem chs s ch :
  ch ∈ configured chs s ↔ ch ∈ chs ∧ isConfigured ch s = true.
Proof. unfold configured. rewrite list_elem_of_filter. tauto. Qed.

Lemma reachable_addresses s : reachable_by_someone s = true → own_addresses s ≠ [].
Proof.
  unfold reachable_by_someone, own_addresses.
  by destruct (email s) as [[|? ?]|], (webhookUrl s) as [[|? ?]|],
    (slackWebhookUrl s) as [[|? ?]|], (discordWebhookUrl s) as [[|? ?]|].
Qed.

(** Every request of a notification tells the event. *)
Lemma notify_with_tells chs s ev :
  Forall LawfulChannel chs → Forall (tells ev) (notify_with chs s ev).2.
Proof.
  intros Hchs. apply list.Forall_forall. intros r (ch & Hr & Hch)%list_elem_of_bind.
  apply configured_elem in Hch as [Hch Hc].
  pose proof (proj1 (list.Forall_forall _ _) Hchs ch Hch). by eapply request_tells.
Qed.

(** Every address of the subscriber is one of the channels' addresses. *)
Lemma own_address_requested s ev a :
  a ∈ own_addresses s →
  ∃ ch r, ch ∈ CHANNELS ∧ isConfigured ch s = true ∧ r ∈ requests (send ch s ev) ∧
    addressed r = a.
Proof.
  unfold own_addresses. rewrite list_elem_of_omap. intros ([m [[|c t]|]] & Hin & [= <-]).
  repeat (apply elem_of_cons in Hin as [[= -> Hs]|Hin]); [| | | |set_solver];
    [exists EmailChannel | exists WebhookChannel | exists SlackChannel | exists DiscordChannel];
    unfold CHANNELS; cbn [isConfigured send EmailChannel WebhookChannel SlackChannel DiscordChannel];
    unfold slack_url, discord_url; rewrite <- Hs; cbn [nullish truthy request requests];
    eexists; (split; [set_solver|]); (split; [done|]);
    (split; [apply list_elem_of_here|done]).
Qed.

Lemma notify_requests_addresses s ev a :
  a ∈ own_addresses s → ∃ r, r ∈ (notify s ev).2 ∧ addressed r = a.
Proof.
  intros (ch & r & Hch & Hc & Hr & <-)%(own_address_requested s ev). exists r. split; [|done].
  apply list_elem_of_bind. exists ch. by rewrite configured_elem.
Qed.

End channels.

(** The requests do not depend on what the transports answer. *)
Lemma wanted_deliver EMAIL_FROM SLACK DISCORD deliver deliver' s ev :
  wanted (CHANNELS EMAIL_FROM SLACK DISCORD deliver) s ev =
  wanted (CHANNELS EMAIL_FROM SLACK DISCORD deliver') s ev.
Proof.
  unfold wanted, CHANNELS. cbn [omap list_omap].
  cbn [send name EmailChannel WebhookChannel SlackChannel DiscordChannel].
  destruct (email s) as [[|? ?]|], (webhookUrl s) as [[|? ?]|],
    (slack_url SLACK s) as [[|? ?]|], (discord_url DISCORD s) as [[|? ?]|]; reflexivity.
Qed.

(** ** Properties *)
Section properties.
  Variables EMAIL_FROM SLACK_WEBHOOK_URL DISCORD_WEBHOOK_URL : option jstr.

(** [notify] makes exactly one request per configured channel, in registry
    order, and reports for each one, under the channel's name, success when the
    transport accepted the request and its error message when it did not. *)
Theorem notify_reports_each_channel deliver (s : Subscriber) (ev : event) :
  let chs := CHANNELS EMAIL_FROM SLACK_WEBHOOK_URL DISCORD_WEBHOOK_URL deliver in
  let '(results, reqs) := notify EMAIL_FROM SLACK_WEBHOOK_URL DISCORD_WEBHOOK_URL deliver s ev in
  Forall2 (λ res r, error res = deliver r ∧ success res = bool_decide (deliver r = None))
    results reqs ∧
  map channel results = map name (configured chs s).
Proof. apply notify_with_outcomes, CHANNELS_lawful. Qed.

(** A failing channel does not affect the others: the requests [notify] makes
    are the same whatever the transports answer, and the report of a channel
    depends only on the answer to its own request. *)
Theorem notify_isolates_failures deliver deliver' (s : Subscriber) (ev : event) :
  let run := notify EMAIL_FROM SLACK_WEBHOOK_URL DISCORD_WEBHOOK_URL in
  (run deliver s ev).2 = (run deliver' s ev).2 ∧
  ∀ i r, (run deliver s ev).2 !! i = Some r → deliver r = deliver' r →
    (run deliver s ev).1 !! i = (run deliver' s ev).1 !! i.
Proof.
  cbv zeta. unfold notify. rewrite (notify_with_wanted deliver), (notify_with_wanted deliver') by apply CHANNELS_lawful. cbn [fst snd].
  rewrite (wanted_deliver _ _ _ deliver deliver'). split; [done|]. intros i r Hi Hr.
  rewrite !list_lookup_fmap. rewrite list_lookup_fmap in Hi.
  destruct (wanted _ s ev !! i) as [[n r']|]; [|done]. by simplify_eq/=; rewrite Hr.
Qed.

(** C35. Every subscriber the store lists is notified of an event, at every
    address it gave. Starting from no file and after any sequence of store
    operations, whatever the transports answer: each listed subscriber gave at
    least one address (its mail address, its webhook, Slack or Discord URL), and
    for each of them [notify] makes a request to that address, by mail or by
    POST. Every request it makes carries the event: the mail its subject and
    text, the webhook the event itself, Slack and Discord a message that
    contains the text. The report has one entry per request, a success when the
    transport accepted it and its message otherwise. *)
Theorem listed_subscribers_are_notified `{!StoreCodec} deliver (cs : list Cmd) (w : bool)
    (ev : event) :
  let d := (run_cmds cs {| file := None; dir_exists := false; writable := w |}).2 in
  Forall (λ s,
    let '(results, reqs) :=
      notify EMAIL_FROM SLACK_WEBHOOK_URL DISCORD_WEBHOOK_URL deliver s ev in
    own_addresses s ≠ [] ∧
    (∀ a, a ∈ own_addresses s → ∃ r, r ∈ reqs ∧ addressed r = a) ∧
    Forall (tells ev) reqs ∧
    Forall2 (λ res r, error res = deliver r ∧ success res = bool_decide (deliver r = None))
      results reqs)
    (listSubscribers d).
Proof.
  intros d. eapply Forall_impl; [apply run_cmds_channels; by simpl|]. intros s Hs.
  set (chs := CHANNELS EMAIL_FROM SLACK_WEBHOOK_URL DISCORD_WEBHOOK_URL deliver).
  pose proof (CHANNELS_lawful EMAIL_FROM SLACK_WEBHOOK_URL DISCORD_WEBHOOK_URL deliver) as Hl.
  pose proof (notify_with_outcomes deliver chs s ev Hl) as Hout.
  pose proof (notify_with_tells deliver chs s ev Hl) as Htells.
  pose proof (notify_requests_addresses EMAIL_FROM SLACK_WEBHOOK_URL DISCORD_WEBHOOK_URL
    deliver s ev) as Haddr.
  unfold notify in *. fold chs in Haddr |- *. destruct (notify_with chs s ev) as [results reqs].
  split_and!; [by apply reachable_addresses | exact Haddr | exact Htells | apply Hout].
Qed.
End properties.

(** A subscriber added by the command line, with a transport that fails. *)
Lemma listed_subscribers_are_notified_witness :
  let d := (@run_cmds bit_codec [Add (js "u1") example_opts]
              {| file := None; dir_exists := false; writable := true |}).2 in
  let ev := {| ev_type := js "created"; ev_proposalId := Some (js "7"); ev_ledger := num_of_Z 1;
               ev_raw := {| rec_id := js "1-1"; topic := None; value_tuple := None;
                            ledger_closed_at := None |} |} in
  let refused := λ _ : Outbound, Some (js "refused") in
  let s := subscriber_of (js "u1") example_opts in
  @listSubscribers bit_codec d = [s] ∧ own_addresses s = [(ByMail, js "a@b.c")] ∧
  ∃ r, r ∈ (notify None None None refused s ev).2 ∧ addressed r = (ByMail, js "a@b.c").
Proof.
  intros d ev refused s.
  pose proof (@listed_subscribers_are_notified None None None bit_codec refused
    [Add (js "u1") example_opts] true ev) as H.
  cbv zeta in H. change (@listSubscribers bit_codec _) with [s] in H.
  apply Forall_inv in H.
  split; [vm_compute; reflexivity|]. split; [vm_compute; reflexivity|].
  destruct (notify None None None refused s ev) as [results reqs].
  destruct H as (_ & H & _). apply H. vm_compute. left.
Defined.

End Channels.
