(* ===== verification/Watcher.v ===== *)
(** * The Horizon watcher of the notification service
    (notification-service/src/watcher.ts)

    A poll reads the cursor from the store, asks Horizon for the records after
    it, notifies the matching subscribers of every relevant record and saves the
    cursor of the last record. The Horizon client is third-party code: it is the
    parameter [contractEvents]. The source calls a method of that name, which
    Horizon.Server does not document; [serves] covers a client without it (every
    call fails) and one that has it and pages through a log as Horizon's other
    collections do ([Pages]). The command line runs as other processes on the same
    file: a [Round] lists what they do at each point of one poll. *)
From Stdlib Require Import Ascii String ZArith Lia.
From stdpp Require Import prelude list strings.
From S2P Require Import Prelude JsString JsNumber Subscriptions Sharing Channels.
Local Open Scope Z_scope.

Module Watcher.
Import Subscriptions Sharing Channels.

(** ** parseEvent *)
Definition TRACKED_TOPICS : list jstr := event_tag <$> [created; voted; final; exec; cancel].

(** [topics?.[i]?.value ?? ''] *)
Definition topic_value (topics : list (option jstr)) (i : nat) : jstr :=
  default [] (mjoin (topics !! i)).

Definition parseEvent (record : HorizonRecord) : option GovernanceEvent :=
  match topic record with
  | None => None
  | Some topics =>
      if (length topics <? 2)%nat then None else
      let nsVal := topic_value topics 0 in
      let subtypeVal := topic_value topics 1 in
      if bool_decide (nsVal ≠ js "gov") then None else
      if bool_decide (subtypeVal ∉ TRACKED_TOPICS) then None else
      Some {| ev_type := subtypeVal;
              ev_proposalId := value_tuple record ≫= λ vs, mjoin (vs !! 0%nat);
              ev_ledger := if truthy (ledger_closed_at record)
                           then js_Number (default [] (head (split_unit 45 (rec_id record))))
                           else num_of_Z 0;
              ev_raw := record |}
  end.

Definition page_limit : nat := 50.

(** [server.contractEvents({contractId, cursor, limit})] *)
Definition Horizon := jstr → option jstr → nat → res jstr (list HorizonRecord).

(** What surrounds one poll: how Horizon answers at that time, and what the other
    processes do before the store is read, before each event is matched, before
    the saving of the cursor reads the file, before it opens it, and before the
    text is written. *)
Record Round := {
  contractEvents : Horizon;
  before : list Act;
  during : list (list Act);
  closing : list Act;
  amid : list Act;
  torn : list Act }.

Section watcher.
  Context {Codec : StoreCodec}.
  Variables EMAIL_FROM SLACK_WEBHOOK_URL DISCORD_WEBHOOK_URL : option jstr.
  Variable deliver : Outbound → option jstr.
  Variable CONTRACT_ID : jstr.

Definition cursor_param (c : jstr) : option jstr :=
  if bool_decide (c ≠ js "now") then Some c else None.

(** The loop over the records: collect the relevant ones, remember the last id. *)
Fixpoint scan (records : list HorizonRecord) (evs : list GovernanceEvent) (next : jstr)
    : list GovernanceEvent * jstr :=
  match records with
  | [] => (evs, next)
  | r :: rs =>
      scan rs (match parseEvent r with Some ev => evs ++ [ev] | None => evs end) (rec_id r)
  end.

Definition fetchNewEvents (server : Horizon) (c : jstr) : res jstr (list GovernanceEvent * jstr) :=
  response ← server CONTRACT_ID (cursor_param c) page_limit;
  mret (scan response [] c).

(** ** processEvents *)
Record Delivery := {
  d_event : GovernanceEvent;
  d_results : list (Subscriber * (list ChannelResult * list Outbound)) }.

Fixpoint processEvents (evs : list GovernanceEvent) (interleaved : list (list Act)) (sh : Shared)
    : list Delivery * Shared :=
  match evs with
  | [] => ([], sh)
  | ev :: evs' =>
      let sh1 := acts (default [] (head interleaved)) sh in
      let subs := matchingSubscribers (ev_type ev) (ev_proposalId ev) (disk sh1) in
      let delivery := {| d_event := ev;
        d_results := (λ s, (s, notify EMAIL_FROM SLACK_WEBHOOK_URL DISCORD_WEBHOOK_URL
                                 deliver s ev)) <$> subs |} in
      let '(ds, sh2) := processEvents evs' (tail interleaved) sh1 in (delivery :: ds, sh2)
  end.

(** ** poll *)
Record PollResult := {
  delivered : list Delivery;
  poll_error : bool;
  after : Shared }.

Definition poll (round : Round) (sh : Shared) : PollResult :=
  let sh0 := acts (before round) sh in
  let c := cursor (getStore (disk sh0)) in
  match fetchNewEvents (contractEvents round) c with
  | Err _ => {| delivered := []; poll_error := true; after := sh0 |}
  | Ok (evs, nextCursor) =>
      match evs with
      | [] => {| delivered := []; poll_error := false; after := sh0 |}
      | _ =>
          let '(ds, sh1) := processEvents evs (during round) sh0 in
          let sh2 := acts (closing round) sh1 in
          match saveCursor_among nextCursor (amid round) (torn round) sh2 with
          | (Ok _, sh3) => {| delivered := ds; poll_error := false; after := sh3 |}
          | (Err _, sh3) => {| delivered := ds; poll_error := true; after := sh3 |}
          end
      end
  end.

(** [setTimeout(poll, ...)] after every poll: the polls run one after another. *)
Fixpoint polls (rounds : list Round) (sh : Shared) : list Delivery * Shared :=
  match rounds with
  | [] => ([], sh)
  | round :: rest =>
      let r := poll round sh in
      let '(ds, sh') := polls rest (after r) in (delivered r ++ ds, sh')
  end.

Definition startWatcher (rounds : list Round) (sh : Shared)
    : res jstr (list Delivery * Shared) :=
  if bool_decide (CONTRACT_ID = []) then Err (js "GOVERNANCE_CONTRACT_ID is not set.")
  else Ok (polls rounds sh).
End watcher.

(** ** What Horizon promises: a log of records, read in pages after a cursor,
    from the beginning when no cursor is given. *)
Record Pages (ask : option jstr → nat → res jstr (list HorizonRecord))
    (log : list HorizonRecord) : Prop := {
  page_first n : ask None n = Ok (take n log);
  page_after i r n : log !! i = Some r → ask (Some (rec_id r)) n = Ok (take n (drop (S i) log)) }.

(** The paging tokens are never the word that stands for "no cursor yet". *)
Definition proper_ids (log : list HorizonRecord) : Prop :=
  Forall (λ r, rec_id r ≠ js "now") log.

(** The stored cursor stands after the first [k] records of the log. *)
Definition cursor_of (log : list HorizonRecord) (k : nat) : jstr :=
  match k with
  | O => js "now"
  | S i => default (js "now") (rec_id <$> log !! i)
  end.

Definition round_acts (r : Round) : list Act :=
  before r ++ mjoin (during r) ++ closing r ++ amid r ++ torn r.
(** The other processes are runs of the command line, however they overlap. *)
Definition cli_round (r : Round) : Prop := Forall cli_act (round_acts r).
(** Each of their operations runs between two steps of the watcher. *)
Definition undisturbed (r : Round) : Prop := Forall whole_act (round_acts r).

Definition fails (contract : jstr) (r : Round) : Prop :=
  ∀ c n, ∃ e, contractEvents r contract c n = Err e.
(** A server that is either serving the log or failing. *)
Definition serves (contract : jstr) (log : list HorizonRecord) (r : Round) : Prop :=
  Pages (contractEvents r contract) log ∨ fails contract r.

Definition relevant (rs : list HorizonRecord) : list GovernanceEvent := omap parseEvent rs.
Definition page (log : list HorizonRecord) (k : nat) : list HorizonRecord :=
  take page_limit (drop k log).

(** A run of the watcher while the contract keeps emitting: before each round the
    log may have grown. *)
Inductive history (contract : jstr)
    : list HorizonRecord → list Round → list HorizonRecord → Prop :=
| history_nil log : history contract log [] log
| history_cons log log1 log2 r rs :
    log `prefix_of` log1 → proper_ids log1 → cli_round r → serves contract log1 r →
    history contract log1 rs log2 → history contract log (r :: rs) log2.

(** A round with nobody else around. *)
Definition alone (server : Horizon) : Round := {| contractEvents := server; before := [];
  during := []; closing := []; amid := []; torn := [] |}.


(** ** What a run delivers, by positions in the log

    A poll goes from a position [p] over [n] records. No record is passed over when
    each poll starts at or before the furthest position reached so far. *)
Definition segment (log : list HorizonRecord) (s : nat * nat) : list GovernanceEvent :=
  relevant (take s.2 (drop s.1 log)).
Definition passed (m : nat) (s : nat * nat) : nat := Nat.max m (s.1 + s.2).
Definition reach (k : nat) (segs : list (nat * nat)) : nat := foldl passed k segs.
Fixpoint no_gap (m : nat) (segs : list (nat * nat)) : Prop :=
  match segs with
  | [] => True
  | s :: segs' => (s.1 ≤ m)%nat ∧ no_gap (passed m s) segs'
  end.

(** A cursor at or before position [m]. *)
Definition within (log : list HorizonRecord) (m : nat) (c : jstr) : Prop :=
  ∃ p, (p ≤ m)%nat ∧ c = cursor_of log p.

(** A server that pages through a log. *)
Fixpoint skip_to (token : jstr) (log : list HorizonRecord) : list HorizonRecord :=
  match log with
  | [] => []
  | r :: rs => if bool_decide (rec_id r = token) then rs else skip_to token rs
  end.
Definition log_server (log : list HorizonRecord) : Horizon := λ _ c n,
  Ok (take n (match c with None => log | Some t => skip_to t log end)).

(** ** Lemmas *)
Section lemmas.
  Context {Codec : StoreCodec}.
  Variables EMAIL_FROM SLACK_WEBHOOK_URL DISCORD_WEBHOOK_URL : option jstr.
  Variable deliver : Outbound → option jstr.
  Variable CONTRACT_ID : jstr.
  Implicit Types (sh : Shared) (log : list HorizonRecord).

  Notation poll := (poll EMAIL_FROM SLACK_WEBHOOK_URL DISCORD_WEBHOOK_URL deliver CONTRACT_ID).
  Notation polls := (polls EMAIL_FROM SLACK_WEBHOOK_URL DISCORD_WEBHOOK_URL deliver CONTRACT_ID).
  Notation processEvents := (processEvents EMAIL_FROM SLACK_WEBHOOK_URL DISCORD_WEBHOOK_URL
    deliver).

Lemma skip_to_after log i r :
  NoDup (rec_id <$> log) → log !! i = Some r → skip_to (rec_id r) log = drop (S i) log.
Proof.
  revert i; induction log as [|r' log IH]; intros i Hnd Hi; [done|].
  csimpl in Hnd. apply NoDup_cons in Hnd as [Hnew Hnd]. cbn [skip_to].
  destruct i as [|i]; simplify_eq/=; [by rewrite bool_decide_true, drop_0|].
  rewrite bool_decide_false; [by apply IH|]. intros Heq. apply Hnew. rewrite Heq.
  apply list_elem_of_fmap. exists r. split; [done|]. by eapply list_elem_of_lookup_2.
Qed.

Lemma log_server_pages contract log :
  NoDup (rec_id <$> log) → Pages (log_server log contract) log.
Proof.
  intros Hnd. split; [done|]. intros i r n Hi. unfold log_server.
  by rewrite (skip_to_after log i r).
Qed.

Lemma scan_spec rs evs next :
  scan rs evs next = (evs ++ relevant rs, default next (rec_id <$> last rs)).
Proof.
  revert evs next; induction rs as [|r rs IH]; intros evs next; cbn [scan relevant omap list_omap].
  - by rewrite app_nil_r.
  - rewrite IH. f_equal.
    + destruct (parseEvent r); [by rewrite <- app_assoc | done].
    + by destruct rs as [|r' rs]; [|rewrite (last_cons r)];
        destruct (last _) eqn:Hl; [..|rewrite last_None in Hl].
Qed.

Lemma cursor_of_lookup log i r : log !! i = Some r → cursor_of log (S i) = rec_id r.
Proof. simpl. by intros ->. Qed.

(** The cursor after a page, wherever the page starts. *)
Lemma cursor_after_page log k :
  default (cursor_of log k) (rec_id <$> last (page log k)) = cursor_of log (k + length (page log k)).
Proof.
  unfold page. destruct (last (take page_limit (drop k log))) as [r|] eqn:Hl.
  - rewrite last_lookup in Hl.
    destruct (length (take page_limit (drop k log))) as [|n] eqn:Hn;
      [apply length_zero_iff_nil in Hn; by rewrite Hn in Hl|]. simpl in Hl.
    apply lookup_take_Some in Hl as [Hl _]. rewrite lookup_drop in Hl.
    rewrite Nat.add_succ_r. by rewrite (cursor_of_lookup _ _ r).
  - apply last_None in Hl. rewrite Hl. simpl. by rewrite Nat.add_0_r.
Qed.

Lemma fetch_page (server : Horizon) log k :
  Pages (server CONTRACT_ID) log → proper_ids log → (k ≤ length log)%nat →
  fetchNewEvents CONTRACT_ID server (cursor_of log k) =
    Ok (relevant (page log k), cursor_of log (k + length (page log k))).
Proof.
  intros Hp Hids Hk. unfold fetchNewEvents, cursor_param.
  assert (server CONTRACT_ID (if bool_decide (cursor_of log k ≠ js "now")
    then Some (cursor_of log k) else None) page_limit = Ok (page log k)) as ->.
  - destruct k as [|i]; [rewrite bool_decide_false by (by intros []); by rewrite (page_first _ _ Hp)|].
    destruct (lookup_lt_is_Some_2 log i) as [r Hr]; [lia|].
    rewrite (cursor_of_lookup _ _ r) by done. rewrite bool_decide_true.
    + by rewrite (page_after _ _ Hp i).
    + eapply (Forall_lookup_1 _ _ _ _ Hids Hr).
  - simpl. rewrite scan_spec, cursor_after_page. done.
Qed.


Lemma acts_app l l' sh : acts (l ++ l') sh = acts l' (acts l sh).
Proof. unfold acts. by rewrite foldl_app. Qed.

(** The events are handled in order, with the acts of [inter] in between. *)
Lemma processEvents_spec evs inter sh :
  let '(ds, sh') := processEvents evs inter sh in
  d_event <$> ds = evs ∧ ∃ n, sh' = acts (mjoin (take n inter)) sh.
Proof.
  revert inter sh; induction evs as [|ev evs IH]; intros inter sh; [by split; [|exists 0%nat]|].
  cbn [Watcher.processEvents].
  specialize (IH (tail inter) (acts (default [] (head inter)) sh)).
  destruct (processEvents evs _ _) as [ds sh2]. destruct IH as (<- & n & ->). split; [done|].
  destruct inter as [|l inter]; [exists 0%nat; by destruct n|]. exists (S n).
  cbn [head default tail take mjoin list_join]. by rewrite acts_app.
Qed.

Lemma joined_acts (P : Act → Prop) n (inter : list (list Act)) :
  Forall P (mjoin inter) → Forall P (mjoin (take n inter)).
Proof.
  intros H. rewrite <- (take_drop n inter), join_app in H. by apply Forall_app in H as [H _].
Qed.

Lemma within_weaken log m m' c : (m ≤ m')%nat → within log m c → within log m' c.
Proof. intros Hm (p & Hp & ->). exists p. split; [lia | done]. Qed.

Lemma saveCursor_among_held (P : jstr → Prop) c am to sh :
  P (js "now") → P c → Forall cli_act am → Forall cli_act to → Forall P (held sh) →
  Forall P (held (saveCursor_among c am to sh).2).
Proof.
  intros Hnow Hc Ham Hto Hsh. unfold saveCursor_among.
  pose proof (acts_cursors P am sh Hnow Ham Hsh) as H1.
  assert (Forall P (held {| disk := opened (disk (acts am sh)); pending := pending (acts am sh) |}))
    as H2.
  { unfold held in *. rewrite Forall_cons in *. cbn [disk pending]. destruct H1 as [H1 Hp].
    split; [|done]. by destruct (load_opened (disk (acts am sh))) as [->| ->]. }
  pose proof (acts_cursors P to _ Hnow Hto H2) as H3. unfold held in *. rewrite Forall_cons in H3.
  set (sh3 := acts to _) in *. pose proof (load_save (with_cursor c (load (disk sh))) (disk sh3)) as Hs.
  destruct (save _ (disk sh3)) as [r d]. cbn [snd disk pending] in *. apply Forall_cons.
  destruct H3 as [H3 Hp]. split; [|done]. by destruct Hs as [->| ->].
Qed.

Lemma saveCursor_among_whole c am to sh :
  Forall whole_act am → Forall whole_act to → writable (disk sh) = true →
  let '(r, sh') := saveCursor_among c am to sh in
  r = Ok () ∧ cursor (load (disk sh')) = c ∧ writable (disk sh') = true ∧ pending sh' = pending sh.
Proof.
  intros Ham Hto Hw. unfold saveCursor_among.
  destruct (acts_whole am sh Ham) as (_ & Hw1 & Hp1).
  destruct (acts_whole to {| disk := opened (disk (acts am sh)); pending := pending (acts am sh) |}
    Hto) as (_ & Hw2 & Hp2). cbn [disk pending] in Hw2, Hp2.
  rewrite save_writable; [by rewrite Hp2, Hp1; cbn [disk pending]; rewrite load_saved|].
  rewrite Hw2. unfold opened. by rewrite Hw1, Hw.
Qed.

(** The parts of a round's acts. *)
Lemma round_parts (P : Act → Prop) r :
  Forall P (round_acts r) →
  Forall P (before r) ∧ Forall P (mjoin (during r)) ∧ Forall P (closing r) ∧
  Forall P (amid r) ∧ Forall P (torn r).
Proof. unfold round_acts. rewrite !Forall_app. tauto. Qed.

(** A poll that is answered, from the position its reading of the store finds. *)
Lemma poll_answered round log p sh :
  Pages (contractEvents round CONTRACT_ID) log → proper_ids log → (p ≤ length log)%nat →
  cursor (load (disk (acts (before round) sh))) = cursor_of log p →
  let r := poll round sh in
  d_event <$> delivered r = relevant (page log p) ∧
  after r =
    (if bool_decide (relevant (page log p) = []) then acts (before round) sh
     else (saveCursor_among (cursor_of log (p + length (page log p))) (amid round) (torn round)
             (acts (closing round)
               (processEvents (relevant (page log p)) (during round) (acts (before round) sh)).2)).2).
Proof.
  intros Hp Hids Hle Hc. unfold Watcher.poll, getStore. cbv zeta. rewrite Hc, (fetch_page _ log p) by done.
  destruct (relevant (page log p)) as [|ev evs] eqn:Hrel; [done|].
  rewrite bool_decide_false by done.
  pose proof (processEvents_spec (ev :: evs) (during round) (acts (before round) sh)) as Hpe.
  destruct (processEvents (ev :: evs) _ _) as [ds sh1]. destruct Hpe as [Hev _]. cbn [snd].
  by destruct (saveCursor_among _ _ _ _) as [[u|e] sh3].
Qed.

Lemma poll_failed round sh :
  fails CONTRACT_ID round →
  poll round sh = {| delivered := []; poll_error := true; after := acts (before round) sh |}.
Proof.
  intros Hf. unfold Watcher.poll, fetchNewEvents.
  destruct (Hf (cursor_param (cursor (getStore (disk (acts (before round) sh))))) page_limit)
    as [e He].
  rewrite He. done.
Qed.

Lemma page_prefix log log' k :
  log `prefix_of` log' → length (page log k) = page_limit → page log' k = page log k.
Proof.
  intros [l ->] Hlen. unfold page in *.
  destruct (decide (k <= length log)%nat).
  - rewrite drop_app_le by done. apply take_app_le. rewrite length_take in Hlen. lia.
  - rewrite drop_ge, take_nil in Hlen by lia. done.
Qed.

Lemma cursor_of_prefix log log' k :
  log `prefix_of` log' → (k ≤ length log)%nat → cursor_of log' k = cursor_of log k.
Proof.
  intros [l ->] Hk. destruct k as [|i]; [done|]. simpl. by rewrite lookup_app_l by lia.
Qed.

Lemma page_length log k : (k ≤ length log)%nat → (k + length (page log k) ≤ length log)%nat.
Proof. intros. unfold page. rewrite length_take, length_drop. lia. Qed.

Lemma history_prefix log rounds log' :
  history CONTRACT_ID log rounds log' → log `prefix_of` log'.
Proof. induction 1; [done|]. by etransitivity. Qed.

(** A poll of a round that overlaps nothing. *)
Lemma processEvents_undisturbed evs inter sh :
  Forall whole_act (mjoin inter) →
  let sh' := (processEvents evs inter sh).2 in
  cursor (load (disk sh')) = cursor (load (disk sh)) ∧
  writable (disk sh') = writable (disk sh) ∧ pending sh' = pending sh.
Proof.
  intros H. pose proof (processEvents_spec evs inter sh) as Hpe.
  destruct (processEvents evs inter sh) as [ds sh']. destruct Hpe as (_ & n & ->).
  apply acts_whole. by apply joined_acts.
Qed.

(** The event stream between two positions, extended by a page. *)
Lemma relevant_extend log log' k n :
  (n ≤ length (page log k))%nat → log `prefix_of` log' →
  relevant (take n (page log k)) = relevant (take n (drop k log')).
Proof.
  intros Hn [l ->]. unfold page in *. rewrite length_take, length_drop in Hn. f_equal.
  rewrite take_take, Nat.min_l by lia.
  destruct (decide (k <= length log)%nat).
  - rewrite drop_app_le by done. rewrite take_app_le; [done|]. rewrite length_drop. lia.
  - replace n with 0%nat by lia. by rewrite !take_0.
Qed.

Lemma relevant_split log k j m :
  relevant (take j (drop k log)) ++ relevant (take m (drop (k + j) log)) =
  relevant (take (j + m) (drop k log)).
Proof.
  unfold relevant. rewrite <- omap_app_lists. f_equal.
  by rewrite <- drop_drop, take_take_drop.
Qed.

Lemma segment_page log log' p n :
  (n ≤ length (page log p))%nat → log `prefix_of` log' →
  relevant (take n (page log p)) = segment log' (p, n).
Proof. apply relevant_extend. Qed.

(** One round of a history, whatever the others do: it goes on from some position
    not after [m], and no cursor around is after what it reached. *)
Lemma round_segment round log m sh :
  serves CONTRACT_ID log round → proper_ids log → cli_round round → (m ≤ length log)%nat →
  Forall (within log m) (held sh) →
  let r := poll round sh in
  ∃ p n, (p ≤ m)%nat ∧ (p + n ≤ length log)%nat ∧ (n ≤ length (page log p))%nat ∧
    d_event <$> delivered r = relevant (take n (page log p)) ∧
    Forall (within log (Nat.max m (p + n))) (held (after r)).
Proof.
  intros Hs Hids Hcli Hm Hsh r.
  assert (within log m (js "now")) as Hnow by (exists 0%nat; split; [lia | done]).
  destruct (round_parts _ _ Hcli) as (Hb & Hd & Hcl & Ham & Hto).
  pose proof (acts_cursors _ _ _ Hnow Hb Hsh) as H0.
  pose proof H0 as H1. unfold held in H1. apply Forall_cons in H1 as [(p & Hp & Hc) _].
  pose proof (page_length log p ltac:(lia)) as Hpl.
  destruct Hs as [Hpg|Hf].
  - destruct (poll_answered round log p sh Hpg Hids ltac:(lia) Hc) as [Hev Haf]. fold r in Hev, Haf.
    case_bool_decide as Hrel; rewrite Haf.
    + exists p, 0%nat. rewrite take_0, Nat.add_0_r, Nat.max_l, Hev, Hrel by lia.
      by split_and!; try lia.
    + exists p, (length (page log p)). rewrite firstn_all. split_and!; [lia..|done|].
      assert (∀ c, within log m c → within log (Nat.max m (p + length (page log p))) c) as Hweak
        by (intros c; apply within_weaken; lia).
      apply saveCursor_among_held; [by apply Hweak | by eexists; split; [|reflexivity]; lia | done..|].
      apply acts_cursors; [by apply Hweak | done |].
      pose proof (processEvents_spec (relevant (page log p)) (during round) (acts (before round) sh)) as Hpe.
      destruct (processEvents _ _ _) as [ds sh1]. destruct Hpe as (_ & n & ->). cbn [snd].
      apply acts_cursors; [by apply Hweak | by apply joined_acts |].
      eapply Forall_impl; [exact H0 | exact Hweak].
  - exists p, 0%nat. unfold r. rewrite poll_failed by done. cbn [delivered after].
    rewrite take_0, Nat.add_0_r, Nat.max_l by lia. by split_and!; try lia.
Qed.

(** The same for a round that overlaps nothing: it goes on from the stored position. *)
Lemma round_undisturbed round log k sh :
  serves CONTRACT_ID log round → proper_ids log → undisturbed round →
  writable (disk sh) = true → (k ≤ length log)%nat → cursor (load (disk sh)) = cursor_of log k →
  let r := poll round sh in
  ∃ n, (n ≤ length (page log k))%nat ∧ writable (disk (after r)) = true ∧
    cursor (load (disk (after r))) = cursor_of log (k + n) ∧
    d_event <$> delivered r = relevant (take n (page log k)) ∧
    (Pages (contractEvents round CONTRACT_ID) log → relevant (page log k) ≠ [] →
     n = length (page log k)).
Proof.
  intros Hs Hids Hu Hw Hk Hc r.
  destruct (round_parts _ _ Hu) as (Hb & Hd & Hcl & Ham & Hto).
  destruct (acts_whole (before round) sh Hb) as (Hc0 & Hw0 & _). rewrite Hc in Hc0. rewrite Hw in Hw0.
  assert (Pages (contractEvents round CONTRACT_ID) log ∨ fails CONTRACT_ID round) as [Hpg|Hf] by done.
  - destruct (poll_answered round log k sh Hpg Hids Hk Hc0) as [Hev Haf]. fold r in Hev, Haf.
    case_bool_decide as Hrel; rewrite Haf.
    + exists 0%nat. rewrite take_0, Nat.add_0_r, Hev, Hrel. by split_and!; try lia.
    + exists (length (page log k)). rewrite firstn_all.
      destruct (processEvents_undisturbed (relevant (page log k)) (during round)
        (acts (before round) sh) Hd) as (_ & Hw1 & _).
      destruct (acts_whole (closing round) (processEvents (relevant (page log k)) (during round)
        (acts (before round) sh)).2 Hcl) as (_ & Hw2 & _).
      pose proof (saveCursor_among_whole (cursor_of log (k + length (page log k))) _ _ _ Ham Hto
        ltac:(by rewrite Hw2, Hw1, Hw0)) as Hsv.
      destruct (saveCursor_among _ _ _ _) as [res sh3]. destruct Hsv as (_ & Hc3 & Hw3 & _).
      by split_and!.
  - exists 0%nat. unfold r. rewrite poll_failed by done. cbn [delivered after].
    rewrite take_0, Nat.add_0_r. split_and!; [lia | done..|]. intros Hpg Hrel.
    destruct (Hf None page_limit) as [e He]. by rewrite (page_first _ _ Hpg) in He.
Qed.

Lemma within_prefix log log' m c :
  log `prefix_of` log' → (m ≤ length log)%nat → within log m c → within log' m c.
Proof.
  intros Hpre Hm (p & Hp & ->). exists p. split; [done|].
  by rewrite (cursor_of_prefix log log') by (done || lia).
Qed.

(** A whole run, however the processes overlap. *)
Lemma polls_skip_nothing (rounds : list Round) log log' k sh :
  history CONTRACT_ID log rounds log' → (k ≤ length log)%nat →
  Forall (within log k) (held sh) →
  let '(ds, sh') := polls rounds sh in
  ∃ segs, no_gap k segs ∧ (reach k segs ≤ length log')%nat ∧
    d_event <$> ds = mjoin (segment log' <$> segs) ∧
    Forall (within log' (reach k segs)) (held sh').
Proof.
  intros Hh. revert k sh.
  induction Hh as [log|log log1 log2 r rs Hpre Hids Hcli Hs Hh IH]; intros k sh Hk Hsh.
  - by exists [].
  - assert (k ≤ length log1)%nat as Hk1 by (apply prefix_length in Hpre; lia).
    assert (Forall (within log1 k) (held sh)) as Hsh1
      by (eapply Forall_impl; [exact Hsh|]; intros c; by apply within_prefix).
    destruct (round_segment r log1 k sh Hs Hids Hcli Hk1 Hsh1) as (p & n & Hp & Hpn & Hn & Hev & Haf).
    specialize (IH (Nat.max k (p + n)) _ ltac:(lia) Haf). cbn [Watcher.polls].
    destruct (polls rs _) as [ds sh']. destruct IH as (segs & Hg & Hr & Hds & Hsh').
    exists ((p, n) :: segs). split; [done|]. split; [done|]. split; [|done].
    rewrite fmap_app, Hev, Hds. cbn [fmap list_fmap mjoin list_join]. f_equal.
    apply segment_page; [done|]. by eapply history_prefix.
Qed.

(** A whole run that overlaps nothing. *)
Lemma polls_deliver (rounds : list Round) log log' k sh :
  history CONTRACT_ID log rounds log' → Forall undisturbed rounds →
  writable (disk sh) = true → (k ≤ length log)%nat → cursor (load (disk sh)) = cursor_of log k →
  let '(ds, sh') := polls rounds sh in
  ∃ n, (k + n ≤ length log')%nat ∧ cursor (load (disk sh')) = cursor_of log' (k + n) ∧
    writable (disk sh') = true ∧ d_event <$> ds = relevant (take n (drop k log')).
Proof.
  intros Hh. revert k sh.
  induction Hh as [log|log log1 log2 r rs Hpre Hids Hcli Hs Hh IH]; intros k sh Hu Hw Hk Hc.
  - exists 0%nat. rewrite Nat.add_0_r, take_0. done.
  - apply Forall_cons in Hu as [Hu Hus].
    assert (k ≤ length log1)%nat as Hk1 by (apply prefix_length in Hpre; lia).
    rewrite <- (cursor_of_prefix _ log1) in Hc by done.
    destruct (round_undisturbed r log1 k sh Hs Hids Hu Hw Hk1 Hc) as (n & Hn & Hw1 & Hc1 & Hev & _).
    pose proof (page_length log1 k Hk1).
    specialize (IH (k + n)%nat _ Hus Hw1 ltac:(lia) Hc1). cbn [Watcher.polls].
    destruct (polls rs _) as [ds sh']. destruct IH as (m & Hm & Hc2 & Hw2 & Hev2).
    exists (n + m)%nat. rewrite Nat.add_assoc. split_and!; [done..|].
    rewrite fmap_app, Hev, Hev2, <- relevant_split. f_equal.
    apply relevant_extend; [done|]. by eapply history_prefix.
Qed.

(** What is between the start and the furthest position was delivered. *)
Lemma reach_delivers log k segs i r ev :
  no_gap k segs → (k ≤ i < reach k segs)%nat → log !! i = Some r → parseEvent r = Some ev →
  ev ∈ mjoin (segment log <$> segs).
Proof.
  intros Hg Hi Hlog Hev. revert k Hg Hi.
  induction segs as [|[p n] segs IH]; intros k Hg Hi; [cbn in Hi; lia|].
  destruct Hg as [Hp Hg]. cbn [fst] in Hp. cbn [fmap list_fmap mjoin list_join].
  change (reach k ((p, n) :: segs)) with (reach (passed k (p, n)) segs) in Hi.
  apply elem_of_app. destruct (decide (i < passed k (p, n))%nat) as [Hlt|Hge].
  - left. unfold passed in Hlt. cbn [fst snd] in Hlt. unfold segment, relevant. cbn [fst snd].
    apply list_elem_of_omap. exists r. split; [|done].
    apply (list_elem_of_lookup_2 _ (i - p)). apply lookup_take_Some. split; [|lia].
    rewrite lookup_drop. by replace (p + (i - p))%nat with i by lia.
  - right. apply (IH (passed k (p, n))); [done | lia].
Qed.



Lemma relevant_later log k q : (k ≤ q)%nat → relevant (drop k log) = [] → relevant (drop q log) = [].
Proof.
  intros Hq Hnone. replace q with (k + (q - k))%nat by lia. rewrite <- drop_drop.
  rewrite <- (take_drop (q - k) (drop k log)) in Hnone. unfold relevant in *.
  rewrite omap_app_lists in Hnone. by apply app_eq_nil in Hnone as [_ ?].
Qed.



End lemmas.

(** ** Properties *)
Section properties.
  Context {Codec : StoreCodec}.
  Variables EMAIL_FROM SLACK_WEBHOOK_URL DISCORD_WEBHOOK_URL : option jstr.
  Variable deliver : Outbound → option jstr.
  Variable CONTRACT_ID : jstr.
  Notation poll := (poll EMAIL_FROM SLACK_WEBHOOK_URL DISCORD_WEBHOOK_URL deliver CONTRACT_ID).
  Notation polls := (polls EMAIL_FROM SLACK_WEBHOOK_URL DISCORD_WEBHOOK_URL deliver CONTRACT_ID).

(** A record is turned into an event exactly when its first two topics are
    [gov] and one of the five tracked types, and at least two topics are there;
    the event carries that type, the first element of the value tuple, and the
    record itself. *)
Theorem parseEvent_exact (record : HorizonRecord) :
  match parseEvent record with
  | Some ev =>
      ev_raw ev = record ∧
      ev_proposalId ev = (value_tuple record ≫= λ vs, mjoin (vs !! 0%nat)) ∧
      ∃ t rest, topic record = Some (Some (js "gov") :: Some (event_tag t) :: rest) ∧
        ev_type ev = event_tag t
  | None =>
      ∀ t rest, topic record ≠ Some (Some (js "gov") :: Some (event_tag t) :: rest)
  end.
Proof.
  unfold parseEvent. destruct (topic record) as [topics|]; [|by intros].
  destruct topics as [|a [|b rest]]; [by intros | by intros | cbn [length Nat.ltb Nat.leb]].
  unfold topic_value; simpl.
  case_bool_decide as Hns; [intros t r [= -> -> ->]; by apply Hns|].
  destruct a as [a|]; [|done]. simpl in Hns. subst a.
  case_bool_decide as Hty.
  - intros t r [= -> ->]. apply Hty. unfold TRACKED_TOPICS. simpl. destruct t; set_solver.
  - simpl. split_and!; [done..|].
    unfold TRACKED_TOPICS in Hty. apply list_elem_of_fmap in Hty as (t & Ht & _).
    destruct b as [b|]; simpl in Ht; [subst b; by exists t, rest | by destruct t].
Qed.

(** C1. Nothing is skipped, however the processes overlap. Take any run of polls,
    while the log grows, with the Horizon client failing at times (or always: the
    source calls a method Horizon.Server does not document) and answering the other
    times with pages of the log; let runs of the command line read, empty and write
    the subscription file at any moment, also between the watcher's own reading,
    opening and writing of it, die half-way, or find it not writable. If every
    cursor around at the start is at or before position [k], each poll goes on from
    a position at or before the furthest one reached so far, delivering exactly the
    relevant records of the stretch it covers, in order; so every relevant record
    from [k] to the furthest position is delivered at least once, and no cursor
    around at the end is beyond that position. *)
Theorem watcher_skips_nothing (rounds : list Round) (log log' : list HorizonRecord)
    (k : nat) (sh : Shared) :
  history CONTRACT_ID log rounds log' → (k ≤ length log)%nat →
  Forall (within log k) (held sh) →
  let '(ds, sh') := polls rounds sh in
  ∃ segs, no_gap k segs ∧ (reach k segs ≤ length log')%nat ∧
    d_event <$> ds = mjoin (segment log' <$> segs) ∧
    Forall (within log' (reach k segs)) (held sh') ∧
    ∀ i r ev, (k ≤ i < reach k segs)%nat → log' !! i = Some r → parseEvent r = Some ev →
      ev ∈ d_event <$> ds.
Proof.
  intros Hh Hk Hsh.
  pose proof (polls_skip_nothing EMAIL_FROM SLACK_WEBHOOK_URL DISCORD_WEBHOOK_URL deliver
    CONTRACT_ID rounds log log' k sh Hh Hk Hsh) as H.
  destruct (polls rounds sh) as [ds sh']. destruct H as (segs & Hg & Hr & Hds & Hsh').
  exists segs. split_and!; [done..|]. intros i r ev Hi Hlog Hev. rewrite Hds.
  by apply (reach_delivers log' k segs i r ev).
Qed.

(** C32. Exactly once, in order, when no process reads the subscription file before
    and writes it after a step of another: over any run on a writable file, while the
    log grows and the Horizon client answers with pages of it or fails, with runs of
    the command line between any two steps of the watcher, the events delivered are
    exactly the relevant records between the position the stored cursor had at the
    start and the one it has at the end. (Overlapping runs can make a page be
    delivered again: [stale_write_redelivers]; so does a file that refuses writes:
    [unwritable_store_redelivers].) *)
Theorem watcher_delivers_exactly_once (rounds : list Round) (log log' : list HorizonRecord)
    (k : nat) (sh : Shared) :
  history CONTRACT_ID log rounds log' → Forall undisturbed rounds →
  writable (disk sh) = true → (k ≤ length log)%nat → cursor (load (disk sh)) = cursor_of log k →
  let '(ds, sh') := polls rounds sh in
  ∃ n, (k + n ≤ length log')%nat ∧ cursor (load (disk sh')) = cursor_of log' (k + n) ∧
    d_event <$> ds = relevant (take n (drop k log')).
Proof.
  intros Hh Hu Hw Hk Hc.
  pose proof (polls_deliver EMAIL_FROM SLACK_WEBHOOK_URL DISCORD_WEBHOOK_URL deliver CONTRACT_ID
    rounds log log' k sh Hh Hu Hw Hk Hc) as H.
  destruct (polls rounds sh) as [ds sh']. destruct H as (n & Hn & Hcur & _ & Hds). by exists n.
Qed.


(** The watcher stalls: once the next fifty records are all irrelevant, no
    later poll ever delivers anything or moves the cursor, whatever the contract
    emits afterwards. *)
Theorem watcher_stalls_on_irrelevant_page (rounds : list Round)
    (log log' : list HorizonRecord) (k : nat) (sh : Shared) :
  history CONTRACT_ID log rounds log' → Forall undisturbed rounds →
  (k + page_limit ≤ length log)%nat → cursor (load (disk sh)) = cursor_of log k →
  relevant (page log k) = [] →
  let '(ds, sh') := polls rounds sh in ds = [] ∧ cursor (load (disk sh')) = cursor_of log' k.
Proof.
  intros Hh Hu Hk Hc Hrel. revert sh Hc.
  assert (length (page log k) = page_limit) as Hlen
    by (unfold page; rewrite length_take, length_drop; lia).
  induction Hh as [log|log log1 log2 r rs Hpre Hids Hcli Hs Hh IH]; intros sh Hc; [done|].
  apply Forall_cons in Hu as [Hu Hus].
  pose proof (prefix_length _ _ Hpre). pose proof (page_prefix log log1 k Hpre Hlen) as Hpg.
  rewrite <- (cursor_of_prefix _ log1) in Hc by (done || lia).
  destruct (acts_whole (before r) sh (proj1 (round_parts _ _ Hu))) as (Hc1 & _ & _).
  rewrite <- Hpg in Hlen, Hrel.
  assert (delivered (poll r sh) = [] ∧ after (poll r sh) = acts (before r) sh) as [Hd Haf].
  { destruct Hs as [Hp|Hf]; [|by rewrite poll_failed].
    destruct (poll_answered EMAIL_FROM SLACK_WEBHOOK_URL DISCORD_WEBHOOK_URL deliver CONTRACT_ID
      r log1 k sh Hp Hids ltac:(lia) ltac:(by rewrite Hc1)) as [Hev Haf].
    rewrite Hrel in Hev, Haf. rewrite bool_decide_true in Haf by done. split; [|done].
    by eapply fmap_nil_inv. }
  cbn [Watcher.polls]. rewrite Hd, Haf.
  specialize (IH Hus ltac:(lia) Hrel Hlen (acts (before r) sh) ltac:(by rewrite Hc1)).
  by destruct (polls rs _).
Qed.

(** An event is not lost when the store cannot be written: the events of the
    page were delivered, the error is reported, the store still has the old
    cursor, and every later poll delivers the same events again. *)
Theorem unwritable_store_redelivers (log : list HorizonRecord) (k n : nat) (server : Horizon)
    (sh : Shared) :
  Pages (server CONTRACT_ID) log → proper_ids log →
  writable (disk sh) = false → (k ≤ length log)%nat → cursor (load (disk sh)) = cursor_of log k →
  let round := alone server in
  let '(ds, sh') := polls (replicate n round) sh in
  disk sh' = disk sh ∧ d_event <$> ds = mjoin (replicate n (relevant (page log k))) ∧
  (relevant (page log k) ≠ [] → poll_error (poll round sh) = true).
Proof.
  intros Hp Hids Hw Hk Hc round.
  assert (d_event <$> delivered (poll round sh) = relevant (page log k) ∧
    after (poll round sh) = sh ∧
    (relevant (page log k) ≠ [] → poll_error (poll round sh) = true)) as (Hev & Hd & Herr).
  { unfold Watcher.poll, getStore. cbv zeta. cbn [before round alone contractEvents during closing amid torn].
    change (acts [] sh) with sh.
    rewrite Hc, (fetch_page CONTRACT_ID server log k) by done.
    destruct (relevant (page log k)) as [|ev evs]; [done|].
    pose proof (processEvents_spec EMAIL_FROM SLACK_WEBHOOK_URL DISCORD_WEBHOOK_URL deliver
      (ev :: evs) [] sh) as Hpe.
    destruct (processEvents _ _ _ _ _ _ _) as [ds sh1]. destruct Hpe as (Hds & m & ->).
    rewrite take_nil. change (acts (mjoin []) sh) with sh. change (acts [] sh) with sh.
    rewrite saveCursor_alone. unfold saveCursor. rewrite save_unwritable by done. cbn.
    by destruct sh. }
  induction n as [|n IH]; [done|]. cbn [replicate Watcher.polls]. rewrite Hd.
  destruct (polls (replicate n round) sh) as [ds sh']. destruct IH as (-> & IH & _).
  split_and!; [done | by rewrite fmap_app, Hev, IH | done].
Qed.

(** A client without the method the source calls: every poll fails, nothing is ever
    delivered. *)
Theorem watcher_without_client_method (rounds : list Round) (sh : Shared) :
  Forall (fails CONTRACT_ID) rounds → (polls rounds sh).1 = [].
Proof.
  intros Hf. revert sh. induction Hf as [|r rs Hr _ IH]; intros sh; [done|].
  cbn [Watcher.polls]. rewrite poll_failed by done. cbn [delivered after].
  specialize (IH (acts (before r) sh)). destruct (polls rs _) as [ds sh']. cbn in IH |- *. by subst.
Qed.

End properties.

(** The theorems at concrete inputs: a page of fifty records of another subtype, then
    one record of a created proposal. *)
Definition sample_record (tracked : bool) (n : nat) : HorizonRecord := {|
  rec_id := dec_of (Z.of_nat n + 1000);
  topic := Some [Some (js "gov"); Some (if tracked then js "created" else js "admint")];
  value_tuple := Some [Some (js "7")];
  ledger_closed_at := Some (js "t") |}.
Definition quiet_page : list HorizonRecord := sample_record false <$> seq 0 50.
Definition sample_log : list HorizonRecord := [sample_record true 60; sample_record false 61].
Definition stalled_log : list HorizonRecord := quiet_page ++ sample_log.
Definition quiet_round (log : list HorizonRecord) : Round := alone (log_server log).
Definition contract : jstr := js "C".
Definition run_sample := @polls bit_codec None None None (λ _, None) contract.
Definition shared (d : Disk) : Shared := {| disk := d; pending := [] |}.

Ltac log_facts :=
  first [ apply (bool_decide_unpack _); vm_compute; reflexivity
        | apply log_server_pages; apply (bool_decide_unpack _); vm_compute; reflexivity
        | apply Forall_nil; exact I ].

(** A subscription that is being made while the watcher saves its cursor: the command
    line has read the store before the save and writes it after. *)
Definition overlapped_rounds : list Round :=
  [ {| contractEvents := log_server sample_log; before := []; during := []; closing := [];
       amid := [Begin (Add (js "u1") example_opts)]; torn := [] |};
    {| contractEvents := log_server sample_log; before := [Open 0; Finish 0]; during := [];
       closing := []; amid := []; torn := [] |} ].

(** Its write brings the old cursor back, and the page is delivered again. *)
Theorem stale_write_redelivers :
  let '(ds, sh') := run_sample overlapped_rounds (shared example_disk) in
  ev_type <$> (d_event <$> ds) = [js "created"; js "created"] ∧
  id <$> subscribers (@load bit_codec (disk sh')) = [js "u1"].
Proof. vm_compute. split; reflexivity. Qed.

Lemma overlapped_history : history contract sample_log overlapped_rounds sample_log.
Proof.
  apply (history_cons _ _ sample_log); [done | log_facts | | left; log_facts |].
  { unfold cli_round, round_acts. cbn. by repeat constructor. }
  apply (history_cons _ _ sample_log); [done | log_facts | | left; log_facts |].
  { unfold cli_round, round_acts. cbn. by repeat constructor. }
  apply history_nil.
Qed.

Lemma sample_history : history contract sample_log [quiet_round sample_log] sample_log.
Proof.
  apply (history_cons _ _ sample_log); [done | log_facts | log_facts | left; log_facts |].
  apply history_nil.
Qed.

Lemma watcher_skips_nothing_witness :
  let '(ds, sh') := run_sample overlapped_rounds (shared example_disk) in
  ∃ segs, no_gap 0 segs ∧ d_event <$> ds = mjoin (segment sample_log <$> segs) ∧
    Forall (within sample_log (reach 0 segs)) (@held bit_codec sh').
Proof.
  pose proof (@watcher_skips_nothing bit_codec None None None (λ _, None) contract
    overlapped_rounds sample_log sample_log 0 (shared example_disk) overlapped_history) as H.
  specialize (H ltac:(simpl; lia)).
  specialize (H ltac:(constructor; [exists 0%nat; by split; [lia|] | constructor])).
  unfold run_sample. destruct (@polls bit_codec _ _ _ _ _ _ _) as [ds sh'].
  destruct H as (segs & Hg & _ & Hds & Hh & _). exists segs. split; [exact Hg|].
  split; [exact Hds | exact Hh].
Defined.

Lemma watcher_delivers_exactly_once_witness :
  let '(ds, sh') := run_sample [quiet_round sample_log] (shared example_disk) in
  ∃ n, cursor (@load bit_codec (disk sh')) = cursor_of sample_log (0 + n) ∧
    d_event <$> ds = relevant (take n sample_log).
Proof.
  pose proof (@watcher_delivers_exactly_once bit_codec None None None (λ _, None) contract
    [quiet_round sample_log] sample_log sample_log 0 (shared example_disk) sample_history) as H.
  specialize (H ltac:(constructor; [constructor | constructor]) eq_refl ltac:(simpl; lia) eq_refl).
  unfold run_sample.
  destruct (@polls bit_codec _ _ _ _ _ _ _) as [ds d'].
  destruct H as (n & _ & Hc & Hev). exists n. split; [exact Hc | exact Hev].
Defined.



Lemma watcher_stalls_witness :
  (run_sample [quiet_round stalled_log; quiet_round stalled_log] (shared example_disk)).1 = [] ∧
  relevant stalled_log ≠ [].
Proof.
  split; [|by vm_compute].
  pose proof (@watcher_stalls_on_irrelevant_page bit_codec None None None (λ _, None) contract
    [quiet_round stalled_log; quiet_round stalled_log] stalled_log stalled_log 0
    (shared example_disk)) as H.
  assert (history contract stalled_log [quiet_round stalled_log; quiet_round stalled_log]
    stalled_log) as Hh.
  { do 2 (apply (history_cons _ _ stalled_log);
      [done | log_facts | apply Forall_nil; exact I | left; log_facts |]). apply history_nil. }
  specialize (H Hh ltac:(do 2 (constructor; [constructor|]); constructor) ltac:(vm_compute; lia) eq_refl eq_refl). unfold run_sample.
  destruct (@polls bit_codec _ _ _ _ _ _ _) as [ds d']. by destruct H as [-> _].
Defined.

Lemma unwritable_store_redelivers_witness :
  let d := {| file := None; dir_exists := false; writable := false |} in
  ev_type <$> (d_event <$> (run_sample (replicate 2 (quiet_round sample_log)) (shared d)).1) =
    [js "created"; js "created"].
Proof.
  intros d.
  pose proof (@unwritable_store_redelivers bit_codec None None None (λ _, None) contract
    sample_log 0 2 (log_server sample_log) (shared d) ltac:(log_facts) ltac:(log_facts) eq_refl
    ltac:(simpl; lia) eq_refl) as H.
  unfold run_sample, quiet_round. cbv zeta in H.
  destruct (@polls bit_codec _ _ _ _ _ _ _) as [ds d']. destruct H as (_ & Hev & _).
  cbn [fst]. rewrite Hev. vm_compute. reflexivity.
Defined.

End Watcher.
