(* ===== verification/Cli.v ===== *)
(** * The command line of the notification service
    (notification-service/src/index.ts)

    [main] is one run of the process: what it prints, whether it exits with
    status 1, and the store file it leaves. [start] hands over to the watcher. *)
From Stdlib Require Import Ascii String ZArith Lia.
From stdpp Require Import prelude list strings.
From S2P Require Import Prelude JsString JsNumber Subscriptions Sharing.
Local Open Scope Z_scope.

Module Cli.
Import Subscriptions Sharing.

Definition ALL_EVENTS : list jstr := event_tag <$> [created; voted; final; exec; cancel].

(** [const [, , cmd = 'start', ...args] = process.argv] *)
Definition parseArgs (argv : list jstr) : jstr * list jstr :=
  (default (js "start") (argv !! 2%nat), drop 3 argv).

(** [args.indexOf(x)] *)
Fixpoint indexOf (x : jstr) (args : list jstr) : option nat :=
  match args with
  | [] => None
  | a :: rest => if decide (a = x) then Some 0%nat else S <$> indexOf x rest
  end.

Definition flag (args : list jstr) (name : jstr) : option jstr :=
  match indexOf (js "--" ++ name) args with
  | Some idx => args !! S idx
  | None => None
  end.

Definition parseEvents (raw : option jstr) : list jstr :=
  match raw with
  | Some ((_ :: _) as r) => trim <$> split_unit 44 r
  | _ => ALL_EVENTS
  end.

(** ** main *)
Inductive Outcome :=
| Watching                          (* the watcher took over *)
| Added (s : Subscriber)
| Removed (sid : jstr) (found : bool)
| Listed (l : list Subscriber)
| Usage                             (* a usage error: exit status 1 *)
| Crashed.                          (* an exception reached main's handler: status 1 *)

Definition exit_status (o : Outcome) : Z :=
  match o with Usage | Crashed => 1 | _ => 0 end.

Section main.
  Context {Codec : StoreCodec}.
  (** [startWatcher()], which the [start] command calls, and the identifier
      crypto.randomUUID draws. *)
  Variable start : Disk → res jstr Disk.
  Variable uuid : jstr.

Definition subscribe_opts (args : list jstr) : AddOpts := {|
  o_email := flag args (js "email");
  o_webhookUrl := flag args (js "webhook");
  o_slackWebhookUrl := flag args (js "slack");
  o_discordWebhookUrl := flag args (js "discord");
  o_proposalId := flag args (js "proposal-id");
  o_events := parseEvents (flag args (js "events")) |}.

Definition main (argv : list jstr) (d : Disk) : Outcome * Disk :=
  let '(cmd, args) := parseArgs argv in
  if bool_decide (cmd = js "start") then
    match start d with Ok d' => (Watching, d') | Err _ => (Crashed, d) end
  else if bool_decide (cmd = js "subscribe") then
    let opts := subscribe_opts args in
    if negb (truthy (o_email opts)) && negb (truthy (o_webhookUrl opts))
       && negb (truthy (o_slackWebhookUrl opts)) && negb (truthy (o_discordWebhookUrl opts))
    then (Usage, d)
    else match addSubscriber uuid opts d with
         | (Ok s, d') => (Added s, d')
         | (Err _, d') => (Crashed, d')
         end
  else if bool_decide (cmd = js "unsubscribe") then
    match args !! 0%nat with
    | Some ((_ :: _) as sid) =>
        match removeSubscriber sid d with
        | (Ok found, d') => (Removed sid found, d')
        | (Err _, d') => (Crashed, d')
        end
    | _ => (Usage, d)
    end
  else if bool_decide (cmd = js "list") then (Listed (listSubscribers d), d)
  else (Usage, d).

End main.

(** ** The command line a user writes for given options *)
Definition flag_args (name : jstr) (v : option jstr) : list jstr :=
  match v with Some x => [js "--" ++ name; x] | None => [] end.

Definition render_opts (o : AddOpts) : list jstr :=
  flag_args (js "email") (o_email o) ++ flag_args (js "webhook") (o_webhookUrl o) ++
  flag_args (js "slack") (o_slackWebhookUrl o) ++ flag_args (js "discord") (o_discordWebhookUrl o) ++
  flag_args (js "proposal-id") (o_proposalId o) ++
  flag_args (js "events") (Some (join [44] (o_events o))).

(** A value that cannot be mistaken for a flag. *)
Definition plain_value (v : option jstr) : Prop :=
  match v with Some x => startsWith x (js "--") = false | None => True end.
(** An event name that survives [split(',')] and [trim()]. *)
Definition plain_event (e : jstr) : Prop := e ≠ [] ∧ 44 ∉ e ∧ trim e = e.

Definition plain_opts (o : AddOpts) : Prop :=
  plain_value (o_email o) ∧ plain_value (o_webhookUrl o) ∧ plain_value (o_slackWebhookUrl o) ∧
  plain_value (o_discordWebhookUrl o) ∧ plain_value (o_proposalId o) ∧
  o_events o ≠ [] ∧ Forall plain_event (o_events o) ∧
  startsWith (join [44] (o_events o)) (js "--") = false.

(** ** Lemmas *)
Lemma parseEvents_join es :
  es ≠ [] → Forall plain_event es → parseEvents (Some (join [44] es)) = es.
Proof.
  intros Hne Hes.
  assert (split_unit 44 (join [44] es) = es) as Hsplit.
  { apply split_join; [done|]. eapply Forall_impl; [done|]. by intros e (_ & ? & _). }
  unfold parseEvents. destruct (join [44] es) as [|u r] eqn:Hj.
  - simpl in Hsplit. subst es. inversion Hes as [|e ? [He _]]; subst. done.
  - rewrite Hsplit. clear -Hes. induction Hes as [|e es (_ & _ & He) _ IH]; [done|].
    csimpl. by rewrite He, IH.
Qed.

Lemma indexOf_flag_args x name v rest :
  plain_value v → startsWith x (js "--") = true → x ≠ js "--" ++ name →
  indexOf x (flag_args name v ++ rest) = (λ i, (length (flag_args name v) + i)%nat) <$> indexOf x rest.
Proof.
  intros Hv Hx Hne. destruct v as [y|]; cbn [flag_args app indexOf length].
  - rewrite !decide_False; [by destruct (indexOf x rest) | intros -> | congruence].
    cbn [plain_value] in Hv. congruence.
  - by destruct (indexOf x rest).
Qed.

Lemma flag_skip name name' v rest :
  plain_value v → js "--" ++ name ≠ js "--" ++ name' →
  flag (flag_args name' v ++ rest) name = flag rest name.
Proof.
  intros Hv Hne. unfold flag. rewrite indexOf_flag_args; [|done|by rewrite startsWith_app|done].
  destruct (indexOf _ rest) as [i|]; [|done]. simpl.
  rewrite lookup_app_r by lia. f_equal. lia.
Qed.

Lemma flag_hit name y rest : flag (flag_args name (Some y) ++ rest) name = Some y.
Proof. unfold flag. cbn [flag_args app indexOf]. by rewrite decide_True. Qed.

Ltac names_differ := done || (apply (bool_decide_unpack _); vm_compute; reflexivity).
Ltac flag_search :=
  repeat first
    [ rewrite flag_hit
    | rewrite flag_skip by names_differ ].

Lemma flag_own name v rest :
  flag rest name = None → flag (flag_args name v ++ rest) name = v.
Proof. intros Hrest. destruct v; [apply flag_hit | done]. Qed.

Lemma subscribe_opts_render o : plain_opts o → subscribe_opts (render_opts o) = o.
Proof.
  intros (He & Hw & Hs & Hd & Hp & Hne & Hes & Hj).
  assert (plain_value (Some (join [44] (o_events o)))) as Hev by done.
  unfold subscribe_opts, render_opts. rewrite <- (app_nil_r (flag_args (js "events") _)).
  assert (∀ n, flag [] n = None) as Hnil by done.
  rewrite (flag_own (js "email")) by (flag_search; done).
  rewrite (flag_skip (js "webhook") (js "email")) by names_differ.
  rewrite (flag_own (js "webhook")) by (flag_search; done).
  do 2 rewrite (flag_skip (js "slack")) by names_differ.
  rewrite (flag_own (js "slack")) by (flag_search; done).
  do 3 rewrite (flag_skip (js "discord")) by names_differ.
  rewrite (flag_own (js "discord")) by (flag_search; done).
  do 4 rewrite (flag_skip (js "proposal-id")) by names_differ.
  rewrite (flag_own (js "proposal-id")) by (flag_search; done).
  flag_search. rewrite parseEvents_join by done. by destruct o.
Qed.

Lemma no_channel_guard o :
  negb (truthy (o_email o)) && negb (truthy (o_webhookUrl o))
    && negb (truthy (o_slackWebhookUrl o)) && negb (truthy (o_discordWebhookUrl o))
  = negb (has_channel o).
Proof. unfold has_channel. by rewrite !negb_orb. Qed.

(** ** Properties *)
Section properties.
  Context {Codec : StoreCodec}.
  Variables (start : Disk → res jstr Disk) (uuid : jstr).

(** C36. Subscribing from the command line is a round trip for the options that can be
    written as flags. [plain_opts] says which: no value begins with two dashes (it
    could be taken for a flag), and the list of events is not empty, none of its names
    being empty, holding a comma or having blanks around it. For these, running
    [subscribe] with the options written out ends in one of three ways. With some
    non-empty channel and a writable file it reports the subscriber with exactly these
    options and appends it to the store; with a file that cannot be written it fails,
    and without a channel it is a usage error, and then the file is as it was. *)
Theorem subscribe_roundtrip (node script : jstr) (o : AddOpts) (d : Disk) :
  plain_opts o →
  let '(out, d') := main start uuid (node :: script :: js "subscribe" :: render_opts o) d in
  if has_channel o
  then if writable d
       then out = Added (subscriber_of uuid o) ∧ load d' = pushed (subscriber_of uuid o) (load d)
       else out = Crashed ∧ d' = d
  else out = Usage ∧ d' = d.
Proof.
  intros Ho. unfold main. cbn [parseArgs lookup list_lookup drop default].
  rewrite bool_decide_false by done. rewrite bool_decide_true by done.
  rewrite drop_0, subscribe_opts_render, no_channel_guard by done.
  destruct (has_channel o) eqn:Hc; [|done]. cbn [negb].
  unfold addSubscriber. rewrite Hc. destruct (writable d) eqn:Hw.
  - rewrite save_writable by done. by rewrite load_saved.
  - by rewrite save_unwritable.
Qed.

(** An empty list of events is outside [plain_opts] for a reason: written out it is the
    empty text, which the command line reads as all events. *)
Theorem empty_events_mean_all (o : AddOpts) :
  o_events o = [] → parseEvents (Some (join [44] (o_events o))) = ALL_EVENTS.
Proof. by intros ->. Qed.

(** A run of the command line, other than [start], changes the store by store
    commands only, never by a cursor save, which is what the watcher assumes of
    the other process; and a run that exits with status 1 has left it alone. *)
Theorem main_runs_cli_commands (argv : list jstr) (d : Disk) :
  (parseArgs argv).1 ≠ js "start" →
  let '(out, d') := main start uuid argv d in
  (∃ cs, Forall cli_cmd cs ∧ d' = (run_cmds cs d).2) ∧ (exit_status out = 1 → d' = d).
Proof.
  intros Hcmd. unfold main. destruct (parseArgs argv) as [cmd args]; simpl in Hcmd.
  rewrite bool_decide_false by done.
  assert (∀ out : Outcome, (∃ cs, Forall cli_cmd cs ∧ d = (run_cmds cs d).2) ∧
    (exit_status out = 1 → d = d)) as Hsame by (intros; split; [by exists []|done]).
  repeat case_bool_decide; [..|apply Hsame|apply Hsame].
  - rewrite no_channel_guard. destruct (has_channel _) eqn:Hc; [|apply Hsame].
    destruct (addSubscriber uuid (subscribe_opts args) d) as [r d'] eqn:Hadd.
    assert (d' = (run_cmds [Add uuid (subscribe_opts args)] d).2) as Hd'
      by (simpl; rewrite Hadd; by destruct r).
    destruct r as [sub|e]; (split; [by exists [Add uuid (subscribe_opts args)]; repeat constructor|]);
      [done|]. intros _. unfold addSubscriber, save in Hadd. by repeat case_match; simplify_eq.
  - destruct (args !! 0%nat) as [[|u sid]|]; [apply Hsame| |apply Hsame].
    destruct (removeSubscriber (u :: sid) d) as [r d'] eqn:Hrm.
    assert (d' = (run_cmds [Remove (u :: sid)] d).2) as Hd'
      by (simpl; rewrite Hrm; by destruct r).
    destruct r as [b|e]; (split; [by exists [Remove (u :: sid)]; repeat constructor|]); [done|].
    intros _. unfold removeSubscriber, save in Hrm. by repeat case_match; simplify_eq.
Qed.
End properties.

(** Both theorems at concrete inputs. *)
Definition sample_opts : AddOpts := {|
  o_proposalId := Some (js "42"); o_events := [js "created"; js "final"];
  o_email := Some (js "user@example.com"); o_webhookUrl := None;
  o_slackWebhookUrl := None; o_discordWebhookUrl := None |}.

Lemma subscribe_roundtrip_witness :
  let '(out, d') := @main bit_codec (λ d, Ok d) (js "u1")
    [js "node"; js "index.js"; js "subscribe"; js "--email"; js "user@example.com";
     js "--proposal-id"; js "42"; js "--events"; js "created,final"] example_disk in
  out = Added (subscriber_of (js "u1") sample_opts) ∧
  subscribers (@load bit_codec d') = [subscriber_of (js "u1") sample_opts].
Proof.
  assert (plain_opts sample_opts) as Ho.
  { repeat split; try done; repeat constructor; try done; set_unfold; vm_compute; naive_solver. }
  pose proof (@subscribe_roundtrip bit_codec (λ d, Ok d) (js "u1") (js "node") (js "index.js")
    sample_opts example_disk Ho) as H.
  change (js "node" :: js "index.js" :: js "subscribe" :: render_opts sample_opts) with
    [js "node"; js "index.js"; js "subscribe"; js "--email"; js "user@example.com";
     js "--proposal-id"; js "42"; js "--events"; js "created,final"] in H.
  destruct (@main bit_codec _ _ _ _) as [out d'].
  change (has_channel sample_opts) with true in H. change (writable example_disk) with true in H.
  cbv iota in H. by destruct H as [-> ->].
Defined.

Lemma main_runs_cli_commands_witness :
  let '(out, d') := @main bit_codec (λ d, Ok d) (js "u1")
    [js "node"; js "index.js"; js "unsubscribe"] example_disk in
  out = Usage ∧ d' = example_disk.
Proof.
  pose proof (@main_runs_cli_commands bit_codec (λ d, Ok d) (js "u1")
    [js "node"; js "index.js"; js "unsubscribe"] example_disk ltac:(by vm_compute)) as H.
  destruct (@main bit_codec _ _ _ _) as [out d'] eqn:Hm. vm_compute in Hm.
  injection Hm as <- <-. split; [done|]. exact (proj2 H eq_refl).
Defined.
End Cli.
