(* ===== verification/StoreFile.v ===== *)
(** * The subscription file as bytes of JSON
    (notification-service/src/types.ts and subscriptions.ts, [load] and [save])

    [json_codec] is the interface [StoreCodec] for the real texts:
    [JSON.stringify(store, null, 2)] and [JSON.parse]. The interfaces of types.ts
    are types of JSON values ([ty], [has_type]), which the file keeps. A parsed
    value of another shape is taken for an unreadable file, and members the
    interfaces do not name are not kept; the service writes neither. *)
From Stdlib Require Import Ascii String ZArith Lia.
From stdpp Require Import prelude list strings.
From S2P Require Import Prelude JsString JsNumber Utf8 Json Subscriptions Cli.
Local Open Scope Z_scope.

Module StoreFile.
Import Json Subscriptions.

(** ** Types of JSON values, as TypeScript writes them *)
Inductive ty :=
| TString
| TLiterals (l : list jstr)
| TArray (t : ty)
| TObject (fields : list (jstr * (bool * ty))).   (* name, optional, type *)

Definition member (k : jstr) (l : list (jstr * json)) : option json := assoc k l.

Fixpoint has_type (t : ty) (v : json) : bool :=
  match t, v with
  | TString, JStr _ => true
  | TLiterals l, JStr s => bool_decide (s ∈ l)
  | TArray t', JArr l => forallb (has_type t') l
  | TObject fs, JObj l =>
      forallb (λ '(k, (opt, t')), match member k l with Some v' => has_type t' v' | None => opt end) fs
  | _, _ => false
  end.

Definition GovernanceEventType_ty : ty := TLiterals (event_tag <$> [created; voted; final; exec; cancel]).
Definition Subscriber_ty (event : ty) : ty := TObject
  [(js "id", (false, TString)); (js "proposalId", (true, TString)); (js "events", (false, TArray event));
   (js "email", (true, TString)); (js "webhookUrl", (true, TString));
   (js "slackWebhookUrl", (true, TString)); (js "discordWebhookUrl", (true, TString))].
Definition SubscriptionStore_ty (event : ty) : ty := TObject
  [(js "subscribers", (false, TArray (Subscriber_ty event))); (js "cursor", (false, TString))].

(** ** The values written: members in the order in which the command line and
    [addSubscriber] create them, absent ones left out. *)
Definition opt_member (k : jstr) (o : option jstr) : list (jstr * json) :=
  match o with Some s => [(k, JStr s)] | None => [] end.
Definition encode_subscriber (s : Subscriber) : json := JObj (
  (js "id", JStr (id s)) ::
  opt_member (js "email") (email s) ++ opt_member (js "webhookUrl") (webhookUrl s) ++
  opt_member (js "slackWebhookUrl") (slackWebhookUrl s) ++
  opt_member (js "discordWebhookUrl") (discordWebhookUrl s) ++
  opt_member (js "proposalId") (proposalId s) ++
  [(js "events", JArr (JStr <$> events s))]).
Definition encode_store (st : SubscriptionStore) : json := JObj
  [(js "subscribers", JArr (encode_subscriber <$> subscribers st)); (js "cursor", JStr (cursor st))].

(** ** The values read *)
Definition as_string (v : json) : option jstr := match v with JStr s => Some s | _ => None end.
Definition as_array {A} (f : json → option A) (v : json) : option (list A) :=
  match v with JArr l => mapM f l | _ => None end.
Definition opt_string (k : jstr) (l : list (jstr * json)) : option (option jstr) :=
  match member k l with Some v => Some <$> as_string v | None => Some None end.
Definition decode_subscriber (v : json) : option Subscriber :=
  match v with
  | JObj l =>
      i ← member (js "id") l ≫= as_string;
      p ← opt_string (js "proposalId") l;
      ev ← member (js "events") l ≫= as_array as_string;
      em ← opt_string (js "email") l; wh ← opt_string (js "webhookUrl") l;
      sl ← opt_string (js "slackWebhookUrl") l; di ← opt_string (js "discordWebhookUrl") l;
      Some {| id := i; proposalId := p; events := ev; email := em; webhookUrl := wh;
              slackWebhookUrl := sl; discordWebhookUrl := di |}
  | _ => None
  end.
Definition decode_store (v : json) : option SubscriptionStore :=
  match v with
  | JObj l =>
      ss ← member (js "subscribers") l ≫= as_array decode_subscriber;
      c ← member (js "cursor") l ≫= as_string;
      Some {| subscribers := ss; cursor := c |}
  | _ => None
  end.

(** ** Lemmas *)
Lemma member_here k v l : member k ((k, v) :: l) = Some v.
Proof. unfold member. cbn [assoc]. by rewrite decide_True. Qed.
Lemma member_next k k' v l : bool_decide (k ≠ k') = true → member k ((k', v) :: l) = member k l.
Proof. intros H%bool_decide_eq_true. unfold member. cbn [assoc]. by rewrite decide_False. Qed.
Lemma member_opt_next k k' o l : bool_decide (k ≠ k') = true → member k (opt_member k' o ++ l) = member k l.
Proof. destruct o; [by apply member_next | done]. Qed.
Lemma member_opt_here k o l : member k l = None → member k (opt_member k o ++ l) = JStr <$> o.
Proof. destruct o; [intros _; by apply member_here | done]. Qed.
Lemma opt_string_member k l o : member k l = JStr <$> o → opt_string k l = Some o.
Proof. unfold opt_string. intros ->. by destruct o. Qed.

(** [members] finds the members of a value written by the encoders. *)
Ltac members :=
  repeat first
    [ rewrite member_here
    | rewrite member_next by (vm_compute; reflexivity)
    | rewrite member_opt_next by (vm_compute; reflexivity)
    | rewrite member_opt_here by (members; reflexivity) ].

(** What the encoder of subscribers writes. *)
Lemma subscriber_members s : ∃ l, encode_subscriber s = JObj l ∧
  member (js "id") l = Some (JStr (id s)) ∧
  member (js "events") l = Some (JArr (JStr <$> events s)) ∧
  member (js "proposalId") l = JStr <$> proposalId s ∧ member (js "email") l = JStr <$> email s ∧
  member (js "webhookUrl") l = JStr <$> webhookUrl s ∧
  member (js "slackWebhookUrl") l = JStr <$> slackWebhookUrl s ∧
  member (js "discordWebhookUrl") l = JStr <$> discordWebhookUrl s.
Proof. eexists. split; [reflexivity|]. split_and!; members; reflexivity. Qed.

Lemma decode_encode_subscriber s : decode_subscriber (encode_subscriber s) = Some s.
Proof.
  destruct (subscriber_members s) as (l & -> & Hi & He & Hp & Hem & Hw & Hs & Hd).
  unfold decode_subscriber. rewrite Hi, He. cbn [as_array as_string mbind option_bind].
  rewrite mapM_fmap_Some by done. cbn [mbind option_bind].
  rewrite !(opt_string_member _ _ _ Hp), (opt_string_member _ _ _ Hem), (opt_string_member _ _ _ Hw),
    (opt_string_member _ _ _ Hs), (opt_string_member _ _ _ Hd). by destruct s.
Qed.
Lemma decode_encode_store st : decode_store (encode_store st) = Some st.
Proof.
  unfold decode_store, encode_store. members. cbn [as_array as_string mbind option_bind].
  rewrite mapM_fmap_Some by apply decode_encode_subscriber. by destruct st.
Qed.

(** The values are printable: no number, and distinct names. *)
Lemma printable_strings l : forallb printable (JStr <$> l) = true.
Proof. by induction l. Qed.
Lemma printable_subscriber s : printable (encode_subscriber s) = true.
Proof.
  unfold encode_subscriber. cbn [printable]. apply andb_true_iff. split.
  - cbn [forallb snd printable andb]. rewrite !forallb_app.
    cbn [forallb snd printable andb]. rewrite printable_strings.
    by destruct (email s), (webhookUrl s), (slackWebhookUrl s), (discordWebhookUrl s), (proposalId s).
  - apply bool_decide_eq_true.
    destruct (email s), (webhookUrl s), (slackWebhookUrl s), (discordWebhookUrl s), (proposalId s);
      cbn [opt_member app fmap list_fmap fst]; apply (bool_decide_unpack _); vm_compute; exact I.
Qed.
Lemma printable_store st : printable (encode_store st) = true.
Proof.
  unfold encode_store. cbn [printable forallb snd]. apply andb_true_iff. split.
  - rewrite !andb_true_r. induction (subscribers st) as [|s ss IH]; [done|].
    cbn [fmap list_fmap forallb]. by rewrite printable_subscriber.
  - apply bool_decide_eq_true. cbn [fmap list_fmap fst]. apply (bool_decide_unpack _). vm_compute. exact I.
Qed.

(** The codec of the real texts. *)
Global Instance json_codec : StoreCodec.
Proof.
  refine {| stringify st := Json.stringify 2 (encode_store st);
            Subscriptions.parse raw := Json.parse raw ≫= decode_store |}; [|done].
  intros st. rewrite parse_stringify_json by apply printable_store. apply decode_encode_store.
Defined.
(** ** The type of the file *)
Definition valid_event (e : jstr) : bool := bool_decide (e ∈ event_tag <$> [created; voted; final; exec; cancel]).
Definition valid_events (s : Subscriber) : bool := forallb valid_event (events s).
Definition typed_store (st : SubscriptionStore) : bool := forallb valid_events (subscribers st).
Notation declared_type := (SubscriptionStore_ty GovernanceEventType_ty).
Notation actual_type := (SubscriptionStore_ty TString).

(** A file that is missing or holds a value of the type. *)
Definition file_typed (t : ty) (d : Disk) : Prop :=
  match file d with
  | None => True
  | Some raw => ∃ v, Json.parse raw = Some v ∧ has_type t v = true
  end.

Lemma type_string v : has_type TString v = true → ∃ s, v = JStr s.
Proof. destruct v; try done. eauto. Qed.
Lemma type_literals L v : has_type (TLiterals L) v = true → ∃ s, v = JStr s ∧ s ∈ L.
Proof. destruct v; try done. cbn [has_type]. intros H%bool_decide_eq_true. eauto. Qed.
Lemma type_array t v : has_type (TArray t) v = true → ∃ l, v = JArr l ∧ forallb (has_type t) l = true.
Proof. destruct v; try done. eauto. Qed.

(** What a member of a typed object is. *)
Lemma required_member {A} (f : json → option A) t l k :
  (∀ v, has_type t v = true → is_Some (f v)) →
  match member k l with Some v => has_type t v | None => false end = true →
  ∃ a, member k l ≫= f = Some a.
Proof. intros Hf. destruct (member k l) as [v|]; [|done]. cbn. intros Hv. by apply Hf. Qed.
Lemma optional_member l k :
  match member k l with Some v => has_type TString v | None => true end = true →
  ∃ o, opt_string k l = Some o.
Proof.
  unfold opt_string. destruct (member k l) as [v|]; [|eauto]. intros [s ->]%type_string. by eexists.
Qed.
Lemma as_array_typed {A} (f : json → option A) t l :
  (∀ v, has_type t v = true → is_Some (f v)) → forallb (has_type t) l = true → is_Some (mapM f l).
Proof.
  intros Hf Hl. apply mapM_is_Some, list.Forall_forall. intros v Hv. apply Hf.
  by apply (proj1 (forallb_forall _ _) Hl), list_elem_of_In.
Qed.

Lemma decode_subscriber_typed v :
  has_type (Subscriber_ty TString) v = true → is_Some (decode_subscriber v).
Proof.
  destruct v as [| | | | |l]; try done. unfold Subscriber_ty. cbn [has_type forallb].
  rewrite !andb_true_iff. intros (Hi & Hp & He & Hem & Hw & Hs & Hd & _). unfold decode_subscriber.
  destruct (required_member as_string TString l (js "id")) as [i ->];
    [by intros ? [s ->]%type_string|done|].
  destruct (optional_member _ _ Hp) as [p ->]. destruct (optional_member _ _ Hem) as [em ->].
  destruct (optional_member _ _ Hw) as [wh ->]. destruct (optional_member _ _ Hs) as [sl ->].
  destruct (optional_member _ _ Hd) as [di ->].
  destruct (required_member (as_array as_string) (TArray TString) l (js "events")) as [ev ->]; [|done|].
  - intros ? (k & -> & Hk)%type_array. apply (as_array_typed _ TString); [|done].
    by intros ? [s ->]%type_string.
  - by eexists.
Qed.
Lemma decode_store_typed v : has_type actual_type v = true → is_Some (decode_store v).
Proof.
  destruct v as [| | | | |l]; try done. unfold SubscriptionStore_ty. cbn [has_type forallb].
  rewrite !andb_true_iff. intros (Hs & Hc & _). unfold decode_store.
  destruct (required_member (as_array decode_subscriber) (TArray (Subscriber_ty TString)) l
    (js "subscribers")) as [ss ->]; [|done|].
  - intros ? (k & -> & Hk)%type_array. eapply as_array_typed; [exact decode_subscriber_typed|done].
  - destruct (required_member as_string TString l (js "cursor")) as [c ->];
      [by intros ? [s ->]%type_string|done|]. by eexists.
Qed.

(** The type of what is written. *)
Lemma encoded_events_type t l :
  forallb (has_type t) (JStr <$> l) = forallb (λ e, has_type t (JStr e)) l.
Proof. induction l as [|e l IH]; [done|]. cbn [fmap list_fmap forallb]. by rewrite <- IH. Qed.
Lemma encode_subscriber_type event s :
  has_type (Subscriber_ty event) (encode_subscriber s) = forallb (λ e, has_type event (JStr e)) (events s).
Proof.
  destruct (subscriber_members s) as (l & -> & Hi & He & Hp & Hem & Hw & Hs & Hd).
  unfold Subscriber_ty. cbn [has_type forallb]. rewrite Hi, He, Hp, Hem, Hw, Hs, Hd.
  cbn [has_type andb]. rewrite encoded_events_type.
  by destruct (proposalId s), (email s), (webhookUrl s), (slackWebhookUrl s), (discordWebhookUrl s);
    cbn [fmap option_fmap option_map has_type andb]; rewrite andb_true_r.
Qed.
Lemma encode_store_type event st :
  has_type (SubscriptionStore_ty event) (encode_store st) =
    forallb (λ s, forallb (λ e, has_type event (JStr e)) (events s)) (subscribers st).
Proof.
  unfold SubscriptionStore_ty, encode_store. cbn [has_type forallb]. members.
  cbn [has_type]. rewrite !andb_true_r. induction (subscribers st) as [|s ss IH]; [done|].
  cbn [fmap list_fmap forallb]. by rewrite encode_subscriber_type, <- IH.
Qed.

Lemma declared_actual v : has_type declared_type v = true → has_type actual_type v = true.
Proof.
  destruct v as [| | | | |l]; try done. unfold SubscriptionStore_ty. cbn [has_type forallb].
  rewrite !andb_true_iff. intros (Hs & Hc & _). split_and!; [|done|done].
  destruct (member (js "subscribers") l) as [v|]; [|done]. destruct v as [| | | |k|]; try done.
  cbn [has_type] in *. apply forallb_forall. intros v Hv.
  pose proof (proj1 (forallb_forall _ _) Hs v Hv) as Hsub. clear -Hsub.
  destruct v as [| | | | |l]; try done. unfold Subscriber_ty in *. cbn [has_type forallb] in *.
  rewrite !andb_true_iff in *. destruct Hsub as (? & ? & He & ?). split_and!; try done; [|naive_solver..].
  destruct (member (js "events") l) as [v|]; [|done]. destruct v as [| | | |k|]; try done. cbn [has_type] in *.
  apply forallb_forall. intros e Hin. pose proof (proj1 (forallb_forall _ _) He e Hin). by destruct e.
Qed.

Lemma decode_subscriber_events v s :
  has_type (Subscriber_ty GovernanceEventType_ty) v = true → decode_subscriber v = Some s →
  valid_events s = true.
Proof.
  destruct v as [| | | | |l]; try done. unfold Subscriber_ty. cbn [has_type forallb].
  rewrite !andb_true_iff. intros (_ & _ & He & _) Hd. unfold decode_subscriber in Hd.
  destruct (member (js "events") l) as [v|]; [|done].
  change (has_type (TArray GovernanceEventType_ty) v = true) in He.
  destruct (type_array _ _ He) as (k & -> & Hk).
  change (Some (JArr k) ≫= as_array as_string) with (mapM as_string k) in Hd.
  destruct (member (js "id") l ≫= as_string); [|done].
  destruct (opt_string (js "proposalId") l); [|done].
  destruct (mapM as_string k) as [ev|] eqn:Hev; [|by cbn [mbind option_bind] in Hd].
  destruct (opt_string (js "email") l), (opt_string (js "webhookUrl") l),
    (opt_string (js "slackWebhookUrl") l), (opt_string (js "discordWebhookUrl") l);
    cbn [mbind option_bind] in Hd; try done.
  injection Hd as <-. unfold valid_events. cbn [events].
  apply mapM_Some in Hev. clear -Hev Hk. induction Hev as [|v e k ev Hv _ IH]; [done|].
  cbn [forallb] in *. apply andb_true_iff in Hk as [Hvt Hk]. rewrite IH by done.
  destruct (type_literals _ _ Hvt) as (s & -> & Hs). cbn in Hv. simplify_eq. rewrite andb_true_r.
  by apply bool_decide_eq_true.
Qed.

Lemma typed_value_store v st :
  has_type declared_type v = true → decode_store v = Some st → typed_store st = true.
Proof.
  destruct v as [| | | | |l]; try done. unfold SubscriptionStore_ty. cbn [has_type forallb].
  rewrite !andb_true_iff. intros (Hs & _ & _) Hd. unfold decode_store in Hd.
  destruct (member (js "subscribers") l) as [v|]; [|done].
  change (has_type (TArray (Subscriber_ty GovernanceEventType_ty)) v = true) in Hs.
  destruct (type_array _ _ Hs) as (k & -> & Hk).
  change (Some (JArr k) ≫= as_array decode_subscriber) with (mapM decode_subscriber k) in Hd.
  destruct (mapM decode_subscriber k) as [ss|] eqn:Hss; [|by cbn [mbind option_bind] in Hd].
  destruct (member (js "cursor") l ≫= as_string); cbn [mbind option_bind] in Hd; [|done].
  injection Hd as <-. unfold typed_store. cbn [subscribers].
  apply mapM_Some in Hss. clear -Hss Hk. induction Hss as [|v s k ss Hv _ IH]; [done|].
  cbn [forallb] in *. apply andb_true_iff in Hk as [Hvt Hk]. by rewrite (decode_subscriber_events v s), IH.
Qed.

Lemma load_typed d : file_typed declared_type d → typed_store (load d) = true.
Proof.
  unfold file_typed, load. destruct (file d) as [raw|]; [|done]. intros (v & Hp & Hv).
  cbn [Subscriptions.parse json_codec]. rewrite Hp. cbn [mbind option_bind].
  destruct (decode_store_typed v (declared_actual v Hv)) as [st Hst]. rewrite Hst. cbn [default].
  by eapply typed_value_store.
Qed.

(** A command leaves the file alone or writes the store it leaves. *)
Lemma run_cmd_file c d :
  writable d = true → file (run_cmd c d).2 = file d ∨ file (run_cmd c d).2 = Some (stringify (load (run_cmd c d).2)).
Proof.
  intros Hw. destruct c as [u o|i|k| |t p]; cbn [run_cmd]; [| | |by left|by left].
  - unfold addSubscriber. destruct (has_channel o); [|by left]. rewrite save_writable by done.
    right. cbn [snd]. by rewrite load_saved.
  - unfold removeSubscriber. case_bool_decide; [by left|]. rewrite save_writable by done.
    right. cbn [snd]. by rewrite load_saved.
  - unfold saveCursor. rewrite save_writable by done. right. cbn [snd]. by rewrite load_saved.
Qed.

Lemma stringify_typed event st b w :
  forallb (λ s, forallb (λ e, has_type event (JStr e)) (events s)) (subscribers st) = true →
  file_typed (SubscriptionStore_ty event) {| file := Some (stringify st); dir_exists := b; writable := w |}.
Proof.
  intros H. exists (encode_store st). cbn [Subscriptions.stringify json_codec].
  rewrite parse_stringify_json by apply printable_store. by rewrite encode_store_type.
Qed.
Lemma all_strings st :
  forallb (λ s, forallb (λ e, has_type TString (JStr e)) (events s)) (subscribers st) = true.
Proof. apply forallb_forall. intros s _. by apply forallb_forall. Qed.

(** The subscriptions a command adds name declared events. *)
Definition valid_cmd (c : Cmd) : bool :=
  match c with Add _ o => forallb valid_event (o_events o) | _ => true end.

Lemma spec_cmd_typed c st : valid_cmd c = true → typed_store st = true → typed_store (spec_cmd c st).2 = true.
Proof.
  intros Hc Hst. destruct c as [u o|i|k| |t p]; cbn [spec_cmd]; try done.
  - destruct (has_channel o); [|done]. unfold typed_store, pushed. cbn [snd subscribers].
    rewrite forallb_app. cbn [forallb]. unfold typed_store in Hst. rewrite Hst.
    unfold valid_events. cbn [subscriber_of events valid_cmd] in *. by rewrite Hc.
  - unfold typed_store in *. cbn [snd subscribers]. apply forallb_forall. intros s Hs.
    apply (proj1 (forallb_forall _ _) Hst). apply list_elem_of_In in Hs.
    apply list_elem_of_filter in Hs as [_ Hs]. by apply list_elem_of_In.
Qed.

Lemma run_cmd_typed event c d :
  writable d = true → file_typed (SubscriptionStore_ty event) d →
  forallb (λ s, forallb (λ e, has_type event (JStr e)) (events s)) (subscribers (load (run_cmd c d).2)) = true →
  file_typed (SubscriptionStore_ty event) (run_cmd c d).2.
Proof.
  intros Hw Hd Hst. destruct (run_cmd_file c d Hw) as [Hf|Hf].
  - unfold file_typed in *. by rewrite Hf.
  - pose proof (stringify_typed event _ true true Hst) as Ht. unfold file_typed in *. by rewrite Hf.
Qed.

Lemma run_cmds_ind (Q : Disk → Prop) (ok : Cmd → bool) :
  (∀ c d, writable d = true → ok c = true → Q d → Q (run_cmd c d).2) →
  ∀ cs d, writable d = true → forallb ok cs = true → Q d → Q (run_cmds cs d).2.
Proof.
  intros Hstep cs. induction cs as [|c cs IH]; intros d Hw Hok Hd; [done|]. cbn [run_cmds].
  cbn [forallb] in Hok. apply andb_true_iff in Hok as [Hc Hcs].
  pose proof (run_cmd_refines c d Hw) as Hr. specialize (Hstep c d Hw Hc Hd).
  destruct (run_cmd c d) as [r d1]. destruct Hr as [_ Hw1]. specialize (IH d1 Hw1 Hcs Hstep).
  by destruct (run_cmds cs d1).
Qed.

(** ** Properties *)

(** C18. The file keeps its type: whatever the commands, a file that holds a store
    whose events are strings, or no file, goes on to hold one; the type declared in
    types.ts, whose events are the five names, is kept as long as the subscriptions
    added name those events, and is lost with the first subscription that has a
    channel and names another, which the command line accepts. *)
Theorem file_stays_typed (cs : list Cmd) (d : Disk) :
  writable d = true →
  (file_typed actual_type d → file_typed actual_type (run_cmds cs d).2) ∧
  (file_typed declared_type d → forallb valid_cmd cs = true → file_typed declared_type (run_cmds cs d).2) ∧
  (∀ u o, has_channel o = true → forallb valid_event (o_events o) = false →
     ¬ file_typed declared_type (addSubscriber u o d).2).
Proof.
  intros Hw. split_and!.
  - intros Hd. apply (run_cmds_ind (file_typed actual_type) (λ _, true)); [|done|by apply forallb_forall|done].
    intros c d1 Hw1 _ Hd1. apply run_cmd_typed; [done..|]. apply all_strings.
  - intros Hd Hcs. apply (run_cmds_ind (file_typed declared_type) valid_cmd); [|done..].
    intros c d1 Hw1 Hc Hd1. apply run_cmd_typed; [done..|].
    pose proof (run_cmd_refines c d1 Hw1) as Hr. pose proof (spec_cmd_typed c _ Hc (load_typed d1 Hd1)) as Ht.
    destruct (run_cmd c d1) as [r d2]. destruct Hr as [Hr _]. rewrite Hr in Ht. exact Ht.
  - intros u o Hch Hev Ht. apply load_typed in Ht. unfold addSubscriber in Ht. rewrite Hch in Ht.
    rewrite save_writable in Ht by done. cbn [snd] in Ht. rewrite load_saved in Ht.
    unfold typed_store, pushed in Ht. cbn [subscribers] in Ht. rewrite forallb_app in Ht.
    cbn [forallb] in Ht. unfold valid_events in Ht at 2. cbn [subscriber_of events] in Ht.
    rewrite Hev, andb_false_r in Ht. done.
Qed.

(** The two parts of the property at a concrete file: a subscription from the
    command line with a misspelt event, in an empty directory. *)
Definition misspelt : AddOpts := {|
  o_proposalId := None; o_events := [js "creatd"]; o_email := Some (js "user@example.com");
  o_webhookUrl := None; o_slackWebhookUrl := None; o_discordWebhookUrl := None |}.
Definition no_file : Disk := {| file := None; dir_exists := false; writable := true |}.

Lemma file_stays_typed_witness :
  file_typed declared_type no_file ∧
  file_typed actual_type (run_cmds [Add (js "u1") misspelt; SaveCursor (js "7")] no_file).2 ∧
  ¬ file_typed declared_type (addSubscriber (js "u1") misspelt no_file).2.
Proof.
  destruct (file_stays_typed [Add (js "u1") misspelt; SaveCursor (js "7")] no_file eq_refl) as (H1 & _ & H3).
  split; [exact I|]. split; [exact (H1 I)|]. exact (H3 (js "u1") misspelt eq_refl eq_refl).
Defined.

(** ** The bytes of the file *)
Definition units_opt (o : option jstr) : bool := match o with Some s => units s | None => true end.
Definition units_subscriber (s : Subscriber) : bool :=
  units (id s) && units_opt (email s) && units_opt (webhookUrl s) && units_opt (slackWebhookUrl s)
    && units_opt (discordWebhookUrl s) && units_opt (proposalId s) && forallb units (events s).
Definition units_store (st : SubscriptionStore) : bool :=
  forallb units_subscriber (subscribers st) && units (cursor st).

(** What [writeFileSync] leaves on the disk of a text, and [readFileSync(…, 'utf8')]
    makes of it. *)
Definition file_bytes (st : SubscriptionStore) : list Z := Utf8.utf8_encode (stringify st).
Definition read_file (bs : list Z) : Disk :=
  {| file := Some (Utf8.utf8_decode bs); dir_exists := true; writable := true |}.

Lemma units_opt_member k o l :
  units k = true →
  forallb (λ kv, units kv.1 && units_json kv.2) (opt_member k o ++ l) =
    units_opt o && forallb (λ kv, units kv.1 && units_json kv.2) l.
Proof. intros Hk. destruct o as [s|]; [|done]. cbn [opt_member app forallb fst snd units_json units_opt]. by rewrite Hk. Qed.

Lemma units_encode_subscriber s : units_subscriber s = true → units_json (encode_subscriber s) = true.
Proof.
  unfold units_subscriber. rewrite !andb_true_iff. intros ((((((Hi & Hem) & Hw) & Hs) & Hd) & Hp) & He).
  unfold encode_subscriber. cbn [units_json]. cbn [forallb fst snd units_json]. rewrite Hi.
  rewrite !units_opt_member by (vm_compute; reflexivity). rewrite Hem, Hw, Hs, Hd, Hp.
  cbn [forallb fst snd units_json andb].
  replace (forallb units_json (JStr <$> events s)) with true; [vm_compute; reflexivity|].
  clear -He. induction (events s) as [|e l IH]; [done|]. cbn [fmap list_fmap forallb units_json] in *.
  apply andb_true_iff in He as [-> He]. by apply IH.
Qed.
Lemma units_encode_store st : units_store st = true → units_json (encode_store st) = true.
Proof.
  unfold units_store. rewrite andb_true_iff. intros [Hs Hc]. unfold encode_store.
  cbn [units_json forallb fst snd]. rewrite Hc.
  replace (forallb units_json (encode_subscriber <$> subscribers st)) with true; [vm_compute; reflexivity|].
  clear -Hs. induction (subscribers st) as [|s l IH]; [done|]. cbn [fmap list_fmap forallb] in *.
  apply andb_true_iff in Hs as [Hs Hl]. rewrite units_encode_subscriber by done. by apply IH.
Qed.

(** C17. The store survives its file: the text written is well-formed whatever the
    strings of the store hold, unpaired surrogates and control characters
    included, so its UTF-8 bytes are bytes, they read back as the text, and the
    text loads as the store that was saved. *)
Theorem store_survives_the_file (st : SubscriptionStore) :
  units_store st = true →
  Forall (λ b, 0 <= b < 256) (file_bytes st) ∧
  Utf8.utf8_decode (file_bytes st) = stringify st ∧ load (read_file (file_bytes st)) = st.
Proof.
  intros Hu. assert (Utf8.well_formed (stringify st) = true) as Hw.
  { apply well_formed_print; [apply printable_store | by apply units_encode_store]. }
  pose proof (Utf8.decode_encode_utf8 _ Hw) as Hd. split_and!; [by apply Utf8.utf8_encode_bytes|exact Hd|].
  unfold read_file, file_bytes. rewrite Hd. apply (load_saved st true true).
Qed.

(** A store with a quote, an accent, a rocket and half of one. *)
Lemma store_survives_the_file_witness :
  let st := {| subscribers := [subscriber_of [34; 92; 10; 0xD83D] misspelt]; cursor := js "é🚀" |} in
  load (read_file (file_bytes st)) = st ∧ length (file_bytes st) = 166%nat.
Proof.
  intros st. split; [|vm_compute; reflexivity].
  exact (proj2 (proj2 (store_survives_the_file st eq_refl))).
Defined.

End StoreFile.
