(* ===== verification/Url.v ===== *)
(** * Queries of addresses (frontend/src/App.tsx, [getUrlParams] and [setUrlParams])

    [URLSearchParams] of the URL standard: names and values as UTF-8 bytes, every
    byte outside the unreserved ones written as a percent escape and a space as a
    plus sign. The address bar holds the text after the path ([window.location.search]),
    which [replaceState] sets. *)
From Stdlib Require Import Ascii String ZArith Lia.
From stdpp Require Import prelude list strings.
From S2P Require Import Prelude JsString JsNumber Utf8 Json.
Local Open Scope Z_scope.

Module Url.
Import Utf8.

(** ** URLSearchParams *)
Definition is_alnum (b : Z) : bool :=
  is_digit b || ((65 <=? b) && (b <=? 90)) || ((97 <=? b) && (b <=? 122)).
Definition is_unreserved (b : Z) : bool := is_alnum b || bool_decide (b ∈ [42; 45; 46; 95]).
Definition hex_upper (d : Z) : Z := if d <? 10 then 48 + d else 55 + d.

Definition encode_byte (b : Z) : jstr :=
  if b =? 32 then [43]
  else if is_unreserved b then [b] else [37; hex_upper (b / 16); hex_upper (b mod 16)].
Definition encode_component (s : jstr) : jstr := concat (List.map encode_byte (utf8_encode s)).

(** [p.toString()] *)
Definition params_text (p : list (jstr * jstr)) : jstr :=
  join [38] (List.map (λ kv, encode_component kv.1 ++ 61 :: encode_component kv.2) p).

Definition hex_value (c : Z) : option Z :=
  if is_digit c then Some (c - 48)
  else if (65 <=? c) && (c <=? 70) then Some (c - 55)
  else if (97 <=? c) && (c <=? 102) then Some (c - 87) else None.

(** The bytes a component stands for; a percent sign that starts no escape is kept. *)
Fixpoint percent_decode (bs : list Z) : list Z :=
  match bs with
  | [] => []
  | b :: r =>
      match r with
      | h :: l :: r' =>
          match (if b =? 37 then hex_value h else None), hex_value l with
          | Some x, Some y => 16 * x + y :: percent_decode r'
          | _, _ => b :: percent_decode r
          end
      | _ => b :: percent_decode r
      end
  end.
Definition plus_to_space (b : Z) : Z := if b =? 43 then 32 else b.
Definition decode_component (bs : list Z) : jstr := utf8_decode (percent_decode (List.map plus_to_space bs)).

Definition read_pair (bs : list Z) : jstr * jstr :=
  let '(k, r) := span (λ b, negb (b =? 61)) bs in (decode_component k, decode_component (drop 1 r)).

(** [new URLSearchParams(search)] *)
Definition params_of (search : jstr) : list (jstr * jstr) :=
  let query := match search with 63 :: r => r | _ => search end in
  read_pair <$> filter (λ bs, bs ≠ []) (split_unit 38 (utf8_encode query)).

(** [p.get(k)]: the first value; [p.set(k, v)] on parameters without [k]. *)
Definition params_get (k : jstr) (p : list (jstr * jstr)) : option jstr := assoc k p.

(** ** App.tsx *)
Record UrlParams := { search : jstr; stateFilter : jstr }.

Definition getUrlParams (location_search : jstr) : UrlParams :=
  let p := params_of location_search in
  {| search := default [] (params_get (js "q") p);
     stateFilter := default (js "All") (params_get (js "state") p) |}.

(** What [window.location.search] is after the call. *)
Definition setUrlParams (s f : jstr) : jstr :=
  let p := (if bool_decide (s = []) then [] else [(js "q", s)])
        ++ (if bool_decide (f = js "All") then [] else [(js "state", f)]) in
  let qs := params_text p in
  if bool_decide (qs = []) then [] else 63 :: qs.

Example set_ex :
  setUrlParams (js "50% café & tea") (js "Active") = js "?q=50%25+caf%C3%A9+%26+tea&state=Active".
Proof. vm_compute. reflexivity. Qed.
Example get_ex :
  getUrlParams (js "?x=%zz&&q=a%2b+b=c&q=second") = {| search := js "a+ b=c"; stateFilter := js "All" |}.
Proof. vm_compute. reflexivity. Qed.

(** ** Lemmas *)
Lemma is_alnum_range b : is_alnum b = true → 48 <= b < 123 ∧ b ≠ 61.
Proof. unfold is_alnum, is_digit. rewrite !orb_true_iff, !andb_true_iff, !Z.leb_le. lia. Qed.
Lemma is_unreserved_range b : is_unreserved b = true → 42 <= b < 123 ∧ b ≠ 61 ∧ b ≠ 43.
Proof.
  unfold is_unreserved. rewrite orb_true_iff, bool_decide_eq_true.
  intros [H|H]; [apply is_alnum_range in H; lia | set_solver by lia].
Qed.
Lemma hex_upper_spec d :
  0 <= d < 16 → hex_value (hex_upper d) = Some d ∧ (48 <= hex_upper d < 58 ∨ 65 <= hex_upper d < 71).
Proof.
  intros Hd. unfold hex_upper, hex_value, is_digit.
  destruct (Z.ltb_spec d 10); Utf8.decide_bytes; (split; [f_equal; lia | lia]).
Qed.

(** A character of an encoded component. *)
Definition safe (c : Z) : bool := (37 <=? c) && (c <? 123) && negb (c =? 38) && negb (c =? 61).
Lemma safe_spec c : safe c = true ↔ 37 <= c < 123 ∧ c ≠ 38 ∧ c ≠ 61.
Proof.
  unfold safe. rewrite !andb_true_iff, !negb_true_iff, Z.leb_le, Z.ltb_lt, !Z.eqb_neq. lia.
Qed.

Lemma percent_decode_plain b r : b ≠ 37 → percent_decode (b :: r) = b :: percent_decode r.
Proof.
  intros Hb. cbn [percent_decode]. destruct r as [|h [|l r]]; [done..|].
  by rewrite (proj2 (Z.eqb_neq b 37)).
Qed.

(** One byte there and back. *)
Lemma encode_byte_spec b r :
  0 <= b < 256 →
  percent_decode (List.map plus_to_space (encode_byte b) ++ r) = b :: percent_decode r ∧
  forallb safe (encode_byte b) = true ∧ encode_byte b ≠ [].
Proof.
  intros Hb. unfold encode_byte. destruct (Z.eqb_spec b 32) as [->|H32].
  { split_and!; [|done|done]. cbn [List.map app]. by rewrite percent_decode_plain. }
  destruct (is_unreserved b) eqn:Hu.
  - apply is_unreserved_range in Hu. split_and!; [| |done].
    + cbn [List.map app]. unfold plus_to_space. rewrite (proj2 (Z.eqb_neq b 43)) by lia.
      by rewrite percent_decode_plain by lia.
    + cbn [forallb]. rewrite andb_true_r. apply safe_spec. split_and!; [lia|lia| |lia].
      intros ->. lia.
  - destruct (hex_upper_spec (b / 16)) as [Hh Hh']; [Z.to_euclidean_division_equations; lia|].
    destruct (hex_upper_spec (b mod 16)) as [Hl Hl']; [Z.to_euclidean_division_equations; lia|].
    split_and!; [| |done].
    + cbn [List.map app]. unfold plus_to_space.
      rewrite !(proj2 (Z.eqb_neq (hex_upper _) 43)) by lia.
      change (37 =? 43) with false. cbn match. cbn [percent_decode]. rewrite Hh, Hl.
      change (37 =? 37) with true. cbn match.
      replace (16 * (b / 16) + b mod 16) with b by (Z.to_euclidean_division_equations; lia). done.
    + cbn [forallb]. rewrite andb_true_r, !andb_true_iff. split_and!; apply safe_spec; lia.
Qed.

Lemma component_bytes bs :
  Forall (λ b, 0 <= b < 256) bs →
  percent_decode (List.map plus_to_space (concat (List.map encode_byte bs))) = bs ∧
  forallb safe (concat (List.map encode_byte bs)) = true.
Proof.
  induction 1 as [|b bs Hb _ [IH1 IH2]]; [done|]. cbn [List.map concat].
  destruct (encode_byte_spec b (List.map plus_to_space (concat (List.map encode_byte bs))) Hb) as (H1 & H2 & _).
  rewrite List.map_app, H1, IH1. split; [done|]. rewrite forallb_app. by rewrite H2, IH2.
Qed.
Lemma decode_encode_component s :
  well_formed s = true →
  decode_component (encode_component s) = s ∧ forallb safe (encode_component s) = true.
Proof.
  intros Hs. destruct (component_bytes _ (utf8_encode_bytes s Hs)) as [H1 H2].
  unfold decode_component, encode_component. rewrite H1. split; [by apply decode_encode_utf8 | done].
Qed.

(** Text below 128 is its own encoding. *)
Lemma utf8_encode_ascii s : forallb (λ c, (0 <=? c) && (c <? 128)) s = true → utf8_encode s = s.
Proof.
  unfold utf8_encode. induction s as [|c s IH]; [done|]. cbn [forallb]. intros [Hc Hs]%andb_true_iff.
  assert (is_surrogate c = false ∧ is_high c = false ∧ (c <? 0x80) = true) as (Hn & Hh & Hlt).
  { unfold is_surrogate, is_high, is_low. bool_prop. Utf8.decide_bytes; done || lia. }
  destruct s as [|d s].
  - cbn [code_points]. rewrite Hn. cbn [List.map concat app]. unfold utf8_of_code. by rewrite Hlt.
  - change (code_points (c :: d :: s)) with (if is_high c && is_low d
      then 0x10000 + (c - 0xD800) * 0x400 + (d - 0xDC00) :: code_points s
      else (if is_surrogate c then replacement else c) :: code_points (d :: s)).
    rewrite Hh, Hn. cbn [andb List.map concat]. rewrite IH by done. unfold utf8_of_code. by rewrite Hlt.
Qed.

Lemma span_app p s u r :
  forallb p s = true → p u = false → span p (s ++ u :: r) = (s, u :: r).
Proof.
  intros Hs Hu. induction s as [|v s IH]; cbn [app span forallb] in *; [by rewrite Hu|].
  apply andb_true_iff in Hs as [-> Hs]. by rewrite IH.
Qed.

Lemma safe_no c s : c = 38 ∨ c = 61 → forallb safe s = true → c ∉ s.
Proof.
  intros Hc. rewrite forallb_forall. intros H Hin%list_elem_of_In. specialize (H c Hin).
  apply safe_spec in H. lia.
Qed.
Lemma not_in_forallb c s : c ∉ s → forallb (λ u, negb (u =? c)) s = true.
Proof.
  intros Hc. apply forallb_forall. intros u Hu%list_elem_of_In. apply negb_true_iff, Z.eqb_neq.
  intros ->. done.
Qed.
Lemma safe_ascii s : forallb safe s = true → forallb (λ c, (0 <=? c) && (c <? 128)) s = true.
Proof.
  rewrite !forallb_forall. intros H u Hu. specialize (H u Hu). apply safe_spec in H.
  rewrite andb_true_iff, Z.leb_le, Z.ltb_lt. lia.
Qed.

Definition pair_text (kv : jstr * jstr) : jstr := encode_component kv.1 ++ 61 :: encode_component kv.2.
Definition well_formed_pair (kv : jstr * jstr) : bool := well_formed kv.1 && well_formed kv.2.

Lemma pair_text_spec kv :
  well_formed_pair kv = true →
  read_pair (pair_text kv) = kv ∧ 38 ∉ pair_text kv ∧
  forallb (λ c, (0 <=? c) && (c <? 128)) (pair_text kv) = true.
Proof.
  destruct kv as [k v]. unfold well_formed_pair. cbn [fst snd]. intros [Hk Hv]%andb_true_iff.
  destruct (decode_encode_component k Hk) as [Hk1 Hk2], (decode_encode_component v Hv) as [Hv1 Hv2].
  unfold pair_text, read_pair. cbn [fst snd]. split_and!.
  - rewrite span_app by (try (apply not_in_forallb, safe_no); by eauto). change (drop 1 (61 :: encode_component v)) with (encode_component v).
    by rewrite Hk1, Hv1.
  - pose proof (safe_no 38 _ (or_introl eq_refl) Hk2). pose proof (safe_no 38 _ (or_introl eq_refl) Hv2).
    set_solver by lia.
  - rewrite forallb_app. cbn [forallb]. by rewrite !safe_ascii.
Qed.

Lemma ascii_join ws :
  Forall (λ w, forallb (λ c, (0 <=? c) && (c <? 128)) w = true) ws →
  forallb (λ c, (0 <=? c) && (c <? 128)) (join [38] ws) = true.
Proof.
  induction 1 as [|w ws Hw Hws IH]; [done|]. destruct ws as [|w' ws]; [done|].
  change (join [38] (w :: w' :: ws)) with (w ++ 38 :: join [38] (w' :: ws)).
  rewrite forallb_app. cbn [forallb]. by rewrite Hw.
Qed.

(** Parameters are read back from their text. *)
Lemma params_of_text p :
  forallb well_formed_pair p = true → params_of (63 :: params_text p) = p.
Proof.
  intros Hp. unfold params_of, params_text. fold pair_text.
  change (List.map _ p) with (List.map pair_text p).
  assert (Forall (λ kv, well_formed_pair kv = true) p) as Hwf
    by (apply list.Forall_forall; intros kv Hkv; by apply (proj1 (forallb_forall _ _) Hp), list_elem_of_In).
  rewrite utf8_encode_ascii.
  2: { apply ascii_join, Forall_map. eapply Forall_impl; [exact Hwf|]. intros kv Hkv. by apply pair_text_spec. }
  destruct p as [|kv p]; [done|].
  rewrite split_join; [|done|].
  2: { apply Forall_map. eapply Forall_impl; [exact Hwf|]. intros kv' Hkv. by apply pair_text_spec. }
  rewrite filter_all.
  2: { apply Forall_map. apply list.Forall_forall. intros kv' _. unfold pair_text. by destruct (encode_component kv'.1). }
  revert Hwf. generalize (kv :: p) as l. clear. induction 1 as [|kv l Hkv _ IH]; [done|].
  cbn [List.map fmap list_fmap]. f_equal; [by apply pair_text_spec | exact IH].
Qed.

Lemma params_text_nil p : params_text p = [] → p = [].
Proof.
  unfold params_text. destruct p as [|[k v] [|kv p]]; [done|..]; cbn [List.map join fst snd];
    by destruct (encode_component k).
Qed.

(** ** Properties *)

(** The address keeps the search and the filter: whatever well-formed text is
    searched for and whatever the filter, the query that [setUrlParams] writes is
    read back by [getUrlParams] as the same search and filter, defaults (which are
    not written) and reserved characters included. *)
Theorem url_params_roundtrip (s f : jstr) :
  well_formed s = true → well_formed f = true →
  getUrlParams (setUrlParams s f) = {| search := s; stateFilter := f |}.
Proof.
  intros Hs Hf. unfold setUrlParams.
  set (p := (if bool_decide (s = []) then _ else _) ++ _).
  assert (forallb well_formed_pair p = true) as Hp.
  { unfold p. rewrite forallb_app. unfold well_formed_pair.
    repeat case_bool_decide; cbn [forallb fst snd]; rewrite ?Hs, ?Hf; vm_compute; reflexivity. }
  assert (getUrlParams (if bool_decide (params_text p = []) then [] else 63 :: params_text p) =
    {| search := default [] (params_get (js "q") p);
       stateFilter := default (js "All") (params_get (js "state") p) |}) as ->.
  { case_bool_decide as Hnil; [by apply params_text_nil in Hnil as -> |].
    unfold getUrlParams. by rewrite params_of_text. }
  assert (bool_decide (js "state" = js "q") = false) as Hne by (vm_compute; reflexivity).
  apply bool_decide_eq_false in Hne.
  unfold p, params_get. f_equal; (case_bool_decide; [subst|]); (case_bool_decide; [subst|]);
    cbn [app assoc]; by rewrite ?decide_True, ?(decide_False (P := js "state" = _)),
      ?(decide_False (P := js "q" = _)) by done.
Qed.

Lemma url_params_roundtrip_witness :
  setUrlParams (js "raise=50% & more 🚀") (js "Active") =
    js "?q=raise%3D50%25+%26+more+%F0%9F%9A%80&state=Active" ∧
  getUrlParams (js "?q=raise%3D50%25+%26+more+%F0%9F%9A%80&state=Active") =
    {| search := js "raise=50% & more 🚀"; stateFilter := js "Active" |}.
Proof.
  assert (setUrlParams (js "raise=50% & more 🚀") (js "Active") =
    js "?q=raise%3D50%25+%26+more+%F0%9F%9A%80&state=Active") as H by (vm_compute; reflexivity).
  split; [exact H|]. rewrite <- H. apply url_params_roundtrip; vm_compute; reflexivity.
Defined.

End Url.
