(* ===== verification/JsonValue.v ===== *)
(** * JavaScript operators on values that come from JSON

    The scripts read answers without checking their shape, so they apply the
    language's operators to any value: member access ([prop] is [None] for
    undefined), truthiness, [String(v)], [Number(v)], [+] with its two meanings,
    comparison, [parseInt] and [BigInt]. Members named toString or valueOf are not
    given the meaning the language gives them; no source has one. *)
From Stdlib Require Import Ascii String ZArith Lia.
From stdpp Require Import prelude list strings.
From S2P Require Import Prelude JsString JsNumber Json.
Local Open Scope Z_scope.

Module JsonValue.
Import Json.

(** [v?.k]: undefined for undefined, null and values without the member. *)
Definition prop (k : jstr) (v : json) : option json := match v with JObj l => assoc k l | _ => None end.
Definition opt_prop (k : jstr) (v : option json) : option json := v ≫= prop k.
Definition nullish_value (v : option json) : bool := match v with None | Some JNull => true | _ => false end.
(** [a ?? b] *)
Definition coalesce (a b : option json) : option json := if nullish_value a then b else a.

Definition truthy_value (v : option json) : bool :=
  match v with
  | None | Some JNull => false
  | Some (JBool b) => b
  | Some (JNum x) => negb (isNaN x) && bool_decide (x ≠ Fin 0 0)
  | Some (JStr s) => bool_decide (s ≠ [])
  | Some (JArr _) | Some (JObj _) => true
  end.

(** [v === s] for a text. *)
Definition is_text (s : jstr) (v : json) : bool := match v with JStr t => bool_decide (t = s) | _ => false end.

(** [String(v)] *)
Fixpoint text (v : json) : jstr :=
  match v with
  | JNull => js "null"
  | JBool b => if b then js "true" else js "false"
  | JNum x => string_of_num x
  | JStr s => s
  | JArr l => join [44] (List.map (λ w, match w with JNull => [] | _ => text w end) l)
  | JObj _ => js "[object Object]"
  end.
Definition opt_text (v : option json) : jstr := match v with Some w => text w | None => js "undefined" end.

(** [Number(v)] *)
Definition to_number (v : json) : jsnum :=
  match v with
  | JNull => Fin 0 0
  | JBool b => num_of_Z (if b then 1 else 0)
  | JNum x => x
  | JStr s => js_Number s
  | JArr _ | JObj _ => js_Number (text v)
  end.

(** [BigInt(v)]: [None] where it throws. *)
Definition to_bigint (v : json) : option Z :=
  match v with
  | JNull => None
  | JBool b => Some (if b then 1 else 0)
  | JNum x => BigInt x
  | JStr s => BigInt_of_string s
  | JArr _ | JObj _ => BigInt_of_string (text v)
  end.

(** ** Arithmetic of doubles *)
Definition round_signed (m k : Z) : jsnum :=
  let x := round_ratio (Z.abs m * 2 ^ Z.max 0 k) (2 ^ Z.max 0 (- k)) in
  if m <? 0 then neg_num x else x.
Definition num_add (x y : jsnum) : jsnum :=
  match x, y with
  | NaN, _ | _, NaN => NaN
  | Inf a, Inf b => if Bool.eqb a b then Inf a else NaN
  | Inf a, _ | _, Inf a => Inf a
  | Fin m e, Fin m' e' => let k := Z.min e e' in round_signed (m * 2 ^ (e - k) + m' * 2 ^ (e' - k)) k
  end.
Definition num_sub (x y : jsnum) : jsnum := num_add x (neg_num y).
(** [Math.max(a, b)] *)
Definition math_max (a b : jsnum) : jsnum :=
  if isNaN a || isNaN b then NaN else if num_lt a b then b else a.

(** [a + b]: a sum of numbers, or a concatenation when an operand is a text, an
    array or an object. *)
Definition is_number_like (v : json) : bool :=
  match v with JNull | JBool _ | JNum _ => true | _ => false end.
Definition js_add (a b : json) : json :=
  if is_number_like a && is_number_like b then JNum (num_add (to_number a) (to_number b))
  else JStr (text a ++ text b).

(** [parseInt(s, 10)]: the leading digits; [NaN] when there are none. *)
Definition parseInt (s : jstr) : jsnum :=
  let digits r := match (span is_digit r).1 with [] => NaN | ds => round_ratio (dec_value ds) 1 end in
  match trimStart s with
  | u :: r => if u =? 45 then neg_num (digits r) else if u =? 43 then digits r else digits (u :: r)
  | [] => NaN
  end.

Example parseInt_ex : parseInt (js " 42px") = num_of_Z 42 ∧ parseInt (js "px") = NaN ∧ parseInt (js "-7.5") = num_of_Z (-7).
Proof. vm_compute. done. Qed.
Example js_add_ex :
  js_add (JNum (num_of_Z 2)) JNull = JNum (num_of_Z 2) ∧
  js_add (JStr (js "2")) (JNum (num_of_Z 3)) = JStr (js "23") ∧
  js_add (JArr [JNull; JNum (num_of_Z 1)]) (JObj []) = JStr (js ",1[object Object]").
Proof. vm_compute. done. Qed.

(** ** Lemmas *)
Lemma neg_canon m e : canon (- m) e = neg_num (canon m e).
Proof.
  destruct (Z.eq_dec m 0) as [->|Hm]; [done|].
  destruct (canon_spec m e Hm) as (m1 & e1 & -> & Ho1 & Hle1 & Hv1).
  destruct (canon_spec (- m) e ltac:(lia)) as (m2 & e2 & -> & Ho2 & Hle2 & Hv2).
  destruct (odd_pow_unique (- m1) e1 m2 e2 e) as [<- <-]; try done.
  - by rewrite Z.odd_opp.
  - rewrite Z.mul_opp_l, <- Hv1, <- Hv2. done.
Qed.
Lemma neg_num_of_Z n : neg_num (num_of_Z n) = num_of_Z (- n).
Proof. unfold num_of_Z. by rewrite neg_canon. Qed.

(** Sums of integers that are exactly representable are exact. *)
Lemma num_add_exact a b : Z.abs (a + b) <= 2 ^ 53 → num_add (num_of_Z a) (num_of_Z b) = num_of_Z (a + b).
Proof.
  intros Hab. destruct (num_of_Z_spec a) as (m & e & -> & He & Ha).
  destruct (num_of_Z_spec b) as (m' & e' & -> & He' & Hb). unfold num_add, round_signed.
  set (k := Z.min e e'). set (s := m * 2 ^ (e - k) + m' * 2 ^ (e' - k)).
  assert (s * 2 ^ k = a + b) as Hs.
  { unfold s. rewrite Z.mul_add_distr_r, <- !Z.mul_assoc, <- !Z.pow_add_r by (unfold k; lia).
    rewrite Ha, Hb. do 2 f_equal; f_equal; lia. }
  assert (0 <= k) as Hk by (unfold k; lia). rewrite Z.max_r, (Z.max_l 0 (- k)) by lia.
  pose proof (Z.pow_pos_nonneg 2 k ltac:(lia) Hk) as Hp.
  replace (Z.abs s * 2 ^ k) with (Z.abs (a + b)) by (rewrite <- Hs, Z.abs_mul; f_equal; lia).
  rewrite round_ratio_exact by lia. destruct (Z.ltb_spec s 0).
  - rewrite neg_num_of_Z. f_equal. nia.
  - f_equal. nia.
Qed.
Lemma num_sub_exact a b : Z.abs (a - b) <= 2 ^ 53 → num_sub (num_of_Z a) (num_of_Z b) = num_of_Z (a - b).
Proof. intros H. unfold num_sub. rewrite neg_num_of_Z, num_add_exact by lia. f_equal. Qed.
Lemma math_max_of_Z a b : math_max (num_of_Z a) (num_of_Z b) = num_of_Z (Z.max a b).
Proof.
  unfold math_max. rewrite !isNaN_num_of_Z, num_lt_of_Z. cbn [orb].
  destruct (Z.ltb_spec a b); f_equal; lia.
Qed.
Lemma num_le_of_Z a b : num_le (num_of_Z a) (num_of_Z b) = (a <=? b).
Proof. unfold num_le. rewrite !isNaN_num_of_Z, num_lt_of_Z. cbn. by rewrite Z.leb_antisym. Qed.

Lemma truthy_number n : truthy_value (Some (JNum (num_of_Z n))) = bool_decide (n ≠ 0).
Proof.
  cbn [truthy_value]. rewrite isNaN_num_of_Z. cbn [negb andb]. apply bool_decide_ext.
  split; intros H Heq; apply H; [by subst|]. by apply (num_of_Z_inj n 0).
Qed.
End JsonValue.
