(* ===== verification/Inspect.v ===== *)
(** * The state inspection tool (scripts/inspect-state.js)

    One run of the process: the arguments and the environment give the
    configuration, the views of the governance contract are called through the
    Stellar command line ([cli], an argument: the standard output of a command or
    the error it leaves), and the answers, JSON of any shape, are printed. *)
From Stdlib Require Import Ascii String ZArith Lia.
From stdpp Require Import prelude list strings.
From S2P Require Import Prelude JsString JsNumber Json JsonValue.
Local Open Scope Z_scope.

Module Inspect.
Import Json JsonValue.

(** ** Arguments *)
Inductive FlagValue := FTrue | FText (s : jstr).
Global Instance FlagValue_eq_dec : EqDecision FlagValue.
Proof. solve_decision. Defined.
Definition flag_text (v : FlagValue) : jstr := match v with FTrue => js "true" | FText s => s end.
Definition is_flag (a : jstr) : bool := startsWith a (js "--").

(** Later flags come first, so that [assoc] finds the last one given. *)
Fixpoint parseFlags_from (result : list (jstr * FlagValue)) (argv : list jstr) : list (jstr * FlagValue) :=
  match argv with
  | [] => result
  | a :: rest =>
      if is_flag a then
        match rest with
        | v :: rest' =>
            if bool_decide (v ≠ []) && negb (is_flag v)
            then parseFlags_from ((a, FText v) :: result) rest'
            else parseFlags_from ((a, FTrue) :: result) rest
        | [] => (a, FTrue) :: result
        end
      else parseFlags_from result rest
  end.
Definition parseFlags (argv : list jstr) : list (jstr * FlagValue) := parseFlags_from [] argv.

(** ** Configuration *)
Definition NETWORK_RPC : list (jstr * jstr) :=
  [(js "testnet", js "https://soroban-testnet.stellar.org");
   (js "mainnet", js "https://mainnet.stellar.validationcloud.io/v1/stellar")].
Record Settings := {
  RPC_URL : jstr;
  CONTRACT_ID : jstr;
  JSON_OUTPUT : bool;
  LIMIT : jsnum;
  CMD : jstr;
  CMD_ARG : option jstr }.

Definition plain_args (args : list jstr) : list jstr := List.filter (λ a, negb (is_flag a)) args.
(** As the templates print it: a flag without a value is "true", an unknown
    network "undefined". *)
Definition settings (env : jstr → option jstr) (args : list jstr) : Settings :=
  let flags := parseFlags args in
  let flag k := flag_text <$> assoc (js k) flags in
  {| RPC_URL := default (default (js "undefined") (assoc (default (js "testnet") (flag "--network"%string)) NETWORK_RPC))
                  (nullish (flag "--rpc-url"%string) (env (js "STELLAR_RPC_URL")));
     CONTRACT_ID := default [] (nullish (flag "--contract-id"%string) (env (js "GOVERNANCE_CONTRACT_ID")));
     JSON_OUTPUT := match flag "--json"%string with Some _ => true | None => false end;
     LIMIT := parseInt (default (js "10") (flag "--limit"%string));
     CMD := default (js "all") (plain_args args !! 0%nat);
     CMD_ARG := plain_args args !! 1%nat |}.

(** ** Calls of the contract *)
Inductive CliResult := Output (out : jstr) | Failed (stderr : jstr).

Inductive Line :=
| Text (s : jstr)
| Inspected (header : jstr) (members : list (jstr * option json)).   (* an object given to console.log *)

Section tool.
  Variable cli : jstr → CliResult.
  Variable cfg : Settings.
  (** What the engine says when [slice] is not a method of the value. *)
  Variable not_a_function : jstr.

(** A double quote around [s]. *)
Definition quoted (s : jstr) : jstr := 34 :: s ++ [34].
Definition command (fn : jstr) (fnArgs : list jstr) : jstr :=
  join [32]
    [js "stellar contract invoke"; js "--rpc-url " ++ quoted (RPC_URL cfg); js "--id " ++ quoted (CONTRACT_ID cfg);
     js "--network-passphrase " ++ quoted (js "Test SDF Network ; September 2015"); js "-- " ++ fn;
     join [32] (List.map (λ a, js "--arg '" ++ a ++ [39]) fnArgs)].
Definition call_failed (fn stderr : jstr) : jstr :=
  js "RPC call failed for " ++ quoted fn ++ js ": " ++ stderr.
Definition invokeView (fn : jstr) (fnArgs : list jstr) : res jstr json :=
  match cli (command fn fnArgs) with
  | Output out => ok_or (Json.parse (trim out)) (call_failed fn [])
  | Failed stderr =>
      if includes stderr (js "not found") || includes stderr (js "missing") then Ok JNull
      else Err (call_failed fn stderr)
  end.

Definition fetchConfig : res jstr json :=
  admin ← invokeView (js "admin") [];
  votingToken ← invokeView (js "voting_token") [];
  paused ← invokeView (js "is_paused") [];
  proposalCount ← invokeView (js "proposal_count") [];
  activeProposalCount ← invokeView (js "active_proposal_count") [];
  minProposalBalance ← invokeView (js "min_proposal_balance") [];
  proposalCooldown ← invokeView (js "proposal_cooldown") [];
  restrictAdminVote ← invokeView (js "restrict_admin_vote") [];
  Ok (JObj
    [(js "admin", admin); (js "votingToken", votingToken); (js "paused", paused);
     (js "proposalCount", proposalCount); (js "activeProposalCount", activeProposalCount);
     (js "minProposalBalance", minProposalBalance); (js "proposalCooldown", proposalCooldown);
     (js "restrictAdminVote", restrictAdminVote)]).

Definition fetchProposal (id : jsnum) : res jstr json := invokeView (js "get_proposal") [string_of_num id].

(** The loop from [id] to [count]; [None] when the fuel does not do. *)
Definition one : jsnum := num_of_Z 1.
Fixpoint fetch_from (fuel : nat) (id count : jsnum) : option (res jstr (list json)) :=
  if num_le id count then
    match fuel with
    | O => None
    | S f =>
        match fetchProposal id with
        | Err e => Some (Err e)
        | Ok p =>
            rest ← fetch_from f (num_add id one) count;
            Some (ps ← rest; Ok (if truthy_value (Some p) then p :: ps else ps))
        end
    end
  else Some (Ok []).
Definition fetchProposals (fuel : nat) (limit : jsnum) : option (res jstr (list json)) :=
  match invokeView (js "proposal_count") [] with
  | Err e => Some (Err e)
  | Ok v =>
      let count := to_number (match v with JNull => JNum (num_of_Z 0) | _ => v end) in
      let start := math_max one (num_add (num_sub count limit) one) in
      fetch_from fuel start count
  end.

(** ** Printing *)
Definition or_na (v : option json) : jstr := opt_text (coalesce v (Some (JStr (js "n/a")))).
Definition printConfig (c : json) : list jstr :=
  [10 :: js "=== Admin Settings ===";
   js "  Admin address       : " ++ or_na (prop (js "admin") c);
   js "  Voting token        : " ++ or_na (prop (js "votingToken") c);
   js "  Paused              : " ++ opt_text (prop (js "paused") c);
   js "  Proposal count      : " ++ opt_text (prop (js "proposalCount") c);
   js "  Active proposals    : " ++ opt_text (prop (js "activeProposalCount") c);
   js "  Min proposal balance: " ++ opt_text (prop (js "minProposalBalance") c);
   js "  Proposal cooldown   : " ++ opt_text (prop (js "proposalCooldown") c) ++ js "s";
   js "  Restrict admin vote : " ++ opt_text (prop (js "restrictAdminVote") c)].

Definition stateLabel (state : option json) : jstr :=
  if truthy_value state then
    match state with
    | Some (JStr s) => s
    | Some (JObj ((k, _) :: _)) => k
    | Some (JArr (_ :: _)) => js "0"
    | Some v => Json.stringify 0 v
    | None => js "Unknown"
    end
  else js "Unknown".

(** [x ?? 0] *)
Definition or_zero (v : option json) : json := default (JNum (num_of_Z 0)) (coalesce v None).
Definition total_votes (p : json) : json :=
  js_add (js_add (or_zero (prop (js "votes_yes") p)) (or_zero (prop (js "votes_no") p)))
    (or_zero (prop (js "votes_abstain") p)).
(** [description.slice(0, 120)] with an ellipsis when something was cut. *)
Definition ellipsis (n : nat) : jstr := if bool_decide (120 < n)%nat then js "…" else [].
Definition description_line (d : json) : res jstr jstr :=
  match d with
  | JStr s => Ok (js "    Description : " ++ take 120 s ++ ellipsis (length s))
  | JArr l => Ok (js "    Description : " ++ text (JArr (take 120 l)) ++ ellipsis (length l))
  | _ => Err not_a_function
  end.
Definition printProposal (p : json) : list jstr * res jstr () :=
  if truthy_value (Some p) then
    let head :=
      [10 :: js "  Proposal #" ++ opt_text (prop (js "id") p);
       js "    Title       : " ++ opt_text (prop (js "title") p);
       js "    State       : " ++ stateLabel (prop (js "state") p);
       js "    Proposer    : " ++ opt_text (prop (js "proposer") p);
       js "    Quorum      : " ++ opt_text (prop (js "quorum") p);
       js "    Votes Yes   : " ++ opt_text (prop (js "votes_yes") p) ++ js "  No: " ++ opt_text (prop (js "votes_no") p)
         ++ js "  Abstain: " ++ opt_text (prop (js "votes_abstain") p) ++ js "  Total: " ++ text (total_votes p);
       js "    Voters      : " ++ opt_text (prop (js "voter_count") p);
       js "    Start/End   : " ++ opt_text (prop (js "start_time") p) ++ js " / " ++ opt_text (prop (js "end_time") p)] in
    match prop (js "description") p with
    | Some d =>
        if truthy_value (Some d) then
          match description_line d with
          | Ok l => (head ++ [l], Ok ())
          | Err e => (head, Err e)
          end
        else (head, Ok ())
    | None => (head, Ok ())
    end
  else ([js "  (not found)"], Ok ()).
Fixpoint print_each (l : list json) : list jstr * res jstr () :=
  match l with
  | [] => ([], Ok ())
  | p :: rest =>
      match printProposal p with
      | (out, Ok _) => let '(out', r) := print_each rest in (out ++ out', r)
      | (out, Err e) => (out, Err e)
      end
  end.
Definition printProposals (l : list json) : list jstr * res jstr () :=
  match l with
  | [] => ([js "  No proposals found."], Ok ())
  | _ => let '(out, r) := print_each l in
         ((10 :: js "=== Proposals (" ++ dec_of (Z.of_nat (length l)) ++ js ") ===") :: out, r)
  end.

(** ** main: the lines, and the message of an exit with status 1 *)
Definition Run : Type := list Line * option jstr.
Definition die (msg : jstr) : Run := ([], Some (js "Error: " ++ msg)).
Definition said (r : list jstr * res jstr ()) : Run :=
  (Text <$> r.1, match r.2 with Ok _ => None | Err e => Some e end).
Definition say (l : list jstr) : Run := (Text <$> l, None).
(** [await] of a fetch whose error reaches the handler of main. *)
Definition with_result {A} (r : res jstr A) (k : A → Run) : Run :=
  match r with Ok a => k a | Err e => ([], Some e) end.
Definition json_line (v : json) : Run := say [Json.stringify 2 v].

Definition show_config : Run :=
  with_result fetchConfig (λ c, if JSON_OUTPUT cfg then json_line c else say (printConfig c)).
Definition show_proposals (list : res jstr (list json)) : Run :=
  with_result list (λ l, if JSON_OUTPUT cfg then json_line (JArr l) else said (printProposals l)).
Definition show_proposal (arg : jstr) : Run :=
  with_result (fetchProposal (parseInt arg)) (λ p, if JSON_OUTPUT cfg then json_line p else said (printProposal p)).
Definition votes_of (p : json) : list (jstr * option json) :=
  [(js "yes", prop (js "votes_yes") p); (js "no", prop (js "votes_no") p);
   (js "abstain", prop (js "votes_abstain") p); (js "voters", prop (js "voter_count") p)].
Definition show_votes (arg : jstr) : Run :=
  with_result (fetchProposal (parseInt arg)) (λ p,
    if truthy_value (Some p) then
      if JSON_OUTPUT cfg then json_line (JObj (omap (λ kv, pair kv.1 <$> kv.2) (votes_of p)))
      else ([Inspected (10 :: js "Votes for #" ++ arg ++ js ":") (votes_of p)], None)
    else say [js "Proposal not found."]).
Definition show_all (list : res jstr (list json)) : Run :=
  with_result fetchConfig (λ c, with_result list (λ l,
    if JSON_OUTPUT cfg then json_line (JObj [(js "config", c); (js "proposals", JArr l)])
    else said (let '(out, r) := printProposals l in (printConfig c ++ out, r)))).

(** [None]: the loop of [fetchProposals] needs more than [fuel] turns. *)
Definition main (fuel : nat) : option Run :=
  if bool_decide (CONTRACT_ID cfg = []) then
    Some (die (js "GOVERNANCE_CONTRACT_ID is not set. Pass --contract-id or set the env var."))
  else if bool_decide (CMD cfg = js "config") then Some show_config
  else if bool_decide (CMD cfg = js "proposals") then show_proposals <$> fetchProposals fuel (LIMIT cfg)
  else if bool_decide (CMD cfg = js "proposal") then
    Some (match CMD_ARG cfg with Some ((_ :: _) as a) => show_proposal a | _ => die (js "Usage: proposal <id>") end)
  else if bool_decide (CMD cfg = js "votes") then
    Some (match CMD_ARG cfg with Some ((_ :: _) as a) => show_votes a | _ => die (js "Usage: votes <proposal-id>") end)
  else if bool_decide (CMD cfg = js "all") then
    match fetchConfig with
    | Err e => Some ([], Some e)
    | Ok _ => show_all <$> fetchProposals fuel (LIMIT cfg)
    end
  else Some (die (js "Unknown command: " ++ CMD cfg ++ js ". Use: config | proposals | proposal | votes | all")).
End tool.
Example flags_ex :
  parseFlags [js "proposals"; js "--limit"; js "5"; js "--json"; js "--limit"] =
    [(js "--limit", FTrue); (js "--json", FTrue); (js "--limit", FText (js "5"))].
Proof. vm_compute. reflexivity. Qed.

(** ** Lemmas *)
Section lemmas.
  Variable cli : jstr → CliResult.
  Variable cfg : Settings.

Definition kept (l : list json) : list json := List.filter (λ p, truthy_value (Some p)) l.

(** The loop over [len] identifiers from [a] that all have an answer. *)
Lemma fetch_from_exact (view : Z → json) (len : nat) (a : Z) fuel :
  Z.abs a <= 2 ^ 53 → Z.abs (a + Z.of_nat len) <= 2 ^ 53 → (len ≤ fuel)%nat →
  (∀ i, a <= i < a + Z.of_nat len → fetchProposal cli cfg (num_of_Z i) = Ok (view i)) →
  fetch_from cli cfg fuel (num_of_Z a) (num_of_Z (a + Z.of_nat len - 1)) =
    Some (Ok (kept (view <$> seqZ a (Z.of_nat len)))).
Proof.
  revert a fuel. induction len as [|len IH]; intros a fuel Ha Hb Hf Hv.
  - rewrite seqZ_nil by lia. destruct fuel; cbn [fetch_from];
      (rewrite num_le_of_Z; destruct (Z.leb_spec a (a + Z.of_nat 0 - 1)); [lia|done]).
  - destruct fuel as [|fuel]; [lia|]. cbn [fetch_from]. rewrite num_le_of_Z.
    destruct (Z.leb_spec a (a + Z.of_nat (S len) - 1)); [|lia]. rewrite Hv by lia.
    unfold one. rewrite num_add_exact by lia.
    replace (a + Z.of_nat (S len) - 1) with (a + 1 + Z.of_nat len - 1) by lia.
    rewrite IH by (lia || (intros; apply Hv; lia)). cbn [mbind option_bind res_bind].
    rewrite (seqZ_cons a (Z.of_nat (S len))) by lia. replace (Z.pred (Z.of_nat (S len))) with (Z.of_nat len) by lia.
    rewrite fmap_cons. unfold kept. cbn [List.filter]. replace (Z.succ a) with (a + 1) by lia.
    by destruct (truthy_value (Some (view a))).
Qed.

(** The first identifier without an answer ends the loop. *)
Lemma fetch_from_error (view : Z → json) (len : nat) (a : Z) fuel n e :
  Z.abs a <= 2 ^ 53 → Z.abs (a + Z.of_nat len) <= 2 ^ 53 → (len < fuel)%nat →
  (∀ i, a <= i < a + Z.of_nat len → fetchProposal cli cfg (num_of_Z i) = Ok (view i)) →
  a + Z.of_nat len <= n → fetchProposal cli cfg (num_of_Z (a + Z.of_nat len)) = Err e →
  fetch_from cli cfg fuel (num_of_Z a) (num_of_Z n) = Some (Err e).
Proof.
  revert a fuel. induction len as [|len IH]; intros a fuel Ha Hb Hf Hv Hn He.
  - destruct fuel as [|fuel]; [lia|]. cbn [fetch_from]. rewrite num_le_of_Z.
    replace (a + Z.of_nat 0) with a in He by lia. destruct (Z.leb_spec a n); [|lia]. by rewrite He.
  - destruct fuel as [|fuel]; [lia|]. cbn [fetch_from]. rewrite num_le_of_Z.
    destruct (Z.leb_spec a n); [|lia]. rewrite Hv by lia. unfold one. rewrite num_add_exact by lia.
    rewrite IH; try lia; [done|intros; apply Hv; lia|].
    by replace (a + 1 + Z.of_nat len) with (a + Z.of_nat (S len)) by lia.
Qed.

(** Where the loop starts. *)
Lemma start_exact n k :
  0 <= n <= 2 ^ 53 → 1 <= k <= 2 ^ 53 →
  math_max one (num_add (num_sub (num_of_Z n) (num_of_Z k)) one) = num_of_Z (Z.max 1 (n - k + 1)).
Proof.
  intros Hn Hk. unfold one. rewrite num_sub_exact, num_add_exact by lia. apply math_max_of_Z.
Qed.
End lemmas.

Lemma kept_objects {A} (f : A → list (jstr * json)) (l : list A) :
  kept ((λ a, JObj (f a)) <$> l) = (λ a, JObj (f a)) <$> l.
Proof.
  induction l as [|a l IH]; [done|]. rewrite fmap_cons.
  change (kept (JObj (f a) :: ?x)) with (JObj (f a) :: kept x). f_equal. exact IH.
Qed.

(** Identifiers that are all read as missing. *)
Lemma fetch_from_missing cli cfg (len : nat) (a : Z) fuel :
  Z.abs a <= 2 ^ 53 → Z.abs (a + Z.of_nat len) <= 2 ^ 53 → (len ≤ fuel)%nat →
  (∀ id, fetchProposal cli cfg id = Ok JNull) →
  fetch_from cli cfg fuel (num_of_Z a) (num_of_Z (a + Z.of_nat len - 1)) = Some (Ok []).
Proof.
  intros Ha Hb Hf Hid. rewrite (fetch_from_exact cli cfg (λ _, JNull)) by done.
  do 2 f_equal. generalize (seqZ a (Z.of_nat len)). intros l. induction l as [|i l IH]; [done|]. exact IH.
Qed.

(** ** Properties *)

(** The total of the votes depends on how the answer writes them: given as JSON
    numbers, exact sums below 2^53, the line shows their sum; given as texts, as the
    command line writes 128-bit integers, it shows their digits one after the
    other. *)
Theorem total_adds_or_concatenates (p : list (jstr * json)) (y n a : Z) :
  (0 <= y → 0 <= n → 0 <= a → y + n + a <= 2 ^ 53 →
   assoc (js "votes_yes") p = Some (JNum (num_of_Z y)) → assoc (js "votes_no") p = Some (JNum (num_of_Z n)) →
   assoc (js "votes_abstain") p = Some (JNum (num_of_Z a)) →
   total_votes (JObj p) = JNum (num_of_Z (y + n + a))) ∧
  (assoc (js "votes_yes") p = Some (JStr (dec_of y)) → assoc (js "votes_no") p = Some (JStr (dec_of n)) →
   assoc (js "votes_abstain") p = Some (JStr (dec_of a)) →
   total_votes (JObj p) = JStr (dec_of y ++ dec_of n ++ dec_of a)).
Proof.
  split; [intros Hy Hn Ha Hs H1 H2 H3|intros H1 H2 H3]; unfold total_votes; cbn [prop];
    rewrite H1, H2, H3; unfold or_zero, js_add; cbn [coalesce nullish_value default from_option].
  - cbn [is_number_like andb to_number id]. by rewrite !num_add_exact by lia.
  - cbn [is_number_like andb text id]. by rewrite <- app_assoc.
Qed.

Lemma total_adds_or_concatenates_witness :
  let votes f := [(js "votes_yes", f 600); (js "votes_no", f 300); (js "votes_abstain", f 100)] in
  total_votes (JObj (votes (λ n, JNum (num_of_Z n)))) = JNum (num_of_Z 1000) ∧
  total_votes (JObj (votes (λ n, JStr (dec_of n)))) = JStr (js "600300100").
Proof.
  intros votes. split.
  - apply (total_adds_or_concatenates (votes (λ n, JNum (num_of_Z n))) 600 300 100); try lia; reflexivity.
  - exact (proj2 (total_adds_or_concatenates (votes (λ n, JStr (dec_of n))) 600 300 100)
             ltac:(vm_compute; reflexivity) ltac:(vm_compute; reflexivity) ltac:(vm_compute; reflexivity)).
Defined.

(** What a stderr says that the tool takes for "no such proposal". *)
Definition says_missing (stderr : jstr) : bool :=
  includes stderr (js "not found") || includes stderr (js "missing").

(** A command line that names the arguments of a contract function by its parameters,
    as the Stellar CLI documents (the guides of this repository write [--proposal_id]),
    and so refuses an option [--arg], whatever number it gives; it answers the count,
    which has no argument. *)
Record NamedArguments (cli : jstr → CliResult) (cfg : Settings) (stderr : jstr) (n : Z) : Prop := {
  refuses_arg x : cli (command cfg (js "get_proposal") [string_of_num x]) = Failed stderr;
  answers_count : ∃ out, cli (command cfg (js "proposal_count") []) = Output out ∧
    Json.parse (trim out) = Some (JNum (num_of_Z n)) }.

(** C33. The inspection tool shows no proposal. It hands the identifier to the Stellar
    command line as [--arg 'N'], where the command line names arguments by parameter and
    refuses other options. So with any number of proposals in the contract and any
    positive limit of the list (below 2^53 both): if the refusal says "not found" or "missing" somewhere, every proposal is read as absent,
    the list is empty, [proposal] prints "(not found)", or null as JSON, and [votes]
    "Proposal not found."; otherwise all of them end with the refusal as an error, except that the
    list of a contract without proposals is empty. The loop over the identifiers ends
    within count + 1 turns either way. *)
Theorem inspect_shows_no_proposal (cli : jstr → CliResult) (cfg : Settings) (nf stderr : jstr) (n k : Z)
    (fuel : nat) :
  NamedArguments cli cfg stderr n → 0 <= n < 2 ^ 53 → 1 <= k <= 2 ^ 53 → n < Z.of_nat fuel →
  let refusal := call_failed (js "get_proposal") stderr in
  fetchProposals cli cfg fuel (num_of_Z k) =
    Some (if says_missing stderr || (n =? 0) then Ok [] else Err refusal) ∧
  (∀ arg, show_proposal cli cfg nf arg =
     if says_missing stderr
     then if JSON_OUTPUT cfg then json_line JNull else say [js "  (not found)"]
     else ([], Some refusal)) ∧
  (∀ arg, show_votes cli cfg arg =
     if says_missing stderr then say [js "Proposal not found."] else ([], Some refusal)).
Proof.
  intros [Harg (out & Hout & Hn)] Hc Hk Hf refusal.
  assert (∀ id, fetchProposal cli cfg id = if says_missing stderr then Ok JNull else Err refusal) as Hid
    by (intros id; unfold fetchProposal, invokeView; by rewrite Harg).
  split_and!.
  - unfold fetchProposals. unfold invokeView at 1. rewrite Hout, Hn. cbn [ok_or to_number].
    rewrite start_exact by lia. set (start := Z.max 1 (n - k + 1)).
    destruct (Z.eqb_spec n 0) as [->|Hne].
    { rewrite orb_true_r. assert (start = 1) as -> by (unfold start; lia).
      destruct fuel; cbn [fetch_from]; by rewrite num_le_of_Z. }
    assert (1 <= start <= n) as Hst by (unfold start; lia). rewrite orb_false_r.
    destruct (says_missing stderr).
    + replace n with (start + Z.of_nat (Z.to_nat (n - start + 1)) - 1) by lia.
      apply fetch_from_missing; [lia..|done].
    + destruct fuel as [|fuel]; [lia|]. cbn [fetch_from]. rewrite num_le_of_Z, Hid.
      by destruct (Z.leb_spec start n); [|lia].
  - intros arg. unfold show_proposal. rewrite Hid. destruct (says_missing stderr); [|done].
    cbn [with_result]. by destruct (JSON_OUTPUT cfg).
  - intros arg. unfold show_votes. rewrite Hid. by destruct (says_missing stderr).
Qed.

Definition sample_settings : Settings := settings (λ _, None) [js "proposals"; js "--contract-id"; js "CG"].
Definition sample_refusal : jstr := js "error: unexpected argument '--arg' found".
(** A command with arguments is seen by the quote it ends with. *)
Definition named_cli (c : jstr) : CliResult :=
  if bool_decide (last c = Some 39) then Failed sample_refusal else Output (js "3").

Lemma last_join sep (l : list jstr) (x : jstr) u : last x = Some u → last (join sep (l ++ [x])) = Some u.
Proof.
  intros Hx. induction l as [|y l IH]; [done|]. cbn [app join].
  destruct (l ++ [x]) as [|z l'] eqn:Hl; [by destruct l|].
  apply last_Some in IH as [p Hp]. rewrite Hp, !app_assoc. by rewrite last_snoc.
Qed.
Lemma command_quoted cfg fn a rest : last (command cfg fn (a :: rest)) = Some 39.
Proof.
  unfold command. apply (last_join [32] [_; _; _; _; _]).
  destruct (exists_last (l := a :: rest)) as (l & x & ->); [done|]. rewrite map_app.
  apply last_join. by rewrite !app_assoc, last_snoc.
Qed.
Lemma named_cli_names : NamedArguments named_cli sample_settings sample_refusal 3.
Proof.
  split.
  - intros x. unfold named_cli. by rewrite command_quoted, bool_decide_true.
  - exists (js "3"). split; vm_compute; reflexivity.
Qed.

Lemma inspect_shows_no_proposal_witness :
  fetchProposals named_cli sample_settings 4 (num_of_Z 10) =
    Some (Err (call_failed (js "get_proposal") sample_refusal)).
Proof.
  destruct (inspect_shows_no_proposal named_cli sample_settings [] sample_refusal 3 10 4 named_cli_names)
    as (H & _); [lia..|]. rewrite H. vm_compute. reflexivity.
Defined.

(** The first plain argument is the command even when it is the value of an option:
    after [--limit 5] the command "proposals" is not seen. *)
Theorem option_value_taken_for_command (env : jstr → option jstr) (opt v : jstr) (rest : list jstr) :
  is_flag opt = true → is_flag v = false →
  CMD (settings env (opt :: v :: rest)) = v.
Proof.
  intros Ho Hv. unfold settings, plain_args. cbn [CMD List.filter]. by rewrite Ho, Hv.
Qed.

End Inspect.
