(* ===== verification/Backend.v ===== *)
(** * The backend notification service
    (backend/src/notificationService.ts, errorTracking.ts and index.ts)

    One instance polls the RPC node, posts every event to the webhook and reports
    failures to the error tracker. [pollEvents], [deliverWebhook] and [runOnce]
    are functions of the answers of the HTTP client; [start], [stop] and the tick
    callbacks are actions on the service and its timers, in any order. *)
From Stdlib Require Import Ascii String ZArith Lia.
From stdpp Require Import prelude list gmap strings.
From S2P Require Import Prelude JsString JsNumber Timers.
Local Open Scope Z_scope.

Module Backend.
Import Timers.

(** ** errorTracking.ts *)
(** A thrown value: an [Error] with its message, or anything else, of which only
    [String(value)] is used. *)
Inductive Thrown := ErrorObject (message : jstr) | OtherValue (text : jstr).

Inductive Context_ :=
| EventPolling (contractId : jstr) (consecutiveFailures : Z) (alertThresholdReached : bool)
| WebhookDelivery (webhookUrl : jstr) (event : jstr).

(** What one call of [captureError] emits: the exception Sentry received, if it
    was initialised, and the line logged locally. *)
Record Report := {
  sentry : option (jstr * option Context_);
  logged : jstr * option Context_ }.

Definition initErrorTracking (SENTRY_DSN : option jstr) : bool := truthy SENTRY_DSN.

Definition captureError (enabled : bool) (error : Thrown) (context : option Context_) : Report :=
  let message := match error with ErrorObject m => m | OtherValue t => t end in
  {| sentry := if enabled then Some (message, context) else None;
     logged := (message, context) |}.

(** ** notificationService.ts *)
Definition MAX_POLL_FAILURES : Z := 3.

Record WebhookPayload := { contractId : jstr; event : jstr; ledger : jsnum; data : jstr }.

Record NotificationServiceConfig := {
  rpcUrl : jstr;
  cfg_contractId : jstr;
  webhookUrl : jstr;
  pollIntervalMs : option jsnum }.

Record NotificationService := { consecutiveFailures : Z; running : bool; loop : Loop }.

Definition new_service : NotificationService :=
  {| consecutiveFailures := 0; running := false; loop := idle |}.

(** The RPC answer: a rejected request; a body with a list of [events] or none; a
    response with no body at all, whose [data.events] throws a TypeError; a body whose
    [events] is something that cannot be iterated, with the TypeError of the loop. (A
    text, which can, would be posted by its characters: not represented.) *)
Inductive RpcResponse :=
| Rejected (e : Thrown)
| Body (events : option (list WebhookPayload))
| NoBody (e : Thrown)
| NotIterable (e : Thrown).

Section service.
  Variables (config : NotificationServiceConfig) (enabled : bool).

Definition poll_failed (e : Thrown) (failures : Z)
    : res Thrown (list WebhookPayload) * Z * list Report :=
  let n := failures + 1 in
  (Ok [], n, [captureError enabled e
             (Some (EventPolling (cfg_contractId config) n (MAX_POLL_FAILURES <=? n)))]).

(** [pollEvents]: the events (or what iterating over them will throw), the new failure
    count and the reports. The count is reset before the body is read. *)
Definition pollEvents (resp : RpcResponse) (failures : Z)
    : res Thrown (list WebhookPayload) * Z * list Report :=
  match resp with
  | Body events => (Ok (default [] events), 0, [])
  | NotIterable e => (Err e, 0, [])
  | NoBody e => poll_failed e 0
  | Rejected e => poll_failed e failures
  end.

Definition deliverWebhook (post : WebhookPayload → option Thrown) (p : WebhookPayload)
    : list Report :=
  match post p with
  | None => []
  | Some e => [captureError enabled e (Some (WebhookDelivery (webhookUrl config) (event p)))]
  end.

(** The deliveries of [runOnce], one after another. *)
Fixpoint deliverAll (post : WebhookPayload → option Thrown) (ps : list WebhookPayload)
    : list WebhookPayload * list Report :=
  match ps with
  | [] => ([], [])
  | p :: ps' => let r := deliverWebhook post p in
                let '(posted, rs) := deliverAll post ps' in (p :: posted, r ++ rs)
  end.

(** [runOnce]: the payloads posted or the exception it rejects with, the new failure
    count, the reports. *)
Definition runOnce (resp : RpcResponse) (post : WebhookPayload → option Thrown) (failures : Z)
    : res Thrown (list WebhookPayload) * Z * list Report :=
  match pollEvents resp failures with
  | (Ok events, n, r1) => let '(posted, r2) := deliverAll post events in (Ok posted, n, r1 ++ r2)
  | (Err e, n, r1) => (Err e, n, r1)
  end.

(** A sequence of polls, with the reports of each. *)
Fixpoint poll_run (rs : list RpcResponse) (failures : Z) : Z * list (list Report) :=
  match rs with
  | [] => (failures, [])
  | r :: rs' => let '(_, n, rep) := pollEvents r failures in
                let '(m, reps) := poll_run rs' n in (m, rep :: reps)
  end.

(** ** start, stop and the tick callbacks *)
Definition start (s : NotificationService) : NotificationService :=
  {| consecutiveFailures := consecutiveFailures s; running := true; loop := begin_round (loop s) |}.

Definition stop (s : NotificationService) : NotificationService :=
  {| consecutiveFailures := consecutiveFailures s; running := false; loop := clear (loop s) |}.

(** The timer callback [tick], up to its first await. *)
Definition tick (t : nat) (s : NotificationService) : NotificationService :=
  {| consecutiveFailures := consecutiveFailures s; running := running s;
     loop := fire t (running s) (loop s) |}.

(** A pending [runOnce] settles: [tick] arms the next timer, unless [runOnce] rejected,
    which nothing catches (by default this ends the process too; the loop ends in any
    case). *)
Definition tick_resume (resp : RpcResponse) (s : NotificationService) : NotificationService :=
  let '(events, n, _) := pollEvents resp (consecutiveFailures s) in
  {| consecutiveFailures := n; running := running s;
     loop := if is_ok events then rearm (loop s) else abandon (loop s) |}.

Inductive Action := AStart | AStop | AFire (t : nat) | ASettle (resp : RpcResponse).

Definition act (a : Action) (s : NotificationService) : option NotificationService :=
  match a with
  | AStart => Some (start s)
  | AStop => Some (stop s)
  | AFire t => if bool_decide (t ∈ armed (loop s)) then Some (tick t s) else None
  | ASettle resp => if (0 <? inflight (loop s))%nat then Some (tick_resume resp s) else None
  end.

Definition acts : list Action → NotificationService → option NotificationService := run act.

(** ** Lemmas *)
Lemma deliverAll_spec post ps :
  deliverAll post ps = (ps, ps ≫= deliverWebhook post).
Proof. induction ps as [|p ps IH]; [done|]. cbn. rewrite IH. done. Qed.

Lemma poll_run_app rs1 rs2 n :
  poll_run (rs1 ++ rs2) n =
    let '(m, r1) := poll_run rs1 n in let '(k, r2) := poll_run rs2 m in (k, r1 ++ r2).
Proof.
  revert n; induction rs1 as [|r rs1 IH]; intros n; cbn [poll_run app].
  - by destruct (poll_run rs2 n).
  - destruct (pollEvents r n) as [[evs m] rep]. rewrite IH.
    destruct (poll_run rs1 m) as [m1 r1]. by destruct (poll_run rs2 m1).
Qed.

Lemma poll_run_nonneg rs n : 0 <= n → 0 <= (poll_run rs n).1.
Proof.
  revert n; induction rs as [|r rs IH]; intros n Hn; cbn [poll_run]; [done|].
  assert (0 <= (pollEvents r n).1.2) as Hm by (destruct r; cbn; lia).
  destruct (pollEvents r n) as [[evs m] rep]. specialize (IH m Hm).
  by destruct (poll_run rs m).
Qed.

(** An engine step: a timer firing or a pending call settling. *)
Definition engine (a : Action) : bool :=
  match a with AFire _ | ASettle _ => true | _ => false end.
(** One in which no answer has [events] that cannot be iterated. *)
Definition iterable_step (a : Action) : bool :=
  engine a && match a with ASettle (NotIterable _) => false | _ => true end.

(** A settling call ends its round: it is re-armed or abandoned. *)
Lemma tick_resume_cases resp s :
  running (tick_resume resp s) = running s ∧
  (loop (tick_resume resp s) = rearm (loop s) ∨ loop (tick_resume resp s) = abandon (loop s)).
Proof. destruct resp; simpl; auto. Qed.
Lemma tick_resume_rearms resp s :
  iterable_step (ASettle resp) = true → loop (tick_resume resp s) = rearm (loop s).
Proof. by destruct resp. Qed.

Lemma act_wf a s s' : act a s = Some s' → wf (loop s) → wf (loop s').
Proof.
  destruct a; cbn [act]; repeat case_match; intros [= <-] Hw;
    [simpl; auto with cosmos..|].
  destruct (tick_resume_cases resp s) as [_ [-> | ->]]; auto with cosmos.
Qed.

Lemma act_single a s s' :
  a ≠ AStart → act a s = Some s' → wf (loop s) ∧ single (loop s) → wf (loop s') ∧ single (loop s').
Proof.
  intros Ha Hact [Hw Hs]. split; [by eapply act_wf|].
  destruct a; cbn [act] in Hact; repeat case_match; simplify_eq; cbn [loop start stop tick];
    auto with cosmos.
  - apply single_fire; [|done]. by eapply bool_decide_eq_true.
  - destruct (tick_resume_cases resp s) as [_ [-> | ->]]; auto with cosmos.
    apply single_rearm; try done. by apply Nat.ltb_lt.
Qed.

Lemma act_stopped a s s' :
  a ≠ AStart → act a s = Some s' → wf (loop s) → running s = false →
  running s' = false ∧ (inflight (loop s') ≤ inflight (loop s))%nat ∧
  (fuel (loop s') + (if engine a then 1 else 0) ≤ fuel (loop s))%nat.
Proof.
  intros Ha Hact Hw Hr. destruct a; cbn [act engine] in *; [done|..]; repeat case_match;
    simplify_eq; [simpl..|].
  - pose proof (fuel_clear (loop s)). rewrite Nat.add_0_r. split_and!; [done| |done].
    unfold clear. by destruct (handle (loop s)).
  - bool_prop. rewrite Hr. pose proof (fuel_fire_stop t (loop s)) as Hf. specialize (Hf ltac:(done)).
    split_and!; [done | done | lia].
  - apply Nat.ltb_lt in H. destruct (tick_resume_cases resp s) as [-> [-> | ->]].
    + pose proof (fuel_rearm (loop s) Hw H) as Hf.
      split_and!; [done | simpl; lia |]. rewrite Hf. unfold fuel in *. lia.
    + pose proof (fuel_abandon (loop s) H). split_and!; [done | simpl; lia | lia].
Qed.

Lemma act_live a s s' :
  iterable_step a = true → act a s = Some s' → wf (loop s) → running s = true →
  running s' = true ∧ live (loop s') = live (loop s).
Proof.
  intros Ha Hact Hw Hr. destruct a; try discriminate; cbn [act] in Hact; repeat case_match;
    simplify_eq; [simpl|].
  - bool_prop. split; [done|]. by rewrite live_fire, Hr by done.
  - rewrite tick_resume_rearms by done. split; [by destruct (tick_resume_cases resp s) as [-> _]|].
    apply live_rearm; [done|]. by apply Nat.ltb_lt.
Qed.


Lemma acts_stopped l s s' :
  Forall (λ a, a ≠ AStart) l → acts l s = Some s' → wf (loop s) → running s = false →
  (inflight (loop s') ≤ inflight (loop s))%nat ∧
  (length (filter (λ a, engine a = true) l) + fuel (loop s') ≤ fuel (loop s))%nat.
Proof.
  intros Hl. unfold acts. revert s. induction Hl as [|a l Ha _ IH]; intros s Hs Hw Hr; simplify_eq/=; [lia|].
  apply bind_Some in Hs as (s1 & H1 & H2).
  pose proof (act_stopped a s s1 Ha H1 Hw Hr) as (Hr1 & Hi1 & Hf1).
  destruct (IH s1 H2 (act_wf a s s1 H1 Hw) Hr1). rewrite filter_cons.
  destruct (engine a); simpl; lia.
Qed.

Lemma acts_wf l s : acts l new_service = Some s → wf (loop s).
Proof.
  intros Hs. eapply (run_preserves act (λ _, True) (λ s, wf (loop s))); [|by apply Forall_true|done|].
  - intros; by eapply act_wf.
  - apply idle_wf.
Qed.

Fixpoint restarts (k : nat) : list Action :=
  match k with O => [AStart] | S k' => restarts k' ++ [AStop; AStart] end.

Lemma restarts_state k :
  ∃ s, acts (restarts k) new_service = Some s ∧ running s = true ∧
    armed (loop s) = ∅ ∧ inflight (loop s) = S k ∧ handle (loop s) = None.
Proof.
  induction k as [|k (s & Hs & _ & Ha & Hi & Hh)]; [by eexists|].
  cbn [restarts]. unfold acts in *; rewrite run_app, Hs. simpl. eexists; split; [done|].
  unfold stop, clear; simpl. rewrite Hh. simpl. by rewrite Hi.
Qed.

(** ** Properties *)

Definition alerting (reps : list Report) : bool :=
  match reps with
  | r :: _ => match (logged r).2 with Some (EventPolling _ _ b) => b | _ => false end
  | [] => false
  end.
Definition rejected (r : RpcResponse) : bool := match r with Rejected _ => true | _ => false end.
Definition with_body (r : RpcResponse) : bool :=
  match r with Body _ | NotIterable _ => true | _ => false end.

(** The alert fires at a poll exactly when it is at least the third failure
    in a row: the last two requests were rejected and the one before failed too
    (rejected, or answered with no body); and it cannot fire before three polls. *)
Theorem alert_after_three_failures (rs : list RpcResponse) (r3 r2 r1 : RpcResponse) :
  (alerting (default [] (last (poll_run (rs ++ [r3; r2; r1]) 0).2)) = true ↔
     rejected r1 = true ∧ rejected r2 = true ∧ with_body r3 = false) ∧
  alerting (default [] (last (poll_run [r2; r1] 0).2)) = false.
Proof.
  rewrite !poll_run_app. pose proof (poll_run_nonneg rs 0 ltac:(lia)) as Hn.
  destruct (poll_run rs 0) as [n reps]; cbn [fst] in Hn.
  destruct r3, r2, r1; cbn -[MAX_POLL_FAILURES Z.add Z.leb]; rewrite ?last_snoc, ?last_app;
    cbn -[Z.add Z.leb]; unfold MAX_POLL_FAILURES;
    (split_and!; [| done || (apply Z.leb_gt; lia)]);
    rewrite ?Z.leb_le; naive_solver lia.
Qed.

(** A round posts every event the node returned, in order, whatever the
    webhook answers: it reports one error per refused delivery, with the event it
    lost, and nothing else. *)
Theorem runOnce_attempts_every_event (evs : list WebhookPayload)
    (post : WebhookPayload → option Thrown) (n : Z) :
  let '(posted, n', reports) := runOnce (Body (Some evs)) post n in
  posted = Ok evs ∧ n' = 0 ∧
  map (λ r, (logged r).2) reports =
    (λ p, Some (WebhookDelivery (webhookUrl config) (event p)))
      <$> filter (λ p, is_Some (post p)) evs.
Proof.
  unfold runOnce. cbn. rewrite deliverAll_spec. split_and!; [done..|].
  induction evs as [|p evs IH]; [done|]. csimpl. rewrite map_app, IH, filter_cons. unfold deliverWebhook.
  destruct (post p) as [e|]; [rewrite decide_True by eauto | rewrite decide_False by (by intros []) ]; done.
Qed.

(** C37. Started once and later stopped, as the entry point does, the service
    never runs two polling loops: at any time at most one round is pending or one
    timer armed, and a stop while no round is pending leaves nothing behind. *)
Theorem started_once_single_loop (l : list Action) (s : NotificationService) :
  Forall (λ a, a ≠ AStart) l → acts (AStart :: l) new_service = Some s →
  (live (loop s) ≤ 1)%nat ∧ (inflight (loop s) = 0%nat → live (loop (stop s)) = 0%nat).
Proof.
  intros Hl Hs. simpl in Hs.
  assert (wf (loop s) ∧ single (loop s)) as [Hw Hsg].
  { eapply (run_preserves act (λ a, a ≠ AStart) (λ s, wf (loop s) ∧ single (loop s)));
      [apply act_single | exact Hl | exact Hs |].
    split; [apply begin_round_wf, idle_wf | by apply single_begin]. }
  split; [apply Hsg | by apply clear_single_waiting].
Qed.

(** C38. After a stop the service dies out: whatever is still pending, no further
    round is started, and at most two engine steps per pending round and one per
    armed timer are left. *)
Theorem stop_quiesces (before l : list Action) (s s' : NotificationService) :
  acts before new_service = Some s → Forall (λ a, a ≠ AStart) l →
  acts (AStop :: l) s = Some s' →
  (inflight (loop s') ≤ inflight (loop s))%nat ∧
  (length (filter (λ a, engine a = true) l) ≤ 2 * inflight (loop s) + size (armed (loop s)))%nat.
Proof.
  intros Hb Hl Hs. pose proof (clear_wf _ (acts_wf _ _ Hb)) as Hw.
  destruct (acts_stopped l (stop s) s' Hl Hs Hw eq_refl) as [Hi Hf].
  pose proof (fuel_clear (loop s)). unfold fuel in *. simpl in *.
  assert (inflight (clear (loop s)) = inflight (loop s)) by (unfold clear; by destruct (handle _)).
  lia.
Qed.

(** A stop and a start while a round is pending leave that round's loop
    alive: after [k] such restarts [k + 1] loops poll side by side, and they all
    stay alive as long as the service is not stopped. *)
Theorem restart_during_poll_leaks_loops (k : nat) :
  ∃ s, acts (restarts k) new_service = Some s ∧
    ∀ l s', Forall (λ a, iterable_step a = true) l → acts l s = Some s' → live (loop s') = S k.
Proof.
  destruct (restarts_state k) as (s & Hs & Hr & Ha & Hi & _). exists s. split; [done|].
  intros l s' Hl Hs'.
  assert (wf (loop s') ∧ running s' = true ∧ live (loop s') = S k) as (_ & _ & ?); [|done].
  eapply (run_preserves act (λ a, iterable_step a = true)
    (λ s, wf (loop s) ∧ running s = true ∧ live (loop s) = S k)); [|done|done|].
  - intros a x x' He Hx (Hw & Hrx & <-). destruct (act_live a x x' He Hx Hw Hrx) as [? ?].
    split_and!; [by eapply act_wf | done | done].
  - split_and!; [by eapply acts_wf | done |]. unfold live. by rewrite Ha, Hi, size_empty, Nat.add_0_r.
Qed.

(** A body whose [events] cannot be iterated ends the polling for good: the service
    says that it runs, but no round is pending, no timer is armed, and nothing the
    engine does ever starts another poll. *)
Theorem uniterable_events_end_the_loop (e : Thrown) :
  ∃ s, acts [AStart; ASettle (NotIterable e)] new_service = Some s ∧ running s = true ∧
    live (loop s) = 0%nat ∧ ∀ a, engine a = true → act a s = None.
Proof.
  eexists. split; [reflexivity|]. split_and!; [done..|].
  intros [| |t|resp] Ha; try discriminate; [|done]. cbn [act]. by rewrite bool_decide_false by (cbn; set_solver).
Qed.

End service.

(** The loop theorems at concrete inputs. *)
Definition sample_config : NotificationServiceConfig := {|
  rpcUrl := js "r"; cfg_contractId := js "c"; webhookUrl := js "w"; pollIntervalMs := None |}.
Definition timeout_error : RpcResponse := Rejected (ErrorObject (js "timeout")).

Lemma started_once_single_loop_witness :
  ∃ s, acts sample_config false [AStart; ASettle timeout_error; AFire 0] new_service = Some s ∧
    (live (loop s) ≤ 1)%nat.
Proof.
  eexists. split; [reflexivity|].
  apply (started_once_single_loop sample_config false [ASettle timeout_error; AFire 0] _);
    [repeat constructor; done | reflexivity].
Defined.

Lemma stop_quiesces_witness :
  ∃ s s', acts sample_config false [AStart] new_service = Some s ∧
    acts sample_config false [AStop; ASettle timeout_error; AFire 0] s = Some s' ∧
    (inflight (loop s') ≤ inflight (loop s))%nat.
Proof.
  eexists _, _. split; [reflexivity|]. split; [reflexivity|].
  apply (stop_quiesces sample_config false [AStart] [ASettle timeout_error; AFire 0]);
    [reflexivity | repeat constructor; done | reflexivity].
Defined.

End Backend.
