(* ===== verification/Polling.v ===== *)
(** * The polling hook of the front end (frontend/src/hooks/usePolling.ts)

    The hook calls a function, and again after a delay that backs off while the
    calls fail. Its state is the back-off factor and the timers; the effect, its
    cleanup, the timers firing and the calls settling are actions in any order. *)
From Stdlib Require Import ZArith Lia.
From stdpp Require Import prelude list gmap.
From S2P Require Import Prelude Timers.
Local Open Scope Z_scope.

Module Polling.
Import Timers.

Record Poller := {
  backoff : Z;
  loop : Loop;
  first_calls : nat;         (* pending calls made by the effect itself *)
  delays : list Z }.         (* the delays given to setTimeout so far *)

Definition unmounted : Poller :=
  {| backoff := 1; loop := idle; first_calls := 0; delays := [] |}.

Section hook.
  Variable interval : Z.

(** [schedule(interval * backoff)] at the end of a round. *)
Definition schedule (b : Z) (firsts : nat) (p : Poller) : Poller :=
  {| backoff := b; loop := rearm (loop p); first_calls := firsts;
     delays := delays p ++ [interval * b] |}.

(** The effect with [enabled]: reset the back-off, call the function at once. *)
Definition effect (p : Poller) : Poller :=
  {| backoff := 1; loop := begin_round (loop p); first_calls := S (first_calls p);
     delays := delays p |}.

(** Its cleanup. *)
Definition cleanup (p : Poller) : Poller :=
  {| backoff := backoff p; loop := clear (loop p); first_calls := first_calls p;
     delays := delays p |}.

(** A timer fires: the callback calls the function. *)
Definition fire_timer (t : nat) (p : Poller) : Poller :=
  {| backoff := backoff p; loop := fire t true (loop p); first_calls := first_calls p;
     delays := delays p |}.

(** A pending call settles: the effect's first call, or one made by a timer. *)
Definition first_settled (ok : bool) (p : Poller) : Poller :=
  schedule (if ok then backoff p else 2) (pred (first_calls p)) p.
Definition call_settled (ok : bool) (p : Poller) : Poller :=
  schedule (if ok then 1 else Z.min (backoff p * 2) 4) (first_calls p) p.

Inductive Action := Effect | Cleanup | Fire (t : nat) | FirstSettled (ok : bool) | CallSettled (ok : bool).

Definition act (a : Action) (p : Poller) : option Poller :=
  match a with
  | Effect => Some (effect p)
  | Cleanup => Some (cleanup p)
  | Fire t => if bool_decide (t ∈ armed (loop p)) then Some (fire_timer t p) else None
  | FirstSettled ok => if (0 <? first_calls p)%nat then Some (first_settled ok p) else None
  | CallSettled ok =>
      if (first_calls p <? inflight (loop p))%nat then Some (call_settled ok p) else None
  end.

Definition acts : list Action → Poller → option Poller := run act.

(** ** Lemmas *)
Definition poller_wf (p : Poller) : Prop :=
  wf (loop p) ∧ (first_calls p ≤ inflight (loop p))%nat ∧ backoff p ∈ [1; 2; 4] ∧
  Forall (λ d, d ∈ [interval; interval * 2; interval * 4]) (delays p).

Lemma schedule_wf b n p :
  poller_wf p → (n ≤ pred (inflight (loop p)))%nat → b ∈ [1; 2; 4] → poller_wf (schedule b n p).
Proof.
  intros (Hw & Hf & _ & Hd) Hn Hb. split_and!; [by apply rearm_wf | done | done |].
  simpl. apply Forall_app. split; [done|]. constructor; [|done]. set_unfold.
  destruct Hb as [->|[->|[->|[]]]]; lia.
Qed.

Lemma poller_act_wf a p p' : act a p = Some p' → poller_wf p → poller_wf p'.
Proof.
  intros Ha Hp. pose proof Hp as (Hw & Hf & Hb & Hd). destruct a as [| |t|ok|ok]; simpl in Ha.
  - injection Ha as <-. split_and!; [done | simpl; lia | set_solver | done].
  - injection Ha as <-. split_and!; [by apply clear_wf | | done | done].
    simpl. unfold clear. by destruct (handle (loop p)).
  - case_match; [|done]. injection Ha as <-. split_and!; [by apply fire_wf | simpl; lia | done | done].
  - case_match eqn:Hc; [|done]. injection Ha as <-. apply Nat.ltb_lt in Hc. apply schedule_wf;
      [done | lia | destruct ok; [done|set_solver]].
  - case_match eqn:Hc; [|done]. injection Ha as <-. apply Nat.ltb_lt in Hc. apply schedule_wf;
      [done | lia |]. destruct ok; [set_solver|]. set_unfold. destruct Hb as [->|[->|[->|[]]]]; lia.
Qed.

Lemma poller_acts_wf l p : acts l unmounted = Some p → poller_wf p.
Proof.
  intros Hp. eapply (run_preserves act (λ _, True)); [intros; by eapply poller_act_wf | by apply Forall_true | done |].
  split_and!; [apply idle_wf | done | set_solver | constructor].
Qed.

(** An engine step: a timer firing or a call settling. *)
Definition engine (a : Action) : bool := match a with Effect | Cleanup => false | _ => true end.

Lemma poller_act_live a p p' :
  engine a = true → act a p = Some p' → poller_wf p → live (loop p') = live (loop p).
Proof.
  intros He Ha (Hw & Hf & _). destruct a as [| |t|ok|ok]; simpl in *; try done;
    case_match eqn:Hc; try done; injection Ha as <-;
    cbn [loop fire_timer first_settled call_settled schedule].
  - bool_prop. by rewrite live_fire.
  - apply Nat.ltb_lt in Hc. apply live_rearm; [done|lia].
  - apply Nat.ltb_lt in Hc. apply live_rearm; [done|lia].
Qed.

Lemma poller_acts_live l p p' :
  Forall (λ a, engine a = true) l → acts l p = Some p' → poller_wf p → live (loop p') = live (loop p).
Proof.
  intros Hl Hp Hwf.
  assert (poller_wf p' ∧ live (loop p') = live (loop p)) as [_ ?]; [|done].
  eapply (run_preserves act (λ a, engine a = true) (λ q, poller_wf q ∧ live (loop q) = live (loop p)));
    [|done|done|done].
  intros a q q' He Hq [Hqw Hql]. split; [by eapply poller_act_wf|]. by rewrite <- Hql; eapply poller_act_live.
Qed.

(** One mounted loop: the outcomes of its successive calls give its delays. *)
Fixpoint rounds (t : nat) (outcomes : list bool) : list Action :=
  match outcomes with
  | [] => []
  | ok :: rest => Fire t :: CallSettled ok :: rounds (S t) rest
  end.
Definition mounted_run (first : bool) (outcomes : list bool) : list Action :=
  Effect :: FirstSettled first :: rounds 0 outcomes.

(** The specification of the back-off: the length of the current run of failures. *)
Fixpoint streaks (n : nat) (outcomes : list bool) : list nat :=
  match outcomes with
  | [] => []
  | ok :: rest => let n' := if ok then 0%nat else S n in n' :: streaks n' rest
  end.
Definition spec_delay (n : nat) : Z := interval * Z.min 4 (2 ^ Z.of_nat n).

Lemma double_cap n : Z.min (Z.min 4 (2 ^ Z.of_nat n) * 2) 4 = Z.min 4 (2 ^ Z.of_nat (S n)).
Proof.
  rewrite Nat2Z.inj_succ, Z.pow_succ_r by lia.
  assert (0 < 2 ^ Z.of_nat n) by (apply Z.pow_pos_nonneg; lia). lia.
Qed.

Lemma rounds_delays t n outcomes p :
  armed (loop p) = {[t]} → fresh (loop p) = S t → inflight (loop p) = 0%nat → first_calls p = 0%nat →
  backoff p = Z.min 4 (2 ^ Z.of_nat n) →
  ∃ p', acts (rounds t outcomes) p = Some p' ∧
    delays p' = delays p ++ (spec_delay <$> streaks n outcomes).
Proof.
  revert t n p; induction outcomes as [|ok rest IH]; intros t n p Ha Hf Hi Hc Hb;
    [exists p; by rewrite app_nil_r|].
  unfold acts in *; cbn [rounds run act]. rewrite Ha, bool_decide_true by set_solver. simpl.
  rewrite Hi, Hc. simpl.
  destruct (IH (S t) (if ok then 0%nat else S n) (call_settled ok (fire_timer t p))) as (p' & Hp' & Hd').
  - simpl. rewrite Ha, Hf. set_solver.
  - simpl. by rewrite Hf.
  - simpl. by rewrite Hi.
  - done.
  - simpl. destruct ok; [done|]. rewrite Hb. apply double_cap.
  - exists p'. split; [done|]. rewrite Hd'. simpl. rewrite <- app_assoc. simpl. do 3 f_equal.
    unfold spec_delay. destruct ok; [done|]. by rewrite Hb, double_cap.
Qed.

(** ** Properties *)

(** The back-off is the documented one: in a mounted loop the delay after
    each call is the interval times two to the number of consecutive failures so
    far, capped at four times the interval, and it returns to the interval after
    a success; and in any history no delay is ever outside these three values. *)
Theorem polling_backoff (first : bool) (outcomes : list bool) :
  (∃ p, acts (mounted_run first outcomes) unmounted = Some p ∧
     delays p = spec_delay <$> streaks 0 (first :: outcomes)) ∧
  ∀ l p, acts l unmounted = Some p →
    Forall (λ d, d ∈ [interval; interval * 2; interval * 4]) (delays p).
Proof.
  split; [|intros l p Hp; apply (poller_acts_wf _ _ Hp)].
  unfold mounted_run, acts. cbn [run act]. simpl.
  destruct (rounds_delays 0 (if first then 0%nat else 1%nat) outcomes
    (first_settled first (effect unmounted))) as (p & Hp & Hd); [set_solver | done | done | done |
      by destruct first |].
  exists p. split; [done|]. rewrite Hd. simpl. f_equal. unfold spec_delay. by destruct first.
Qed.

(** Unmounting stops the polling only between calls: cleaning up while a
    timer is waiting leaves nothing alive, but cleaning up while the call is
    pending leaves its loop alive for ever, and mounting again then polls twice. *)
Theorem cleanup_during_call_leaks (l : list Action) (p : Poller) :
  Forall (λ a, engine a = true) l →
  (∃ q, acts [Effect; FirstSettled true; Cleanup] unmounted = Some q ∧ live (loop q) = 0%nat) ∧
  (acts (Effect :: Cleanup :: l) unmounted = Some p → live (loop p) = 1%nat) ∧
  (acts (Effect :: Cleanup :: Effect :: l) unmounted = Some p → live (loop p) = 2%nat).
Proof.
  intros Hl. split; [|split].
  - eexists. split; [reflexivity|]. reflexivity.
  - intros Hp. change (Effect :: Cleanup :: l) with ([Effect; Cleanup] ++ l) in Hp.
    unfold acts in Hp; rewrite run_app in Hp. apply bind_Some in Hp as (q & Hq & Hp).
    rewrite (poller_acts_live l q p Hl Hp (poller_acts_wf _ _ Hq)). by injection Hq as <-.
  - intros Hp. change (Effect :: Cleanup :: Effect :: l) with ([Effect; Cleanup; Effect] ++ l) in Hp.
    unfold acts in Hp; rewrite run_app in Hp. apply bind_Some in Hp as (q & Hq & Hp).
    rewrite (poller_acts_live l q p Hl Hp (poller_acts_wf _ _ Hq)). by injection Hq as <-.
Qed.
End hook.

Lemma cleanup_during_call_leaks_witness :
  ∃ p, acts 15000 [Effect; Cleanup; FirstSettled true; Fire 0] unmounted = Some p ∧
    live (loop p) = 1%nat.
Proof.
  eexists. split; [reflexivity|].
  apply (cleanup_during_call_leaks 15000 [FirstSettled true; Fire 0]);
    [repeat constructor | reflexivity].
Defined.
End Polling.
