(* ===== verification/Format.v ===== *)
(** * Data types and formatting of the front end
    (frontend/src/types.ts, utils.ts and components/ProposalCard.tsx)

    Proposals as the front end holds them, token amounts and addresses as it
    prints them, and the card that summarises a proposal. Amounts are bigint
    values, so they are integers without bound. *)
From Stdlib Require Import Ascii String ZArith Lia.
From stdpp Require Import prelude list strings.
From S2P Require Import Prelude JsString JsNumber.
Local Open Scope Z_scope.

Module Format.

(** ** types.ts *)
Inductive ProposalState := Active | Passed | Rejected | Executed | Cancelled.
Global Instance ProposalState_eq_dec : EqDecision ProposalState.
Proof. solve_decision. Defined.
Inductive VoteType := Yes | No | Abstain.
Global Instance VoteType_eq_dec : EqDecision VoteType.
Proof. solve_decision. Defined.

Record Proposal := {
  id : Z;
  proposer : jstr;
  title : jstr;
  description : jstr;
  cancellation_reason : option jstr;
  votes_yes : Z;
  votes_no : Z;
  votes_abstain : Z;
  quorum : Z;
  start_time : Z;
  end_time : Z;
  state : ProposalState }.
Global Instance Proposal_eq_dec : EqDecision Proposal.
Proof. solve_decision. Defined.

Record VoteRecord := { vote : VoteType; weight : Z }.
Global Instance VoteRecord_eq_dec : EqDecision VoteRecord.
Proof. solve_decision. Defined.

Definition state_name (s : ProposalState) : jstr :=
  match s with
  | Active => js "Active" | Passed => js "Passed" | Rejected => js "Rejected"
  | Executed => js "Executed" | Cancelled => js "Cancelled"
  end.

(** ** utils.ts *)
Definition maskAddress (addr : jstr) : jstr :=
  slice addr 0 6 ++ js "..." ++ slice_last addr 4.

(** The word characters of a regular expression. *)
Definition is_word (u : Z) : bool :=
  is_digit u || ((65 <=? u) && (u <=? 90)) || ((97 <=? u) && (u <=? 122)) || (u =? 95).

(** Length of the run of digits at the head of a string. *)
Fixpoint digit_run (s : jstr) : nat :=
  match s with
  | u :: s' => if is_digit u then S (digit_run s') else 0
  | [] => 0
  end.

(** [s.replace(/\B(?=(\d{3})+(?!\d))/g, ',')]: at each position, [\B] compares the
    characters on both sides (none before the first), and the lookahead needs the
    run of digits there to be a positive multiple of three long. *)
Definition lookahead_triples (s : jstr) : bool :=
  let n := digit_run s in (0 <? n)%nat && (n mod 3 =? 0)%nat.

Fixpoint commas (prev_word : bool) (s : jstr) : jstr :=
  match s with
  | [] => []
  | u :: s' =>
      (if Bool.eqb prev_word (is_word u) && lookahead_triples s then [44] else [])
        ++ u :: commas (is_word u) s'
  end.
Definition group_thousands (s : jstr) : jstr := commas false s.

Definition formatTokenAmount (amount : Z) (decimals : nat) : jstr :=
  let str := dec_of amount in
  if (decimals =? 0)%nat then group_thousands str
  else
    let padded := padStart str (decimals + 1) 48 in
    let intPart := group_thousands (slice_butlast padded decimals) in
    let fracPart := slice_last padded decimals in
    let fracPart := padEnd (slice fracPart 0 2) 2 48 in
    intPart ++ js "." ++ fracPart ++ js " CVT".

(** ** ProposalCard.tsx *)
Definition totalVotes (p : Proposal) : Z := votes_yes p + votes_no p + votes_abstain p.

(** [Math.min(a, b)] and [Number(bigint)] *)
Definition math_min (a b : jsnum) : jsnum :=
  if isNaN a || isNaN b then NaN else if num_lt b a then b else a.
Definition Number_of_bigint (n : Z) : jsnum :=
  if n <? 0 then neg_num (round_ratio (- n) 1) else round_ratio n 1.

Definition quorumPct (p : Proposal) : jsnum :=
  if quorum p =? 0 then num_of_Z 0
  else math_min (num_of_Z 100) (Number_of_bigint ((totalVotes p * 100) ÷ quorum p)).

(** The texts of the card, and the width of its progress bar. *)
Record CardView := {
  card_label : jstr;
  card_heading : jstr;
  card_state : jstr;
  card_quorum : jstr;
  card_bar : jstr;
  card_votes : jstr }.

Definition ProposalCard (p : Proposal) (decimals : nat) : CardView :=
  let pct := quorumPct p in {|
  card_label := js "Proposal #" ++ dec_of (id p) ++ js ": " ++ title p;
  card_heading := js "#" ++ dec_of (id p) ++ js " — " ++ title p;
  card_state := state_name (state p);
  card_quorum := js "Quorum " ++ formatTokenAmount (quorum p) decimals;
  card_bar := string_of_num pct ++ js "%";
  card_votes := string_of_num pct ++ js "% of quorum · ✅ "
    ++ formatTokenAmount (votes_yes p) decimals ++ js " · ❌ "
    ++ formatTokenAmount (votes_no p) decimals ++ js " · ⬜ "
    ++ formatTokenAmount (votes_abstain p) decimals |}.

(** The keys that open the card. *)
Definition handleKeyDown (key : jstr) : bool :=
  bool_decide (key = js "Enter") || bool_decide (key = js " ").

Example format1 : formatTokenAmount 12345678901234 7 = js "1,234,567.89 CVT".
Proof. reflexivity. Qed.
Example format2 : formatTokenAmount 5 7 = js "0.00 CVT".
Proof. reflexivity. Qed.
Example format3 : formatTokenAmount 1234567 0 = js "1,234,567".
Proof. reflexivity. Qed.
Example format4 : formatTokenAmount 15 1 = js "1.50 CVT".
Proof. reflexivity. Qed.
Example mask1 : maskAddress (js "GABCDEFGHIJKLMNOP") = js "GABCDE...MNOP".
Proof. reflexivity. Qed.

(** ** Lemmas: decimal digits *)
(** The [w] lowest decimal digits of [n]. *)
Fixpoint fixed (w : nat) (n : Z) : jstr :=
  match w with
  | O => []
  | S w' => fixed w' (n / 10) ++ [48 + n mod 10]
  end.

Lemma length_fixed w n : length (fixed w n) = w.
Proof. revert n; induction w as [|w IH]; intros n; [done|]. cbn [fixed]. rewrite length_app, IH. simpl. lia. Qed.

Lemma fixed_zero w : fixed w 0 = replicate w 48.
Proof.
  induction w as [|w IH]; [done|]. cbn [fixed]. rewrite Z.div_0_l, IH by lia.
  by rewrite <- replicate_cons_app.
Qed.

Lemma dec_digits_fuel f g n :
  0 <= n < 10 ^ Z.of_nat f → n < 10 ^ Z.of_nat g → f ≠ 0%nat → g ≠ 0%nat →
  dec_digits f n = dec_digits g n.
Proof.
  revert g n; induction f as [|f IH]; intros g n Hf Hg Hf0 Hg0; [done|].
  destruct g as [|g]; [done|]. cbn [dec_digits]. f_equal.
  destruct (Z.ltb_spec n 10); [done|].
  rewrite Nat2Z.inj_succ, Z.pow_succ_r in Hf, Hg by lia.
  apply IH; [split; [apply Z.div_pos; lia | apply Z.div_lt_upper_bound; lia]
    | apply Z.div_lt_upper_bound; lia | intros -> | intros ->];
    change (10 ^ Z.of_nat 0) with 1 in *; lia.
Qed.

Lemma dec_of_nonneg_step n :
  10 <= n → dec_of_nonneg n = dec_of_nonneg (n / 10) ++ [48 + n mod 10].
Proof.
  intros Hn. unfold dec_of_nonneg at 1, dec_fuel. cbn [dec_digits].
  destruct (Z.ltb_spec n 10); [lia|]. f_equal.
  assert (0 <= n / 10) by (apply Z.div_pos; lia).
  apply dec_digits_fuel; [|by apply dec_fuel_enough| |done].
  - split; [done|]. pose proof (dec_fuel_enough n ltac:(lia)) as Hd. unfold dec_fuel in Hd.
    rewrite Nat2Z.inj_succ, Z.pow_succ_r in Hd by lia. apply Z.div_lt_upper_bound; lia.
  - pose proof (Z.log2_le_mono 10 n Hn). change (Z.log2 10) with 3 in *. lia.
Qed.

Lemma dec_of_nonneg_digit n : 0 <= n < 10 → dec_of_nonneg n = [48 + n].
Proof.
  intros Hn. unfold dec_of_nonneg, dec_fuel. cbn [dec_digits].
  destruct (Z.ltb_spec n 10); [|lia]. by rewrite Z.mod_small by lia.
Qed.

Lemma padStart_snoc s u w : padStart (s ++ [u]) (S w) 48 = padStart s w 48 ++ [u].
Proof. unfold padStart. rewrite length_app, <- app_assoc. simpl. do 2 f_equal. lia. Qed.

(** Padding to [d + 1] digits separates the quotient by [10 ^ d] from the [d]
    digits of the remainder. *)
Lemma padStart_dec d n :
  0 <= n → padStart (dec_of_nonneg n) (S d) 48 = dec_of_nonneg (n / 10 ^ Z.of_nat d) ++ fixed d n.
Proof.
  revert n; induction d as [|d IH]; intros n Hn.
  - rewrite Z.pow_0_r, Z.div_1_r. cbn [fixed]. rewrite app_nil_r. unfold padStart.
    pose proof (dec_of_nonneg_ne n). destruct (dec_of_nonneg n); [done|]. done.
  - rewrite Nat2Z.inj_succ, Z.pow_succ_r, <- Z.div_div by lia. cbn [fixed].
    destruct (Z.ltb_spec n 10) as [Hlt|Hge].
    + rewrite (Z.div_small n 10), Z.div_0_l, Z.mod_small, fixed_zero by lia.
      rewrite (dec_of_nonneg_digit n) by lia. change (dec_of_nonneg 0) with [48].
      done.
    + rewrite (dec_of_nonneg_step n) by done. rewrite padStart_snoc, IH by (apply Z.div_pos; lia).
      by rewrite app_assoc.
Qed.

Lemma take_fixed k d n :
  (k ≤ d)%nat → take k (fixed d n) = fixed k (n / 10 ^ Z.of_nat (d - k)).
Proof.
  revert n; induction d as [|d IH]; intros n Hk.
  - replace k with 0%nat by lia. done.
  - destruct (decide (k = S d)) as [->|Hne].
    + rewrite Nat.sub_diag, Z.pow_0_r, Z.div_1_r. rewrite take_ge; [done|]. rewrite length_fixed. lia.
    + cbn [fixed]. rewrite take_app_le by (rewrite length_fixed; lia). rewrite IH by lia.
      replace (S d - k)%nat with (S (d - k)) by lia.
      by rewrite Nat2Z.inj_succ, Z.pow_succ_r, Z.div_div by lia.
Qed.

Lemma fixed_two n :
  0 <= n < 100 → fixed 2 n = padStart (dec_of_nonneg n) 2 48.
Proof.
  intros Hn. rewrite (padStart_dec 1 n) by lia. change (10 ^ Z.of_nat 1) with 10.
  rewrite (dec_of_nonneg_digit (n / 10)); [|split; [apply Z.div_pos; lia | apply Z.div_lt_upper_bound; lia]].
  cbn [fixed app]. by rewrite (Z.mod_small (n / 10)) by
    (split; [apply Z.div_pos; lia | apply Z.div_lt_upper_bound; lia]).
Qed.

(** The digits of [n] below a power of ten do not see the rest of [n]. *)
Lemma fixed_mod w k n : (w ≤ k)%nat → fixed w (n mod 10 ^ Z.of_nat k) = fixed w n.
Proof.
  revert k n; induction w as [|w IH]; intros k n Hk; [done|]. destruct k as [|k]; [lia|].
  cbn [fixed]. rewrite Nat2Z.inj_succ, Z.pow_succ_r by lia.
  assert (0 < 10 ^ Z.of_nat k) by (apply Z.pow_pos_nonneg; lia).
  rewrite Z.rem_mul_r by lia.
  rewrite (Z.mul_comm 10 (n / 10 mod _)), Z.div_add, Z.mod_add by lia.
  rewrite (Z.div_small (n mod 10)) by (apply Z.mod_pos_bound; lia).
  rewrite Z.add_0_l, Z.mod_mod, IH by lia. done.
Qed.

(** ** Lemmas: grouping *)
Definition all_digits (s : jstr) : Prop := Forall (λ u, is_digit u = true) s.

Lemma digit_word u : is_digit u = true → is_word u = true.
Proof. unfold is_word. by intros ->. Qed.

Lemma digit_run_all s : all_digits s → digit_run s = length s.
Proof. induction 1 as [|u s Hu _ IH]; [done|]. simpl. by rewrite Hu, IH. Qed.

(** A grouping: the first group has one to three digits, the others three. *)
Definition grouping (s : jstr) (g : jstr) (gs : list jstr) : Prop :=
  g ++ mjoin gs = s ∧ (1 ≤ length g ≤ 3)%nat ∧ Forall (λ x, length x = 3%nat) gs.

Lemma mjoin_length3 (gs : list jstr) :
  Forall (λ x, length x = 3%nat) gs → length (mjoin gs) = (3 * length gs)%nat.
Proof. induction 1 as [|g gs Hg _ IH]; [done|]. csimpl. rewrite length_app, IH, Hg. lia. Qed.

Lemma commas_grouping u s :
  all_digits (u :: s) →
  ∃ g gs, u :: commas true s = join [44] (g :: gs) ∧ grouping (u :: s) g gs.
Proof.
  revert u; induction s as [|v s IH]; intros u Hs.
  - exists [u], []. repeat split; simpl; auto; lia.
  - inversion Hs as [|? ? Hu Hvs]; subst. destruct (IH v Hvs) as (g & gs & Heq & Hcat & Hg & Hgs).
    inversion Hvs as [|? ? Hv _]; subst. cbn [commas].
    rewrite (digit_word v Hv), Heq. simpl (Bool.eqb true true). unfold lookahead_triples.
    rewrite digit_run_all by done.
    assert (length (v :: s) = (length g + 3 * length gs)%nat) as Hlen
      by (rewrite <- Hcat, length_app, mjoin_length3 by done; done).
    rewrite Hlen. destruct (Nat.eqb_spec ((length g + 3 * length gs) mod 3) 0) as [Hm|Hm].
    + assert (length g = 3%nat) as H3.
      { rewrite Nat.mul_comm, Nat.Div0.mod_add in Hm.
        destruct (decide (length g = 3%nat)); [done|]. rewrite Nat.mod_small in Hm by lia. lia. }
      exists [u], (g :: gs). rewrite H3. split; [done|]. repeat split; simpl; try lia.
      * by rewrite <- Hcat.
      * by constructor.
    + assert (length g ≠ 3%nat) as H3.
      { intros H3. apply Hm. rewrite H3. rewrite Nat.mul_comm, Nat.Div0.mod_add. done. }
      rewrite andb_false_r. exists (u :: g), gs. split.
      * simpl. by destruct gs.
      * repeat split; simpl; try lia; [by rewrite <- Hcat | done].
Qed.

Lemma group_thousands_spec s :
  s ≠ [] → all_digits s →
  ∃ g gs, group_thousands s = join [44] (g :: gs) ∧ grouping s g gs.
Proof.
  destruct s as [|u s]; [done|]. intros _ Hs. destruct (commas_grouping u s Hs) as (g & gs & Heq & Hg).
  exists g, gs. split; [|done]. rewrite <- Heq. unfold group_thousands. cbn [commas].
  inversion Hs as [|? ? Hu _]; subst. by rewrite (digit_word u Hu).
Qed.

Lemma slice_butlast_app s t : slice_butlast (s ++ t) (length t) = s.
Proof.
  unfold slice_butlast. rewrite length_app, Nat.add_sub. rewrite take_app_le by done.
  by rewrite firstn_all.
Qed.
Lemma slice_last_app s t : slice_last (s ++ t) (length t) = t.
Proof.
  unfold slice_last. rewrite length_app, Nat.add_sub. rewrite drop_app_le by done.
  by rewrite drop_all.
Qed.

(** The two printed decimals: the hundredths of a unit, rounded down. *)
Lemma hundredths d n :
  0 <= n → d ≠ 0%nat →
  padEnd (take 2 (fixed d n)) 2 48 =
    padStart (dec_of_nonneg (n mod 10 ^ Z.of_nat d * 100 / 10 ^ Z.of_nat d)) 2 48.
Proof.
  intros Hn Hd.
  assert (0 < 10 ^ Z.of_nat d) as Hp by (apply Z.pow_pos_nonneg; lia).
  pose proof (Z.mod_pos_bound n _ Hp).
  rewrite <- fixed_two; [|split; [apply Z.div_pos; lia | apply Z.div_lt_upper_bound; lia]].
  rewrite <- (fixed_mod d d n) by lia. set (r := n mod 10 ^ Z.of_nat d) in *.
  destruct (decide (d = 1%nat)) as [->|Hd1].
  - change (10 ^ Z.of_nat 1) with 10 in *.
    replace (r * 100 / 10) with (r * 10) by (rewrite <- (Z.div_mul (r * 10) 10) by lia; f_equal; lia).
    cbn [fixed app]. rewrite take_ge by (simpl; lia). unfold padEnd. simpl (2 - _)%nat.
    by rewrite Z.div_mul, Z.mod_mul by lia.
  - rewrite take_fixed by lia. unfold padEnd. rewrite length_fixed. simpl (2 - 2)%nat.
    rewrite app_nil_r. f_equal.
    assert (0 < 10 ^ Z.of_nat (d - 2)) by (apply Z.pow_pos_nonneg; lia).
    replace (Z.of_nat d) with (Z.of_nat (d - 2) + 2) by lia. rewrite Z.pow_add_r by lia.
    change (10 ^ 2) with 100. by rewrite Z.div_mul_cancel_r by lia.
Qed.

Lemma math_min_bigint a n :
  0 <= n → a <= 2 ^ 53 →
  math_min (num_of_Z a) (Number_of_bigint n) = num_of_Z (Z.min a n).
Proof.
  intros Hn Ha. unfold math_min, Number_of_bigint. destruct (Z.ltb_spec n 0); [lia|].
  rewrite isNaN_num_of_Z. destruct (Z.leb_spec n (2 ^ 53)).
  - rewrite round_ratio_exact, isNaN_num_of_Z, num_lt_of_Z by lia. simpl.
    destruct (Z.ltb_spec n a); f_equal; lia.
  - destruct (round_ratio_large n a) as [-> ->]; [lia..|]. simpl. f_equal. lia.
Qed.

(** ** Properties *)

(** C21. A non-negative amount with at least one decimal is printed as its whole
    units, in groups of three digits from the right, then the hundredths rounded
    down on exactly two digits, then the currency: nothing is lost but the digits
    below one hundredth. *)
Theorem formatTokenAmount_correct (amount : Z) (decimals : nat) :
  0 <= amount → decimals ≠ 0%nat →
  let unit := 10 ^ Z.of_nat decimals in
  ∃ g gs, grouping (dec_of_nonneg (amount / unit)) g gs ∧
    formatTokenAmount amount decimals =
      join [44] (g :: gs) ++ js "." ++
      padStart (dec_of_nonneg (amount mod unit * 100 / unit)) 2 48 ++ js " CVT".
Proof.
  intros Ha Hd unit.
  assert (0 <= amount / unit) by (apply Z.div_pos; [lia | apply Z.pow_pos_nonneg; lia]).
  destruct (group_thousands_spec (dec_of_nonneg (amount / unit))) as (g & gs & Heq & Hg);
    [apply dec_of_nonneg_ne | by apply dec_of_nonneg_digits|].
  exists g, gs. split; [done|]. unfold formatTokenAmount.
  destruct (Nat.eqb_spec decimals 0); [done|].
  rewrite dec_of_nonneg_eq, Nat.add_1_r, padStart_dec by done. fold unit.
  rewrite <- (length_fixed decimals amount) at 2 4.
  rewrite slice_butlast_app, slice_last_app, Heq. unfold slice. rewrite drop_0.
  by rewrite hundredths.
Qed.

(** The quorum bar of a card, for tallies and a quorum that are not negative,
    is the integer percentage of the quorum reached, rounded down and capped at
    100: it shows 100 exactly when the votes reach the quorum, and 0 when there is
    no quorum to reach. *)
Theorem quorumPct_correct (p : Proposal) :
  0 <= totalVotes p → 0 <= quorum p →
  if quorum p =? 0 then quorumPct p = num_of_Z 0
  else quorumPct p = num_of_Z (Z.min 100 (totalVotes p * 100 / quorum p)) ∧
       (quorumPct p = num_of_Z 100 ↔ quorum p <= totalVotes p).
Proof.
  intros Ht Hq. unfold quorumPct. destruct (Z.eqb_spec (quorum p) 0) as [|Hne]; [done|].
  rewrite Z.quot_div_nonneg by lia.
  assert (0 <= totalVotes p * 100 / quorum p) by (apply Z.div_pos; lia).
  rewrite math_min_bigint by lia. split; [done|].
  assert (100 <= totalVotes p * 100 / quorum p ↔ quorum p <= totalVotes p) as Hiff.
  { split; intros Hle.
    - apply (Z.mul_le_mono_nonneg_r _ _ (quorum p)) in Hle; [|lia].
      pose proof (Z.mul_div_le (totalVotes p * 100) (quorum p)). lia.
    - apply Z.div_le_lower_bound; lia. }
  rewrite <- Hiff. split; [intros Heq%num_of_Z_inj; lia | intros; f_equal; lia].
Qed.

(** Both theorems at concrete inputs. *)
Lemma formatTokenAmount_correct_witness :
  ∃ g gs, grouping (dec_of_nonneg 1234567) g gs ∧
    formatTokenAmount 12345678901234 7 = join [44] (g :: gs) ++ js ".89 CVT".
Proof.
  destruct (formatTokenAmount_correct 12345678901234 7 ltac:(lia) ltac:(lia)) as (g & gs & Hg & Heq).
  exists g, gs. split; [exact Hg|]. rewrite Heq. reflexivity.
Defined.

Definition sample_proposal : Proposal := {|
  id := 7; proposer := js "G"; title := js "t"; description := js "d"; cancellation_reason := None;
  votes_yes := 40; votes_no := 25; votes_abstain := 10; quorum := 100;
  start_time := 0; end_time := 10; state := Active |}.

Lemma quorumPct_correct_witness : quorumPct sample_proposal = num_of_Z 75.
Proof.
  destruct (quorumPct_correct sample_proposal ltac:(vm_compute; done) ltac:(vm_compute; done)) as [H _].
  exact H.
Defined.
End Format.
