(* ===== verification/Pagination.v ===== *)
(** * The paginated proposal list of the front end
    (frontend/src/components/Pagination.tsx and the list of frontend/src/App.tsx)

    [Pagination] is the navigation component: the page numbers it offers, the
    summary it announces and which buttons are disabled. [ProposalList] is the
    part of the application component that filters, clamps and slices, with the
    handlers that change its state. Unicode lower-casing is a parameter. *)
From Stdlib Require Import Ascii String ZArith Lia Sorted.
From stdpp Require Import prelude list strings sorting.
From S2P Require Import Prelude JsString JsNumber Format.
Local Open Scope Z_scope.

Module Pagination.

(** ** buildPageNumbers *)
(** A JavaScript Set of numbers, in insertion order. *)
Definition set_add (x : Z) (s : list Z) : list Z :=
  if bool_decide (x ∈ s) then s else s ++ [x].

(** [for (let i = lo; i <= hi; i++) window.add(i)]; the window is three wide, so
    three turns are enough. *)
Fixpoint add_range (fuel : nat) (i hi : Z) (s : list Z) : list Z :=
  match fuel with
  | O => s
  | S f => if i <=? hi then add_range f (i + 1) hi (set_add i s) else s
  end.

Fixpoint insert_sorted (x : Z) (l : list Z) : list Z :=
  match l with
  | [] => [x]
  | y :: l' => if x <=? y then x :: l else y :: insert_sorted x l'
  end.
(** [sort((a, b) => a - b)] *)
Definition sort_numbers (l : list Z) : list Z := foldr insert_sorted [] l.

(** The loop that inserts [null] where numbers are skipped. *)
Fixpoint with_gaps (prev : option Z) (l : list Z) : list (option Z) :=
  match l with
  | [] => []
  | x :: l' =>
      (match prev with Some p => if 1 <? x - p then [None] else [] | None => [] end)
        ++ Some x :: with_gaps (Some x) l'
  end.

Definition page_window (current total : Z) : list Z :=
  add_range 3 (Z.max 1 (current - 1)) (Z.min total (current + 1)) (set_add total (set_add 1 [])).

Definition buildPageNumbers (current total : Z) : list (option Z) :=
  if total <=? 1 then [] else with_gaps None (sort_numbers (page_window current total)).

(** ** The component *)
Inductive Item := Ellipsis | PageButton (num : Z) (disabled : bool).
Record View := {
  summaryText : jstr;
  prevDisabled : bool;
  items : list Item;
  indicator : option jstr;      (* "page / total" when there is no onPage handler *)
  nextDisabled : bool }.

Definition summary_start (page totalCount pageSize : Z) : Z :=
  if totalCount =? 0 then 0 else (page - 1) * pageSize + 1.
Definition summary_end (page totalCount pageSize : Z) : Z := Z.min (page * pageSize) totalCount.

Definition Pagination (page totalPages totalCount pageSize : Z) (has_onPage : bool) : View :=
  let start := summary_start page totalCount pageSize in
  let end_ := summary_end page totalCount pageSize in {|
  summaryText :=
    if totalCount =? 0 then js "0 proposals"
    else dec_of start ++ js "–" ++ dec_of end_ ++ js " of " ++ dec_of totalCount ++ js " proposal"
         ++ (if totalCount =? 1 then [] else js "s");
  prevDisabled := page <=? 1;
  items := (λ num, match num with
                   | None => Ellipsis
                   | Some n => PageButton n (n =? page)
                   end) <$> (if has_onPage then buildPageNumbers page totalPages else []);
  indicator :=
    if has_onPage then None
    else Some (dec_of page ++ js " / " ++ dec_of (if totalPages =? 0 then 1 else totalPages));
  nextDisabled := totalPages <=? page |}.

Example pages_mid : buildPageNumbers 5 10 =
  [Some 1; None; Some 4; Some 5; Some 6; None; Some 10].
Proof. reflexivity. Qed.
Example pages_start : buildPageNumbers 1 3 = [Some 1; Some 2; Some 3].
Proof. reflexivity. Qed.

(** ** Lemmas *)
Lemma set_add_elem x y s : x ∈ set_add y s ↔ x = y ∨ x ∈ s.
Proof. unfold set_add. case_bool_decide; set_solver. Qed.
Lemma set_add_NoDup y s : NoDup s → NoDup (set_add y s).
Proof.
  intros Hs. unfold set_add. case_bool_decide; [done|]. apply NoDup_app. repeat split; [done| |apply NoDup_singleton].
  set_solver.
Qed.
Lemma add_range_elem f i hi s x :
  hi < i + Z.of_nat f → x ∈ add_range f i hi s ↔ x ∈ s ∨ i <= x <= hi.
Proof.
  revert i s; induction f as [|f IH]; intros i s Hf; cbn [add_range].
  - split; [by left|]. intros [?|?]; [done|lia].
  - destruct (Z.leb_spec i hi).
    + rewrite IH by lia. rewrite set_add_elem. intuition lia.
    + intuition lia.
Qed.
Lemma add_range_NoDup f i hi s : NoDup s → NoDup (add_range f i hi s).
Proof.
  revert i s; induction f as [|f IH]; intros i s Hs; [done|]. cbn [add_range].
  case_match; [|done]. by apply IH, set_add_NoDup.
Qed.

Lemma insert_sorted_elem x y l : x ∈ insert_sorted y l ↔ x = y ∨ x ∈ l.
Proof. induction l as [|z l IH]; simpl; [set_solver|]. case_match; set_solver. Qed.
Lemma insert_sorted_sorted x l :
  x ∉ l → StronglySorted Z.lt l → StronglySorted Z.lt (insert_sorted x l).
Proof.
  intros Hx Hl. induction Hl as [|y l Hl IH Hy]; simpl; [by repeat constructor|].
  destruct (Z.leb_spec x y).
  - assert (x < y) by (assert (x ≠ y) by set_solver; lia). constructor; [by constructor|].
    constructor; [done|]. eapply Forall_impl; [done|]. simpl. lia.
  - constructor; [apply IH; set_solver|]. apply list.Forall_forall.
    intros z [->|Hz]%insert_sorted_elem; [done|]. by eapply list.Forall_forall in Hy.
Qed.
Lemma sort_numbers_elem x l : x ∈ sort_numbers l ↔ x ∈ l.
Proof.
  unfold sort_numbers. induction l as [|y l IH]; simpl; [done|].
  rewrite insert_sorted_elem, IH. set_solver.
Qed.
Lemma sort_numbers_sorted l : NoDup l → StronglySorted Z.lt (sort_numbers l).
Proof.
  induction 1 as [|x l Hx _ IH]; [constructor|]. apply insert_sorted_sorted; [|done].
  by rewrite sort_numbers_elem.
Qed.

(** How entries follow each other: the next page directly, or a gap. *)
Inductive Gapped : list (option Z) → Prop :=
| gapped_nil : Gapped []
| gapped_one x : Gapped [Some x]
| gapped_next x l : Gapped (Some (x + 1) :: l) → Gapped (Some x :: Some (x + 1) :: l)
| gapped_skip x y l : x + 1 < y → Gapped (Some y :: l) → Gapped (Some x :: None :: Some y :: l).

Lemma with_gaps_gapped x l :
  StronglySorted Z.lt (x :: l) → Gapped (Some x :: with_gaps (Some x) l).
Proof.
  revert x; induction l as [|y l IH]; intros x Hs; [constructor|].
  apply StronglySorted_inv in Hs as [Hs Hx]. inversion Hx; subst. cbn [with_gaps].
  destruct (Z.ltb_spec 1 (y - x)).
  - apply gapped_skip; [lia|]. by apply IH.
  - assert (y = x + 1) as -> by lia. apply gapped_next. by apply IH.
Qed.

Lemma with_gaps_numbers prev l : omap (λ o, o) (with_gaps prev l) = l.
Proof.
  revert prev; induction l as [|x l IH]; intros prev; [done|]. cbn [with_gaps].
  rewrite omap_app_lists. destruct prev as [p|]; [destruct (1 <? x - p)|]; csimpl; by rewrite IH.
Qed.

Lemma page_window_elem current total x :
  x ∈ page_window current total ↔
    x = 1 ∨ x = total ∨ (1 <= x <= total ∧ current - 1 <= x <= current + 1).
Proof.
  unfold page_window. rewrite add_range_elem by lia. rewrite !set_add_elem. set_unfold. lia.
Qed.

Lemma page_window_NoDup current total : NoDup (page_window current total).
Proof. apply add_range_NoDup, set_add_NoDup, set_add_NoDup. constructor. Qed.

Lemma page_window_length current total : (length (page_window current total) ≤ 5)%nat.
Proof.
  assert (∀ x s, (length (set_add x s) ≤ S (length s))%nat) as Hadd.
  { intros x s. unfold set_add. case_bool_decide; [lia|]. rewrite length_app. simpl. lia. }
  assert (∀ f i hi s, (length (add_range f i hi s) ≤ length s + f)%nat) as Hr.
  { induction f as [|f IH]; intros; cbn [add_range]; [lia|]. case_match; [|lia].
    etransitivity; [apply IH|]. pose proof (Hadd i s). lia. }
  unfold page_window. etransitivity; [apply Hr|].
  pose proof (Hadd total (set_add 1 [])). pose proof (Hadd 1 []). simpl in *. lia.
Qed.

(** ** Properties *)

(** With more than one page the page numbers offered are, in increasing
    order, exactly the first, the last and those at distance at most one of the
    current page, at most five of them; between two of them there is an ellipsis
    exactly when pages are skipped, and none at the ends. *)
Theorem buildPageNumbers_correct (current total : Z) :
  1 < total →
  let result := buildPageNumbers current total in
  let numbers := omap (λ o, o) result in
  StronglySorted Z.lt numbers ∧ (length numbers ≤ 5)%nat ∧ Gapped result ∧
  ∀ x, x ∈ numbers ↔ 1 <= x <= total ∧ (x = 1 ∨ x = total ∨ Z.abs (x - current) <= 1).
Proof.
  intros Ht result numbers. unfold numbers, result, buildPageNumbers.
  destruct (Z.leb_spec total 1); [lia|]. rewrite with_gaps_numbers.
  pose proof (sort_numbers_sorted _ (page_window_NoDup current total)) as Hs.
  split_and!; [done | | |].
  - erewrite Permutation_length; [apply (page_window_length current total)|].
    apply NoDup_Permutation; [|apply page_window_NoDup | intros; apply sort_numbers_elem].
    clear -Hs. induction Hs as [|x l _ IH Hx]; constructor; [|done].
    intros Hin. eapply list.Forall_forall in Hx; [|done]. lia.
  - destruct (sort_numbers _) as [|x l]; [constructor|]. by apply with_gaps_gapped.
  - intros x. rewrite sort_numbers_elem, page_window_elem. lia.
Qed.

Lemma buildPageNumbers_correct_witness :
  Gapped (buildPageNumbers 5 10) ∧ 6 ∈ omap (λ o, o) (buildPageNumbers 5 10).
Proof.
  destruct (buildPageNumbers_correct 5 10 ltac:(lia)) as (_ & _ & Hg & Helem).
  split; [exact Hg|]. apply Helem. lia.
Defined.
End Pagination.

Module ProposalList.
Import Format.

Definition ALL_STATES : list ProposalState := [Active; Passed; Rejected; Executed; Cancelled].
Definition PAGE_SIZE : Z := 20.

(** The state of the application component that the list uses. [None] as
    [stateFilter] is the choice "All". *)
Record ListState := {
  proposals : list Proposal;
  decimals : Z;
  loading : bool;
  progress : option (Z * Z);
  error : option jstr;
  announcement : jstr;
  search : jstr;
  stateFilter : option ProposalState;
  page : Z;
  selected : option Proposal }.

Definition initial : ListState := {|
  proposals := []; decimals := 0; loading := true; progress := None; error := None;
  announcement := []; search := []; stateFilter := None; page := 1; selected := None |}.

Section list.
  Variable toLowerCase : jstr → jstr.

Definition keep (s : ListState) (p : Proposal) : bool :=
  let matchState := match stateFilter s with None => true | Some f => bool_decide (state p = f) end in
  let q := toLowerCase (search s) in
  let matchSearch := bool_decide (q = []) || includes (toLowerCase (title p)) q
                     || includes (toLowerCase (description p)) q in
  matchState && matchSearch.

Definition filtered (s : ListState) : list Proposal := filter (λ p, keep s p = true) (proposals s).

(** [Math.max(1, Math.ceil(filtered.length / PAGE_SIZE))] *)
Definition pages_for (n : Z) : Z := Z.max 1 ((n + PAGE_SIZE - 1) / PAGE_SIZE).
Definition totalPages (s : ListState) : Z := pages_for (Z.of_nat (length (filtered s))).
Definition safePage (s : ListState) : Z := Z.min (page s) (totalPages s).

Definition page_slice (l : list Proposal) (k : Z) : list Proposal :=
  let start := (k - 1) * PAGE_SIZE in
  take (Z.to_nat PAGE_SIZE) (drop (Z.to_nat start) l).
Definition pagedProposals (s : ListState) : list Proposal := page_slice (filtered s) (safePage s).

(** The counters of the statistics bar. *)
Definition stats (s : ListState) : list (jstr * Z) :=
  let count f := Z.of_nat (length (filter (λ p, state p = f) (proposals s))) in
  [(js "Total", Z.of_nat (length (proposals s))); (js "Active", count Active);
   (js "Passed", count Passed); (js "Executed", count Executed)].

(** ** Events *)
Definition set_page (k : Z) (s : ListState) : ListState := {|
  proposals := proposals s; decimals := decimals s; loading := loading s; progress := progress s;
  error := error s; announcement := announcement s; search := search s;
  stateFilter := stateFilter s; page := k; selected := selected s |}.

Definition set_query (q : jstr) (f : option ProposalState) (s : ListState) : ListState := {|
  proposals := proposals s; decimals := decimals s; loading := loading s; progress := progress s;
  error := error s; announcement := announcement s; search := q; stateFilter := f;
  (* the effect on [search, stateFilter] resets the page when one of them changed *)
  page := if bool_decide (q = search s) && bool_decide (f = stateFilter s) then page s else 1;
  selected := selected s |}.

Definition set_proposals (ps : list Proposal) (s : ListState) : ListState := {|
  proposals := ps; decimals := decimals s; loading := loading s; progress := progress s;
  error := error s; announcement := announcement s; search := search s;
  stateFilter := stateFilter s; page := page s; selected := selected s |}.

(** The first load settles. *)
Definition loaded (r : res jstr (list Proposal * Z)) (s : ListState) : ListState := {|
  proposals := match r with Ok (ps, _) => ps | Err _ => proposals s end;
  decimals := match r with Ok (_, d) => d | Err _ => decimals s end;
  loading := false; progress := None;
  error := match r with Ok _ => error s | Err e => Some e end;
  announcement :=
    match r with
    | Ok (ps, _) => dec_of (Z.of_nat (length ps)) ++ js " proposal"
                      ++ (if bool_decide (length ps = 1%nat) then [] else js "s") ++ js " loaded."
    | Err _ => []
    end;
  search := search s; stateFilter := stateFilter s; page := page s; selected := selected s |}.

Definition onPrev (s : ListState) : ListState := set_page (Z.max 1 (page s - 1)) s.
Definition onNext (s : ListState) : ListState := set_page (Z.min (totalPages s) (page s + 1)) s.

Definition select (p : option Proposal) (s : ListState) : ListState := {|
  proposals := proposals s; decimals := decimals s; loading := loading s; progress := progress s;
  error := error s; announcement := announcement s; search := search s;
  stateFilter := stateFilter s; page := page s; selected := p |}.

Inductive Event :=
| Loaded (r : res jstr (list Proposal * Z))
| Refreshed (ps : list Proposal)
| Search (q : jstr)
| Filter (f : option ProposalState)
| Prev
| Next
| Select (p : option Proposal).

(** A disabled button does not call its handler, and the navigation is shown only
    when something is listed. *)
Definition handle (e : Event) (s : ListState) : ListState :=
  match e with
  | Loaded r => loaded r s
  | Refreshed ps => set_proposals ps s
  | Search q => set_query q (stateFilter s) s
  | Filter f => set_query (search s) f s
  | Prev => if loading s || bool_decide (filtered s = []) || (safePage s <=? 1) then s else onPrev s
  | Next => if loading s || bool_decide (filtered s = []) || (totalPages s <=? safePage s) then s
            else onNext s
  | Select p => select p s
  end.

Definition handle_all (es : list Event) (s : ListState) : ListState := foldl (flip handle) s es.

(** ** Lemmas *)
Lemma pages_for_bounds n : 0 <= n → n <= pages_for n * PAGE_SIZE.
Proof.
  intros Hn. unfold pages_for, PAGE_SIZE.
  pose proof (Z.div_mod (n + 20 - 1) 20 ltac:(lia)). pose proof (Z.mod_pos_bound (n + 20 - 1) 20).
  lia.
Qed.
Lemma pages_for_last n k : 0 < n → 1 <= k <= pages_for n → (k - 1) * PAGE_SIZE < n.
Proof.
  intros Hn Hk. unfold pages_for, PAGE_SIZE in *.
  pose proof (Z.div_mod (n + 20 - 1) 20 ltac:(lia)). pose proof (Z.mod_pos_bound (n + 20 - 1) 20).
  lia.
Qed.

Lemma handle_page e s : 1 <= page s → 1 <= page (handle e s).
Proof.
  intros Hp. destruct e; simpl; try done; repeat case_match; simpl; try lia.
  pose proof (Z.le_max_l 1 ((Z.of_nat (length (filtered s)) + PAGE_SIZE - 1) / PAGE_SIZE)).
  unfold totalPages, pages_for. lia.
Qed.

Lemma handle_all_page es : 1 <= page (handle_all es initial).
Proof.
  apply (fold_preserves handle (λ s, 1 <= page s)); [intros; by apply handle_page | simpl; lia].
Qed.

Lemma safePage_range s : 1 <= page s → 1 <= safePage s <= totalPages s.
Proof. unfold safePage, totalPages, pages_for. lia. Qed.

Lemma page_slice_length l k :
  1 <= k → Z.of_nat (length (page_slice l k)) =
    Z.max 0 (Z.min PAGE_SIZE (Z.of_nat (length l) - (k - 1) * PAGE_SIZE)).
Proof. intros. unfold page_slice, PAGE_SIZE. rewrite length_take, length_drop. lia. Qed.

Lemma pages_take l n :
  mjoin (page_slice l <$> (Z.of_nat <$> seq 1 n)) = take (n * Z.to_nat PAGE_SIZE) l.
Proof.
  induction n as [|n IH]; [done|]. rewrite seq_S, !fmap_app, join_app, IH. csimpl.
  rewrite app_nil_r. unfold page_slice at 1. unfold PAGE_SIZE in *.
  replace (Z.to_nat ((Z.of_nat (S n) - 1) * 20)) with (n * Z.to_nat 20)%nat by lia.
  rewrite take_take_drop. f_equal. lia.
Qed.

Lemma filtered_set_page k s : filtered (set_page k s) = filtered s.
Proof. done. Qed.

(** ** Properties *)

(** C22. Whatever the user and the loads do, the pages partition the matching
    proposals in order, the page shown is one of them, and the navigation tells
    the truth about it: the announced range has exactly as many entries as are
    shown, starts right after the previous pages and is not empty unless nothing
    matches, and the buttons are disabled exactly at the first and last page. *)
Theorem pages_partition_the_list (es : list Event) :
  let s := handle_all es initial in
  let count := Z.of_nat (length (filtered s)) in
  let start := Pagination.summary_start (safePage s) count PAGE_SIZE in
  let end_ := Pagination.summary_end (safePage s) count PAGE_SIZE in
  let nav := Pagination.Pagination (safePage s) (totalPages s) count PAGE_SIZE false in
  mjoin (page_slice (filtered s) <$> (Z.of_nat <$> seq 1 (Z.to_nat (totalPages s)))) = filtered s ∧
  1 <= safePage s <= totalPages s ∧
  pagedProposals s = page_slice (filtered s) (safePage s) ∧
  (filtered s ≠ [] →
     start = (safePage s - 1) * PAGE_SIZE + 1 ∧ start <= end_ <= count ∧
     Z.of_nat (length (pagedProposals s)) = end_ - start + 1) ∧
  (Pagination.prevDisabled nav = true ↔ safePage s = 1) ∧
  (Pagination.nextDisabled nav = true ↔ safePage s = totalPages s).
Proof.
  intros s count start end_ nav.
  pose proof (safePage_range s (handle_all_page es)) as Hsp.
  pose proof (pages_for_bounds count ltac:(lia)) as Hb.
  change (pages_for count) with (totalPages s) in Hb.
  split_and!; [ | lia | lia | done | | | ].
  - rewrite pages_take. apply take_ge. unfold PAGE_SIZE in *. lia.
  - intros Hne. assert (0 < count) as Hc.
    { unfold count. destruct (filtered s); [done|]. simpl; lia. }
    pose proof (pages_for_last count (safePage s) Hc Hsp) as Hl.
    unfold start, end_, Pagination.summary_start, Pagination.summary_end.
    destruct (Z.eqb_spec count 0); [lia|]. unfold pagedProposals.
    rewrite page_slice_length by lia. fold count. unfold PAGE_SIZE in *. lia.
  - simpl. rewrite Z.leb_le. lia.
  - simpl. rewrite Z.leb_le. lia.
Qed.

(** As long as the list has not shrunk below the page the user is on, Prev
    and Next show the neighbouring page; after it has shrunk, an enabled Prev
    shows the same page again. *)
Theorem navigation_moves_one_page (s : ListState) :
  loading s = false → filtered s ≠ [] → 1 <= page s →
  if page s <=? totalPages s
  then safePage (handle Prev s) = Z.max 1 (safePage s - 1) ∧
       safePage (handle Next s) = Z.min (totalPages s) (safePage s + 1)
  else safePage s = totalPages s ∧ pagedProposals (handle Prev s) = pagedProposals s.
Proof.
  intros Hload Hne Hp. pose proof (safePage_range s Hp) as Hsp.
  assert (∀ k, totalPages (set_page k s) = totalPages s) as Ht by done.
  simpl. rewrite Hload, bool_decide_false by done. simpl.
  destruct (Z.leb_spec (page s) (totalPages s)) as [Hle|Hgt].
  - assert (safePage s = page s) as Heq by (unfold safePage; lia). rewrite Heq in *.
    split; case_match; bool_prop; unfold safePage, onPrev, onNext; rewrite ?Ht; simpl; lia.
  - assert (safePage s = totalPages s) as Heq by (unfold safePage; lia). split; [done|].
    case_match; [done|]. unfold pagedProposals, onPrev, safePage. rewrite Ht, filtered_set_page.
    simpl. f_equal. lia.
Qed.

End list.

(** A concrete history: four pages, the last one shown, then a refresh
    that leaves two. *)
Definition shrunk : ListState :=
  handle_all (λ q, q) [Loaded (Ok (replicate 61 sample_proposal, 7)); Next; Next; Next;
    Refreshed (replicate 21 sample_proposal)] initial.

Lemma navigation_moves_one_page_witness :
  page shrunk = 4 ∧ safePage (λ q, q) shrunk = 2 ∧
  pagedProposals (λ q, q) (handle (λ q, q) Prev shrunk) = pagedProposals (λ q, q) shrunk.
Proof.
  split; [reflexivity|].
  pose proof (navigation_moves_one_page (λ q, q) shrunk eq_refl ltac:(by vm_compute)
    ltac:(by vm_compute)) as H.
  change (page shrunk <=? totalPages (λ q, q) shrunk) with false in H.
  destruct H as [H1 H2]. split; [rewrite H1; reflexivity | exact H2].
Defined.
End ProposalList.
