(* ===== verification/Soroban.v ===== *)
(** * What the contracts use of the Soroban host and of Rust's integers

    A contract call runs in a context: the ledger's sequence number and closing
    time, and the addresses that have authorised it. It returns a value, one of
    the contract's own errors, or traps: [require_auth] without authorisation,
    [unwrap] of nothing, and arithmetic overflow, which the release profile
    checks (Cargo.toml: overflow-checks). A call that does not return a value
    leaves the state as it was. The expiry of stored entries is in [Rent] and
    [TokenRent]. *)
From Stdlib Require Import Ascii String ZArith Lia.
From stdpp Require Import prelude list gmap.
From S2P Require Import Prelude JsString.
Local Open Scope Z_scope.

(** ** Machine integers, as integers with their range. *)
Definition i128_max : Z := 2 ^ 127 - 1.
Definition in_i128 (z : Z) : bool := (- 2 ^ 127 <=? z) && (z <=? i128_max).
Definition in_u64 (z : Z) : bool := (0 <=? z) && (z <? 2 ^ 64).
Definition in_u32 (z : Z) : bool := (0 <=? z) && (z <? 2 ^ 32).

Definition checked_add (a b : Z) : option Z := if in_i128 (a + b) then Some (a + b) else None.
Definition checked_mul (a b : Z) : option Z := if in_i128 (a * b) then Some (a * b) else None.
Definition saturating_add (a b : Z) : Z := Z.max (- 2 ^ 127) (Z.min i128_max (a + b)).

Module Soroban.

Inductive failure (E : Type) := Contract (e : E) | Trap.
Arguments Contract {E} e.
Arguments Trap {E}.

Notation address := jstr.

Record Ctx := { sequence : Z; timestamp : Z; authorized : address → bool }.

Section host.
  Context {E : Type}.

Definition require_auth (c : Ctx) (a : address) : res (failure E) () := ensure (authorized c a) Trap.
Definition unwrap {A} (o : option A) : res (failure E) A := ok_or o Trap.
(** [a + b] and [a - b] with overflow checks. *)
Definition add_i128 (a b : Z) : res (failure E) Z := if in_i128 (a + b) then Ok (a + b) else Err Trap.
Definition sub_i128 (a b : Z) : res (failure E) Z := if in_i128 (a - b) then Ok (a - b) else Err Trap.
Definition add_u64 (a b : Z) : res (failure E) Z := if in_u64 (a + b) then Ok (a + b) else Err Trap.
Definition add_u32 (a b : Z) : res (failure E) Z := if in_u32 (a + b) then Ok (a + b) else Err Trap.

Lemma in_i128_spec z : in_i128 z = true ↔ - 2 ^ 127 <= z <= i128_max.
Proof. unfold in_i128. rewrite andb_true_iff, !Z.leb_le. done. Qed.

Lemma add_i128_Ok a b r : add_i128 a b = Ok r → r = a + b ∧ in_i128 r = true.
Proof. unfold add_i128. destruct (in_i128 (a + b)) eqn:H; [intros [= <-]|]; done. Qed.
Lemma sub_i128_Ok a b r : sub_i128 a b = Ok r → r = a - b ∧ in_i128 r = true.
Proof. unfold sub_i128. destruct (in_i128 (a - b)) eqn:H; [intros [= <-]|]; done. Qed.
Lemma add_u64_Ok a b r : add_u64 a b = Ok r → r = a + b ∧ 0 <= r < 2 ^ 64.
Proof.
  unfold add_u64. destruct (in_u64 (a + b)) eqn:H; [intros [= <-]|done].
  unfold in_u64 in H. bool_prop. lia.
Qed.
Lemma add_u32_Ok a b r : add_u32 a b = Ok r → r = a + b.
Proof. unfold add_u32. destruct (in_u32 (a + b)); [by intros [= <-]|done]. Qed.
End host.

(** ** Sums over a map *)
Section total.
  Context {K : Type} `{Countable K} {V : Type}.

Definition map_total (f : K → V → Z) (m : gmap K V) : Z := map_fold (λ k v acc, f k v + acc) 0 m.

Lemma map_total_empty f : map_total f ∅ = 0.
Proof. done. Qed.

Lemma map_total_new f m k v : m !! k = None → map_total f (<[k := v]> m) = f k v + map_total f m.
Proof. intros Hk. unfold map_total. rewrite map_fold_insert_L; [done| |done]. intros. lia. Qed.

Lemma map_total_delete f m k :
  map_total f (delete k m) = map_total f m - default 0 (f k <$> m !! k).
Proof.
  destruct (m !! k) as [v|] eqn:Hk; simpl.
  - rewrite <- (insert_delete_id m k v Hk) at 2. rewrite map_total_new by apply lookup_delete_eq. lia.
  - rewrite delete_id by done. lia.
Qed.

Lemma map_total_insert f m k v :
  map_total f (<[k := v]> m) = map_total f m - default 0 (f k <$> m !! k) + f k v.
Proof.
  rewrite <- insert_delete_eq, map_total_new, map_total_delete by apply lookup_delete_eq. lia.
Qed.

Lemma map_total_ext f g m :
  (∀ k v, m !! k = Some v → f k v = g k v) → map_total f m = map_total g m.
Proof.
  induction m as [|k v m Hk IH] using map_ind; intros Heq; [done|].
  rewrite !map_total_new by done. rewrite (Heq k v) by apply lookup_insert_eq. f_equal. apply IH.
  intros k' v' Hk'. apply Heq. rewrite lookup_insert_ne by congruence. done.
Qed.

Lemma map_total_nonneg f m : (∀ k v, m !! k = Some v → 0 <= f k v) → 0 <= map_total f m.
Proof.
  induction m as [|k v m Hk IH] using map_ind; intros Hall; [done|].
  rewrite map_total_new by done. pose proof (Hall k v (lookup_insert_eq _ _ _)).
  assert (0 <= map_total f m); [|lia]. apply IH. intros k' v' Hk'. apply (Hall k').
  rewrite lookup_insert_ne by congruence. done.
Qed.

Lemma map_total_member f m k :
  (∀ k v, m !! k = Some v → 0 <= f k v) → default 0 (f k <$> m !! k) <= map_total f m.
Proof.
  intros Hall. pose proof (map_total_delete f m k) as Hd.
  assert (0 <= map_total f (delete k m)); [|lia]. apply map_total_nonneg.
  intros k' v' [_ Hk']%lookup_delete_Some. by apply (Hall k').
Qed.

Lemma map_total_add f g m :
  map_total (λ k v, f k v + g k v) m = map_total f m + map_total g m.
Proof.
  induction m as [|k v m Hk IH] using map_ind; [done|]. rewrite !map_total_new by done. lia.
Qed.
End total.
End Soroban.
