(* ===== verification/ContractTypes.v ===== *)
(** * Shared types of the governance contract
    (contracts/governance/src/types.rs)

    The error codes the contract returns, and the checks [create_proposal] makes
    on its arguments before it looks at any state: the two facts the front end
    has to agree with. *)
From Stdlib Require Import Ascii String ZArith Lia.
From stdpp Require Import prelude list strings.
From S2P Require Import Prelude JsString.
Local Open Scope Z_scope.

Module ContractTypes.

Inductive ContractError :=
| AlreadyInitialized
| NotInitialized
| ProposalNotFound
| ProposalNotActive
| ProposalNotPassed
| InvalidTitle
| InvalidDescription
| InvalidQuorum
| QuorumExceedsSupply
| InvalidDurationRange
| InsufficientBalance
| ProposalCooldown
| QuorumBelowFloor
| ProposalsStillActive
| VotingNotStarted
| VotingPeriodEnded
| VotingStillOpen
| AlreadyVoted
| NoVotingPower
| AdminVoteRestricted
| VoteNotFound
| VoteAlreadySame
| NotAdmin
| InvalidNewAdmin
| QuorumUpdateNotAllowed
| NoPendingAdmin
| NotPendingAdmin
| NotProposer
| VotesAlreadyCast
| InvalidLink
| ContractPaused
| NotPaused
| ArithmeticOverflow
| ExecutionFailed.
Global Instance ContractError_eq_dec : EqDecision ContractError.
Proof. solve_decision. Defined.

(** The [repr(u32)] discriminants. *)
Definition error_code (e : ContractError) : Z :=
  match e with
  | AlreadyInitialized => 1
  | NotInitialized => 2
  | ProposalNotFound => 10
  | ProposalNotActive => 11
  | ProposalNotPassed => 12
  | InvalidTitle => 13
  | InvalidDescription => 14
  | InvalidQuorum => 15
  | QuorumExceedsSupply => 16
  | InvalidDurationRange => 17
  | InsufficientBalance => 18
  | ProposalCooldown => 19
  | QuorumBelowFloor => 20
  | ProposalsStillActive => 21
  | VotingNotStarted => 22
  | VotingPeriodEnded => 23
  | VotingStillOpen => 24
  | AlreadyVoted => 25
  | NoVotingPower => 26
  | AdminVoteRestricted => 27
  | VoteNotFound => 28
  | VoteAlreadySame => 29
  | NotAdmin => 30
  | InvalidNewAdmin => 31
  | QuorumUpdateNotAllowed => 32
  | NoPendingAdmin => 33
  | NotPendingAdmin => 34
  | NotProposer => 35
  | VotesAlreadyCast => 36
  | InvalidLink => 37
  | ContractPaused => 40
  | NotPaused => 41
  | ArithmeticOverflow => 50
  | ExecutionFailed => 60
  end.

Definition error_name (e : ContractError) : jstr :=
  match e with
  | AlreadyInitialized => js "AlreadyInitialized"
  | NotInitialized => js "NotInitialized"
  | ProposalNotFound => js "ProposalNotFound"
  | ProposalNotActive => js "ProposalNotActive"
  | ProposalNotPassed => js "ProposalNotPassed"
  | InvalidTitle => js "InvalidTitle"
  | InvalidDescription => js "InvalidDescription"
  | InvalidQuorum => js "InvalidQuorum"
  | QuorumExceedsSupply => js "QuorumExceedsSupply"
  | InvalidDurationRange => js "InvalidDurationRange"
  | InsufficientBalance => js "InsufficientBalance"
  | ProposalCooldown => js "ProposalCooldown"
  | QuorumBelowFloor => js "QuorumBelowFloor"
  | ProposalsStillActive => js "ProposalsStillActive"
  | VotingNotStarted => js "VotingNotStarted"
  | VotingPeriodEnded => js "VotingPeriodEnded"
  | VotingStillOpen => js "VotingStillOpen"
  | AlreadyVoted => js "AlreadyVoted"
  | NoVotingPower => js "NoVotingPower"
  | AdminVoteRestricted => js "AdminVoteRestricted"
  | VoteNotFound => js "VoteNotFound"
  | VoteAlreadySame => js "VoteAlreadySame"
  | NotAdmin => js "NotAdmin"
  | InvalidNewAdmin => js "InvalidNewAdmin"
  | QuorumUpdateNotAllowed => js "QuorumUpdateNotAllowed"
  | NoPendingAdmin => js "NoPendingAdmin"
  | NotPendingAdmin => js "NotPendingAdmin"
  | NotProposer => js "NotProposer"
  | VotesAlreadyCast => js "VotesAlreadyCast"
  | InvalidLink => js "InvalidLink"
  | ContractPaused => js "ContractPaused"
  | NotPaused => js "NotPaused"
  | ArithmeticOverflow => js "ArithmeticOverflow"
  | ExecutionFailed => js "ExecutionFailed"
  end.

Definition all_errors : list ContractError :=
  [AlreadyInitialized; NotInitialized; ProposalNotFound; ProposalNotActive; ProposalNotPassed; InvalidTitle; InvalidDescription; InvalidQuorum; QuorumExceedsSupply; InvalidDurationRange; InsufficientBalance; ProposalCooldown; QuorumBelowFloor; ProposalsStillActive; VotingNotStarted; VotingPeriodEnded; VotingStillOpen; AlreadyVoted; NoVotingPower; AdminVoteRestricted; VoteNotFound; VoteAlreadySame; NotAdmin; InvalidNewAdmin; QuorumUpdateNotAllowed; NoPendingAdmin; NotPendingAdmin; NotProposer; VotesAlreadyCast; InvalidLink; ContractPaused; NotPaused; ArithmeticOverflow; ExecutionFailed].

(** The argument checks at the head of [create_proposal]; lengths of contract
    strings count UTF-8 bytes. *)
Definition check_create_args (title description : jstr) (link : option jstr) (quorum duration : Z)
    : res ContractError () :=
  _ ← ensure (negb ((utf8_length title =? 0) || (128 <? utf8_length title))) InvalidTitle;
  _ ← ensure (negb ((utf8_length description =? 0) || (1024 <? utf8_length description)))
        InvalidDescription;
  _ ← (match link with
       | Some l => ensure (negb ((utf8_length l =? 0) || (256 <? utf8_length l))) InvalidLink
       | None => Ok ()
       end);
  _ ← ensure (negb (quorum <=? 0)) InvalidQuorum;
  ensure (negb ((duration <? 60) || (2592000 <? duration))) InvalidDurationRange.

End ContractTypes.
