(* ===== verification/Errors.v ===== *)
(** * Error messages of the front end (frontend/src/errors.ts)

    The table that explains contract errors to the user, keyed by the error's
    name, and its comparison with the codes the contract defines. *)
From Stdlib Require Import Ascii String ZArith Lia.
From stdpp Require Import prelude list strings.
From S2P Require Import Prelude JsString ContractTypes.
Local Open Scope Z_scope.

Module Errors.
Import ContractTypes.

Record ErrorMessage := {
  code : Z;
  name : jstr;
  description : jstr;
  commonCause : jstr;
  resolution : jstr }.

Definition proposal_messages : list (jstr * ErrorMessage) :=
  [
   (js "AlreadyInitialized", {|
      code := 1; name := js "AlreadyInitialized";
      description := js "The contract has already been initialized and cannot be initialized again.";
      commonCause := js "The frontend attempted to initialize a contract that is already deployed and configured.";
      resolution := js "Skip contract initialization or use the existing deployed contract address." |});
   (js "NotInitialized", {|
      code := 2; name := js "NotInitialized";
      description := js "The contract has not been initialized yet and is not ready for use.";
      commonCause := js "A contract action was called before the initial setup step completed.";
      resolution := js "Ensure the contract has been initialized before invoking other methods." |});
   (js "ProposalNotFound", {|
      code := 10; name := js "ProposalNotFound";
      description := js "The requested proposal could not be found on-chain.";
      commonCause := js "The proposal ID is invalid or the proposal does not exist.";
      resolution := js "Refresh proposal data and verify the proposal ID." |});
   (js "ProposalNotActive", {|
      code := 11; name := js "ProposalNotActive";
      description := js "The proposal is not currently in an active voting state.";
      commonCause := js "The user attempted to vote on a proposal that is pending, passed, rejected, or cancelled.";
      resolution := js "Only vote on active proposals and refresh proposal state." |});
   (js "ProposalNotPassed", {|
      code := 12; name := js "ProposalNotPassed";
      description := js "The proposal did not pass and cannot be executed.";
      commonCause := js "The proposal failed quorum or majority requirements.";
      resolution := js "Check proposal results and review voting thresholds before execution." |});
   (js "InvalidTitle", {|
      code := 13; name := js "InvalidTitle";
      description := js "The proposal title is missing or exceeds the supported length.";
      commonCause := js "User entered an empty title or a title longer than 128 characters.";
      resolution := js "Use a non-empty title with 128 characters or fewer." |});
   (js "InvalidDescription", {|
      code := 14; name := js "InvalidDescription";
      description := js "The proposal description is missing or exceeds the supported length.";
      commonCause := js "User entered an empty description or a description longer than 1024 characters.";
      resolution := js "Use a non-empty description with 1024 characters or fewer." |});
   (js "InvalidQuorum", {|
      code := 15; name := js "InvalidQuorum";
      description := js "The specified quorum is invalid for this proposal.";
      commonCause := js "Quorum is zero, negative, or otherwise unsupported.";
      resolution := js "Choose a quorum greater than zero and within the allowed range." |});
   (js "QuorumExceedsSupply", {|
      code := 16; name := js "QuorumExceedsSupply";
      description := js "The quorum requirement is higher than the total token supply.";
      commonCause := js "Quorum was set too high compared to available voting supply.";
      resolution := js "Set a quorum value that is no larger than the total token supply." |});
   (js "InvalidDurationRange", {|
      code := 17; name := js "InvalidDurationRange";
      description := js "The voting duration is outside the allowed contract limits.";
      commonCause := js "The selected duration is shorter than 60 seconds or longer than the maximum allowed.";
      resolution := js "Choose a valid voting duration within the allowed interval." |});
   (js "InsufficientBalance", {|
      code := 18; name := js "InsufficientBalance";
      description := js "The account balance is too low to create a proposal or perform a token action.";
      commonCause := js "User has insufficient tokens for proposal creation, transfer, or voting operations.";
      resolution := js "Hold enough tokens in the account or use a different account with sufficient balance." |});
   (js "ProposalCooldown", {|
      code := 19; name := js "ProposalCooldown";
      description := js "The proposer is still in a cooldown period and cannot submit another proposal yet.";
      commonCause := js "A proposal was created too recently and the cooldown timer has not expired.";
      resolution := js "Wait until the proposer cooldown period ends before submitting another proposal." |})].

Definition voting_admin_token_messages : list (jstr * ErrorMessage) :=
  [
   (js "VotingNotStarted", {|
      code := 20; name := js "VotingNotStarted";
      description := js "Voting has not started for this proposal yet.";
      commonCause := js "The proposal voting window is not open yet.";
      resolution := js "Wait until voting begins before casting a vote." |});
   (js "VotingPeriodEnded", {|
      code := 21; name := js "VotingPeriodEnded";
      description := js "The voting period has already ended for this proposal.";
      commonCause := js "The proposal voting window is closed.";
      resolution := js "Review proposal results instead of attempting to vote." |});
   (js "VotingStillOpen", {|
      code := 22; name := js "VotingStillOpen";
      description := js "The proposal voting period is still open and cannot be finalized yet.";
      commonCause := js "A finalization or execution action was attempted before voting ended.";
      resolution := js "Wait for the voting period to finish before finalizing or executing." |});
   (js "AlreadyVoted", {|
      code := 23; name := js "AlreadyVoted";
      description := js "The voter has already voted on this proposal.";
      commonCause := js "The same account attempted to vote more than once on the same proposal.";
      resolution := js "Use a different account or view the existing vote status." |});
   (js "NoVotingPower", {|
      code := 24; name := js "NoVotingPower";
      description := js "The account has no voting power for this proposal.";
      commonCause := js "The voter holds zero governance tokens or voting power is not available.";
      resolution := js "Acquire governance tokens before attempting to vote." |});
   (js "AdminVoteRestricted", {|
      code := 25; name := js "AdminVoteRestricted";
      description := js "The admin is not allowed to vote on their own proposals.";
      commonCause := js "An admin account tried to vote on a proposal it created or controls.";
      resolution := js "Use a non-admin account to vote on the proposal." |});
   (js "VoteNotFound", {|
      code := 26; name := js "VoteNotFound";
      description := js "No vote record was found for the given voter and proposal.";
      commonCause := js "The user has not voted yet or the wrong proposal ID was queried.";
      resolution := js "Confirm the proposal ID and vote status, then vote if needed." |});
   (js "NotAdmin", {|
      code := 30; name := js "NotAdmin";
      description := js "The caller is not authorized as the admin for the contract action.";
      commonCause := js "A restricted admin-only operation was attempted from a non-admin account.";
      resolution := js "Use the admin account or remove the admin-only restriction." |});
   (js "InvalidNewAdmin", {|
      code := 31; name := js "InvalidNewAdmin";
      description := js "The new admin address provided is invalid.";
      commonCause := js "An incorrect or malformed address was supplied when changing admin.";
      resolution := js "Verify and provide a valid Stellar address for the new admin." |});
   (js "ContractPaused", {|
      code := 40; name := js "ContractPaused";
      description := js "The contract is currently paused and cannot perform this action.";
      commonCause := js "The admin paused the contract for maintenance or security reasons.";
      resolution := js "Wait until the contract is unpaused or contact the administrator." |});
   (js "NotPaused", {|
      code := 41; name := js "NotPaused";
      description := js "The contract is not paused and cannot be unpaused.";
      commonCause := js "An unpause action was attempted when the contract is already active.";
      resolution := js "Verify contract state before calling unpause." |});
   (js "ArithmeticOverflow", {|
      code := 50; name := js "ArithmeticOverflow";
      description := js "An arithmetic operation exceeded the contract’s safe numeric range.";
      commonCause := js "A numeric computation overflowed during vote or balance calculations.";
      resolution := js "Retry with valid values and check the contract configuration." |});
   (js "InvalidAmount", {|
      code := 20; name := js "InvalidAmount";
      description := js "The token transfer amount is invalid or non-positive.";
      commonCause := js "The user attempted to send zero or negative tokens.";
      resolution := js "Send a positive amount greater than zero." |});
   (js "AllowanceExceeded", {|
      code := 22; name := js "AllowanceExceeded";
      description := js "The spender’s allowance is insufficient for the requested transfer.";
      commonCause := js "A transfer-with-allowance was attempted without enough approved funds.";
      resolution := js "Increase the allowance or use a smaller transfer amount." |})].

Definition ERROR_MESSAGES : list (jstr * ErrorMessage) :=
  proposal_messages ++ voting_admin_token_messages.

(** The errors whose code changed in the contract after the table was written. *)
Definition renumbered : list ContractError :=
  [VotingNotStarted; VotingPeriodEnded; VotingStillOpen; AlreadyVoted; NoVotingPower;
   AdminVoteRestricted; VoteNotFound].

(** The errors the table does not explain. *)
Definition unexplained : list ContractError :=
  [QuorumBelowFloor; ProposalsStillActive; VoteAlreadySame; QuorumUpdateNotAllowed; NoPendingAdmin;
   NotPendingAdmin; NotProposer; VotesAlreadyCast; InvalidLink; ExecutionFailed].

Definition entry_ok (e : ContractError) : bool :=
  match assoc (error_name e) ERROR_MESSAGES with
  | None => bool_decide (e ∈ unexplained)
  | Some m =>
      if bool_decide (e ∈ renumbered)
      then bool_decide (Exists (λ e', e' ≠ e ∧ error_code e' = code m) all_errors)
      else bool_decide (e ∉ unexplained) && (code m =? error_code e)
  end.

Lemma entries_ok e : entry_ok e = true.
Proof. destruct e; vm_compute; reflexivity. Qed.

(** Every entry is stored under its own name. For every error of the
    governance contract except ten that have no entry, the table has one under
    its name; its code is the contract's, except for the seven voting errors,
    where the code shown is the code of another error of the contract. *)
Theorem error_table_codes :
  Forall (λ kv, name kv.2 = kv.1) ERROR_MESSAGES ∧
  ∀ e, match assoc (error_name e) ERROR_MESSAGES with
       | None => e ∈ unexplained
       | Some m =>
           if bool_decide (e ∈ renumbered)
           then ∃ e', e' ≠ e ∧ error_code e' = code m
           else e ∉ unexplained ∧ code m = error_code e
       end.
Proof.
  split; [apply (bool_decide_unpack _); by vm_compute|].
  intros e. pose proof (entries_ok e) as H. unfold entry_ok in H.
  repeat case_match; bool_prop; try done.
  apply Exists_exists in H as (e' & _ & He'). by exists e'.
Qed.
End Errors.
