(* ===== verification/Markup.v ===== *)
(** * Elements of the page, and what a gesture on them calls

    The tree a component of the front end returns: elements with their attributes,
    inline style and handlers, and texts. A click goes to the element it hits and
    then outwards, until a handler stops it; a disabled control gets no click; a
    click on a submit button submits the form around it, and so does Enter in one of
    its inputs, by way of the form's first submit button. That is the documented
    behaviour of the browser, as far as the components rely on it. *)
From Stdlib Require Import Ascii String ZArith Lia.
From stdpp Require Import prelude list strings.
From S2P Require Import Prelude JsString JsNumber.
Local Open Scope Z_scope.

Module Markup.

Inductive Tag :=
| Div | Span | Button | Input | Textarea | Form | Label | H2 | H3 | Paragraph | Nav | Article | Strong | StyleSheet.
Global Instance Tag_eq_dec : EqDecision Tag.
Proof. solve_decision. Defined.

Inductive AttrName :=
| Id | ClassName | Type_ | ValueAttr | Placeholder | MaxLength | Min | Max | Step | Rows | Disabled | HtmlFor
| AutoComplete | NoValidate | Role | AriaLabel | AriaLabelledby | AriaDescribedby | AriaInvalid | AriaRequired
| AriaModal | AriaDisabled | AriaHidden | AriaCurrent | AriaLive | AriaAtomic | AriaBusy.
Global Instance AttrName_eq_dec : EqDecision AttrName.
Proof. solve_decision. Defined.

Inductive EventName := OnClick | OnChange | OnBlur | OnSubmit.
Global Instance EventName_eq_dec : EqDecision EventName.
Proof. solve_decision. Defined.

(** The value of an attribute or of a property of a style. *)
Inductive Value := Txt (s : jstr) | Num (x : jsnum) | Bool (b : bool) | Undefined.
Global Instance Value_eq_dec : EqDecision Value.
Proof. solve_decision. Defined.

(** ** Styles: objects with the names of CSS properties *)
Definition Style := list (jstr * Value).
Definition css (k v : string) : jstr * Value := (js k, Txt (js v)).
Definition css_num (k : string) (n : Z) : jstr * Value := (js k, Num (num_of_Z n)).
(** A number with a fraction, as it is written. *)
Definition css_dec (k literal : string) : jstr * Value := (js k, Num (js_Number (js literal))).
Definition css_if (b : bool) (k v w : string) : jstr * Value := (js k, Txt (js (if b then v else w))).

Fixpoint put (k : jstr) (v : Value) (o : Style) : Style :=
  match o with
  | [] => [(k, v)]
  | (k', v') :: o' => if decide (k = k') then (k', v) :: o' else (k', v') :: put k v o'
  end.
(** [{ ...o, k: v, ... }] *)
Definition spread (o k : Style) : Style := foldl (λ o kv, put kv.1 kv.2 o) o k.

Lemma assoc_style_put k k' v (o : Style) : assoc k (put k' v o) = if decide (k = k') then Some v else assoc k o.
Proof.
  induction o as [|[a w] o IH]; cbn [put assoc].
  - case_decide; cbn [assoc]; by rewrite ?decide_True, ?decide_False.
  - destruct (decide (k' = a)) as [->|Ha]; cbn [assoc].
    + by case_decide.
    + rewrite IH. repeat case_decide; congruence.
Qed.
(** The last value given to a property counts. *)
Lemma assoc_spread (o k : Style) x :
  assoc x (spread o k) = match assoc x (reverse k) with Some v => Some v | None => assoc x o end.
Proof.
  revert o. induction k as [|[a v] k IH] using rev_ind; intros o; [done|].
  unfold spread in *. rewrite foldl_snoc, reverse_snoc, assoc_style_put. cbn [assoc fst snd].
  case_decide; [done|]. apply IH.
Qed.

(** ** Elements *)
Inductive Effect (A : Type) := Call (a : A) | StopPropagation | PreventDefault.
Arguments Call {A} a.
Arguments StopPropagation {A}.
Arguments PreventDefault {A}.

(** A handler is given the value of the control, if it looks at it. *)
Definition Handlers (A : Type) := list (EventName * (jstr → list (Effect A))).
Definition Attrs := list (AttrName * Value).

Inductive Node (A : Type) :=
| Text (s : jstr)
| Elem (tag : Tag) (attrs : Attrs) (style : Style) (on : Handlers A) (children : list (Node A)).
Arguments Text {A} s.
Arguments Elem {A} tag attrs style on children.

Section nodes.
  Context {A : Type}.
  Implicit Types (n m : Node A) (p : list nat).

Definition txt (s : string) : Node A := Text (js s).
(** [{cond && child}] *)
Definition when (b : bool) (n : Node A) : list (Node A) := if b then [n] else [].
Definition on_click (es : list (Effect A)) : EventName * (jstr → list (Effect A)) := (OnClick, λ _, es).

Definition Node_rect' (P : Node A → Prop)
    (HT : ∀ s, P (Text s))
    (HE : ∀ tag at_ st on cs, Forall P cs → P (Elem tag at_ st on cs)) : ∀ n, P n :=
  fix go n := match n with
              | Text s => HT s
              | Elem tag at_ st on cs => HE tag at_ st on cs
                  ((fix all l : Forall P l := match l with
                    | [] => @List.Forall_nil _ P
                    | c :: l' => @List.Forall_cons _ P c l' (go c) (all l')
                    end) cs)
              end.

Definition children n : list (Node A) := match n with Text _ => [] | Elem _ _ _ _ cs => cs end.
Definition attr (a : AttrName) n : option Value :=
  match n with Text _ => None | Elem _ at_ _ _ _ => assoc a at_ end.
Definition tag_of n : option Tag := match n with Text _ => None | Elem t _ _ _ _ => Some t end.
Definition style_of n : Style := match n with Text _ => [] | Elem _ _ st _ _ => st end.

(** The element at a path: the positions of the children on the way. *)
Fixpoint node_at p n : option (Node A) :=
  match p with
  | [] => Some n
  | i :: p' => children n !! i ≫= node_at p'
  end.

Fixpoint text_content n : jstr :=
  match n with Text s => s | Elem _ _ _ _ cs => List.concat (List.map text_content cs) end.
Fixpoint ids n : list jstr :=
  match n with
  | Text _ => []
  | Elem _ at_ _ _ cs =>
      (match assoc Id at_ with Some (Txt i) => [i] | _ => [] end) ++ List.concat (List.map ids cs)
  end.

Fixpoint first_some {B C} (f : nat → B → option C) (i : nat) (l : list B) : option C :=
  match l with
  | [] => None
  | x :: l' => match f i x with Some c => Some c | None => first_some f (S i) l' end
  end.
(** [document.getElementById], within the tree: in the order of the document. *)
Fixpoint by_id (i : jstr) n : option (Node A) :=
  match n with
  | Text _ => None
  | Elem _ at_ _ _ cs =>
      if decide (assoc Id at_ = Some (Txt i)) then Some n else first_some (λ _, by_id i) 0 cs
  end.

(** ** Controls *)
Definition is_control (t : Tag) : bool := match t with Button | Input | Textarea => true | _ => false end.
Definition disabled n : bool :=
  match n with
  | Elem t at_ _ _ _ => is_control t && bool_decide (assoc Disabled at_ = Some (Bool true))
  | Text _ => false
  end.
(** A button without a type is a submit button. *)
Definition submit_type (v : option Value) : bool :=
  match v with
  | Some (Txt t) => bool_decide (t = js "submit")
  | Some _ => false
  | None => true
  end.
Definition is_submit n : bool :=
  match n with Elem Button at_ _ _ _ => submit_type (assoc Type_ at_) | _ => false end.

(** ** Gestures *)
Record Outcome := { calls : list A; stopped : bool; prevented : bool }.
Definition quiet : Outcome := {| calls := []; stopped := false; prevented := false |}.
Definition effect (o : Outcome) (e : Effect A) : Outcome :=
  match e with
  | Call a => {| calls := calls o ++ [a]; stopped := stopped o; prevented := prevented o |}
  | StopPropagation => {| calls := calls o; stopped := true; prevented := prevented o |}
  | PreventDefault => {| calls := calls o; stopped := stopped o; prevented := true |}
  end.
(** The handlers of one element for an event, unless it was stopped further in. *)
Definition fire (e : EventName) (v : jstr) n (o : Outcome) : Outcome :=
  if stopped o then o
  else match n with
       | Elem _ _ _ on _ => match assoc e on with Some h => foldl effect o (h v) | None => o end
       | Text _ => o
       end.
(** An event at an element, bubbling outwards. *)
Fixpoint dispatch (e : EventName) (v : jstr) p n : option Outcome :=
  match p with
  | [] => Some (fire e v n quiet)
  | i :: p' => o ← children n !! i ≫= dispatch e v p'; Some (fire e v n o)
  end.

(** What a click meets on its way: a disabled control, the innermost button, the
    innermost form. *)
Fixpoint meets_disabled p n : bool :=
  match p with
  | [] => disabled n
  | i :: p' => disabled n || match children n !! i with Some c => meets_disabled p' c | None => false end
  end.
Definition own_button n : option (Node A) := match n with Elem Button _ _ _ _ => Some n | _ => None end.
Fixpoint button_on p n : option (Node A) :=
  match p with
  | [] => own_button n
  | i :: p' =>
      match children n !! i ≫= button_on p' with
      | Some b => Some b
      | None => own_button n
      end
  end.
Definition own_form n : option (Node A) := match n with Elem Form _ _ _ _ => Some n | _ => None end.
Fixpoint form_on p n : option (Node A) :=
  match p with
  | [] => own_form n
  | i :: p' =>
      match children n !! i ≫= form_on p' with
      | Some f => Some f
      | None => own_form n
      end
  end.

(** What the form around a submit button calls. *)
Definition submit_calls (b : Node A) (f : option (Node A)) : list A :=
  match f with
  | Some f => if is_submit b then calls (fire OnSubmit [] f quiet) else []
  | None => []
  end.
Definition submission p n : list A :=
  match button_on p n with Some b => submit_calls b (form_on p n) | None => [] end.
(** The calls a click makes; [None] where there is nothing to click. *)
Definition click p n : option (list A) :=
  o ← dispatch OnClick [] p n;
  Some (if meets_disabled p n then []
        else calls o ++ (if prevented o then [] else submission p n)).
Definition type_into (v : jstr) p n : option (list A) :=
  o ← dispatch OnChange v p n; Some (if meets_disabled p n then [] else calls o).
Definition leave p n : option (list A) := calls <$> dispatch OnBlur [] p n.

(** The first submit button inside an element, in the order of the document. *)
Fixpoint default_button n : option (list nat) :=
  match n with
  | Text _ => None
  | Elem _ _ _ _ cs =>
      if is_submit n then Some [] else first_some (λ i c, cons i <$> default_button c) 0 cs
  end.
(** The path of the innermost form. *)
Fixpoint form_path p n : option (list nat) :=
  match p with
  | [] => (λ _, []) <$> own_form n
  | i :: p' =>
      match children n !! i ≫= form_path p' with
      | Some q => Some (i :: q)
      | None => (λ _, []) <$> own_form n
      end
  end.
(** Enter in an input clicks the first submit button of its form. *)
Definition press_enter p n : option (list A) :=
  m ← node_at p n;
  match tag_of m, form_path p n with
  | Some Input, Some q =>
      match node_at q n ≫= default_button with
      | Some b => click (q ++ b) n
      | None => Some []
      end
  | _, _ => Some []
  end.

Inductive Gesture := Click (p : list nat) | Type_into (p : list nat) (v : jstr) | Leave (p : list nat)
  | Enter (p : list nat).
(** What a gesture calls, in order; nothing where there is nothing. *)
Definition gesture (g : Gesture) n : list A :=
  default [] match g with
             | Click p => click p n
             | Type_into p v => type_into v p n
             | Leave p => leave p n
             | Enter p => press_enter p n
             end.
End nodes.
Arguments Outcome A : clear implicits.

(** ** Parts of a tree that a click goes through *)
Section inert.
  Context {A : Type}.
  Implicit Types (n : Node A) (p : list nat).

(** No button, no form, nothing disabled and no handler for clicks. *)
Definition inert_here n : bool :=
  match n with
  | Text _ => true
  | Elem t at_ _ on _ =>
      negb (bool_decide (t = Button)) && negb (bool_decide (t = Form)) && negb (disabled n)
      && bool_decide (assoc OnClick on = None)
  end.
Fixpoint inert n : bool :=
  inert_here n && match n with Text _ => true | Elem _ _ _ _ cs => forallb inert cs end.

Lemma inert_child n i c : inert n = true → children n !! i = Some c → inert c = true.
Proof.
  destruct n as [|t at_ st on cs]; [done|]. cbn [inert children]. intros [_ Hc]%andb_true_iff Hi.
  rewrite forallb_forall in Hc. apply Hc. apply list_elem_of_In. by eapply list_elem_of_lookup_2.
Qed.
Lemma inert_fire n o : inert n = true → fire OnClick [] n o = o.
Proof.
  destruct n as [|t at_ st on cs]; unfold fire; [by case_match|]. cbn [inert inert_here].
  intros H. destruct (stopped o); [done|]. destruct (assoc OnClick on) eqn:He; [|done].
  bool_prop. congruence.
Qed.
Lemma inert_own n : inert n = true → disabled n = false ∧ own_button n = None ∧ own_form n = None.
Proof.
  destruct n as [|t at_ st on cs]; [done|]. cbn [inert inert_here]. intros H.
  apply andb_true_iff in H as [H _]. bool_prop. by destruct t.
Qed.

(** All that matters of a click inside an element. *)
Record Hit := {
  hit_outcome : Outcome A; hit_disabled : bool; hit_button : option (Node A); hit_form : option (Node A) }.
Definition missed : Hit := {|
  hit_outcome := quiet; hit_disabled := false; hit_button := None; hit_form := None |}.
Definition hit p n : option Hit :=
  (λ o, {| hit_outcome := o; hit_disabled := meets_disabled p n; hit_button := button_on p n;
           hit_form := form_on p n |}) <$> dispatch OnClick [] p n.
(** The click leaves a child. *)
Definition through n (h : Hit) : Hit := {|
  hit_outcome := fire OnClick [] n (hit_outcome h);
  hit_disabled := disabled n || hit_disabled h;
  hit_button := match hit_button h with Some b => Some b | None => own_button n end;
  hit_form := match hit_form h with Some f => Some f | None => own_form n end |}.

Lemma hit_nil n :
  hit [] n = Some {| hit_outcome := fire OnClick [] n quiet; hit_disabled := disabled n;
                     hit_button := own_button n; hit_form := own_form n |}.
Proof. done. Qed.
Lemma hit_cons i p n : hit (i :: p) n = through n <$> (children n !! i ≫= hit p).
Proof.
  unfold hit. cbn [dispatch meets_disabled button_on form_on].
  destruct (children n !! i) as [c|]; [|done]. cbn [mbind option_bind].
  by destruct (dispatch OnClick [] p c).
Qed.
Lemma click_hit p n :
  click p n =
    (λ h, if hit_disabled h then []
          else calls (hit_outcome h) ++ (if prevented (hit_outcome h) then [] else submission p n)) <$> hit p n.
Proof. unfold click, hit. by destruct (dispatch OnClick [] p n). Qed.

Lemma inert_hit n p h : inert n = true → hit p n = Some h → h = missed.
Proof.
  revert n h. induction p as [|i p IH]; intros n h Hn Hh; destruct (inert_own n Hn) as (Hd & Hb & Hf).
  - unfold hit in Hh. cbn [dispatch meets_disabled button_on form_on] in Hh. rewrite (inert_fire _ _ Hn), Hd, Hb, Hf in Hh.
    by injection Hh as <-.
  - rewrite hit_cons in Hh. apply fmap_Some in Hh as (h' & Hh & ->). apply bind_Some in Hh as (c & Hc & Hh).
    rewrite (IH c h' (inert_child _ _ _ Hn Hc) Hh). unfold through.
    cbn [missed hit_outcome hit_disabled hit_button hit_form]. by rewrite (inert_fire _ _ Hn), Hd, Hb, Hf.
Qed.

(** What a click meets that hits the button [b] (or none) inside the form [f] (or
    none), where nothing between handles clicks. *)
Definition found (b f : option (Node A)) : Hit := {|
  hit_outcome := match b with Some b => fire OnClick [] b quiet | None => quiet end;
  hit_disabled := match b with Some b => disabled b | None => false end;
  hit_button := b; hit_form := f |}.
(** A part of the page where clicks meet only what [P] says. *)
Definition region (P : option (Node A) → option (Node A) → Prop) n : Prop :=
  ∀ p h, hit p n = Some h → ∃ b f, P b f ∧ h = found b f.

Lemma region_inert P n : inert n = true → P None None → region P n.
Proof. intros Hn HP p h Hh. exists None, None. split; [done|]. by eapply inert_hit. Qed.
Lemma region_all_inert P l : forallb inert l = true → P None None → Forall (region P) l.
Proof.
  intros Hl HP. apply list.Forall_forall. intros n Hn. apply region_inert; [|done].
  rewrite forallb_forall in Hl. by apply Hl, list_elem_of_In.
Qed.
Lemma region_mono P Q n : (∀ b f, P b f → Q b f) → region P n → region Q n.
Proof. intros H Hn p h Hh. destruct (Hn p h Hh) as (b & f & HP & ->). eauto. Qed.
Lemma region_button P at_ st on cs :
  forallb inert cs = true → P (Some (Elem Button at_ st on cs)) None → region P (Elem Button at_ st on cs).
Proof.
  intros Hcs HP p h Hh. eexists _, _. split; [exact HP|]. destruct p as [|i p]; [by injection Hh as <-|].
  rewrite hit_cons in Hh. apply fmap_Some in Hh as (h' & Hh & ->). apply bind_Some in Hh as (c & Hc & Hh).
  rewrite forallb_forall in Hcs. apply inert_hit in Hh as ->.
  2: { apply Hcs, list_elem_of_In. by eapply list_elem_of_lookup_2. }
  unfold through, found. cbn [missed hit_outcome hit_disabled hit_button hit_form]. by rewrite orb_false_r.
Qed.
(** Through an element that is no control and handles no clicks, a form perhaps. *)
Lemma region_elem P Q t at_ st on cs :
  is_control t = false → assoc OnClick on = None →
  (∀ b f, P b f → Q b (match f with Some _ => f | None => own_form (Elem t at_ st on cs) end)) →
  Q None (own_form (Elem t at_ st on cs)) → Forall (region P) cs → region Q (Elem t at_ st on cs).
Proof.
  intros Ht Hon HPQ HQ Hcs p h Hh.
  assert (∀ o, fire OnClick [] (Elem t at_ st on cs : Node A) o = o) as Hf by (intros o; unfold fire; rewrite Hon; by case_match).
  assert (disabled (Elem t at_ st on cs : Node A) = false) as Hd by (cbn [disabled]; by rewrite Ht).
  assert (own_button (Elem t at_ st on cs : Node A) = None) as Hb by (by destruct t).
  destruct p as [|i p].
  - eexists _, _. split; [exact HQ|]. rewrite hit_nil in Hh. apply (inj Some) in Hh as <-.
    unfold found. by rewrite Hf, Hd, Hb.
  - rewrite hit_cons in Hh. apply fmap_Some in Hh as (h' & Hh & ->). apply bind_Some in Hh as (c & Hc & Hh).
    rewrite Forall_lookup in Hcs. destruct (Hcs i c Hc p h' Hh) as (b & f & HP & ->).
    eexists _, _. split; [exact (HPQ b f HP)|]. unfold through, found. cbn [hit_outcome hit_disabled hit_button hit_form].
    rewrite Hf, Hd, Hb. by destruct b, f.
Qed.
Lemma region_plain P t at_ st on cs :
  is_control t = false → t ≠ Form → assoc OnClick on = None → P None None →
  Forall (region P) cs → region P (Elem t at_ st on cs).
Proof.
  intros Ht Hf Hon HP. assert (own_form (Elem t at_ st on cs : Node A) = None) as Ho by (by destruct t).
  apply region_elem; rewrite ?Ho; try done. by intros b [].
Qed.

(** What pressing a button calls. *)
Definition pressed (b f : option (Node A)) : list A :=
  match b with
  | Some b =>
      if disabled b then []
      else calls (fire OnClick [] b quiet) ++
             (if prevented (fire OnClick [] b quiet) then [] else submit_calls b f)
  | None => []
  end.

Lemma pressed_button d at_ st a cs :
  pressed (Some (Elem Button ((Disabled, Bool d) :: at_) st [on_click [Call a]] cs)) None = if d then [] else [a].
Proof. by destruct d. Qed.
Lemma found_pressed b f :
  (if hit_disabled (found b f) then []
   else calls (hit_outcome (found b f)) ++
          (if prevented (hit_outcome (found b f)) then [] else match b with Some b => submit_calls b f | None => [] end))
  = pressed b f.
Proof. by destruct b. Qed.
Lemma region_click P n p l :
  region P n → click p n = Some l → ∃ b f, P b f ∧ button_on p n = b ∧ l = pressed b f.
Proof.
  intros Hn. rewrite click_hit. intros (h & Hh & ->)%fmap_Some. destruct (Hn p h Hh) as (b & f & HP & ->).
  exists b, f. unfold hit in Hh. apply fmap_Some in Hh as (o & _ & Ho). injection Ho as Ho Hd Hb Hf.
  split; [done|]. split; [done|]. unfold submission. by rewrite <- Hb, <- Hf, <- found_pressed.
Qed.

(** A dialog over a backdrop: a click on the backdrop makes its call, none inside the
    panel reaches it. *)
Definition modal (c : A) (a1 : Attrs) (st1 : Style) (a2 : Attrs) (st2 : Style) (cs : list (Node A)) : Node A :=
  Elem Div a1 st1 [on_click [Call c]] [Elem Div a2 st2 [on_click [StopPropagation]] cs].
Lemma modal_click P c a1 st1 a2 st2 cs p l :
  Forall (region P) cs → P None None → click p (modal c a1 st1 a2 st2 cs) = Some l →
  (p = [] ∧ l = [c]) ∨
  (p ≠ [] ∧ ∃ b f, P b f ∧ button_on p (modal c a1 st1 a2 st2 cs) = b ∧ l = pressed b f).
Proof.
  intros Hcs HP. rewrite click_hit. intros (h & Hh & ->)%fmap_Some.
  assert (button_on p (modal c a1 st1 a2 st2 cs) = hit_button h ∧ form_on p (modal c a1 st1 a2 st2 cs) = hit_form h)
    as [Hb Hf] by (unfold hit in Hh; by apply fmap_Some in Hh as (o & _ & ->)).
  destruct p as [|[|i] p]; [left|right|by rewrite hit_cons in Hh].
  { split; [done|]. by injection Hh as <-. }
  split; [done|]. unfold submission. rewrite Hb, Hf. clear Hb Hf. unfold modal in Hh. rewrite hit_cons in Hh.
  cbn [children lookup list_lookup mbind option_bind] in Hh. apply fmap_Some in Hh as (h1 & Hh & ->).
  destruct p as [|i p]; [injection Hh as <-; by exists None, None|]. rewrite hit_cons in Hh.
  apply fmap_Some in Hh as (h2 & Hh & ->). cbn [children] in Hh. apply bind_Some in Hh as (x & Hx & Hh).
  rewrite Forall_lookup in Hcs. destruct (Hcs i x Hx p h2 Hh) as (b & f & HPb & ->). exists b, f. split; [done|].
  destruct b as [b|]; [|by destruct f]. unfold through, found, pressed, submit_calls.
  cbn [hit_outcome hit_disabled hit_button hit_form own_form]. split; [done|].
  assert (fire OnClick [] (Elem Div a2 st2 [on_click [StopPropagation]] cs : Node A) (fire OnClick [] b quiet) =
    {| calls := calls (fire OnClick [] b quiet); stopped := true; prevented := prevented (fire OnClick [] b quiet) |}) as ->.
  { unfold fire at 1. destruct (fire OnClick [] b quiet) as [lc [] pr]; done. }
  unfold fire at 1 2. cbn [stopped calls prevented orb disabled is_control andb]. by destruct f.
Qed.
End inert.
Arguments Hit A : clear implicits.

(** ** Events that only single elements handle *)
Section sources.
  Context {A : Type}.
  Implicit Types (n : Node A) (p : list nat).

(** The handlers of an event in a tree, in the order of the document. *)
Fixpoint sources (e : EventName) n : list (jstr → list (Effect A)) :=
  match n with
  | Text _ => []
  | Elem _ _ _ on cs =>
      (match assoc e on with Some h => [h] | None => [] end) ++ List.concat (List.map (sources e) cs)
  end.
(** No handler of the event is inside another. *)
Fixpoint lone (e : EventName) n : bool :=
  match n with
  | Text _ => true
  | Elem _ _ _ on cs =>
      match assoc e on with
      | Some _ => match List.concat (List.map (sources e) cs) with [] => true | _ => false end
      | None => forallb (lone e) cs
      end
  end.

Lemma sources_plain e t at_ st on cs :
  assoc e on = None → sources e (Elem t at_ st on cs : Node A) = List.concat (List.map (sources e) cs).
Proof. intros H. cbn [sources]. by rewrite H. Qed.
Lemma lone_plain e t at_ st on cs :
  assoc e on = None → lone e (Elem t at_ st on cs : Node A) = forallb (lone e) cs.
Proof. intros H. cbn [lone]. by rewrite H. Qed.

Lemma concat_map_child {B} (f : Node A → list B) cs i c x :
  cs !! i = Some c → x ∈ f c → x ∈ List.concat (List.map f cs).
Proof.
  intros Hc Hx. apply list_elem_of_In, in_concat. exists (f c). rewrite <- !list_elem_of_In. split; [|done].
  apply list_elem_of_fmap. exists c. split; [done|]. by eapply list_elem_of_lookup_2.
Qed.
Lemma concat_map_nil {B} (f : Node A → list B) cs i c :
  List.concat (List.map f cs) = [] → cs !! i = Some c → f c = [].
Proof.
  intros Hcs Hc. destruct (f c) as [|x l] eqn:Hf; [done|].
  pose proof (concat_map_child f cs i c x Hc) as Hx. rewrite Hcs, Hf in Hx. set_solver.
Qed.
Lemma no_source_lone e n : sources e n = [] → lone e n = true.
Proof.
  induction n as [|t at_ st on cs IH] using Node_rect'; [done|]. cbn [sources lone].
  destruct (assoc e on); [done|]. cbn [app]. intros Hs. apply forallb_forall. intros c Hc.
  apply list_elem_of_In, list_elem_of_lookup in Hc as [i Hc].
  rewrite Forall_lookup in IH. apply (IH i c Hc). by eapply concat_map_nil.
Qed.

Lemma dispatch_lone e v p n o :
  lone e n = true → dispatch e v p n = Some o →
  o = quiet ∨ ∃ h, h ∈ sources e n ∧ o = foldl effect quiet (h v).
Proof.
  revert n o. induction p as [|i p IH]; intros n o Hn Ho; cbn [dispatch] in Ho.
  - injection Ho as <-. unfold fire. cbn [quiet stopped]. destruct n as [|t at_ st on cs]; [by left|].
    destruct (assoc e on) as [h|] eqn:Hh; [|by left]. right. exists h. split; [|done].
    cbn [sources]. rewrite Hh. set_solver.
  - apply bind_Some in Ho as (o' & Ho & [= <-]). apply bind_Some in Ho as (c & Hc & Ho).
    destruct n as [|t at_ st on cs]; [done|]. cbn [children lone sources] in *.
    destruct (assoc e on) as [h|] eqn:Hh.
    + destruct (List.concat _) eqn:Hcs; [|done]. pose proof (concat_map_nil _ _ _ _ Hcs Hc) as Hs.
      destruct (IH c o' (no_source_lone _ _ Hs) Ho) as [->|(h' & Hin & _)]; [|rewrite Hs in Hin; by apply elem_of_nil in Hin].
      right. exists h. split; [set_solver|]. unfold fire. cbn [quiet stopped]. by rewrite Hh.
    + assert (fire e v (Elem t at_ st on cs) o' = o') as -> by (unfold fire; rewrite Hh; by case_match).
      rewrite forallb_forall in Hn. destruct (IH c o') as [->|(h' & Hin & ->)]; [|done|by left|].
      { apply Hn, list_elem_of_In. by eapply list_elem_of_lookup_2. }
      right. exists h'. split; [|done]. by eapply concat_map_child.
Qed.
End sources.

(** ** Looking an element up by its identifier *)
Section identifiers.
  Context {A : Type}.
  Implicit Types (n : Node A) (l : list (Node A)).

Lemma by_id_elem i t at_ st on cs :
  assoc Id at_ = None → by_id i (Elem t at_ st on cs : Node A) = first_some (λ _, by_id i) 0 cs.
Proof. intros H. cbn [by_id]. by rewrite H. Qed.
Lemma ids_elem t at_ st on cs :
  assoc Id at_ = None → ids (Elem t at_ st on cs : Node A) = List.concat (List.map ids cs).
Proof. intros H. cbn [ids]. by rewrite H. Qed.

Lemma first_some_None i l k : Forall (λ c, by_id i c = None) l → first_some (λ _, by_id i) k l = None.
Proof. intros H. revert k. induction H as [|c l Hc _ IH]; intros k; [done|]. cbn [first_some]. by rewrite Hc. Qed.
Lemma first_some_shift i l k : first_some (λ _, by_id i) k l = first_some (λ _, by_id i) 0 l.
Proof.
  revert k. induction l as [|c l IH]; intros k; [done|]. cbn [first_some].
  destruct (by_id i c); [done|]. by rewrite (IH (S k)), (IH 1%nat).
Qed.
Lemma first_some_app i l1 l2 :
  first_some (λ _, by_id i) 0 (l1 ++ l2) =
    match first_some (λ _, by_id i) 0 l1 with Some m => Some m | None => first_some (λ _, by_id i) 0 l2 end.
Proof.
  induction l1 as [|c l IH]; [done|]. cbn [first_some app]. destruct (by_id i c); [done|].
  by rewrite !(first_some_shift i _ 1).
Qed.

Lemma by_id_None i n : i ∉ ids n → by_id i n = None.
Proof.
  induction n as [|t at_ st on cs IH] using Node_rect'; [done|]. cbn [ids by_id]. intros [Ho Hc]%not_elem_of_app.
  rewrite decide_False by (intros He; rewrite He in Ho; set_solver).
  apply first_some_None. clear Ho. induction IH as [|c cs Hi _ IH]; [done|]. cbn [List.map List.concat] in Hc.
  apply not_elem_of_app in Hc as [H1 H2]. constructor; auto.
Qed.
End identifiers.

End Markup.
