(* ===== verification/ProposalForms.v ===== *)
(** * The two proposal forms of the front end
    (frontend/src/components/CreateProposalForm.tsx and NewProposalForm.tsx)

    [CreateProposalForm] validates, builds the arguments of the contract call and
    submits the transaction; the RPC server, the wallet prompt and the Stellar SDK
    are the fields of [Network]. [NewProposalForm] keeps per-field error messages
    in step with what the user types. Both are compared with the argument checks
    of the contract. *)
From Stdlib Require Import Ascii String ZArith Lia.
From stdpp Require Import prelude list strings.
From S2P Require Import Prelude JsString JsNumber Format Soroban ContractTypes.
Local Open Scope Z_scope.

(** ** The fields, common to both forms *)
Module Fields.
Inductive FieldName := Title | Description | Quorum | Duration.
Global Instance FieldName_eq_dec : EqDecision FieldName.
Proof. solve_decision. Defined.

Record FormState := { title : jstr; description : jstr; quorum : jstr; duration : jstr }.
Global Instance FormState_eq_dec : EqDecision FormState.
Proof. solve_decision. Defined.

Definition get (f : FormState) (n : FieldName) : jstr :=
  match n with
  | Title => title f | Description => description f | Quorum => quorum f | Duration => duration f
  end.

(** [({ ...prev, [n]: v })] *)
Definition set (n : FieldName) (v : jstr) (f : FormState) : FormState :=
  match n with
  | Title => {| title := v; description := description f; quorum := quorum f; duration := duration f |}
  | Description => {| title := title f; description := v; quorum := quorum f; duration := duration f |}
  | Quorum => {| title := title f; description := description f; quorum := v; duration := duration f |}
  | Duration => {| title := title f; description := description f; quorum := quorum f; duration := v |}
  end.

(** [Object.keys(form)] *)
Definition keys : list FieldName := [Title; Description; Quorum; Duration].

Lemma get_set n m v f : get (set n v f) m = if decide (m = n) then v else get f m.
Proof. by destruct n, m. Qed.

Lemma elem_of_keys n : n ∈ keys.
Proof. destruct n; unfold keys; set_solver. Qed.

(** An object with optional fields, in insertion order. *)
Definition errors_of (check : FieldName → option jstr) : list (FieldName * jstr) :=
  omap (λ k, pair k <$> check k) keys.

Lemma errors_of_nil check : errors_of check = [] ↔ ∀ n, check n = None.
Proof.
  unfold errors_of, keys. split.
  - intros Hnil n. assert (n ∈ keys) as Hn by apply elem_of_keys. unfold keys in Hn.
    csimpl in Hnil. repeat case_match; simplify_eq/=;
      repeat match goal with H : _ <$> ?o = None |- _ => destruct o eqn:?; [done|clear H] end;
      by destruct n.
  - intros Hn. csimpl. by rewrite !Hn.
Qed.

Lemma errors_of_assoc check n : assoc n (errors_of check) = check n.
Proof.
  unfold errors_of, keys. csimpl.
  destruct (check Title) eqn:?, (check Description) eqn:?, (check Quorum) eqn:?, (check Duration) eqn:?;
    csimpl; destruct n; simpl; congruence.
Qed.

(** One input as it is shown: its identifier and value, whether it is marked
    invalid, the error under it and its hint. *)
Record FieldView := {
  fv_id : jstr;
  fv_value : jstr;
  fv_invalid : bool;
  fv_error : option jstr;
  fv_hint : option jstr }.
End Fields.

Module CreateProposalForm.
Import Fields ContractTypes.

Definition INITIAL_FORM : FormState :=
  {| title := []; description := []; quorum := js "1000"; duration := js "86400" |}.

Definition DURATION_PRESETS : list (jstr * jstr) :=
  [(js "1 day", js "86400"); (js "3 days", js "259200"); (js "7 days", js "604800");
   (js "14 days", js "1209600"); (js "30 days", js "2592000")].

Definition field_error (form : FormState) (n : FieldName) : option jstr :=
  match n with
  | Title =>
      if bool_decide (trim (title form) = []) then Some (js "Title is required.")
      else if 128 <? jlen (title form) then Some (js "Title must be ≤ 128 characters.") else None
  | Description =>
      if bool_decide (trim (description form) = []) then Some (js "Description is required.")
      else if 1024 <? jlen (description form)
           then Some (js "Description must be ≤ 1024 characters.") else None
  | Quorum =>
      let q := js_Number (quorum form) in
      if bool_decide (quorum form = []) || isNaN q || num_le q (num_of_Z 0)
      then Some (js "Quorum must be a positive number.") else None
  | Duration =>
      let d := js_Number (duration form) in
      if bool_decide (duration form = []) || isNaN d || num_lt d (num_of_Z 60)
         || num_lt (num_of_Z 2592000) d
      then Some (js "Duration must be between 60 seconds and 30 days.") else None
  end.
Definition fieldError (form : FormState) : list (FieldName * jstr) := errors_of (field_error form).

(** ** The call *)
Record CreateArgs := {
  a_proposer : jstr; a_title : jstr; a_description : jstr; a_quorum : Z; a_duration : Z }.

(** [BigInt(x)] throws a RangeError on a number that is not an integer. *)
Definition to_bigint (x : jsnum) : res jstr Z :=
  ok_or (BigInt x) (js "The number " ++ string_of_num x
    ++ js " cannot be converted to a BigInt because it is not an integer").

(** [nativeToScVal] of the SDK, for the types that can refuse a value. *)
Record Encoder := {
  sc_address : jstr → res jstr ();
  sc_i128 : Z → res jstr ();
  sc_u64 : Z → res jstr () }.

(** As documented, an integer is refused exactly when it is outside its type. *)
Record lawful_encoder (enc : Encoder) : Prop := {
  enc_i128 z : is_ok (sc_i128 enc z) = in_i128 z;
  enc_u64 z : is_ok (sc_u64 enc z) = in_u64 z }.

Definition create_args (enc : Encoder) (walletAddress : jstr) (form : FormState) : res jstr CreateArgs :=
  _ ← sc_address enc walletAddress;
  q ← to_bigint (math_round (js_Number (quorum form)));
  _ ← sc_i128 enc q;
  d ← to_bigint (math_round (js_Number (duration form)));
  _ ← sc_u64 enc d;
  mret {| a_proposer := walletAddress; a_title := trim (title form);
          a_description := trim (description form); a_quorum := q; a_duration := d |}.

(** An encoder that knows the ranges, and no malformed address. *)
Definition range_encoder : Encoder := {|
  sc_address _ := Ok ();
  sc_i128 z := ensure (in_i128 z) (js "invalid value for type 'i128'");
  sc_u64 z := ensure (in_u64 z) (js "invalid value for type 'u64'") |}.
Lemma range_encoder_lawful : lawful_encoder range_encoder.
Proof.
  assert (∀ b e, is_ok (@ensure jstr b e) = b) as Hb by (by intros []).
  split; intros z; apply Hb.
Qed.

Lemma create_args_ok enc w form q d :
  lawful_encoder enc → sc_address enc w = Ok () →
  BigInt (math_round (js_Number (quorum form))) = Some q → in_i128 q = true →
  BigInt (math_round (js_Number (duration form))) = Some d → in_u64 d = true →
  create_args enc w form = Ok {| a_proposer := w; a_title := trim (title form);
    a_description := trim (description form); a_quorum := q; a_duration := d |}.
Proof.
  intros [Hi Hu] Ha Hq Hqi Hd Hdu. unfold create_args, to_bigint. rewrite Ha, Hq, Hd.
  cbn [mbind res_bind ok_or].
  specialize (Hi q). specialize (Hu d). rewrite Hqi in Hi. rewrite Hdu in Hu.
  clear Hqi Hdu. destruct (sc_i128 enc q) as [[]|]; [|discriminate Hi].
  cbn [mbind res_bind ok_or].
  destruct (sc_u64 enc d) as [[]|]; [reflexivity | discriminate Hu].
Qed.
Lemma create_args_overflow enc w form q :
  lawful_encoder enc →
  BigInt (math_round (js_Number (quorum form))) = Some q → in_i128 q = false →
  is_ok (create_args enc w form) = false.
Proof.
  intros [Hi _] Hq Hqi. unfold create_args, to_bigint. rewrite Hq.
  destruct (sc_address enc w); [|reflexivity]. cbn [mbind res_bind ok_or]. specialize (Hi q). rewrite Hqi in Hi. clear Hqi.
  destruct (sc_i128 enc q) as [[]|]; [discriminate Hi | reflexivity].
Qed.

Section submit.
  Variables Tx Sim : Type.

Inductive SendResult := SendError (errorResult : jstr) | Sent (hash : jstr).
Inductive TxStatus := SUCCESS (returnValue : option Z) | FAILED | NOT_FOUND.

(** What the component calls: the RPC server, the SDK and the browser. *)
Record Network := {
  encoder : Encoder;
  getAccount : jstr → res jstr jstr;
  buildTransaction : jstr → CreateArgs → res jstr Tx;
  simulateTransaction : Tx → res jstr (res jstr Sim);
  assembleTransaction : Tx → Sim → res jstr Tx;
  prompt : option jstr;
  sign : jstr → Tx → res jstr Tx;
  sendTransaction : Tx → res jstr SendResult;
  getTransaction : jstr → nat → res jstr TxStatus }.

Variable net : Network.

Definition max_attempts : nat := 20.
Definition timed_out : jstr := js "Transaction timed out waiting for confirmation.".

(** The confirmation loop, with [fuel] attempts left. *)
Fixpoint confirm (hash : jstr) (attempts fuel : nat) : res jstr jsnum * nat :=
  match fuel with
  | O => (Err timed_out, attempts)
  | S f =>
      match getTransaction net hash attempts with
      | Err e => (Err e, S attempts)
      | Ok (SUCCESS rv) =>
          (Ok (match rv with Some n => Format.Number_of_bigint n | None => num_of_Z 0 end), S attempts)
      | Ok FAILED => (Err (js "Transaction failed on-chain."), S attempts)
      | Ok NOT_FOUND => confirm hash (S attempts) f
      end
  end.

(** The body of the try block up to the confirmation. An early return that sets
    the error message ends the handler like a throw with that message. *)
Definition send_proposal (walletAddress : jstr) (form : FormState) : res jstr jstr :=
  sequence ← getAccount net walletAddress;
  args ← create_args (encoder net) walletAddress form;
  tx ← buildTransaction net sequence args;
  simResult ← simulateTransaction net tx;
  sim ← (match simResult with
         | Err e => Err (js "Simulation error: " ++ e)
         | Ok s => Ok s
         end);
  assembled ← assembleTransaction net tx sim;
  secretKey ← (match prompt net with
               | Some ((_ :: _) as k) => Ok k
               | _ => Err (js "Transaction signing cancelled.")
               end);
  _ ← ensure (startsWith secretKey (js "S"))
        (js "Invalid secret key. It must start with " ++ [34] ++ js "S" ++ [34] ++ js ".");
  signed ← sign net secretKey assembled;
  sendResult ← sendTransaction net signed;
  match sendResult with
  | SendError r => Err (js "Submission error: " ++ r)
  | Sent hash => Ok hash
  end.

(** ** The component *)
Record FormView := {
  form : FormState;
  touched : list FieldName;
  submitting : bool;
  submitError : option jstr;
  onSuccess_calls : list jsnum;
  status_requests : nat }.

Definition handleChange (n : FieldName) (v : jstr) (s : FormView) : FormView :=
  {| form := set n v (form s); touched := touched s; submitting := submitting s;
     submitError := submitError s; onSuccess_calls := onSuccess_calls s;
     status_requests := status_requests s |}.

Definition handleBlur (n : FieldName) (s : FormView) : FormView :=
  {| form := form s; touched := n :: touched s; submitting := submitting s;
     submitError := submitError s; onSuccess_calls := onSuccess_calls s;
     status_requests := status_requests s |}.

Definition handleSubmit (walletAddress : jstr) (s : FormView) : FormView :=
  match fieldError (form s) with
  | _ :: _ =>
      {| form := form s; touched := keys; submitting := submitting s;
         submitError := submitError s; onSuccess_calls := onSuccess_calls s;
         status_requests := status_requests s |}
  | [] =>
      let '(result, n) := match send_proposal walletAddress (form s) with
                          | Ok hash => confirm hash 0 max_attempts
                          | Err e => (Err e, 0%nat)
                          end in
      {| form := form s; touched := keys; submitting := false;
         submitError := match result with Ok _ => None | Err e => Some e end;
         onSuccess_calls := onSuccess_calls s
                              ++ (match result with Ok i => [i] | Err _ => [] end);
         status_requests := status_requests s + n |}
  end.

(** What the form shows. *)
Definition shown_error (s : FormView) (n : FieldName) : option jstr :=
  if bool_decide (n ∈ touched s) then assoc n (fieldError (form s)) else None.
Definition title_counter (s : FormView) : jstr := dec_of (jlen (title (form s))) ++ js "/128".
Definition description_counter (s : FormView) : jstr :=
  dec_of (jlen (description (form s))) ++ js "/1024".
Definition days_hint (s : FormView) : option jstr :=
  match assoc Duration (fieldError (form s)), duration (form s) with
  | None, (_ :: _) as d => Some (js "≈ " ++ toFixed (num_div_Z (js_Number d) 86400) 1 ++ js " days")
  | _, _ => None
  end.
Definition submit_label (s : FormView) : jstr :=
  if submitting s then js "⏳ Submitting…" else js "Create Proposal".

Definition field_view (elt : jstr) (n : FieldName) (hint : option jstr) (s : FormView) : FieldView := {|
  fv_id := elt; fv_value := get (form s) n;
  fv_invalid := bool_decide (n ∈ touched s) && truthy (assoc n (fieldError (form s)));
  fv_error := shown_error s n; fv_hint := hint |}.

Definition render_texts (s : FormView) : list FieldView :=
  [field_view (js "cp-title") Title (Some (title_counter s)) s;
   field_view (js "cp-description") Description (Some (description_counter s)) s].

Definition render_numbers (s : FormView) : list FieldView :=
  [field_view (js "cp-quorum") Quorum (Some (js
     "Minimum total votes (Yes + No + Abstain) required for this proposal to be valid.")) s;
   field_view (js "cp-duration") Duration (days_hint s) s].

(** The duration buttons, with the one that is selected. *)
Definition render_presets (s : FormView) : list (jstr * bool) :=
  (λ p, (p.1, bool_decide (duration (form s) = p.2))) <$> DURATION_PRESETS.

Record Footer := {
  alert : option jstr; cancel_disabled : bool; submit_disabled : bool; submit_text : jstr }.
Definition render_footer (s : FormView) : Footer := {|
  alert := match submitError s with
           | Some ((_ :: _) as m) => Some (js "Error: " ++ m)
           | _ => None
           end;
  cancel_disabled := submitting s; submit_disabled := submitting s;
  submit_text := submit_label s |}.

(** ** Lemmas *)
Lemma confirm_attempts hash a f : (snd (confirm hash a f) ≤ a + f)%nat.
Proof.
  revert a; induction f as [|f IH]; intros a; cbn [confirm]; [simpl; lia|].
  destruct (getTransaction net hash a) as [[]|]; cbn [snd]; try lia.
  specialize (IH (S a)). lia.
Qed.

Lemma confirm_timed_out hash a f :
  (∀ i, (a ≤ i < a + f)%nat → getTransaction net hash i = Ok NOT_FOUND) →
  confirm hash a f = (Err timed_out, (a + f)%nat).
Proof.
  revert a; induction f as [|f IH]; intros a Hi; cbn [confirm]; [by rewrite Nat.add_0_r|].
  rewrite (Hi a) by lia. rewrite IH by (intros; apply Hi; lia). f_equal. lia.
Qed.

Lemma confirm_first hash a f i st :
  (a ≤ i < a + f)%nat → (∀ j, (a ≤ j < i)%nat → getTransaction net hash j = Ok NOT_FOUND) →
  getTransaction net hash i = st → st ≠ Ok NOT_FOUND →
  confirm hash a f =
    (match st with
     | Ok (SUCCESS rv) => Ok (match rv with Some n => Format.Number_of_bigint n | None => num_of_Z 0 end)
     | Ok _ => Err (js "Transaction failed on-chain.")
     | Err e => Err e
     end, S i).
Proof.
  revert a; induction f as [|f IH]; intros a Hi Hj Hst Hne; [lia|]. cbn [confirm].
  destruct (decide (a = i)) as [->|Hai].
  - rewrite Hst. by destruct st as [[]|].
  - rewrite (Hj a) by lia. apply IH; [lia | intros; apply Hj; lia | done..].
Qed.
End submit.

Arguments getAccount {Tx Sim}.
Arguments getTransaction {Tx Sim}.

Lemma fieldError_ok form :
  fieldError form = [] ↔
    trim (title form) ≠ [] ∧ jlen (title form) <= 128 ∧
    trim (description form) ≠ [] ∧ jlen (description form) <= 1024 ∧
    quorum form ≠ [] ∧ isNaN (js_Number (quorum form)) = false ∧
    num_le (js_Number (quorum form)) (num_of_Z 0) = false ∧
    duration form ≠ [] ∧ isNaN (js_Number (duration form)) = false ∧
    num_lt (js_Number (duration form)) (num_of_Z 60) = false ∧
    num_lt (num_of_Z 2592000) (js_Number (duration form)) = false.
Proof.
  unfold fieldError. rewrite errors_of_nil. split.
  - intros H. pose proof (H Title) as Ht. pose proof (H Description) as Hd.
    pose proof (H Quorum) as Hq. pose proof (H Duration) as Hu.
    cbn [field_error] in *. cbv zeta in *.
    repeat (case_match; try done); bool_prop; by split_and!.
  - intros (Ht & Htl & Hd & Hdl & Hq & Hqn & Hqp & Hu & Hun & Hu1 & Hu2) n.
    destruct n; cbn [field_error]; cbv zeta; repeat case_bool_decide; try done;
      rewrite ?Hqn, ?Hqp, ?Hun, ?Hu1, ?Hu2; try done;
      match goal with |- context [?a <? ?b] => by destruct (Z.ltb_spec a b); [lia|] end.
Qed.

Lemma trimmed_length_bounds s n :
  trim s ≠ [] → ascii_str s → jlen s <= n → 0 < utf8_length (trim s) <= n.
Proof.
  intros Hne Ha Hn. rewrite utf8_length_ascii by (by apply trim_ascii).
  pose proof (trim_length s). unfold jlen in *. destruct (trim s); [done|]. simpl in *. lia.
Qed.

Lemma check_create_args_Ok t d l q u :
  0 < utf8_length t <= 128 → 0 < utf8_length d <= 1024 →
  (∀ x, l = Some x → 0 < utf8_length x <= 256) → 0 < q → 60 <= u <= 2592000 →
  check_create_args t d l q u = Ok ().
Proof.
  intros Ht Hd Hl Hq Hu. unfold check_create_args.
  assert (∀ n m, 0 < n <= m → (n =? 0) || (m <? n) = false) as Hb.
  { intros n m Hn. apply orb_false_iff. split; [apply Z.eqb_neq | apply Z.ltb_ge]; lia. }
  rewrite !Hb by done. simpl.
  assert ((match l with
    | Some l => ensure (negb ((utf8_length l =? 0) || (256 <? utf8_length l))) InvalidLink
    | None => Ok () end) = Ok ()) as ->.
  { destruct l as [x|]; [|done]. by rewrite Hb by (by apply Hl). }
  simpl. destruct (Z.leb_spec q 0); [lia|]. simpl.
  destruct (Z.ltb_spec u 60), (Z.ltb_spec 2592000 u); [lia..|done].
Qed.

(** A positive integer number, rounded and converted, is a positive bigint. *)
Lemma positive_integer_bigint x :
  isInteger x = true → num_le x (num_of_Z 0) = false → isNaN x = false →
  ∃ n, BigInt (math_round x) = Some n ∧ 0 < n.
Proof.
  intros Hi Hle Hn. destruct x as [| |m e]; [done | done |].
  assert (0 < m) as Hm.
  { unfold num_le in Hle. rewrite isNaN_num_of_Z, num_lt_Z_l in Hle. cbn [isNaN negb andb] in Hle.
    bool_prop. assert (0 < 2 ^ Z.max 0 e) by (apply pow2_pos; lia). nia. }
  unfold isInteger in Hi. apply orb_true_iff in Hi as [He|He]; bool_prop; [|lia].
  unfold math_round. destruct (Z.leb_spec 0 e); [|lia]. unfold BigInt, isInteger.
  destruct (Z.leb_spec 0 e); [|lia]. cbn [orb]. eexists; split; [done|].
  assert (0 < 2 ^ e) by (apply pow2_pos; lia). nia.
Qed.

Lemma positive_integer_round x :
  isInteger x = true → num_le x (num_of_Z 0) = false → isNaN x = false → math_round x = x.
Proof.
  intros Hi Hle Hn. destruct x as [| |m e]; [done | done |].
  unfold math_round. destruct (Z.leb_spec 0 e); [done|]. unfold isInteger in Hi.
  destruct (Z.leb_spec 0 e); [lia|]. cbn [orb] in Hi. bool_prop. subst m.
  unfold num_le in Hle. rewrite isNaN_num_of_Z, num_lt_Z_l in Hle. cbn [isNaN negb andb] in Hle.
  bool_prop. lia.
Qed.

Lemma at_least_positive x a :
  0 < a → num_lt x (num_of_Z a) = false → isNaN x = false → num_le x (num_of_Z 0) = false.
Proof.
  intros Ha Hlt Hn. unfold num_le. rewrite Hn, isNaN_num_of_Z. cbn [negb andb].
  destruct x as [|[]|m e]; [done | by destruct (num_of_Z_spec a) as (? & ? & Heq & _); rewrite Heq in Hlt
    | by destruct (num_of_Z_spec 0) as (? & ? & -> & _) |].
  rewrite num_lt_Z_r in Hlt. rewrite num_lt_Z_l. bool_prop.
  apply negb_false_iff, Z.ltb_lt. assert (0 < 2 ^ Z.max 0 (- e)) by (apply pow2_pos; lia). nia.
Qed.

(** ** Properties *)

(** C9. What a valid form sends. Take a form without errors whose texts are ASCII and
    whose quorum is a whole number, an address the SDK accepts, and an SDK that
    refuses exactly the integers outside the types i128 and u64, as it documents. If the
    quorum fits i128 the form gives call arguments, and the contract's argument checks
    accept them: the texts are not empty after trimming and fit in bytes, the quorum is
    positive, the rounded duration is within the contract's range. (These are the checks
    on the five arguments the form sends; the function takes two more.) A larger quorum
    (the form has no upper bound) makes the conversion throw. *)
Theorem valid_form_passes_contract_checks (enc : Encoder) (walletAddress : jstr) (form : FormState) :
  lawful_encoder enc → sc_address enc walletAddress = Ok () →
  fieldError form = [] → ascii_str (title form) → ascii_str (description form) →
  isInteger (js_Number (quorum form)) = true →
  ∃ q, BigInt (math_round (js_Number (quorum form))) = Some q ∧ 0 < q ∧
    if in_i128 q
    then ∃ a, create_args enc walletAddress form = Ok a ∧ a_quorum a = q ∧
      check_create_args (a_title a) (a_description a) None (a_quorum a) (a_duration a) = Ok ()
    else is_ok (create_args enc walletAddress form) = false.
Proof.
  intros Henc Haddr (Ht & Htl & Hd & Hdl & _ & Hqn & Hqp & _ & Hun & Hu1 & Hu2)%fieldError_ok Hta Hda Hqi.
  destruct (positive_integer_bigint _ Hqi Hqp Hqn) as (q & Hq & Hq0).
  destruct (math_round_between 60 2592000 _ Hu1 Hu2 Hun) as (u & Hu & Hub).
  exists q. split; [done|]. split; [done|]. destruct (in_i128 q) eqn:Hr; [|by eapply create_args_overflow].
  rewrite (create_args_ok enc walletAddress form q u) by (done || (unfold in_u64; lia)).
  eexists; split; [done|]. split; [done|]. cbn.
  apply check_create_args_Ok; [by apply trimmed_length_bounds.. | done | done | done].
Qed.

(** Forms the component submits although the contract refuses them. *)
Definition fractional_quorum : FormState :=
  {| title := js "t"; description := js "d"; quorum := js "0.3"; duration := js "60" |}.
Definition accented_title : FormState :=
  {| title := replicate 128 0xE9; description := js "d"; quorum := js "1"; duration := js "60" |}.
Definition huge_quorum : FormState :=
  {| title := js "t"; description := js "d"; quorum := js "1e40"; duration := js "60" |}.
Definition infinite_quorum : FormState :=
  {| title := js "t"; description := js "d"; quorum := js "1e400"; duration := js "60" |}.

(** The form's checks are weaker than the contract's: a quorum of 0.3 is
    accepted and sent as 0, which the contract refuses; a title of 128 accented
    letters is accepted and is 256 bytes on chain, which it refuses; a quorum beyond
    i128, or too large for a number, is accepted and then makes the conversion throw. *)
Theorem form_accepts_what_contract_rejects (enc : Encoder) (walletAddress : jstr) :
  lawful_encoder enc → sc_address enc walletAddress = Ok () →
  (∃ a, fieldError fractional_quorum = [] ∧ create_args enc walletAddress fractional_quorum = Ok a ∧
     check_create_args (a_title a) (a_description a) None (a_quorum a) (a_duration a)
       = Err InvalidQuorum) ∧
  (∃ a, fieldError accented_title = [] ∧ create_args enc walletAddress accented_title = Ok a ∧
     check_create_args (a_title a) (a_description a) None (a_quorum a) (a_duration a)
       = Err InvalidTitle) ∧
  (fieldError huge_quorum = [] ∧ is_ok (create_args enc walletAddress huge_quorum) = false) ∧
  fieldError infinite_quorum = [] ∧ is_ok (create_args enc walletAddress infinite_quorum) = false.
Proof.
  intros Henc Haddr. split; [|split; [|split; [|split; [vm_compute; reflexivity|]]]].
  - eexists. split; [vm_compute; reflexivity|].
    split; [apply (create_args_ok _ _ _ 0 60); done || (vm_compute; reflexivity)|]. vm_compute. reflexivity.
  - eexists. split; [vm_compute; reflexivity|].
    split; [apply (create_args_ok _ _ _ 1 60); done || (vm_compute; reflexivity)|]. vm_compute. reflexivity.
  - split; [vm_compute; reflexivity|].
    eapply create_args_overflow; [done | vm_compute; reflexivity | vm_compute; reflexivity].
  - unfold create_args. rewrite Haddr. vm_compute. reflexivity.
Qed.

(** C39. Submitting always ends: with errors it only marks the fields as touched
    and calls nothing. Otherwise it leaves the form ready to submit again after at most
    twenty status requests. What fails before there is a transaction is the error
    shown, with no status request. After that the first answer that is not a pending
    status decides and is the last that is asked for: a success is reported once, with
    its identifier and no error; a failed transaction or a failing request shows its
    error and reports nothing; twenty pending statuses give the time-out error. *)
Theorem handleSubmit_outcome {Tx Sim} (net : Network Tx Sim) (w : jstr) (s : FormView) :
  let s' := handleSubmit Tx Sim net w s in
  form s' = form s ∧ touched s' = keys ∧
  if bool_decide (fieldError (form s) = [])
  then submitting s' = false ∧
       (status_requests s' ≤ status_requests s + max_attempts)%nat ∧
       match send_proposal Tx Sim net w (form s) with
       | Err e => submitError s' = Some e ∧ onSuccess_calls s' = onSuccess_calls s ∧
                  status_requests s' = status_requests s
       | Ok hash =>
           (∀ i, (i < max_attempts)%nat →
              (∀ j, (j < i)%nat → getTransaction net hash j = Ok NOT_FOUND) →
              getTransaction net hash i ≠ Ok NOT_FOUND →
              status_requests s' = (status_requests s + S i)%nat ∧
              match getTransaction net hash i with
              | Ok (SUCCESS rv) =>
                  submitError s' = None ∧
                  onSuccess_calls s' = onSuccess_calls s
                    ++ [match rv with Some n => Format.Number_of_bigint n | None => num_of_Z 0 end]
              | Ok _ =>
                  submitError s' = Some (js "Transaction failed on-chain.") ∧
                  onSuccess_calls s' = onSuccess_calls s
              | Err e => submitError s' = Some e ∧ onSuccess_calls s' = onSuccess_calls s
              end) ∧
           ((∀ i, (i < max_attempts)%nat → getTransaction net hash i = Ok NOT_FOUND) →
              submitError s' = Some timed_out ∧ onSuccess_calls s' = onSuccess_calls s)
       end
  else submitting s' = submitting s ∧ submitError s' = submitError s ∧
       onSuccess_calls s' = onSuccess_calls s ∧ status_requests s' = status_requests s.
Proof.
  intros s'. unfold s', handleSubmit. destruct (fieldError (form s)) as [|e es];
    [|by rewrite bool_decide_false by done]. rewrite bool_decide_true by done.
  destruct (send_proposal Tx Sim net w (form s)) as [hash|e];
    cbn [form touched submitting submitError onSuccess_calls status_requests].
  2: { rewrite app_nil_r, Nat.add_0_r. split_and!; try done. lia. }
  pose proof (confirm_attempts Tx Sim net hash 0 max_attempts) as Hn.
  destruct (confirm Tx Sim net hash 0 max_attempts) as [r n] eqn:Hc.
  cbn [form touched submitting submitError onSuccess_calls status_requests snd] in *.
  split_and!; [done | done | done | lia | |].
  - intros i Hi Hj Hst.
    rewrite (confirm_first Tx Sim net hash 0 max_attempts i _ ltac:(lia)
      ltac:(intros; apply Hj; lia) eq_refl Hst) in Hc. injection Hc as <- <-. split; [done|].
    destruct (getTransaction net hash i) as [[rv| |]|e]; by rewrite ?app_nil_r.
  - intros Hall. rewrite (confirm_timed_out _ _ _ _ 0 max_attempts) in Hc by (intros; apply Hall; lia).
    injection Hc as <- <-. by rewrite app_nil_r.
Qed.

Definition sample_form (q : jstr) : FormState := {| title := js "Raise rewards"; description := js "By 5%";
  quorum := q; duration := js "86400" |}.
Lemma valid_form_passes_contract_checks_witness :
  (∃ a, create_args range_encoder (js "G") (sample_form (js "1000")) = Ok a ∧
    check_create_args (a_title a) (a_description a) None (a_quorum a) (a_duration a) = Ok ()) ∧
  is_ok (create_args range_encoder (js "G") (sample_form (js "1e40"))) = false.
Proof.
  pose proof (λ q, valid_form_passes_contract_checks range_encoder (js "G") (sample_form q)
    range_encoder_lawful eq_refl) as H. split.
  - pose proof (H (js "1000") ltac:(vm_compute; reflexivity)
      ltac:(apply (bool_decide_unpack _); vm_compute; reflexivity)
      ltac:(apply (bool_decide_unpack _); vm_compute; reflexivity) ltac:(vm_compute; reflexivity))
      as (q & Hq & _ & Hok).
    assert (q = 1000) as -> by (apply (inj Some); rewrite <- Hq; vm_compute; reflexivity).
    destruct Hok as (a & Ha & _ & Hc). exists a. split; [exact Ha | exact Hc].
  - pose proof (H (js "1e40") ltac:(vm_compute; reflexivity)
      ltac:(apply (bool_decide_unpack _); vm_compute; reflexivity)
      ltac:(apply (bool_decide_unpack _); vm_compute; reflexivity) ltac:(vm_compute; reflexivity))
      as (q & Hq & _ & Hok).
    assert (in_i128 q = false) as Hr by (vm_compute in Hq; injection Hq as <-; vm_compute; reflexivity).
    rewrite Hr in Hok. exact Hok.
Defined.
End CreateProposalForm.

Module NewProposalForm.
Import Fields ContractTypes.

Definition INITIAL : FormState := {| title := []; description := []; quorum := []; duration := [] |}.
Definition TITLE_MAX : Z := 128.
Definition DESC_MAX : Z := 1024.
Definition DURATION_MIN : Z := 60.
Definition DURATION_MAX : Z := 2592000.

Section form.
  (** [n.toLocaleString()], which depends on the user's locale, and what the
      browser's clock says when a submission completes. *)
  Variable toLocaleString : Z → jstr.

Definition validateField (n : FieldName) (value : jstr) : option jstr :=
  match n with
  | Title =>
      if bool_decide (trim value = []) then Some (js "Title is required.")
      else if TITLE_MAX <? jlen value
           then Some (js "Title must be ≤ " ++ dec_of TITLE_MAX ++ js " characters.") else None
  | Description =>
      if bool_decide (trim value = []) then Some (js "Description is required.")
      else if DESC_MAX <? jlen value
           then Some (js "Description must be ≤ " ++ dec_of DESC_MAX ++ js " characters.") else None
  | Quorum =>
      if bool_decide (trim value = []) then Some (js "Quorum is required.")
      else let q := js_Number value in
           if isNaN q || negb (isInteger q) || num_le q (num_of_Z 0)
           then Some (js "Quorum must be a positive whole number.") else None
  | Duration =>
      if bool_decide (trim value = []) then Some (js "Duration is required.")
      else let d := js_Number value in
           if isNaN d || negb (isInteger d) || num_lt d (num_of_Z DURATION_MIN)
              || num_lt (num_of_Z DURATION_MAX) d
           then Some (js "Duration must be " ++ toLocaleString DURATION_MIN ++ js "–"
                      ++ toLocaleString DURATION_MAX ++ js " seconds.") else None
  end.

Definition validateAll (form : FormState) : list (FieldName * jstr) :=
  errors_of (λ k, validateField k (get form k)).
Definition isFormValid (errors : list (FieldName * jstr)) : bool := bool_decide (errors = []).

(** ** The component *)
Record FormView := {
  form : FormState;
  errors : list (FieldName * jstr);
  touched : list FieldName;
  submitAttempted : bool;
  submitting : bool;
  focused : option jstr;
  onSuccess_calls : list Z;
  onError_calls : list jstr }.

Definition initial : FormView := {|
  form := INITIAL; errors := []; touched := []; submitAttempted := false; submitting := false;
  focused := None; onSuccess_calls := []; onError_calls := [] |}.

(** [next[name] = err] and [delete next[name]] on an object. *)
Fixpoint obj_set (n : FieldName) (v : jstr) (o : list (FieldName * jstr)) : list (FieldName * jstr) :=
  match o with
  | [] => [(n, v)]
  | (m, x) :: o' => if decide (n = m) then (m, v) :: o' else (m, x) :: obj_set n v o'
  end.
Definition obj_delete (n : FieldName) (o : list (FieldName * jstr)) : list (FieldName * jstr) :=
  filter (λ kv, kv.1 ≠ n) o.

Definition revalidateField (n : FieldName) (value : jstr) (errs : list (FieldName * jstr))
    : list (FieldName * jstr) :=
  match validateField n value with
  | Some err => obj_set n err errs
  | None => obj_delete n errs
  end.

Definition with_form (f : FormState) (errs : list (FieldName * jstr)) (t : list FieldName)
    (s : FormView) : FormView := {|
  form := f; errors := errs; touched := t; submitAttempted := submitAttempted s;
  submitting := submitting s; focused := focused s; onSuccess_calls := onSuccess_calls s;
  onError_calls := onError_calls s |}.

Definition handleChange (n : FieldName) (value : jstr) (s : FormView) : FormView :=
  with_form (set n value (form s))
    (if bool_decide (n ∈ touched s) || submitAttempted s
     then revalidateField n value (errors s) else errors s) (touched s) s.

Definition handleBlur (n : FieldName) (s : FormView) : FormView :=
  with_form (form s) (revalidateField n (get (form s) n) (errors s)) (n :: touched s) s.

Definition key_name (n : FieldName) : jstr :=
  match n with
  | Title => js "title" | Description => js "description"
  | Quorum => js "quorum" | Duration => js "duration"
  end.
(** The element ids of the four inputs. *)
Definition input_id (n : FieldName) : jstr :=
  match n with
  | Title => js "np-title" | Description => js "np-desc"
  | Quorum => js "np-quorum" | Duration => js "np-duration"
  end.
(** [document.getElementById(id)?.focus()] *)
Definition focus (elt : jstr) (old : option jstr) : option jstr :=
  if bool_decide (elt ∈ input_id <$> keys) then Some elt else old.

(** [handleSubmit] up to its await. *)
Definition handleSubmit (s : FormView) : FormView :=
  let allErrors := validateAll (form s) in
  {| form := form s; errors := allErrors; touched := touched s; submitAttempted := true;
     submitting := if isFormValid allErrors then true else submitting s;
     focused := match allErrors with
                | (firstKey, _) :: _ => focus (js "np-" ++ key_name firstKey) (focused s)
                | [] => focused s
                end;
     onSuccess_calls := onSuccess_calls s; onError_calls := onError_calls s |}.

(** The pending submission settles: with an identifier, or because a callback
    threw. *)
Definition submitted (r : res jstr Z) (s : FormView) : FormView :=
  {| form := form s; errors := errors s; touched := touched s; submitAttempted := submitAttempted s;
     submitting := match r with Ok _ => submitting s | Err _ => false end; focused := focused s;
     onSuccess_calls := onSuccess_calls s ++ (match r with Ok i => [i mod 10000] | Err _ => [] end);
     onError_calls := onError_calls s ++ (match r with Ok _ => [] | Err m => [m] end) |}.

Definition showError (s : FormView) (n : FieldName) : bool :=
  (bool_decide (n ∈ touched s) || submitAttempted s) && truthy (assoc n (errors s)).
Definition formHasErrors (s : FormView) : bool := negb (isFormValid (validateAll (form s))).
Definition submitDisabled (s : FormView) : bool :=
  submitting s || (submitAttempted s && formHasErrors s).

Definition new_field (n : FieldName) (hint : jstr) (s : FormView) : FieldView := {|
  fv_id := input_id n; fv_value := get (form s) n; fv_invalid := showError s n;
  fv_error := if showError s n then assoc n (errors s) else None; fv_hint := Some hint |}.

Definition render_texts (s : FormView) : list FieldView :=
  [new_field Title (dec_of (jlen (title (form s))) ++ js "/" ++ dec_of TITLE_MAX
     ++ js " characters") s;
   new_field Description (dec_of (jlen (description (form s))) ++ js "/" ++ dec_of DESC_MAX
     ++ js " characters") s].

Definition render_numbers (s : FormView) : list FieldView :=
  [new_field Quorum (js "Minimum token votes required for the proposal to pass.") s;
   new_field Duration (toLocaleString DURATION_MIN ++ js "–" ++ toLocaleString DURATION_MAX
     ++ js " s" ++ [0xA0] ++ js " (1 min – 30 days)") s].

Definition submit_text (s : FormView) : jstr :=
  if submitting s then js "Submitting…" else js "Submit Proposal".

Inductive Event := Change (n : FieldName) (v : jstr) | Blur (n : FieldName) | Submit
  | Settle (r : res jstr Z).

Definition handle (e : Event) (s : FormView) : FormView :=
  match e with
  | Change n v => handleChange n v s
  | Blur n => handleBlur n s
  | Submit => if submitDisabled s then s else handleSubmit s
  | Settle r => if submitting s then submitted r s else s
  end.
Definition handle_all (es : list Event) (s : FormView) : FormView := foldl (flip handle) s es.

(** ** Lemmas *)
Lemma assoc_obj_set n m v o : assoc m (obj_set n v o) = if decide (m = n) then Some v else assoc m o.
Proof.
  induction o as [|[k x] o IH]; simpl; [by case_decide|].
  destruct (decide (n = k)) as [->|Hnk]; simpl.
  - by case_decide.
  - rewrite IH. repeat case_decide; congruence.
Qed.
Lemma assoc_obj_delete n m o : assoc m (obj_delete n o) = if decide (m = n) then None else assoc m o.
Proof.
  unfold obj_delete. induction o as [|[k x] o IH]; simpl; [by case_decide|].
  rewrite filter_cons. simpl. destruct (decide (k ≠ n)) as [Hk|Hk]; simpl; rewrite IH.
  - repeat case_decide; congruence.
  - apply dec_stable in Hk. repeat case_decide; congruence.
Qed.
Lemma assoc_revalidate n m v errs :
  assoc m (revalidateField n v errs) = if decide (m = n) then validateField n v else assoc m errs.
Proof.
  unfold revalidateField. destruct (validateField n v).
  - by rewrite assoc_obj_set.
  - by rewrite assoc_obj_delete.
Qed.

(** The messages of the fields being watched are those of the current values. *)
Definition synced (s : FormView) : Prop :=
  ∀ n, n ∈ touched s ∨ submitAttempted s = true →
    assoc n (errors s) = validateField n (get (form s) n).

Lemma handle_synced e s : synced s → synced (handle e s).
Proof.
  intros Hs. destruct e as [n v|n| |r]; cbn [handle].
  - intros m Hm. cbn [handleChange with_form errors form touched submitAttempted] in *.
    rewrite get_set. destruct (bool_decide (n ∈ touched s) || submitAttempted s) eqn:Hw.
    + rewrite assoc_revalidate. destruct (decide (m = n)) as [->|]; [done|]. by apply Hs.
    + destruct (decide (m = n)) as [->|]; [bool_prop; destruct Hm; [done|congruence] | by apply Hs].
  - intros m Hm. cbn [handleBlur with_form errors form touched submitAttempted] in *.
    rewrite assoc_revalidate. destruct (decide (m = n)) as [->|]; [done|]. apply Hs. set_solver.
  - case_match; [done|]. intros m _. cbn [handleSubmit errors form].
    unfold validateAll. by rewrite errors_of_assoc.
  - case_match; [|done]. intros m Hm. by apply Hs.
Qed.

Lemma handle_all_synced es s : synced s → synced (handle_all es s).
Proof. apply fold_preserves. intros. by apply handle_synced. Qed.

Lemma initial_synced : synced initial.
Proof. intros n [Hn|Hn]; [set_solver | done]. Qed.

Lemma validateField_truthy n v : truthy (validateField n v) = bool_decide (validateField n v ≠ None).
Proof. destruct n; cbn [validateField]; repeat case_match; reflexivity. Qed.

Lemma text_ok (n : FieldName) (v : jstr) :
  match n with
  | Title => validateField Title v = None → trim v ≠ [] ∧ jlen v <= 128
  | Description => validateField Description v = None → trim v ≠ [] ∧ jlen v <= 1024
  | _ => True
  end.
Proof.
  destruct n; [| |done|done]; cbn [validateField]; repeat (case_match; try done); bool_prop;
    unfold TITLE_MAX, DESC_MAX in *; done.
Qed.

Lemma quorum_ok v :
  validateField Quorum v = None →
  isNaN (js_Number v) = false ∧ isInteger (js_Number v) = true ∧
  num_le (js_Number v) (num_of_Z 0) = false.
Proof.
  cbn [validateField]. cbv zeta. case_match; [done|]. case_match eqn:Hb; [done|]. bool_prop. done.
Qed.

Lemma duration_ok v :
  validateField Duration v = None →
  isNaN (js_Number v) = false ∧ isInteger (js_Number v) = true ∧
  num_lt (js_Number v) (num_of_Z 60) = false ∧ num_lt (num_of_Z 2592000) (js_Number v) = false.
Proof.
  cbn [validateField]. cbv zeta. case_match; [done|]. case_match eqn:Hb; [done|]. bool_prop. done.
Qed.

Lemma text_bytes v n : trim v ≠ [] → jlen v <= n → ascii_str v → 0 < utf8_length v <= n.
Proof.
  intros Hne Hn Ha. rewrite utf8_length_ascii by done. pose proof (trim_length v).
  unfold jlen in *. destruct (trim v); [done|]. simpl in *. lia.
Qed.

Lemma isFormValid_spec f :
  isFormValid (validateAll f) = true ↔ ∀ n, validateField n (get f n) = None.
Proof. unfold isFormValid, validateAll. rewrite bool_decide_eq_true. apply errors_of_nil. Qed.

(** ** Properties *)

(** Whatever the user does, messages are never stale: a field shows an error
    exactly when it was visited (or a submission was tried) and its current value
    is invalid, and the message is the one for that value; and a submission is
    started exactly when every current value is valid. *)
Theorem new_form_errors_never_stale (es : list Event) :
  let s := handle_all es initial in
  (∀ n, showError s n = true ↔
     (n ∈ touched s ∨ submitAttempted s = true) ∧ validateField n (get (form s) n) ≠ None) ∧
  (∀ n, showError s n = true → assoc n (errors s) = validateField n (get (form s) n)) ∧
  (submitting s = false →
     (submitting (handle Submit s) = true ↔ ∀ n, validateField n (get (form s) n) = None)).
Proof.
  intros s. pose proof (handle_all_synced es initial initial_synced) as Hs. fold s in Hs.
  assert (∀ n, showError s n = true → n ∈ touched s ∨ submitAttempted s = true) as Hw.
  { intros n. unfold showError. rewrite andb_true_iff, orb_true_iff, bool_decide_eq_true. tauto. }
  split_and!.
  - intros n. unfold showError. rewrite andb_true_iff, orb_true_iff, bool_decide_eq_true.
    split; intros [Hn Ht]; (split; [done|]); rewrite Hs, validateField_truthy in * by done;
      by bool_prop || by apply bool_decide_eq_true.
  - intros n Hn. apply Hs. by apply Hw.
  - intros Hsub. cbn [handle]. unfold submitDisabled, formHasErrors. rewrite Hsub, <- isFormValid_spec.
    cbn [orb]. destruct (isFormValid (validateAll (form s))) eqn:Hv; cbn [negb].
    + rewrite andb_false_r. cbn [handleSubmit submitting]. by rewrite Hv.
    + rewrite andb_true_r. destruct (submitAttempted s); [by rewrite Hsub|].
      cbn [handleSubmit submitting]. by rewrite Hv, Hsub.
Qed.

(** The form mirrors the contract: when every field is valid and the texts
    are ASCII, the quorum and duration are integers and the contract's argument
    checks accept them. *)
Theorem valid_new_form_passes_contract_checks (f : FormState) :
  isFormValid (validateAll f) = true → ascii_str (title f) → ascii_str (description f) →
  ∃ q u, BigInt (js_Number (quorum f)) = Some q ∧ BigInt (js_Number (duration f)) = Some u ∧
    check_create_args (title f) (description f) None q u = Ok ().
Proof.
  rewrite isFormValid_spec. intros Hv Hta Hda.
  pose proof (Hv Title) as Ht. pose proof (Hv Description) as Hd. pose proof (Hv Quorum) as Hq.
  pose proof (Hv Duration) as Hu. clear Hv. apply (text_ok Title) in Ht as [Ht1 Ht2].
  apply (text_ok Description) in Hd as [Hd1 Hd2].
  apply quorum_ok in Hq as (Hqn & Hqi & Hqp). apply duration_ok in Hu as (Hun & Hui & Hu1 & Hu2).
  destruct (CreateProposalForm.positive_integer_bigint _ Hqi Hqp Hqn) as (q & Hq & Hq0).
  destruct (math_round_between 60 2592000 _ Hu1 Hu2 Hun) as (u & Hu & Hub).
  rewrite CreateProposalForm.positive_integer_round in Hq, Hu by
    (done || by apply (CreateProposalForm.at_least_positive _ 60)).
  exists q, u. split_and!; [done..|].
  apply CreateProposalForm.check_create_args_Ok; [by apply text_bytes..|done|done|done].
Qed.

(** A refused submission focuses the first invalid field, except that it
    leaves the focus alone when that field is the description: the identifier it
    builds is not the identifier of that input. *)
Theorem submit_focuses_first_invalid (s : FormView) (k : FieldName) (m : jstr)
    (rest : list (FieldName * jstr)) :
  submitDisabled s = false → validateAll (form s) = (k, m) :: rest →
  focused (handle Submit s) =
    if decide (k = Description) then focused s else Some (input_id k).
Proof.
  intros Hd Hv. cbn [handle]. rewrite Hd. cbn [handleSubmit focused]. rewrite Hv.
  by destruct k.
Qed.

End form.

Lemma valid_new_form_passes_contract_checks_witness :
  ∃ q u, BigInt (js_Number (js "1000")) = Some q ∧ BigInt (js_Number (js "86400")) = Some u ∧
    check_create_args (js "Raise rewards") (js "By 5%") None q u = Ok ().
Proof.
  apply (valid_new_form_passes_contract_checks (λ n, dec_of n)
    {| title := js "Raise rewards"; description := js "By 5%"; quorum := js "1000";
       duration := js "86400" |}); [vm_compute; reflexivity | |];
    apply (bool_decide_unpack _); vm_compute; reflexivity.
Defined.

Lemma submit_focuses_first_invalid_witness :
  let locale := λ n, dec_of n in
  let s := handle_all locale [Change Title (js "t"); Change Quorum (js "5"); Change Duration (js "60")]
             initial in
  focused (handle locale Submit s) = None.
Proof.
  intros locale s.
  rewrite (submit_focuses_first_invalid locale s Description (js "Description is required.") []
    ltac:(vm_compute; reflexivity) ltac:(vm_compute; reflexivity)).
  reflexivity.
Defined.
End NewProposalForm.
