(* ===== verification/ProposalDialogs.v ===== *)
(** * The form for a proposal as the page has it (the markup of CreateProposalForm.tsx)

    [ProposalForms] has the handlers of the component; here are the elements it
    returns, built from the same state, and a user who clicks, types and presses
    Enter anywhere in them while submissions are in flight. The theorems say which
    gesture calls what, that no gesture starts a second submission while one is in
    flight, and that what is drawn in red is what assistive technology is told.
    [FormActions] is shared with the other form ([NewProposalDialog]). *)
From Stdlib Require Import Ascii String ZArith Lia.
From stdpp Require Import prelude list strings.
From S2P Require Import Prelude JsString JsNumber Markup ProposalForms.
Local Open Scope Z_scope.

(** ** What the elements of both forms call *)
Module FormActions.
Import Markup Fields.

Inductive Action := Dismissed | Changed (n : FieldName) (v : jstr) | Blurred (n : FieldName) | Submitted.
Global Instance Action_eq_dec : EqDecision Action.
Proof. solve_decision. Defined.
Notation node := (Node Action).

(** The handlers of an input, [onChange] and [onBlur]. *)
Definition changes (n : FieldName) (v : jstr) : list (Effect Action) := [Call (Changed n v)].
Definition blurs (n : FieldName) (_ : jstr) : list (Effect Action) := [Call (Blurred n)].
Definition handlers (n : FieldName) : Handlers Action := [(OnChange, changes n); (OnBlur, blurs n)].

(** A tree whose fields with these handlers are [ns]. *)
Definition edits (ns : list FieldName) (n : node) : Prop :=
  lone OnChange n = true ∧ sources OnChange n = List.map changes ns ∧
  lone OnBlur n = true ∧ sources OnBlur n = List.map blurs ns.

Lemma edits_elem nss t at_ st on cs :
  assoc OnChange on = None → assoc OnBlur on = None → Forall2 edits nss cs →
  edits (List.concat nss) (Elem t at_ st on cs).
Proof.
  intros Hc Hb Hn. unfold edits. rewrite !sources_plain, !lone_plain by done.
  induction Hn as [|ns n nss cs (H1 & H2 & H3 & H4) _ (I1 & I2 & I3 & I4)]; [done|].
  cbn [forallb List.map List.concat]. rewrite !List.map_app, H1, H2, H3, H4, I1, I2, I3, I4. done.
Qed.

(** A gesture in a form of these fields types, leaves a field or clicks. *)
Lemma gesture_cases (P : list Action → Prop) ns (n : node) g :
  edits ns n → P [] → (∀ f v, P [Changed f v]) → (∀ f, P [Blurred f]) →
  (∀ p l, click p n = Some l → P l) → P (gesture g n).
Proof.
  intros (Hc1 & Hc2 & Hb1 & Hb2) H0 Hchange Hblur Hclick. destruct g as [p|p v|p|p]; unfold gesture.
  - destruct (click p n) as [l|] eqn:Hl; [exact (Hclick _ _ Hl)|done].
  - unfold type_into. destruct (dispatch OnChange v p n) as [o|] eqn:Ho; [|done].
    cbn [mbind option_bind default]. destruct (meets_disabled _ _); [done|].
    destruct (dispatch_lone _ _ _ _ _ Hc1 Ho) as [->|(h & Hh & ->)]; [done|]. rewrite Hc2 in Hh.
    apply list_elem_of_fmap in Hh as (f & -> & _). apply Hchange.
  - unfold leave. destruct (dispatch OnBlur [] p n) as [o|] eqn:Ho; [|done].
    destruct (dispatch_lone _ _ _ _ _ Hb1 Ho) as [->|(h & Hh & ->)]; [done|]. rewrite Hb2 in Hh.
    apply list_elem_of_fmap in Hh as (f & -> & _). apply Hblur.
  - unfold press_enter. destruct (node_at p n) as [m|]; [|done]. cbn [mbind option_bind].
    destruct (tag_of m) as [[]|], (form_path p n) as [q|]; try done.
    destruct (node_at q n ≫= default_button) as [b|]; [|done].
    destruct (click (q ++ b) n) as [l|] eqn:Hl; [exact (Hclick _ _ Hl)|done].
Qed.

(** An identifier is looked up in the field that has it, where the identifiers
    [own] that fields may have are all different. *)
Lemma by_id_among (field : FieldName → node) (own : FieldName → list jstr) i n :
  (∀ m, ids (field m) ⊆ own m) → NoDup (List.concat (List.map own keys)) → i ∈ own n →
  first_some (λ _, by_id i) 0 (List.map field keys) = by_id i (field n).
Proof.
  intros Hids Hown Hi.
  assert (∀ m, m ≠ n → by_id i (field m) = None) as Hm.
  { intros m Hm. apply by_id_None. intros Him%Hids. revert Hown. unfold keys. cbn [List.map List.concat].
    rewrite !NoDup_app. intros (_ & H1 & _ & H2 & _ & H3 & _).
    destruct n, m; try done;
      first [apply (H1 i); [done|set_solver]|apply (H2 i); [done|set_solver]|apply (H3 i); [done|set_solver]]. }
  unfold keys. cbn [List.map first_some].
  destruct n; rewrite ?(Hm Title), ?(Hm Description), ?(Hm Quorum), ?(Hm Duration) by done; by case_match.
Qed.
End FormActions.

(** ** CreateProposalForm.tsx *)
Module CreateDialog.
Import Markup Fields FormActions CreateProposalForm.

Definition labelStyle : Style :=
  [css "display" "block"; css "fontSize" "0.875rem"; css_num "fontWeight" 600; css "color" "#374151";
   css "marginBottom" "0.35rem"].
Definition errorStyle : Style :=
  [css "fontSize" "0.75rem"; css "color" "#dc2626"; css "marginTop" "0.25rem"].

Section view.
  Variable s : FormView.

Definition error_of (n : FieldName) : option jstr := assoc n (fieldError (form s)).
(** [touched[field] && errors[field]], as a condition. *)
Definition invalid (n : FieldName) : bool := bool_decide (n ∈ touched s) && truthy (error_of n).

Definition inputStyle (n : FieldName) : Style :=
  [css "width" "100%"; css "padding" "0.5rem 0.75rem";
   css_if (invalid n) "border" "1px solid #dc2626" "1px solid #d1d5db";
   css_num "borderRadius" 6; css "fontSize" "0.875rem"; css "boxSizing" "border-box";
   css "background" "#fff"; css "color" "#1e293b"; css "outline" "none"].

Definition label (elt text : string) : node :=
  Elem Label [(HtmlFor, Txt (js elt))] labelStyle []
    [txt text; Elem Span [] [css "color" "#dc2626"] [] [txt "*"]].
(** [aria-invalid={touched.x && !!errors.x}]: undefined where nothing was touched. *)
Definition aria_invalid (n : FieldName) : Value :=
  if bool_decide (n ∈ touched s) then Bool (truthy (error_of n)) else Undefined.
Definition described_by (n : FieldName) (error_id : string) : Value :=
  if truthy (error_of n) then Txt (js error_id) else Undefined.
Definition error_span (n : FieldName) (error_id : string) : node :=
  Elem Span [(Id, Txt (js error_id))] errorStyle [] [Text (default [] (error_of n))].
Definition counter (c : jstr) : node :=
  Elem Span [] [css "fontSize" "0.7rem"; css "color" "#94a3b8"] [] [Text c].
Definition row : Style := [css "display" "flex"; css "justifyContent" "space-between"].

Definition title_field : node :=
  Elem Div [] [] []
    [label "cp-title" "Title ";
     Elem Input
       [(Id, Txt (js "cp-title")); (Type_, Txt (js "text")); (ValueAttr, Txt (title (form s)));
        (Placeholder, Txt (js "e.g. Increase validator rewards by 5%")); (MaxLength, Num (num_of_Z 128));
        (AriaDescribedby, described_by Title "cp-title-error"); (AriaInvalid, aria_invalid Title)]
       (inputStyle Title) (handlers Title) [];
     Elem Div [] row []
       [if invalid Title then error_span Title "cp-title-error" else Elem Span [] [] [] [];
        counter (title_counter s)]].

Definition description_field : node :=
  Elem Div [] [] []
    [label "cp-description" "Description ";
     Elem Textarea
       [(Id, Txt (js "cp-description")); (ValueAttr, Txt (description (form s)));
        (Placeholder, Txt (js "Describe the proposal in detail…")); (MaxLength, Num (num_of_Z 1024));
        (Rows, Num (num_of_Z 5)); (AriaDescribedby, described_by Description "cp-desc-error");
        (AriaInvalid, aria_invalid Description)]
       (spread (inputStyle Description) [css "resize" "vertical"; css "fontFamily" "inherit"])
       (handlers Description) [];
     Elem Div [] row []
       [if invalid Description then error_span Description "cp-desc-error" else Elem Span [] [] [] [];
        counter (description_counter s)]].

Definition hint (text : jstr) : node :=
  Elem Div [] [css "fontSize" "0.75rem"; css "color" "#94a3b8"; css "marginTop" "0.25rem"] [] [Text text].

Definition quorum_field : node :=
  Elem Div [] [] []
    ([label "cp-quorum" "Quorum (CVT) ";
      Elem Input
        [(Id, Txt (js "cp-quorum")); (Type_, Txt (js "number")); (Min, Num (num_of_Z 1));
         (ValueAttr, Txt (quorum (form s))); (Placeholder, Txt (js "e.g. 1000"));
         (AriaDescribedby, described_by Quorum "cp-quorum-error"); (AriaInvalid, aria_invalid Quorum)]
        (inputStyle Quorum) (handlers Quorum) []] ++
     when (invalid Quorum) (error_span Quorum "cp-quorum-error") ++
     [hint (js "Minimum total votes (Yes + No + Abstain) required for this proposal to be valid.")]).

Definition preset (p : jstr * jstr) : node :=
  let chosen := bool_decide (duration (form s) = p.2) in
  Elem Button [(Type_, Txt (js "button"))]
    [css "padding" "3px 10px"; css_num "borderRadius" 4; css "border" "1px solid";
     css_if chosen "borderColor" "#2563eb" "#d1d5db"; css_if chosen "background" "#eff6ff" "#fff";
     css_if chosen "color" "#2563eb" "#555"; css "fontSize" "0.75rem"; css "cursor" "pointer"]
    [on_click [Call (Changed Duration p.2)]] [Text p.1].

Definition duration_field : node :=
  Elem Div [] [] []
    ([label "cp-duration" "Duration ";
      Elem Div [] [css "display" "flex"; css "gap" "0.5rem"; css "flexWrap" "wrap"; css "marginBottom" "0.5rem"] []
        (List.map preset DURATION_PRESETS);
      Elem Input
        [(Id, Txt (js "cp-duration")); (Type_, Txt (js "number")); (Min, Num (num_of_Z 60));
         (Max, Num (num_of_Z 2592000)); (ValueAttr, Txt (duration (form s)));
         (Placeholder, Txt (js "seconds (60 – 2592000)"));
         (AriaDescribedby, described_by Duration "cp-duration-error"); (AriaInvalid, aria_invalid Duration)]
        (inputStyle Duration) (handlers Duration) []] ++
     when (invalid Duration) (error_span Duration "cp-duration-error") ++
     (match days_hint s with Some h => [hint h] | None => [] end)).

(** The submission error, where there is one to show. *)
Definition alert_box : list node :=
  match submitError s with
  | Some ((_ :: _) as e) =>
      [Elem Div [(Role, Txt (js "alert"))]
         [css "margin" "1rem 0 0"; css "padding" "0.75rem"; css "background" "#fef2f2";
          css "border" "1px solid #fecaca"; css_num "borderRadius" 6; css "fontSize" "0.875rem";
          css "color" "#dc2626"] []
         [Elem Strong [] [] [] [txt "Error:"]; txt " "; Text e]]
  | _ => []
  end.

Definition cancel_button : node :=
  Elem Button [(Type_, Txt (js "button")); (Disabled, Bool (submitting s))]
    [css "background" "none"; css "color" "#64748b"; css "border" "1px solid #d1d5db"; css_num "borderRadius" 6;
     css "padding" "0.5rem 1.25rem"; css "fontSize" "0.875rem";
     css_if (submitting s) "cursor" "not-allowed" "pointer";
     css_dec "opacity" (if submitting s then "0.6" else "1")]
    [on_click [Call Dismissed]] [txt "Cancel"].
Definition submit_button : node :=
  Elem Button [(Type_, Txt (js "submit")); (Disabled, Bool (submitting s))]
    [css_if (submitting s) "background" "#93c5fd" "#2563eb"; css "color" "#fff"; css "border" "none";
     css_num "borderRadius" 6; css "padding" "0.5rem 1.25rem"; css "fontSize" "0.875rem"; css_num "fontWeight" 600;
     css_if (submitting s) "cursor" "not-allowed" "pointer"; css_num "minWidth" 140]
    [] [Text (submit_label s)].
Definition actions : node :=
  Elem Div [] [css "display" "flex"; css "justifyContent" "flex-end"; css "gap" "0.75rem"; css "marginTop" "1.5rem"] []
    [cancel_button; submit_button].

Definition close_button : node :=
  Elem Button [(AriaLabel, Txt (js "Close"))]
    [css "background" "none"; css "border" "none"; css "fontSize" "1.5rem"; css "cursor" "pointer";
     css "color" "#6b7280"; css_num "lineHeight" 1] [on_click [Call Dismissed]] [txt "×"].
Definition header : node :=
  Elem Div []
    [css "display" "flex"; css "justifyContent" "space-between"; css "alignItems" "center"; css "marginBottom" "1.5rem"] []
    [Elem H2 [] [css_num "margin" 0; css "fontSize" "1.25rem"; css "color" "#1e293b"] [] [txt "Create Proposal"];
     close_button].
Definition form_element : node :=
  Elem Form [(NoValidate, Bool true)] [] [(OnSubmit, λ _, [PreventDefault; Call Submitted])]
    ([Elem Div [] [css "display" "grid"; css "gap" "1rem"] []
        [title_field; description_field; quorum_field; duration_field]] ++
     alert_box ++ [actions]).
(** The element the component returns: the panel stops the clicks made in it. *)
Definition dialog : node :=
  modal Dismissed
    [] [css "position" "fixed"; css_num "inset" 0; css "background" "rgba(0,0,0,0.5)"; css "display" "flex";
        css "alignItems" "center"; css "justifyContent" "center"; css_num "zIndex" 200]
    [] [css "background" "#fff"; css_num "borderRadius" 12; css "padding" "2rem"; css_num "maxWidth" 560;
        css "width" "90%"; css "maxHeight" "90vh"; css "overflowY" "auto"; css "boxShadow" "0 20px 60px rgba(0,0,0,0.3)"]
    [header; form_element].
End view.

(** ** What a click calls *)
Lemma fields_inert s :
  inert (title_field s) = true ∧ inert (description_field s) = true ∧ inert (quorum_field s) = true.
Proof.
  unfold title_field, description_field, quorum_field.
  split_and!; by destruct (invalid s _).
Qed.

(** The buttons of the form. *)
Inductive form_button (s : FormView) : node → Prop :=
| fb_preset i : i ∈ DURATION_PRESETS → form_button s (preset s i)
| fb_cancel : form_button s (cancel_button s)
| fb_submit : form_button s (submit_button s).
Inductive inside (s : FormView) (f : option node) : option node → option node → Prop :=
| in_nothing : inside s f None f
| in_button b : form_button s b → inside s f (Some b) f.

Lemma fields_region s :
  Forall (region (inside s None)) [title_field s; description_field s; quorum_field s; duration_field s].
Proof.
  destruct (fields_inert s) as (Ht & Hd & Hq).
  do 3 (constructor; [apply region_inert; [done|constructor]|]). constructor; [|constructor]. unfold duration_field.
  apply region_plain; [done..|constructor|]. constructor; [apply region_inert; [done|constructor]|].
  constructor; [|apply region_all_inert; [|constructor]].
  - apply region_plain; [done..|constructor|]. rewrite Forall_fmap. apply list.Forall_forall. intros i Hi.
    apply region_button; [done|]. by apply in_button, fb_preset.
  - destruct (invalid s Duration), (days_hint s); done.
Qed.
Lemma actions_region s : region (inside s None) (actions s).
Proof.
  apply region_plain; [done..|constructor|]. constructor; [|constructor; [|constructor]]; apply region_button; try done.
  - apply in_button, fb_cancel.
  - apply in_button, fb_submit.
Qed.
Lemma form_region s : region (inside s (Some (form_element s))) (form_element s).
Proof.
  apply (region_elem (inside s None)); [done..| | |].
  - intros b f []; by constructor.
  - constructor.
  - constructor; [|apply list.Forall_app; split].
    + apply region_plain; [done..|constructor|apply fields_region].
    + apply region_all_inert; [|constructor]. unfold alert_box. by destruct (submitError s) as [[|u e]|].
    + constructor; [apply actions_region|constructor].
Qed.

(** What a click can meet in the panel. *)
Inductive place (s : FormView) : option node → option node → Prop :=
| on_nothing f : place s None f
| on_close : place s (Some close_button) None
| on_button b : form_button s b → place s (Some b) (Some (form_element s)).
Lemma panel_region s : Forall (region (place s)) [header; form_element s].
Proof.
  constructor; [|constructor; [|constructor]].
  - apply region_plain; [done..|constructor|]. constructor; [apply region_inert; [done|constructor]|].
    constructor; [|constructor]. apply region_button; [done|]. exact (on_close s).
  - eapply region_mono; [|apply form_region]. intros b f []; by constructor.
Qed.

(** What a button of the dialog is for, by what is written on it. *)
Definition button_call (b : node) : list Action :=
  if disabled b then []
  else if bool_decide (text_content b = js "×") || bool_decide (text_content b = js "Cancel") then [Dismissed]
  else match assoc (text_content b) DURATION_PRESETS with
       | Some v => [Changed Duration v]
       | None => [Submitted]
       end.
Lemma preset_call s i : i ∈ DURATION_PRESETS → button_call (preset s i) = [Changed Duration i.2].
Proof.
  intros Hi. assert (Forall (λ i, button_call (preset s i) = [Changed Duration i.2]) DURATION_PRESETS) as H.
  { repeat constructor. }
  by apply (proj1 (list.Forall_forall _ _) H).
Qed.
Lemma submit_call s : button_call (submit_button s) = if submitting s then [] else [Submitted].
Proof. unfold button_call, submit_button, submit_label. destruct (submitting s); reflexivity. Qed.

Lemma pressed_call s b f : place s b f → pressed b f = match b with Some b => button_call b | None => [] end.
Proof.
  intros [?| |b' [i Hi| |]]; [done|reflexivity| | |]; unfold pressed.
  - by rewrite (preset_call s i Hi).
  - unfold button_call. destruct (disabled (cancel_button s)); reflexivity.
  - unfold button_call, submit_button, submit_label. destruct (submitting s); reflexivity.
Qed.

Lemma click_dialog s p l :
  click p (dialog s) = Some l →
  (p = [] ∧ l = [Dismissed]) ∨
  (p ≠ [] ∧ ∃ b f, place s b f ∧ button_on p (dialog s) = b ∧ l = match b with Some b => button_call b | None => [] end).
Proof.
  intros Hl. destruct (modal_click (place s) _ _ _ _ _ _ _ _ (panel_region s) ltac:(constructor) Hl)
    as [?|(Hp & b & f & HP & Hb & ->)]; [by left|]. right. split; [done|]. exists b, f.
  by rewrite (pressed_call s b f HP).
Qed.

(** ** What typing, leaving a field and Enter call *)
Lemma fields_edit s :
  edits [Title] (title_field s) ∧ edits [Description] (description_field s) ∧
  edits [Quorum] (quorum_field s) ∧ edits [Duration] (duration_field s).
Proof.
  split_and!.
  - unfold title_field. by destruct (invalid s _).
  - unfold description_field. by destruct (invalid s _).
  - unfold quorum_field. by destruct (invalid s _).
  - unfold duration_field. by destruct (invalid s _), (days_hint s).
Qed.
Lemma dialog_edits s : edits keys (dialog s).
Proof.
  destruct (fields_edit s) as (Ht & Hd & Hq & Hu).
  assert (∃ nss, List.concat nss = [] ∧ Forall2 edits nss (alert_box s)) as (nss & Hnss & Ha).
  { unfold alert_box. destruct (submitError s) as [[|u x]|]; [exists []|exists [[]]|exists []]; repeat constructor. }
  apply (edits_elem [keys]); [done..|]. constructor; [|constructor].
  apply (edits_elem [[]; keys]); [done..|]. constructor; [by repeat split|]. constructor; [|constructor].
  assert (keys = List.concat (keys :: nss ++ [[]])) as Hk by (cbn [List.concat]; by rewrite List.concat_app, Hnss).
  unfold form_element. rewrite Hk at 1. apply edits_elem; [done..|].
  constructor; [|apply (Forall2_app (l1 := nss) (l2 := [[]])); [done|by repeat constructor]].
  apply (edits_elem [[Title]; [Description]; [Quorum]; [Duration]]); [done..|]. do 4 (constructor; [done|]). constructor.
Qed.

Lemma no_submit_in_fields s :
  default_button (title_field s) = None ∧ default_button (description_field s) = None ∧
  default_button (quorum_field s) = None ∧ default_button (duration_field s) = None.
Proof.
  split_and!.
  - unfold title_field. by destruct (invalid s _).
  - unfold description_field. by destruct (invalid s _).
  - unfold quorum_field. by destruct (invalid s _).
  - unfold duration_field. destruct (invalid s _), (days_hint s); reflexivity.
Qed.
Definition submit_path (s : FormView) : list nat := [0; 1; S (length (alert_box s)); 1]%nat.
Lemma default_button_form s :
  default_button (form_element s) = Some [S (length (alert_box s)); 1%nat].
Proof.
  destruct (no_submit_in_fields s) as (Ht & Hd & Hq & Hu).
  unfold form_element. cbn [default_button is_submit first_some app].
  rewrite Ht, Hd, Hq, Hu. cbn [fmap option_fmap option_map first_some].
  unfold alert_box. destruct (submitError s) as [[|u e]|]; reflexivity.
Qed.
Lemma click_submit s : click (submit_path s) (dialog s) = Some (if submitting s then [] else [Submitted]).
Proof.
  assert (button_on (submit_path s) (dialog s) = Some (submit_button s) ∧ ∃ l, click (submit_path s) (dialog s) = Some l)
    as [Hb [l Hl]].
  { unfold submit_path, dialog, modal, form_element, alert_box.
    destruct (submitError s) as [[|u e]|]; (split; [reflexivity|eexists; reflexivity]). }
  rewrite Hl. f_equal. destruct (click_dialog s _ l Hl) as [[? _]|(_ & b & f & _ & Hb' & ->)]; [done|].
  rewrite Hb in Hb'. subst b. apply submit_call.
Qed.

(** Everything a gesture can call: at most one thing, and a submission only where
    none is under way. *)
Inductive callable (s : FormView) : list Action → Prop :=
| c_nothing : callable s []
| c_cancel : callable s [Dismissed]
| c_change n v : callable s [Changed n v]
| c_blur n : callable s [Blurred n]
| c_submit : submitting s = false → callable s [Submitted].

Lemma click_callable s p l : click p (dialog s) = Some l → callable s l.
Proof.
  intros [[_ ->]|(_ & b & f & HP & _ & ->)]%click_dialog; [constructor|].
  destruct HP as [?| |b [i Hi| |]].
  - constructor.
  - exact (c_cancel s).
  - rewrite (preset_call s i Hi). constructor.
  - unfold button_call. destruct (disabled (cancel_button s)); [constructor|exact (c_cancel s)].
  - rewrite submit_call. destruct (submitting s) eqn:Hs; [constructor|by apply c_submit].
Qed.
Lemma gesture_callable g s : callable s (gesture g (dialog s)).
Proof. eapply gesture_cases; [apply dialog_edits|constructor..|apply click_callable]. Qed.

(** ** A user and the network

    [handleSubmit] is cut at its awaits: what it does before them, and what it does
    once the answers of the network are in. [pending] has the forms whose submission
    is in flight, as they were when it began. *)
Record Session := { view : FormView; pending : list FormState; onCancel_calls : nat }.
Definition opened : Session := {|
  view := {| form := INITIAL_FORM; touched := []; submitting := false; submitError := None;
             onSuccess_calls := []; status_requests := 0 |};
  pending := []; onCancel_calls := 0 |}.

Definition submit_start (s : FormView) : FormView * option FormState :=
  match fieldError (form s) with
  | _ :: _ =>
      ({| form := form s; touched := keys; submitting := submitting s; submitError := submitError s;
          onSuccess_calls := onSuccess_calls s; status_requests := status_requests s |}, None)
  | [] =>
      ({| form := form s; touched := keys; submitting := true; submitError := None;
          onSuccess_calls := onSuccess_calls s; status_requests := status_requests s |}, Some (form s))
  end.

Section network.
  Variables Tx Sim : Type.
  Variable walletAddress : jstr.
  Implicit Type net : Network Tx Sim.

Definition submit_end net (f : FormState) (s : FormView) : FormView :=
  let '(result, n) := match send_proposal Tx Sim net walletAddress f with
                      | Ok hash => confirm Tx Sim net hash 0 max_attempts
                      | Err e => (Err e, 0%nat)
                      end in
  {| form := form s; touched := touched s; submitting := false;
     submitError := match result with Ok _ => submitError s | Err e => Some e end;
     onSuccess_calls := onSuccess_calls s ++ (match result with Ok i => [i] | Err _ => [] end);
     status_requests := status_requests s + n |}.

Definition perform (d : Session) (a : Action) : Session :=
  match a with
  | Dismissed => {| view := view d; pending := pending d; onCancel_calls := S (onCancel_calls d) |}
  | Changed n v => {| view := handleChange n v (view d); pending := pending d; onCancel_calls := onCancel_calls d |}
  | Blurred n => {| view := handleBlur n (view d); pending := pending d; onCancel_calls := onCancel_calls d |}
  | Submitted =>
      let '(s, f) := submit_start (view d) in
      {| view := s; pending := pending d ++ option_list f; onCancel_calls := onCancel_calls d |}
  end.

(** A gesture on the dialog as it is drawn then, or the end of a submission. *)
Inductive Move := Gestured (g : Gesture) | Settled (i : nat) (net : Network Tx Sim).
Definition move (m : Move) (d : Session) : Session :=
  match m with
  | Gestured g => foldl perform d (gesture g (dialog (view d)))
  | Settled i net =>
      match pending d !! i with
      | Some f => {| view := submit_end net f (view d); pending := delete i (pending d);
                     onCancel_calls := onCancel_calls d |}
      | None => d
      end
  end.
Definition moves (l : list Move) (d : Session) : Session := foldl (flip move) d l.

(** Where nothing happens in between, the two halves are [handleSubmit]. *)
Lemma handleSubmit_cut net s :
  handleSubmit Tx Sim net walletAddress s =
    match submit_start s with
    | (s', Some f) => submit_end net f s'
    | (s', None) => s'
    end.
Proof.
  unfold handleSubmit, submit_start, submit_end. destruct (fieldError (form s)); [|done].
  cbn [form touched submitting submitError onSuccess_calls status_requests].
  destruct (match send_proposal Tx Sim net walletAddress (form s) with Ok _ => _ | Err _ => _ end) as [[] n]; done.
Qed.

(** At most one submission is in flight, and while it is the dialog says so. *)
Record session_inv (d : Session) : Prop := {
  si_pending : pending d = [] ∧ submitting (view d) = false ∨
    ∃ f, pending d = [f] ∧ fieldError f = [] ∧ submitting (view d) = true }.

Lemma session_move_inv m d : session_inv d → session_inv (move m d).
Proof.
  intros [Hd]. constructor. destruct m as [g|i net]; cbn [move].
  - destruct (gesture_callable g (view d)) as [| |n v|n|Hs]; cbn [foldl perform view pending]; try done.
    destruct Hd as [[Hp _]|(f & _ & _ & ?)]; [|congruence]. rewrite Hp. unfold submit_start.
    destruct (fieldError (form (view d))) as [|e l] eqn:He; cbn [view pending submitting]; [right|by left].
    by exists (form (view d)).
  - destruct (pending d !! i) as [f|] eqn:Hi; [|done]. cbn [view pending].
    destruct Hd as [[Hp _]|(f' & Hp & _ & _)]; rewrite Hp in Hi |- *; [done|].
    apply list_lookup_singleton_Some in Hi as [-> _]. left. split; [done|]. unfold submit_end.
    by destruct (match send_proposal _ _ _ _ _ with Ok _ => _ | Err _ => _ end).
Qed.

(** C24. One submission at a time: whatever the user clicks, types, leaves or enters
    anywhere in the dialog of CreateProposalForm, as it is drawn at each moment, and
    whenever the submissions end and with whatever answers, at most one submission is
    in flight, one is in flight exactly while the form says it is submitting, and its
    form had no error when it began. The handler has no guard of its own: it is the
    disabled button that keeps Enter and a second click away. *)
Theorem one_submission_at_a_time (l : list Move) :
  let d := moves l opened in
  (length (pending d) ≤ 1)%nat ∧ (submitting (view d) = true ↔ pending d ≠ []) ∧
  Forall (λ f, fieldError f = []) (pending d).
Proof.
  intros d. assert (session_inv d) as [Hd].
  { apply (fold_preserves move session_inv session_move_inv). constructor. by left. }
  destruct Hd as [[-> ->]|(f & -> & Hf & ->)]; cbn [length]; (split; [lia|]); split; try done.
  by constructor.
Qed.
End network.

(** ** What is drawn in red and what assistive technology is told *)
Definition input_id (n : FieldName) : jstr :=
  match n with
  | Title => js "cp-title" | Description => js "cp-description"
  | Quorum => js "cp-quorum" | Duration => js "cp-duration"
  end.
Definition error_id (n : FieldName) : jstr :=
  match n with
  | Title => js "cp-title-error" | Description => js "cp-desc-error"
  | Quorum => js "cp-quorum-error" | Duration => js "cp-duration-error"
  end.
Definition field (s : FormView) (n : FieldName) : node :=
  match n with
  | Title => title_field s | Description => description_field s
  | Quorum => quorum_field s | Duration => duration_field s
  end.

Lemma ids_field s n : ids (field s n) = input_id n :: (if invalid s n then [error_id n] else []).
Proof.
  destruct n; cbn [field].
  - unfold title_field. by destruct (invalid s _).
  - unfold description_field. by destruct (invalid s _).
  - unfold quorum_field. by destruct (invalid s _).
  - unfold duration_field. by destruct (invalid s _), (days_hint s).
Qed.
Lemma ids_other s : ids header = [] ∧ ids (actions s) = [] ∧ Forall (λ c, ids c = []) (alert_box s).
Proof. split_and!; [done..|]. unfold alert_box. destruct (submitError s) as [[|u e]|]; by repeat constructor. Qed.

Lemma by_id_dialog i s : by_id i (dialog s) = first_some (λ _, by_id i) 0 (List.map (field s) keys).
Proof.
  destruct (ids_other s) as (Hh & Ha & Hb). unfold dialog, modal. rewrite by_id_elem by done. cbn [first_some].
  rewrite by_id_elem by done. cbn [first_some]. rewrite (by_id_None i header) by (rewrite Hh; set_solver).
  unfold form_element. rewrite by_id_elem, first_some_app by done. cbn [first_some]. rewrite by_id_elem by done.
  rewrite first_some_app, (first_some_None i (alert_box s)).
  - cbn [first_some]. rewrite (by_id_None i (actions s)) by (rewrite Ha; set_solver). change (List.map (field s) keys) with [title_field s; description_field s; quorum_field s; duration_field s]. cbn [first_some].
    by destruct (by_id i (title_field s)), (by_id i (description_field s)), (by_id i (quorum_field s)), (by_id i (duration_field s)).
  - eapply Forall_impl; [exact Hb|]. intros c Hc. apply by_id_None. rewrite Hc. set_solver.
Qed.
Definition own_ids (n : FieldName) : list jstr := [input_id n; error_id n].
Lemma own_ids_differ : NoDup (List.concat (List.map own_ids keys)).
Proof. apply (bool_decide_unpack _). vm_compute. exact I. Qed.
Lemma own_input n : input_id n ∈ own_ids n.
Proof. left. Qed.
Lemma own_error n : error_id n ∈ own_ids n.
Proof. right. left. Qed.
Lemma by_id_field i s n : i ∈ own_ids n → by_id i (dialog s) = by_id i (field s n).
Proof.
  intros Hi. rewrite by_id_dialog. apply (by_id_among (field s) own_ids); [|apply own_ids_differ|done].
  intros m. rewrite ids_field. change (own_ids m) with ([input_id m] ++ [error_id m]).
  case_match; [done|]. by apply (list_subseteq_app_l [input_id m]).
Qed.

Lemma error_not_empty f n m : field_error f n = Some m → m ≠ [].
Proof. intros H ->. destruct n; cbn [field_error] in H; cbv zeta in H; repeat case_match; discriminate H. Qed.
Lemma invalid_shown s n :
  (∃ m, shown_error s n = Some m ∧ invalid s n = true ∧ aria_invalid s n = Bool true ∧ error_of s n = Some m) ∨
  (shown_error s n = None ∧ invalid s n = false ∧ aria_invalid s n ≠ Bool true).
Proof.
  unfold shown_error, invalid, aria_invalid, error_of, fieldError. rewrite errors_of_assoc.
  destruct (bool_decide (n ∈ touched s)); [|by right]. destruct (field_error (form s) n) as [m|] eqn:Hm; [|by right].
  left. exists m. apply error_not_empty in Hm. by destruct m.
Qed.

(** The input of a field. *)
Lemma input_of s n :
  ∃ i, by_id (input_id n) (field s n) = Some i ∧ attr AriaInvalid i = Some (aria_invalid s n) ∧
    attr AriaDescribedby i = Some (if truthy (error_of s n) then Txt (error_id n) else Undefined) ∧
    assoc (js "border") (style_of i) =
      Some (Txt (js (if invalid s n then "1px solid #dc2626" else "1px solid #d1d5db"))).
Proof.
  destruct n; (eexists; split; [reflexivity|]; split; [reflexivity|]; split; [reflexivity|]);
    cbn [style_of]; rewrite ?assoc_spread; reflexivity.
Qed.
Lemma error_of_field s n m :
  invalid s n = true → error_of s n = Some m →
  ∃ e, by_id (error_id n) (field s n) = Some e ∧ text_content e = m.
Proof.
  intros Hi Hm. destruct n; cbn [field]; unfold title_field, description_field, quorum_field, duration_field;
    rewrite Hi; (eexists; split; [reflexivity|]); unfold error_span; rewrite Hm; cbn; apply app_nil_r.
Qed.

Lemma no_message s n : invalid s n = false → by_id (error_id n) (dialog s) = None.
Proof.
  intros Hn. rewrite (by_id_field _ s n (own_error n)). apply by_id_None. rewrite ids_field, Hn.
  intros H%list_elem_of_singleton. by destruct n.
Qed.

(** C34. What is drawn and what is announced agree: every field of the dialog is found
    by its identifier; its border is red exactly when its error is shown, which is
    exactly when it is announced as invalid; it is then described by an element
    that is in the dialog and holds the message; and when no error is shown there
    is no such element. *)
Theorem create_dialog_announces_errors (s : FormView) (n : FieldName) :
  ∃ input, by_id (input_id n) (dialog s) = Some input ∧
    match shown_error s n with
    | Some m =>
        assoc (js "border") (style_of input) = Some (Txt (js "1px solid #dc2626")) ∧
        attr AriaInvalid input = Some (Bool true) ∧ attr AriaDescribedby input = Some (Txt (error_id n)) ∧
        ∃ message, by_id (error_id n) (dialog s) = Some message ∧ text_content message = m
    | None =>
        assoc (js "border") (style_of input) = Some (Txt (js "1px solid #d1d5db")) ∧
        attr AriaInvalid input ≠ Some (Bool true) ∧ by_id (error_id n) (dialog s) = None
    end.
Proof.
  destruct (input_of s n) as (i & Hi & Hv & Hd & Hb). exists i.
  rewrite (by_id_field _ s n (own_input n)). split; [done|]. rewrite Hv, Hd, Hb.
  destruct (invalid_shown s n) as [(m & -> & Hinv & -> & Hm)|(-> & Hinv & Hav)].
  - rewrite Hinv, Hm. destruct (error_of_field s n m Hinv Hm) as (e & He & Ht).
    unfold error_of, fieldError in Hm. rewrite errors_of_assoc in Hm. apply error_not_empty in Hm.
    destruct m as [|u m]; [done|]. split_and!; try done. exists e.
    rewrite (by_id_field _ s n (own_error n)). done.
  - rewrite Hinv. split_and!; [done|congruence|by apply no_message].
Qed.

Lemma enter_in s p :
  node_at p (dialog s) ≫= tag_of = Some Input → form_path p (dialog s) = Some [0; 1]%nat →
  press_enter p (dialog s) = Some (if submitting s then [] else [Submitted]).
Proof.
  unfold press_enter. destruct (node_at p (dialog s)) as [m|]; [|done]. cbn [mbind option_bind]. intros -> ->.
  change (node_at [0; 1]%nat (dialog s)) with (Some (form_element s)). cbn [mbind option_bind].
  rewrite default_button_form. exact (click_submit s).
Qed.

(** What every gesture in the dialog of CreateProposalForm does: a click on the
    backdrop closes it, a click anywhere on a button does what is written on it unless
    the button is disabled, and every other click in the panel does nothing, not even
    to the backdrop behind it. Enter in each of the three one-line inputs submits the
    form, unless it is submitting. And while it is submitting the cancel button is
    disabled, but the cross and the backdrop still close the dialog. *)
Theorem gestures_of_create_dialog (s : FormView) :
  (∀ p l, click p (dialog s) = Some l →
     l = match p, button_on p (dialog s) with
         | [], _ => [Dismissed]
         | _, Some b => button_call b
         | _, None => []
         end) ∧
  (∀ p, p ∈ [[0; 1; 0; 0; 1]; [0; 1; 0; 2; 1]; [0; 1; 0; 3; 2]]%nat →
     press_enter p (dialog s) = Some (if submitting s then [] else [Submitted])) ∧
  (button_call (cancel_button s) = if submitting s then [] else [Dismissed]) ∧
  button_on [0; 0; 1]%nat (dialog s) = Some close_button ∧
  click [0; 0; 1]%nat (dialog s) = Some [Dismissed] ∧ click [] (dialog s) = Some [Dismissed].
Proof.
  split_and!; [| | |reflexivity..].
  - intros p l [[-> ->]|(Hp & b & f & _ & <- & ->)]%click_dialog; [done|]. by destruct p.
  - intros p Hp. apply enter_in; set_unfold in Hp; destruct Hp as [->|[->|[->|[]]]]; reflexivity.
  - unfold button_call, cancel_button. destruct (submitting s); reflexivity.
Qed.

(** ** The theorems on small cases *)
Lemma gestures_of_create_dialog_witness :
  click [0; 1; 0; 3; 1; 2; 0]%nat (dialog (view opened)) = Some [Changed Duration (js "604800")] ∧
  press_enter [0; 1; 0; 0; 1]%nat (dialog (view opened)) = Some [Submitted].
Proof.
  destruct (gestures_of_create_dialog (view opened)) as (Hc & He & _). split.
  - assert (∃ l, click [0; 1; 0; 3; 1; 2; 0]%nat (dialog (view opened)) = Some l) as [l Hl]
      by (eexists; vm_compute; reflexivity).
    rewrite Hl, (Hc _ _ Hl). vm_compute. reflexivity.
  - rewrite He; [vm_compute; reflexivity|]. left.
Defined.

End CreateDialog.
