(* ===== verification/NewProposalDialog.v ===== *)
(** * The other form for a proposal as the page has it (the markup of NewProposalForm.tsx)

    The elements NewProposalForm returns, with its styles, and a user at work in
    them. [ProposalForms.NewProposalForm] says what the handlers do, with the guards
    that the markup gives them; here those guards come out of the elements. *)
From Stdlib Require Import Ascii String ZArith Lia.
From stdpp Require Import prelude list strings.
From S2P Require Import Prelude JsString JsNumber Markup ProposalForms ProposalDialogs.
Local Open Scope Z_scope.

Module NewDialog.
Import Markup Fields FormActions NewProposalForm.

Definition overlay : Style :=
  [css "position" "fixed"; css_num "inset" 0; css "background" "rgba(0,0,0,0.5)"; css "display" "flex";
   css "alignItems" "center"; css "justifyContent" "center"; css_num "zIndex" 100].
Definition dialog_style : Style :=
  [css "background" "var(--bg-card, #fff)"; css "color" "var(--text-primary, #1e293b)"; css_num "borderRadius" 12;
   css "padding" "2rem"; css_num "maxWidth" 560; css "width" "90%"; css "maxHeight" "90vh"; css "overflowY" "auto"].
Definition fieldStyle : Style :=
  [css "display" "flex"; css "flexDirection" "column"; css "gap" "0.25rem"; css "marginBottom" "1rem"].
Definition inputStyle (hasError : bool) : Style :=
  [css "padding" "0.5rem 0.75rem";
   css_if hasError "border" "1px solid var(--error-color, #dc2626)" "1px solid var(--input-border, #d1d5db)";
   css_num "borderRadius" 6; css "fontSize" "0.875rem"; css "width" "100%"; css "boxSizing" "border-box";
   css "background" "var(--bg-input, #fff)"; css "color" "var(--text-primary, #1e293b)";
   (js "outline", if hasError then Txt (js "2px solid var(--error-color, #dc2626)") else Undefined)].
Definition errorStyle : Style :=
  [css "color" "var(--error-color, #dc2626)"; css "fontSize" "0.75rem"; css "marginTop" "0.15rem"].
Definition hintStyle : Style :=
  [css "fontSize" "0.7rem"; css "color" "var(--text-muted, #888)"; css "marginTop" "0.1rem"].

Section view.
  Variable toLocaleString : Z → jstr.
  Variable s : FormView.

Definition error_of (n : FieldName) : option jstr := assoc n (errors s).
Definition label (elt text : string) : node :=
  Elem Label [(HtmlFor, Txt (js elt))] [] []
    [txt text; Elem Span [(AriaHidden, Txt (js "true"))] [css "color" "var(--error-color, #dc2626)"] [] [txt "*"]].
Definition hint (elt : string) (text : jstr) : node :=
  Elem Span [(Id, Txt (js elt))] hintStyle [] [Text text].
Definition error_span (n : FieldName) (elt : string) : list node :=
  when (showError s n)
    (Elem Span [(Id, Txt (js elt)); (Role, Txt (js "alert"))] errorStyle [] [Text (default [] (error_of n))]).
Definition described_by (ids : string) : Attrs := [(AriaDescribedby, Txt (js ids))].
Definition announced (n : FieldName) : Attrs :=
  [(AriaInvalid, Bool (showError s n)); (AriaRequired, Txt (js "true"))].

Definition title_field : node :=
  Elem Div [] fieldStyle []
    ([label "np-title" "Title ";
      Elem Input
        ([(Id, Txt (js "np-title")); (Type_, Txt (js "text")); (ValueAttr, Txt (title (form s)));
          (MaxLength, Num (num_of_Z TITLE_MAX))] ++ described_by "np-title-hint np-title-err" ++ announced Title ++
         [(AutoComplete, Txt (js "off"))])
        (inputStyle (showError s Title)) (handlers Title) [];
      hint "np-title-hint" (dec_of (jlen (title (form s))) ++ js "/" ++ dec_of TITLE_MAX ++ js " characters")] ++
     error_span Title "np-title-err").
Definition description_field : node :=
  Elem Div [] fieldStyle []
    ([label "np-desc" "Description ";
      Elem Textarea
        ([(Id, Txt (js "np-desc")); (ValueAttr, Txt (description (form s)));
          (MaxLength, Num (num_of_Z DESC_MAX)); (Rows, Num (num_of_Z 4))] ++
         described_by "np-desc-hint np-desc-err" ++ announced Description)
        (spread (inputStyle (showError s Description)) [css "resize" "vertical"]) (handlers Description) [];
      hint "np-desc-hint" (dec_of (jlen (description (form s))) ++ js "/" ++ dec_of DESC_MAX ++ js " characters")] ++
     error_span Description "np-desc-err").
Definition quorum_field : node :=
  Elem Div [] fieldStyle []
    ([label "np-quorum" "Quorum (token units) ";
      Elem Input
        ([(Id, Txt (js "np-quorum")); (Type_, Txt (js "number")); (Min, Num (num_of_Z 1)); (Step, Num (num_of_Z 1));
          (ValueAttr, Txt (quorum (form s)))] ++ described_by "np-quorum-hint np-quorum-err" ++ announced Quorum)
        (inputStyle (showError s Quorum)) (handlers Quorum) [];
      hint "np-quorum-hint" (js "Minimum token votes required for the proposal to pass.")] ++
     error_span Quorum "np-quorum-err").
Definition duration_field : node :=
  Elem Div [] fieldStyle []
    ([label "np-duration" "Duration (seconds) ";
      Elem Input
        ([(Id, Txt (js "np-duration")); (Type_, Txt (js "number")); (Min, Num (num_of_Z DURATION_MIN));
          (Max, Num (num_of_Z DURATION_MAX)); (Step, Num (num_of_Z 1)); (ValueAttr, Txt (duration (form s)))] ++
         described_by "np-duration-hint np-duration-err" ++ announced Duration)
        (inputStyle (showError s Duration)) (handlers Duration) [];
      hint "np-duration-hint"
        (toLocaleString DURATION_MIN ++ js "–" ++ toLocaleString DURATION_MAX ++ js " s" ++ [0xA0] ++ js " (1 min – 30 days)")] ++
     error_span Duration "np-duration-err").

Definition cancel_button : node :=
  Elem Button [(Type_, Txt (js "button"))]
    [css "padding" "0.5rem 1rem"; css "border" "1px solid var(--input-border, #d1d5db)"; css_num "borderRadius" 6;
     css "background" "var(--bg-card, #fff)"; css "color" "var(--text-primary, #1e293b)"; css "cursor" "pointer"]
    [on_click [Call Dismissed]] [txt "Cancel"].
Definition submit_button : node :=
  Elem Button
    [(Type_, Txt (js "submit")); (Disabled, Bool (submitDisabled toLocaleString s));
     (AriaDisabled, Bool (submitDisabled toLocaleString s))]
    [css "padding" "0.5rem 1rem"; css "border" "none"; css_num "borderRadius" 6; css "background" "#3b82f6";
     css "color" "#fff"; css_if (submitDisabled toLocaleString s) "cursor" "not-allowed" "pointer";
     css_dec "opacity" (if submitDisabled toLocaleString s then "0.65" else "1")]
    [] [Text (submit_text s)].
Definition actions : node :=
  Elem Div [] [css "display" "flex"; css "gap" "0.75rem"; css "justifyContent" "flex-end"; css "marginTop" "0.5rem"] []
    [cancel_button; submit_button].
Definition close_button : node :=
  Elem Button [(AriaLabel, Txt (js "Close"))]
    [css "background" "none"; css "border" "none"; css "fontSize" "1.5rem"; css "cursor" "pointer";
     css "color" "var(--text-primary, #1e293b)"] [on_click [Call Dismissed]] [txt "×"].
Definition header : node :=
  Elem Div [] [css "display" "flex"; css "justifyContent" "space-between"; css "marginBottom" "1.5rem"] []
    [Elem H2 [(Id, Txt (js "new-proposal-title"))] [css_num "margin" 0] [] [txt "New Proposal"]; close_button].
Definition form_element : node :=
  Elem Form [(NoValidate, Bool true); (AriaLabel, Txt (js "New proposal form"))] []
    [(OnSubmit, λ _, [PreventDefault; Call Submitted])]
    [title_field; description_field; quorum_field; duration_field; actions].
Definition dialog : node :=
  modal Dismissed [(Role, Txt (js "presentation"))] overlay
    [(Role, Txt (js "dialog")); (AriaModal, Txt (js "true")); (AriaLabelledby, Txt (js "new-proposal-title"))]
    dialog_style [header; form_element].
End view.

(** ** What a gesture calls *)
Section gestures.
  Variable toLocaleString : Z → jstr.
  Implicit Type s : FormView.
Notation dialog := (dialog toLocaleString).
Notation submit_button := (submit_button toLocaleString).
Notation form_element := (form_element toLocaleString).
Notation duration_field := (duration_field toLocaleString).
Notation actions := (actions toLocaleString).

Lemma new_fields_inert s :
  Forall (λ n, inert n = true) [title_field s; description_field s; quorum_field s; duration_field s].
Proof.
  unfold title_field, description_field, quorum_field, NewDialog.duration_field, error_span.
  repeat constructor; by destruct (showError s _).
Qed.

(** The buttons, and the form they are in. *)
Inductive form_button s : node → Prop :=
| fb_cancel : form_button s cancel_button
| fb_submit : form_button s (submit_button s).
Inductive inside s (f : option node) : option node → option node → Prop :=
| in_nothing : inside s f None f
| in_button b : form_button s b → inside s f (Some b) f.
Inductive place s : option node → option node → Prop :=
| on_nothing f : place s None f
| on_close : place s (Some close_button) None
| on_button b : form_button s b → place s (Some b) (Some (form_element s)).

Lemma new_form_region s : region (inside s (Some (form_element s))) (form_element s).
Proof.
  apply (region_elem (inside s None)); [done..| | |].
  - intros b f []; by constructor.
  - constructor.
  - pose proof (new_fields_inert s) as H. do 4 (apply Forall_cons in H as [?%(region_inert (inside s None)) H]; [|constructor]).
    do 4 (constructor; [done|]). constructor; [|constructor]. apply region_plain; [done..|constructor|].
    constructor; [|constructor; [|constructor]]; apply region_button; try done.
    + apply in_button, fb_cancel.
    + apply in_button, fb_submit.
Qed.
Lemma new_panel_region s : Forall (region (place s)) [header; form_element s].
Proof.
  constructor; [|constructor; [|constructor]].
  - apply region_plain; [done..|constructor|]. constructor; [apply region_inert; [done|constructor]|].
    constructor; [|constructor]. apply region_button; [done|]. exact (on_close s).
  - eapply region_mono; [|apply new_form_region]. intros b f []; by constructor.
Qed.

Definition button_call (b : node) : list Action :=
  if disabled b then []
  else if bool_decide (text_content b = js "×") || bool_decide (text_content b = js "Cancel") then [Dismissed]
  else [Submitted].
Lemma new_submit_call s : button_call (submit_button s) = if submitDisabled toLocaleString s then [] else [Submitted].
Proof.
  unfold button_call, NewDialog.submit_button, submit_text, submitDisabled.
  destruct (submitting s), (submitAttempted s && formHasErrors toLocaleString s); reflexivity.
Qed.
Lemma new_pressed_call s b f : place s b f → pressed b f = match b with Some b => button_call b | None => [] end.
Proof.
  intros [?| |b' []]; [done|reflexivity|reflexivity|]. rewrite new_submit_call. unfold pressed, NewDialog.submit_button.
  by destruct (submitDisabled toLocaleString s).
Qed.

Lemma new_click_dialog s p l :
  click p (dialog s) = Some l →
  (p = [] ∧ l = [Dismissed]) ∨
  (p ≠ [] ∧ ∃ b f, place s b f ∧ button_on p (dialog s) = b ∧ l = match b with Some b => button_call b | None => [] end).
Proof.
  intros Hl. destruct (modal_click (place s) _ _ _ _ _ _ _ _ (new_panel_region s) ltac:(constructor) Hl)
    as [?|(Hp & b & f & HP & Hb & ->)]; [by left|]. right. split; [done|]. exists b, f.
  by rewrite (new_pressed_call s b f HP).
Qed.
End gestures.

Lemma new_dialog_edits tls s : edits keys (dialog tls s).
Proof.
  assert (edits [Title] (title_field s) ∧ edits [Description] (description_field s) ∧
          edits [Quorum] (quorum_field s) ∧ edits [Duration] (duration_field tls s)) as (Ht & Hd & Hq & Hu).
  { unfold title_field, description_field, quorum_field, duration_field, error_span.
    split_and!; by destruct (showError s _). }
  apply (edits_elem [keys]); [done..|]. constructor; [|constructor].
  apply (edits_elem [[]; keys]); [done..|]. constructor; [by repeat split|]. constructor; [|constructor].
  apply (edits_elem [[Title]; [Description]; [Quorum]; [Duration]; []]); [done..|]. do 4 (constructor; [done|]).
  constructor; [by repeat split|constructor].
Qed.

Definition submit_path : list nat := [0; 1; 4; 1]%nat.
Lemma new_default_button_form tls s : default_button (form_element tls s) = Some [4; 1]%nat.
Proof.
  assert (default_button (title_field s) = None ∧ default_button (description_field s) = None ∧
          default_button (quorum_field s) = None ∧ default_button (duration_field tls s) = None) as (Ht & Hd & Hq & Hu).
  { unfold title_field, description_field, quorum_field, duration_field, error_span.
    split_and!; by destruct (showError s _). }
  unfold form_element. cbn [default_button is_submit first_some]. rewrite Ht, Hd, Hq, Hu. reflexivity.
Qed.
Lemma new_click_submit tls s :
  click submit_path (dialog tls s) = Some (if submitDisabled tls s then [] else [Submitted]).
Proof.
  assert (∃ l, click submit_path (dialog tls s) = Some l) as [l Hl] by (eexists; reflexivity).
  rewrite Hl. f_equal. destruct (new_click_dialog tls s _ l Hl) as [[? _]|(_ & b & f & _ & Hb & ->)]; [done|].
  change (button_on submit_path (dialog tls s)) with (Some (submit_button tls s)) in Hb. subst b. apply new_submit_call.
Qed.
Lemma new_enter_in tls s p :
  node_at p (dialog tls s) ≫= tag_of = Some Input → form_path p (dialog tls s) = Some [0; 1]%nat →
  press_enter p (dialog tls s) = Some (if submitDisabled tls s then [] else [Submitted]).
Proof.
  unfold press_enter. destruct (node_at p (dialog tls s)) as [m|]; [|done]. cbn [mbind option_bind]. intros -> ->.
  change (node_at [0; 1]%nat (dialog tls s)) with (Some (form_element tls s)). cbn [mbind option_bind].
  rewrite new_default_button_form. exact (new_click_submit tls s).
Qed.

Inductive callable (tls : Z → jstr) (s : FormView) : list Action → Prop :=
| c_nothing : callable tls s []
| c_close : callable tls s [Dismissed]
| c_change n v : callable tls s [Changed n v]
| c_blur n : callable tls s [Blurred n]
| c_submit : submitDisabled tls s = false → callable tls s [Submitted].
Lemma new_click_callable tls s p l : click p (dialog tls s) = Some l → callable tls s l.
Proof.
  intros [[_ ->]|(_ & b & f & HP & _ & ->)]%new_click_dialog; [constructor|].
  destruct HP as [?| |b []].
  - constructor.
  - exact (c_close tls s).
  - exact (c_close tls s).
  - rewrite new_submit_call. destruct (submitDisabled tls s) eqn:Hs; [constructor|by apply c_submit].
Qed.

Lemma new_gesture_callable tls g s : callable tls s (gesture g (dialog tls s)).
Proof. eapply gesture_cases; [apply new_dialog_edits|constructor..|apply new_click_callable]. Qed.

(** ** A user and the clock

    [handleSubmit] has no guard. [timers] counts the submissions whose await has not
    ended. *)
Record Session := { view : FormView; timers : nat; onClose_calls : nat }.
Definition opened : Session := {| view := initial; timers := 0; onClose_calls := 0 |}.

Section session.
  Variable toLocaleString : Z → jstr.

Definition perform (d : Session) (a : Action) : Session :=
  match a with
  | Dismissed => {| view := view d; timers := timers d; onClose_calls := S (onClose_calls d) |}
  | Changed n v => {| view := handleChange toLocaleString n v (view d); timers := timers d; onClose_calls := onClose_calls d |}
  | Blurred n => {| view := handleBlur toLocaleString n (view d); timers := timers d; onClose_calls := onClose_calls d |}
  | Submitted =>
      {| view := handleSubmit toLocaleString (view d);
         timers := if isFormValid (validateAll toLocaleString (form (view d))) then S (timers d) else timers d;
         onClose_calls := onClose_calls d |}
  end.
(** A gesture on the dialog as it is drawn then, or the end of an await. *)
Inductive Move := Gestured (g : Gesture) | Settled (r : res jstr Z).
Definition move (m : Move) (d : Session) : Session :=
  match m with
  | Gestured g => foldl perform d (gesture g (dialog toLocaleString (view d)))
  | Settled r =>
      match timers d with
      | O => d
      | S n => {| view := submitted r (view d); timers := n; onClose_calls := onClose_calls d |}
      end
  end.
Definition moves (l : list Move) (d : Session) : Session := foldl (flip move) d l.

(** Idle; one submission under way; or done. *)
Definition phase (d : Session) : Prop :=
  (timers d = 0%nat ∧ submitting (view d) = false ∧ onSuccess_calls (view d) = []) ∨
  (timers d = 1%nat ∧ submitting (view d) = true ∧ onSuccess_calls (view d) = []) ∨
  (timers d = 0%nat ∧ submitting (view d) = true ∧ ∃ i, onSuccess_calls (view d) = [i]).

(** A move is nothing the handlers with their guards do not do. *)
Lemma move_handles m d :
  phase d → phase (move m d) ∧
  (view (move m d) = view d ∨ ∃ e, view (move m d) = handle toLocaleString e (view d)).
Proof.
  intros Hd. destruct m as [g|r]; cbn [move].
  - destruct (new_gesture_callable toLocaleString g (view d)) as [| |n v|n|Hs]; cbn [foldl perform view].
    + auto.
    + auto.
    + split; [done|]. right. by exists (Change n v).
    + split; [done|]. right. by exists (Blur n).
    + split; [|right; exists Submit; cbn [handle]; by rewrite Hs].
      unfold submitDisabled in Hs. apply orb_false_iff in Hs as [Hs _].
      destruct Hd as [(Ht & _ & Ho)|[(_ & Hsub & _)|(_ & Hsub & _)]]; [|congruence..].
      unfold phase. cbn [view timers handleSubmit submitting onSuccess_calls].
      destruct (isFormValid _); [right; left|left]; rewrite Ht; done.
  - destruct Hd as [(Ht & H)|[(Ht & Hsub & Ho)|(Ht & H)]]; rewrite Ht.
    + split; [left; done|by left].
    + split; [|right; exists (Settle r); cbn [handle view]; by rewrite Hsub].
      unfold phase. destruct r as [i|e]; cbn [view timers submitted submitting onSuccess_calls]; rewrite Ho.
      * right. right. rewrite Hsub. eauto.
      * left. done.
    + split; [right; right; done|by left].
Qed.
Lemma moves_handle l d :
  phase d → phase (moves l d) ∧ ∃ es, view (moves l d) = handle_all toLocaleString es (view d).
Proof.
  revert d. induction l as [|m l IH]; intros d Hd; [split; [done|by exists []]|].
  destruct (move_handles m d Hd) as [Hm Hv]. destruct (IH (move m d) Hm) as [Hp [es He]]. unfold moves in *. cbn [foldl flip].
  split; [done|]. rewrite He. destruct Hv as [->|[e ->]]; [by exists es|by exists (e :: es)].
Qed.

(** C40. NewProposalForm submits once: whatever the user clicks, types, leaves or enters
    anywhere in the dialog, as it is drawn at each moment, and whenever the
    submissions end, at most one is under way, and at most one ever succeeds; once
    it has, none is started again. The handler has no guard of its own; the disabled
    button is enough, and the state of the form is one that the guarded handlers
    reach by some sequence of events, so that its errors are never stale. *)
Theorem new_form_submits_once (l : list Move) :
  let d := moves l opened in
  (timers d ≤ 1)%nat ∧ (length (onSuccess_calls (view d)) ≤ 1)%nat ∧
  (onSuccess_calls (view d) ≠ [] → timers d = 0%nat ∧ ∀ l', onSuccess_calls (view (moves l' d)) = onSuccess_calls (view d)) ∧
  ∃ es, view d = handle_all toLocaleString es initial.
Proof.
  intros d. destruct (moves_handle l opened) as [Hd Hes]; [by left|]. fold d in Hd, Hes.
  split; [destruct Hd as [(-> & _)|[(-> & _)|(-> & _)]]; lia|].
  split; [destruct Hd as [(_ & _ & ->)|[(_ & _ & ->)|(_ & _ & i & ->)]]; cbn; lia|]. split; [|done].
  intros Hs. destruct Hd as [(_ & _ & ?)|[(_ & _ & ?)|(Ht & Hsub & i & Hi)]]; [done..|]. split; [done|]. intros l'.
  assert (∀ m d, timers d = 0%nat → submitting (view d) = true →
    timers (move m d) = 0%nat ∧ submitting (view (move m d)) = true ∧ onSuccess_calls (view (move m d)) = onSuccess_calls (view d)) as Hstop.
  { clear. intros m d Ht Hsub. destruct m as [g|r]; cbn [move]; [|by rewrite Ht].
    destruct (new_gesture_callable toLocaleString g (view d)) as [| |n v|n|Hs]; cbn [foldl perform view timers]; try done.
    unfold submitDisabled in Hs. by rewrite Hsub in Hs. }
  clearbody d. clear Hes Hs. revert d Ht Hsub Hi. induction l' as [|m l' IH]; intros d Ht Hsub Hi; [done|].
  destruct (Hstop m d Ht Hsub) as (Ht' & Hsub' & Ho). unfold moves in *. cbn [foldl flip].
  rewrite (IH (move m d)); [congruence..|]. by rewrite Ho.
Qed.
End session.

(** ** What is drawn in red and what assistive technology is told *)
Definition error_id (n : FieldName) : jstr :=
  match n with
  | Title => js "np-title-err" | Description => js "np-desc-err"
  | Quorum => js "np-quorum-err" | Duration => js "np-duration-err"
  end.
Definition hint_id (n : FieldName) : jstr :=
  match n with
  | Title => js "np-title-hint" | Description => js "np-desc-hint"
  | Quorum => js "np-quorum-hint" | Duration => js "np-duration-hint"
  end.

Section ids.
  Variable toLocaleString : Z → jstr.
  Implicit Type s : FormView.
Notation dialog := (dialog toLocaleString).

Definition field (n : FieldName) s : node :=
  match n with
  | Title => title_field s | Description => description_field s
  | Quorum => quorum_field s | Duration => duration_field toLocaleString s
  end.
Lemma new_ids_field n s :
  ids (field n s) = [input_id n; hint_id n] ++ (if showError s n then [error_id n] else []).
Proof.
  destruct n; unfold field, title_field, description_field, quorum_field, duration_field, error_span;
    by destruct (showError s _).
Qed.
Lemma new_by_id_dialog i s :
  i ≠ js "new-proposal-title" →
  by_id i (dialog s) = first_some (λ _, by_id i) 0 (List.map (λ n, field n s) keys).
Proof.
  intros Hi. unfold dialog, NewDialog.dialog, modal. rewrite by_id_elem by done. cbn [first_some].
  rewrite by_id_elem by done. cbn [first_some].
  rewrite (by_id_None i header) by (change (ids header) with [js "new-proposal-title"]; set_solver).
  unfold form_element. rewrite by_id_elem by done.
  change [title_field s; description_field s; quorum_field s; duration_field toLocaleString s; actions toLocaleString s]
    with (List.map (λ n, field n s) keys ++ [actions toLocaleString s]).
  rewrite first_some_app. cbn [first_some].
  rewrite (by_id_None i (actions toLocaleString s)) by (change (ids (actions toLocaleString s)) with (@nil jstr); set_solver).
  by destruct (first_some _ _ _).
Qed.
End ids.

Definition own_ids (n : FieldName) : list jstr := [input_id n; hint_id n; error_id n].
Lemma new_own_ids_differ : NoDup (List.concat (List.map own_ids keys)).
Proof. apply (bool_decide_unpack _). vm_compute. exact I. Qed.
Lemma ids_own tls n s : ids (field tls n s) ⊆ own_ids n.
Proof.
  rewrite new_ids_field. change (own_ids n) with ([input_id n; hint_id n] ++ [error_id n]).
  case_match; [done|]. rewrite app_nil_r. by apply list_subseteq_app_l.
Qed.
Lemma new_own_input n : input_id n ∈ own_ids n.
Proof. left. Qed.
Lemma own_hint n : hint_id n ∈ own_ids n.
Proof. right. left. Qed.
Lemma new_own_error n : error_id n ∈ own_ids n.
Proof. right. right. left. Qed.
Lemma new_by_id_field tls i n s : i ∈ own_ids n → by_id i (dialog tls s) = by_id i (field tls n s).
Proof.
  intros Hi. rewrite new_by_id_dialog.
  - apply (by_id_among (λ n, field tls n s) own_ids); [|apply new_own_ids_differ|done].
    intros m. apply ids_own.
  - intros ->. revert Hi. destruct n; apply (bool_decide_unpack _); vm_compute; exact I.
Qed.

Lemma new_input_of tls n s :
  ∃ i, by_id (input_id n) (field tls n s) = Some i ∧ attr AriaInvalid i = Some (Bool (showError s n)) ∧
    attr AriaDescribedby i = Some (Txt (hint_id n ++ js " " ++ error_id n)) ∧
    assoc (js "border") (style_of i) = Some (Txt (js (if showError s n then "1px solid var(--error-color, #dc2626)"
                                                      else "1px solid var(--input-border, #d1d5db)"))).
Proof.
  destruct n; (eexists; split; [reflexivity|]; split; [reflexivity|]; split; [reflexivity|]);
    cbn [style_of]; rewrite ?assoc_spread; reflexivity.
Qed.
Lemma hint_of tls n s : ∃ h, by_id (hint_id n) (field tls n s) = Some h.
Proof. destruct n; eexists; reflexivity. Qed.
Lemma new_error_of_field tls n s :
  showError s n = true → ∃ e, by_id (error_id n) (field tls n s) = Some e ∧ text_content e = default [] (assoc n (errors s)) ∧
    attr Role e = Some (Txt (js "alert")).
Proof.
  intros Hs. destruct n; cbn [field]; unfold title_field, description_field, quorum_field, duration_field, error_span;
    rewrite Hs; (eexists; split; [reflexivity|]); (split; [apply app_nil_r|reflexivity]).
Qed.

(** What is drawn and what is announced agree in the dialog of NewProposalForm:
    every field is found by its identifier, and so is its hint; where the field shows
    an error its border is red, it is announced as invalid, and one of the elements
    that describe it holds the message; where it does not its border is grey, it is
    announced as valid, and there is no such element. And of the identifiers that a
    failed submission tries to focus exactly the one of the description is missing. *)
Theorem new_dialog_announces_errors (toLocaleString : Z → jstr) (s : FormView) (n : FieldName) :
  ∃ input hint, by_id (input_id n) (dialog toLocaleString s) = Some input ∧
    by_id (hint_id n) (dialog toLocaleString s) = Some hint ∧
    attr AriaDescribedby input = Some (Txt (hint_id n ++ js " " ++ error_id n)) ∧
    attr AriaInvalid input = Some (Bool (showError s n)) ∧
    assoc (js "border") (style_of input) =
      Some (Txt (js (if showError s n then "1px solid var(--error-color, #dc2626)" else "1px solid var(--input-border, #d1d5db)"))) ∧
    (if showError s n
     then ∃ message, by_id (error_id n) (dialog toLocaleString s) = Some message ∧
            text_content message = default [] (assoc n (errors s)) ∧ attr Role message = Some (Txt (js "alert"))
     else by_id (error_id n) (dialog toLocaleString s) = None) ∧
    (is_Some (by_id (js "np-" ++ key_name n) (dialog toLocaleString s)) ↔ n ≠ Description).
Proof.
  destruct (new_input_of toLocaleString n s) as (i & Hi & Hv & Hd & Hb), (hint_of toLocaleString n s) as (h & Hh).
  exists i, h. rewrite (new_by_id_field _ _ _ s (new_own_input n)), (new_by_id_field _ _ _ s (own_hint n)), (new_by_id_field _ _ _ s (new_own_error n)).
  split_and!; try done.
  - destruct (showError s n) eqn:Hs; [by apply new_error_of_field|]. apply by_id_None. rewrite new_ids_field, Hs. rewrite app_nil_r.
    destruct n; apply (bool_decide_unpack _); vm_compute; exact I.
  - destruct (decide (n = Description)) as [->|Hn].
    + split; [|done]. rewrite new_by_id_dialog by (vm_compute; discriminate). intros [x Hx]. exfalso. revert Hx.
      rewrite first_some_None; [done|]. apply Forall_fmap, list.Forall_forall. intros m _. apply by_id_None.
      intros Hin%ids_own. revert Hin. destruct m; apply (bool_decide_unpack _); vm_compute; exact I.
    + split; [done|]. intros _. exists i.
      rewrite <- Hi, <- (new_by_id_field _ _ _ s (new_own_input n)). by destruct n.
Qed.

(** ** The theorems on a short session *)
Definition filling_in : list Move :=
  [Gestured (Type_into [0; 1; 0; 1]%nat (js "Raise rewards")); Gestured (Leave [0; 1; 0; 1]%nat);
   Gestured (Type_into [0; 1; 1; 1]%nat (js "By five percent")); Gestured (Type_into [0; 1; 2; 1]%nat (js "1000"));
   Gestured (Type_into [0; 1; 3; 1]%nat (js "86400")); Gestured (Click [0; 1; 4; 1; 0]%nat);
   Gestured (Enter [0; 1; 0; 1]%nat); Settled (Ok 7); Gestured (Click [0; 1; 4; 1]%nat)].
Lemma new_form_submits_once_witness :
  onSuccess_calls (view (moves dec_of filling_in opened)) = [7] ∧
  timers (moves dec_of filling_in opened) = 0%nat ∧
  ∀ l', onSuccess_calls (view (moves dec_of l' (moves dec_of filling_in opened))) = [7].
Proof.
  assert (onSuccess_calls (view (moves dec_of filling_in opened)) = [7]) as H by (vm_compute; reflexivity).
  split; [exact H|]. destruct (new_form_submits_once dec_of filling_in) as (_ & _ & Hd & _).
  rewrite H in Hd. apply Hd. discriminate.
Defined.

End NewDialog.
