(* ===== verification/Api.v ===== *)
(** * Configuration and contract access of the front end
    (frontend/src/config.ts and api.ts)

    The RPC server and the Stellar SDK are third-party code: [server] answers a
    simulated contract call with the decoded result, with no result, or with a
    rejection, and [Sdk] holds the checks made while a transaction is built. [Serves] states
    what a server that reflects a given contract state answers. *)
From Stdlib Require Import Ascii String ZArith Lia.
From stdpp Require Import prelude list strings.
From S2P Require Import Prelude JsString JsNumber Format.
Local Open Scope Z_scope.

Module Config.

Record NetworkConfig := {
  rpcUrl : jstr;
  networkPassphrase : jstr;
  governanceContractId : jstr;
  tokenContractId : jstr;
  treasuryContractId : jstr }.

(** The build-time environment. *)
Record Env := {
  VITE_NETWORK : option jstr;
  VITE_GOVERNANCE_CONTRACT_ID : option jstr;
  VITE_TOKEN_CONTRACT_ID : option jstr;
  VITE_TREASURY_CONTRACT_ID : option jstr }.

Section config.
  Variable env : Env.

(** [NETWORKS[name]] is read as a table of its own keys: a network named like a
    property of every object ("constructor") is not considered. *)

Definition testnet : NetworkConfig := {|
  rpcUrl := js "https://soroban-testnet.stellar.org";
  networkPassphrase := js "Test SDF Network ; September 2015";
  governanceContractId := default [] (VITE_GOVERNANCE_CONTRACT_ID env);
  tokenContractId := default [] (VITE_TOKEN_CONTRACT_ID env);
  treasuryContractId := default [] (VITE_TREASURY_CONTRACT_ID env) |}.
Definition mainnet : NetworkConfig := {|
  rpcUrl := js "https://soroban-mainnet.stellar.org";
  networkPassphrase := js "Public Global Stellar Network ; September 2015";
  governanceContractId := default [] (VITE_GOVERNANCE_CONTRACT_ID env);
  tokenContractId := default [] (VITE_TOKEN_CONTRACT_ID env);
  treasuryContractId := default [] (VITE_TREASURY_CONTRACT_ID env) |}.
Definition NETWORKS : list (jstr * NetworkConfig) := [(js "testnet", testnet); (js "mainnet", mainnet)].

Definition ACTIVE_NETWORK : jstr := default (js "testnet") (VITE_NETWORK env).
Definition config : NetworkConfig := default testnet (assoc ACTIVE_NETWORK NETWORKS).

Definition EXPLORER_BASE : list (jstr * jstr) :=
  [(js "testnet", js "https://stellar.expert/explorer/testnet");
   (js "mainnet", js "https://stellar.expert/explorer/public")].
Definition explorerBase : jstr :=
  default (js "https://stellar.expert/explorer/testnet") (assoc ACTIVE_NETWORK EXPLORER_BASE).
Definition explorerAccountUrl (address : jstr) : jstr := explorerBase ++ js "/account/" ++ address.
Definition explorerTxUrl (hash : jstr) : jstr := explorerBase ++ js "/tx/" ++ hash.

Definition bad_contract_id (c : jstr) : bool :=
  bool_decide (c = []) || negb (startsWith c (js "C")) || negb (jlen c =? 56).

Definition validateConfig : res jstr () :=
  let errors :=
    (if bad_contract_id (governanceContractId config)
     then [js "VITE_GOVERNANCE_CONTRACT_ID must be a valid Stellar contract ID (starts with C, 56 characters)."]
     else []) ++
    (if bad_contract_id (tokenContractId config)
     then [js "VITE_TOKEN_CONTRACT_ID must be a valid Stellar contract ID (starts with C, 56 characters)."]
     else []) in
  match errors with
  | [] => Ok ()
  | _ => Err (js "Configuration Error:" ++ [10] ++ join [10] errors)
  end.

Lemma bad_contract_id_spec c :
  bad_contract_id c = false ↔ jlen c = 56 ∧ ∃ r, c = js "C" ++ r.
Proof.
  unfold bad_contract_id. rewrite !orb_false_iff, bool_decide_eq_false, !negb_false_iff, Z.eqb_eq,
    startsWith_spec. split.
  - intros [[_ [r ->]] Hl]. split; [done|]. by exists r.
  - intros [Hl [r ->]]. split_and!; [done | by exists r | done].
Qed.
End config.
End Config.

Module Api.
Import Format Config.

(** ** Calls *)
Inductive ScArg := SAddress (a : jstr) | SU64 (n : Z) | SU32 (n : Z) | SVec (l : list ScArg).

(** A transaction built for simulation: its source account and its one call. *)
Record Tx := { source : jstr; contract : jstr; method : jstr; args : list ScArg }.

(** A decoded contract value, [scValToNative(retval)]. *)
Inductive Native :=
| NBig (n : Z)                 (* 64 and 128 bit integers *)
| NNum (n : Z)                 (* 32 bit integers *)
| NBool (b : bool)
| NStr (s : jstr)              (* addresses, strings, symbols *)
| NProposal (p : Proposal)
| NVote (v : VoteRecord)
| NNull.

(** An HTTP answer: [response.json()] may throw; [body.error] as JSON text. *)
Record HttpResponse := { http_ok : bool; http_status : Z; json_error : res jstr (option jstr) }.

Definition Server := Tx → res jstr (option Native).

(** What the SDK checks while a transaction is built: [new Account(id, '0')], the
    contract identifier of [Operation.invokeContractFunction], and
    [nativeToScVal(a, { type: 'address' })]; each throws on text it rejects. *)
Record Sdk := {
  Account : jstr → res jstr ();
  contract_ref : jstr → res jstr ();
  address_arg : jstr → res jstr ScArg }.

Section api.
  Variable env : Env.
  Variable sdk : Sdk.
  Variable server : Server.

Definition cfg : NetworkConfig := config env.

Definition buildTx (senderOrDummy contractId m : jstr) (a : list ScArg) : res jstr Tx :=
  _ ← Account sdk senderOrDummy;
  _ ← contract_ref sdk contractId;
  mret {| source := senderOrDummy; contract := contractId; method := m; args := a |}.

Definition dummyAccount : jstr := js "GAAZI4TCR3TY5OJHCTJC2A4QSY6CJWJH5IAJTGKIN2ER7LBNVKOCCWN".

Definition simulateCall (contractId m : jstr) (a : list ScArg) : res jstr Native :=
  tx ← buildTx dummyAccount contractId m a;
  result ← server tx;
  ok_or result (js "Simulation failed for " ++ m).

(** [fetch(config.rpcUrl, ...)] is the parameter of this one. *)
Definition checkRpcReachability (fetch : res jstr HttpResponse) : res jstr () :=
  let attempt :=
    response ← fetch;
    _ ← ensure (http_ok response) (js "RPC returned HTTP " ++ dec_of (http_status response));
    error ← json_error response;
    match error with
    | Some e => Err (js "RPC error: " ++ e)
    | None => Ok ()
    end in
  match attempt with
  | Ok _ => Ok ()
  | Err m => Err (js "Unable to reach Soroban RPC at " ++ rpcUrl cfg
      ++ js ". Confirm the RPC endpoint is running and that CORS allows browser access. " ++ m)
  end.

(** [Number(x)], [String(x)], [BigInt(String(x))] and [Boolean(x)]. *)
Definition native_number (v : Native) : jsnum :=
  match v with
  | NBig n | NNum n => Number_of_bigint n
  | NBool b => num_of_Z (if b then 1 else 0)
  | NNull => num_of_Z 0
  | NStr s => js_Number s
  | NProposal _ | NVote _ => NaN
  end.
Definition native_string (v : Native) : jstr :=
  match v with
  | NBig n | NNum n => dec_of n
  | NBool b => if b then js "true" else js "false"
  | NNull => js "null"
  | NStr s => s
  | NProposal _ | NVote _ => js "[object Object]"
  end.
Definition native_bigint (v : Native) : res jstr Z :=
  ok_or (BigInt_of_string (native_string v))
    (js "Cannot convert " ++ native_string v ++ js " to a BigInt").
Definition native_truthy (v : Native) : bool :=
  match v with
  | NBig n | NNum n => negb (n =? 0)
  | NBool b => b
  | NStr s => negb (bool_decide (s = []))
  | NProposal _ | NVote _ => true
  | NNull => false
  end.

Definition fetchProposalCount : res jstr jsnum :=
  count ← simulateCall (governanceContractId cfg) (js "proposal_count") [];
  mret (native_number count).

(** The identifiers the callers pass are integers, so [BigInt(id)] is exact;
    [raw as Proposal] is a cast, so the decoded value is returned as it is. *)
Definition fetchProposal (i : Z) : res jstr Native :=
  simulateCall (governanceContractId cfg) (js "get_proposal") [SU64 i].

(** [Array.from({ length: count })] makes as many entries as the integer part of
    the count, none when it is not a positive number. *)
Definition array_length (count : jsnum) : nat :=
  match count with
  | Fin m e => Z.to_nat (if 0 <=? e then m * 2 ^ e else m ÷ 2 ^ (- e))
  | _ => 0
  end.

(** [Promise.allSettled] then keep the fulfilled values. *)
Definition fulfilled {A} (rs : list (res jstr A)) : list A :=
  omap (λ r, match r with Ok v => Some v | Err _ => None end) rs.

Definition fetchAllProposals : res jstr (list Native) :=
  count ← fetchProposalCount;
  mret (fulfilled ((λ i, fetchProposal (Z.of_nat i)) <$> seq 0 (array_length count))).

Definition fetchHasVoted (proposalId : Z) (voter : jstr) : res jstr bool :=
  a ← address_arg sdk voter;
  result ← simulateCall (governanceContractId cfg) (js "has_voted") [SU64 proposalId; a];
  mret (native_truthy result).

Definition fetchVoteRecord (proposalId : Z) (voter : jstr) : option Native :=
  match (a ← address_arg sdk voter;
         simulateCall (governanceContractId cfg) (js "get_vote") [SU64 proposalId; a]) with
  | Ok v => Some v
  | Err _ => None
  end.

Definition fetchTokenBalance (address : jstr) : res jstr Z :=
  a ← address_arg sdk address;
  result ← simulateCall (tokenContractId cfg) (js "balance") [a];
  native_bigint result.

Definition fetchTokenDecimals : res jstr jsnum :=
  result ← simulateCall (tokenContractId cfg) (js "decimals") [];
  mret (native_number result).

Definition fetchDelegation (owner : jstr) : option jstr :=
  match (a ← address_arg sdk owner;
         simulateCall (tokenContractId cfg) (js "get_delegation") [a]) with
  | Ok v => if native_truthy v then Some (native_string v) else None
  | Err _ => None
  end.

Fixpoint address_args (l : list jstr) : res jstr (list ScArg) :=
  match l with
  | [] => Ok []
  | d :: l' => a ← address_arg sdk d; rest ← address_args l'; mret (a :: rest)
  end.

Definition fetchDelegatedWeight (voter : jstr) (delegators : list jstr) : res jstr Z :=
  delegatorVals ← address_args delegators;
  a ← address_arg sdk voter;
  result ← simulateCall (tokenContractId cfg) (js "get_delegated_weight") [a; SVec delegatorVals];
  native_bigint result.

Definition voteEnum (v : VoteType) : Z := match v with Yes => 0 | No => 1 | Abstain => 2 end.

(** The one request of [castVote] is a simulation; [retval_text] is the text of
    the undecoded return value, which it returns for a transaction hash. *)
Definition castVote (retval_text : Native → jstr) (walletAddress : jstr) (proposalId : Z)
    (v : VoteType) : res jstr jstr :=
  _ ← Account sdk walletAddress;
  a ← address_arg sdk walletAddress;
  _ ← contract_ref sdk (governanceContractId cfg);
  result ← server {| source := walletAddress; contract := governanceContractId cfg;
                     method := js "cast_vote"; args := [a; SU64 proposalId; SU32 (voteEnum v)] |};
  retval ← ok_or result (js "Transaction simulation failed");
  mret (retval_text retval).

(** ** Lemmas *)
Lemma array_length_count n : 0 <= n <= 2 ^ 53 → array_length (Number_of_bigint n) = Z.to_nat n.
Proof.
  intros Hn. unfold Number_of_bigint. destruct (Z.ltb_spec n 0); [lia|].
  rewrite round_ratio_exact by done. destruct (num_of_Z_spec n) as (m & e & -> & He & ->).
  unfold array_length. by destruct (Z.leb_spec 0 e); [|lia].
Qed.

Lemma fulfilled_fmap {A B} (f : A → res jstr B) l :
  fulfilled (f <$> l) = omap (λ x, match f x with Ok v => Some v | Err _ => None end) l.
Proof. unfold fulfilled. induction l as [|x l IH]; [done|]. csimpl. by rewrite IH. Qed.
End api.

(** ** A server that reflects a contract state *)
(** What the front end reads of the governance contract: the number of proposals
    and the proposal stored under each identifier. *)
Record GovView := { proposal_count : Z; stored : Z → option Proposal }.

Record Serves (env : Env) (g : GovView) (server : Server) : Prop := {
  serves_count a :
    server {| source := a; contract := governanceContractId (config env);
              method := js "proposal_count"; args := [] |} = Ok (Some (NBig (proposal_count g)));
  serves_proposal a i :
    server {| source := a; contract := governanceContractId (config env);
              method := js "get_proposal"; args := [SU64 i] |} =
      match stored g i with
      | Some p => Ok (Some (NProposal p))
      | None => Err (js "ProposalNotFound")
      end }.

Lemma fetchAllProposals_served (env : Env) (sdk : Sdk) (g : GovView) (server : Server) :
  Serves env g server → 0 <= proposal_count g <= 2 ^ 53 →
  fetchAllProposals env sdk server =
    (_ ← Account sdk dummyAccount;
     _ ← contract_ref sdk (governanceContractId (config env));
     Ok (omap (λ i, NProposal <$> stored g (Z.of_nat i)) (seq 0 (Z.to_nat (proposal_count g))))).
Proof.
  intros Hs Hc. unfold fetchAllProposals, fetchProposalCount, fetchProposal, simulateCall, buildTx, cfg.
  destruct (Account sdk dummyAccount) as [[]|e]; [|done].
  destruct (contract_ref sdk _) as [[]|e]; [|done]. cbn [mbind res_bind mret res_ret].
  rewrite (serves_count _ _ _ Hs). cbn [mbind res_bind ok_or mret res_ret native_number].
  rewrite array_length_count by done. f_equal. rewrite fulfilled_fmap.
  apply list_omap_ext. apply Forall_Forall2_diag, list.Forall_forall. intros i _.
  rewrite (serves_proposal _ _ _ Hs). by destruct (stored g (Z.of_nat i)).
Qed.

(** Loading the list is complete and tolerant: against a server that
    reflects a contract with at most 2^53 proposals, once the SDK has accepted the
    simulation account and the configured contract, the result is exactly the
    stored proposals with identifiers below the count, in identifier order; a
    proposal that cannot be fetched is left out and does not prevent the others.
    A rejection by the SDK is the only other outcome. *)
Theorem fetchAllProposals_complete (env : Env) (sdk : Sdk) (g : GovView) (server : Server) :
  Serves env g server → 0 <= proposal_count g <= 2 ^ 53 →
  fetchAllProposals env sdk server =
    (_ ← Account sdk dummyAccount;
     _ ← contract_ref sdk (governanceContractId (config env));
     Ok (omap (λ i, NProposal <$> stored g (Z.of_nat i)) (seq 0 (Z.to_nat (proposal_count g))))).
Proof. apply fetchAllProposals_served. Qed.

Definition view_server (env : Env) (g : GovView) : Server := λ tx,
  if bool_decide (method tx = js "proposal_count") then Ok (Some (NBig (proposal_count g)))
  else match args tx with
       | [SU64 i] => match stored g i with
                     | Some p => Ok (Some (NProposal p))
                     | None => Err (js "ProposalNotFound")
                     end
       | _ => Ok None
       end.
Lemma view_server_serves env g : Serves env g (view_server env g).
Proof.
  assert (bool_decide (js "get_proposal" = js "proposal_count") = false) as Hne by (vm_compute; reflexivity).
  split; intros; unfold view_server; cbn [method args]; [by rewrite bool_decide_true|].
  rewrite Hne. by destruct (stored g i).
Qed.
Definition sample_env : Env := {|
  VITE_NETWORK := None; VITE_GOVERNANCE_CONTRACT_ID := Some (js "C1");
  VITE_TOKEN_CONTRACT_ID := Some (js "C2"); VITE_TREASURY_CONTRACT_ID := None |}.
(** An SDK that accepts accounts of [n] characters. *)
Definition length_sdk (n : Z) : Sdk := {|
  Account a := ensure (jlen a =? n) (js "accountId is invalid");
  contract_ref _ := Ok ();
  address_arg a := Ok (SAddress a) |}.
(** Three proposals were created and the second one has expired from storage. *)
Definition sample_view : GovView := {|
  proposal_count := 3;
  stored i := if bool_decide (i = 1) then None else Some sample_proposal |}.

Lemma fetchAllProposals_complete_witness :
  fetchAllProposals sample_env (length_sdk 55) (view_server sample_env sample_view) =
    Ok [NProposal sample_proposal; NProposal sample_proposal].
Proof.
  assert (Serves sample_env sample_view (view_server sample_env sample_view)) as Hs
    by (split; intros; reflexivity).
  rewrite (fetchAllProposals_complete _ (length_sdk 55) _ _ Hs) by (vm_compute; split; discriminate).
  reflexivity.
Defined.

(** C15. No read of the front end reaches the server. The simulation account of api.ts
    has 55 characters where an account identifier has 56, and the SDK, as documented,
    refuses to build an account from a malformed identifier. So, whatever the server
    would answer and the contracts hold, the list of proposals, the count and each
    proposal, and the token's decimals end in the error of the SDK; whether an
    address has voted, its balance and its delegated weight end in an error; and the
    vote record and the delegation, whose errors are swallowed, always read as
    absent. *)
Theorem reads_never_reach_the_server (env : Env) (sdk : Sdk) :
  (∀ a, jlen a ≠ 56 → ∃ e, Account sdk a = Err e) →
  ∃ e, ∀ server : Server,
    fetchAllProposals env sdk server = Err e ∧
    fetchProposalCount env sdk server = Err e ∧
    (∀ i, fetchProposal env sdk server i = Err e) ∧
    fetchTokenDecimals env sdk server = Err e ∧
    (∀ i voter, is_ok (fetchHasVoted env sdk server i voter) = false) ∧
    (∀ a, is_ok (fetchTokenBalance env sdk server a) = false) ∧
    (∀ voter ds, is_ok (fetchDelegatedWeight env sdk server voter ds) = false) ∧
    (∀ i voter, fetchVoteRecord env sdk server i voter = None) ∧
    (∀ owner, fetchDelegation env sdk server owner = None).
Proof.
  intros Hacc. destruct (Hacc dummyAccount) as [e He]; [vm_compute; discriminate|].
  exists e. intros server.
  assert (∀ c m l, simulateCall sdk server c m l = Err e) as Hcall
    by (intros c m l; unfold simulateCall, buildTx; by rewrite He).
  unfold fetchAllProposals, fetchProposalCount, fetchProposal, fetchHasVoted, fetchVoteRecord,
    fetchTokenBalance, fetchTokenDecimals, fetchDelegation, fetchDelegatedWeight.
  rewrite !Hcall. split_and!; try done; intros.
  - destruct (address_arg sdk voter); [|done]. cbn [mbind res_bind]. by rewrite Hcall.
  - destruct (address_arg sdk a); [|done]. cbn [mbind res_bind]. by rewrite Hcall.
  - destruct (address_args sdk ds); [|done]. cbn [mbind res_bind].
    destruct (address_arg sdk voter); [|done]. cbn [mbind res_bind]. by rewrite Hcall.
  - destruct (address_arg sdk voter); [|done]. cbn [mbind res_bind]. by rewrite Hcall.
  - destruct (address_arg sdk owner); [|done]. cbn [mbind res_bind]. by rewrite Hcall.
Qed.

Lemma reads_never_reach_the_server_witness :
  ∃ e, ∀ server, fetchAllProposals sample_env (length_sdk 56) server = Err e.
Proof.
  destruct (reads_never_reach_the_server sample_env (length_sdk 56)) as [e H].
  - intros a Ha. unfold length_sdk. cbn [Account]. apply Z.eqb_neq in Ha. rewrite Ha. eexists. reflexivity.
  - exists e. intros server. exact (proj1 (H server)).
Defined.
End Api.
