(* ===== verification/Stores.v ===== *)
(** * The global stores of the front end
    (frontend/src/store/walletStore.ts and proposalStore.ts)

    Both stores are objects that asynchronous actions update when their requests
    settle, so the requests in flight are part of the state and settling is an
    event of its own, in any order. The wallet extensions answer as given by the
    parameters of [connect_address]. *)
From Stdlib Require Import Ascii String ZArith Lia.
From stdpp Require Import prelude list gmap strings.
From S2P Require Import Prelude JsString JsNumber Format.
Local Open Scope Z_scope.

Module WalletStore.

Inductive WalletName := Freighter | XBull.
Global Instance WalletName_eq_dec : EqDecision WalletName.
Proof. solve_decision. Defined.

(** The store, the balance requests in flight with the address each one is for,
    in the order they were issued, and, for the specification only, the address
    the shown balance was fetched for. *)
Record WalletState := {
  walletAddress : option jstr;
  walletName : option WalletName;
  tokenBalance : option Z;
  showModal : bool;
  pending : list jstr;
  balance_owner : option jstr }.

Definition initial : WalletState := {|
  walletAddress := None; walletName := None; tokenBalance := None; showModal := false;
  pending := []; balance_owner := None |}.

(** What the extensions answer to one connection attempt. *)
Record Extensions := {
  isConnected : res jstr bool;
  requestAccess : res jstr ();
  getAddress : res jstr (option jstr * jstr);      (* (error message, address) *)
  xBullSDK : option (res jstr jstr) }.

Definition connect_address (ext : Extensions) (wallet : WalletName) : res jstr jstr :=
  match wallet with
  | Freighter =>
      connected ← isConnected ext;
      _ ← ensure connected (js "Freighter extension not found");
      _ ← requestAccess ext;
      result ← getAddress ext;
      match result.1 with
      | Some m => Err m
      | None => Ok result.2
      end
  | XBull =>
      sdk ← ok_or (xBullSDK ext) (js "xBull extension not found");
      sdk
  end.

(** ** Actions *)
Definition set_modal (b : bool) (s : WalletState) : WalletState := {|
  walletAddress := walletAddress s; walletName := walletName s; tokenBalance := tokenBalance s;
  showModal := b; pending := pending s; balance_owner := balance_owner s |}.

(** [connect], from the moment the extension has answered. *)
Definition connect (ext : Extensions) (wallet : WalletName) (s : WalletState)
    : res jstr () * WalletState :=
  match connect_address ext wallet with
  | Err m => (Err m, s)
  | Ok [] => (Ok (), s)
  | Ok address =>
      (Ok (), {| walletAddress := Some address; walletName := Some wallet;
                 tokenBalance := tokenBalance s; showModal := false;
                 pending := pending s ++ [address]; balance_owner := balance_owner s |})
  end.

Definition disconnect (s : WalletState) : WalletState := {|
  walletAddress := None; walletName := None; tokenBalance := None; showModal := showModal s;
  pending := pending s; balance_owner := None |}.

Definition refreshBalance (s : WalletState) : WalletState :=
  match walletAddress s with
  | Some ((_ :: _) as a) => {|
      walletAddress := walletAddress s; walletName := walletName s; tokenBalance := tokenBalance s;
      showModal := showModal s; pending := pending s ++ [a]; balance_owner := balance_owner s |}
  | _ => s
  end.

(** The [i]th request in flight settles: [set({ tokenBalance })]. *)
Definition settle (i : nat) (r : res jstr Z) (s : WalletState) : WalletState :=
  match pending s !! i with
  | None => s
  | Some a => {|
      walletAddress := walletAddress s; walletName := walletName s;
      tokenBalance := match r with Ok b => Some b | Err _ => None end; showModal := showModal s;
      pending := delete i (pending s); balance_owner := Some a |}
  end.

Inductive Event :=
| OpenModal | CloseModal
| Connect (ext : Extensions) (wallet : WalletName)
| Disconnect
| Refresh
| Settle (i : nat) (r : res jstr Z).

Definition handle (e : Event) (s : WalletState) : WalletState :=
  match e with
  | OpenModal => set_modal true s
  | CloseModal => set_modal false s
  | Connect ext w => (connect ext w s).2
  | Disconnect => disconnect s
  | Refresh => refreshBalance s
  | Settle i r => settle i r s
  end.
Definition handle_all (es : list Event) (s : WalletState) : WalletState := foldl (flip handle) s es.

(** ** Lemmas *)
Lemma handle_all_preserves (ok : Event → WalletState → Prop) (P : WalletState → Prop) :
  (∀ e s, ok e s → P s → P (handle e s)) →
  ∀ es s, P s → (∀ i e, es !! i = Some e → ok e (handle_all (take i es) s)) → P (handle_all es s).
Proof.
  intros Hstep es. induction es as [|e es IH]; intros s Hs Hok; [done|]. cbn. apply IH.
  - apply Hstep; [exact (Hok 0%nat e eq_refl) | done].
  - intros i e' Hi. apply (Hok (S i) e' Hi).
Qed.

(** The address and the wallet name are set together, and an address is a
    non-empty string. *)
Definition paired (s : WalletState) : Prop :=
  (walletAddress s = None ↔ walletName s = None) ∧ walletAddress s ≠ Some [].

Lemma handle_paired e s : paired s → paired (handle e s).
Proof.
  intros [Hp Hne]. destruct e as [| |ext w| | |i r]; simpl; try done.
  - unfold connect. destruct (connect_address ext w) as [[|u a]|m]; by simpl.
  - unfold refreshBalance. destruct (walletAddress s) as [[|u a]|] eqn:Ha; try done.
    split; simpl; congruence.
  - unfold settle. by destruct (pending s !! i).
Qed.

(** Requests that settle in the order they were issued, and no disconnection
    while one is in flight. *)
Definition orderly (e : Event) (s : WalletState) : Prop :=
  match e with
  | Settle i _ => i = 0%nat
  | Disconnect => pending s = []
  | _ => True
  end.

(** The last request in flight is for the connected address; with none in flight
    the shown balance is the connected address's. *)
Definition owned (s : WalletState) : Prop :=
  paired s ∧
  match last (pending s) with
  | Some a => walletAddress s = Some a
  | None => tokenBalance s = None ∨ balance_owner s = walletAddress s
  end.

Lemma last_delete_head {A} (l : list A) x : last (x :: l) = match l with [] => Some x | _ => last l end.
Proof. by destruct l. Qed.

Lemma handle_owned e s : orderly e s → owned s → owned (handle e s).
Proof.
  intros Ho [Hp Hw]. split; [by apply handle_paired|].
  destruct e as [| |ext w| | |i r]; simpl in *; try done.
  - unfold connect. destruct (connect_address ext w) as [[|u a]|m]; simpl; try done.
    by rewrite last_snoc.
  - rewrite Ho. by left.
  - unfold refreshBalance. destruct (walletAddress s) as [[|u a]|] eqn:Ha; simpl;
      [by rewrite ?Ha in * | by rewrite last_snoc | by rewrite ?Ha in *].
  - subst i. unfold settle. destruct (pending s) as [|a l] eqn:Hl; [by cbn; rewrite Hl|].
    destruct l as [|b l]; [right; simpl in *; congruence|].
    change (last (a :: b :: l)) with (last (b :: l)) in Hw. change (pending _) with (b :: l).
    destruct (last (b :: l)) eqn:Hb; [exact Hw | by apply last_None in Hb].
Qed.

(** ** Properties *)

(** Whatever happens, the address and the wallet name of the store are set
    and cleared together; and when balance requests settle in order and nobody
    disconnects while one is in flight, then once no request is in flight the
    balance shown, if any, is that of the connected address. *)
Theorem wallet_store_consistent (es : list Event) :
  let s := handle_all es initial in
  (walletAddress s = None ↔ walletName s = None) ∧
  ((∀ i e, es !! i = Some e → orderly e (handle_all (take i es) initial)) →
   pending s = [] → tokenBalance s ≠ None → balance_owner s = walletAddress s).
Proof.
  intros s. assert (paired initial) as Hi by (split; done). split.
  - apply (handle_all_preserves (λ _ _, True) paired); [intros; by apply handle_paired | done | done].
  - intros Hok Hpend Hbal.
    assert (owned s) as [_ Hown].
    { apply (handle_all_preserves orderly owned); [apply handle_owned | split; [done|by left] | done]. }
    rewrite Hpend in Hown. simpl in Hown. by destruct Hown.
Qed.

(** Without that discipline the balance shown can be someone else's: after
    disconnecting while a request is in flight a balance is shown with no wallet
    connected, and after two connections whose requests settle in the other order
    the balance of the first address is shown for the second, with nothing left
    in flight to correct it. *)
Theorem late_balance_is_shown (ext1 ext2 : Extensions) (a1 a2 : jstr) (b1 b2 : Z) :
  a1 ≠ [] → a2 ≠ [] →
  connect_address ext1 XBull = Ok a1 → connect_address ext2 XBull = Ok a2 →
  (let s := handle_all [Connect ext1 XBull; Disconnect; Settle 0 (Ok b1)] initial in
   walletAddress s = None ∧ tokenBalance s = Some b1 ∧ pending s = []) ∧
  (let s := handle_all [Connect ext1 XBull; Connect ext2 XBull; Settle 1 (Ok b2); Settle 0 (Ok b1)]
              initial in
   walletAddress s = Some a2 ∧ tokenBalance s = Some b1 ∧ balance_owner s = Some a1 ∧ pending s = []).
Proof.
  intros Ha1 Ha2 H1 H2. destruct a1 as [|u1 a1]; [done|]. destruct a2 as [|u2 a2]; [done|].
  unfold handle_all. cbn [foldl flip handle]. unfold connect. rewrite H1, H2. done.
Qed.

Lemma late_balance_is_shown_witness :
  let ext a := {| isConnected := Ok true; requestAccess := Ok (); getAddress := Ok (None, a);
                  xBullSDK := Some (Ok a) |} in
  let s := handle_all [Connect (ext (js "GA")) XBull; Connect (ext (js "GB")) XBull;
                       Settle 1 (Ok 5); Settle 0 (Ok 900)] initial in
  walletAddress s = Some (js "GB") ∧ tokenBalance s = Some 900.
Proof.
  intros ext s.
  destruct (late_balance_is_shown (ext (js "GA")) (ext (js "GB")) (js "GA") (js "GB") 900 5
    ltac:(done) ltac:(done) eq_refl eq_refl) as [_ (H1 & H2 & _)].
  split; [exact H1 | exact H2].
Defined.
End WalletStore.

Module ProposalStore.
Import Format.

Record State := {
  proposals : list Proposal;
  decimals : jsnum;
  loading : bool;
  error : option jstr;
  progress : option (Z * Z);
  votedMap : gmap jstr VoteRecord }.

Definition initial : State := {|
  proposals := []; decimals := num_of_Z 0; loading := false; error := None; progress := None;
  votedMap := ∅ |}.

(** [loadProposals]: the first [set], and the one when both requests settled. *)
Definition load_start (s : State) : State := {|
  proposals := proposals s; decimals := decimals s; loading := true; error := None;
  progress := None; votedMap := votedMap s |}.
Definition load_settled (r : res jstr (list Proposal * jsnum)) (s : State) : State :=
  match r with
  | Ok (ps, ds) => {|
      proposals := ps; decimals := ds; loading := false; error := error s; progress := None;
      votedMap := votedMap s |}
  | Err e => {|
      proposals := proposals s; decimals := decimals s; loading := false; error := Some e;
      progress := None; votedMap := votedMap s |}
  end.

Section votes.
  (** The two requests about one proposal, for the user the votes are loaded for. *)
  Variable fetchHasVoted : jsnum → res jstr bool.
  Variable fetchVoteRecord : jsnum → res jstr (option VoteRecord).

(** One element of the [Promise.all]: both requests with their [catch]. *)
Definition vote_entry (p : Proposal) : option (jstr * VoteRecord) :=
  let voted := match fetchHasVoted (Number_of_bigint (id p)) with Ok b => b | Err _ => false end in
  if negb voted then None
  else match fetchVoteRecord (Number_of_bigint (id p)) with
       | Ok (Some record) => Some (dec_of (id p), record)
       | _ => None
       end.

(** [new Map(entries)]: a later entry replaces an earlier one with its key. *)
Definition map_of (entries : list (jstr * VoteRecord)) : gmap jstr VoteRecord :=
  foldl (λ m e, <[e.1 := e.2]> m) ∅ entries.

(** [loadVotesForUser], once all its requests have settled; it works on the
    proposals the store had when it was called. *)
Definition votes_settled (called_with : list Proposal) (s : State) : State := {|
  proposals := proposals s; decimals := decimals s; loading := loading s; error := error s;
  progress := progress s; votedMap := map_of (omap vote_entry called_with) |}.

Definition clearVotes (s : State) : State := {|
  proposals := proposals s; decimals := decimals s; loading := loading s; error := error s;
  progress := progress s; votedMap := ∅ |}.

(** ** Lemmas *)
Lemma map_of_snoc es k v : map_of (es ++ [(k, v)]) = <[k := v]> (map_of es).
Proof. unfold map_of. by rewrite foldl_app. Qed.

Lemma map_of_lookup es k v :
  NoDup es.*1 → map_of es !! k = Some v ↔ (k, v) ∈ es.
Proof.
  induction es as [|[k' v'] es IH] using rev_ind; intros Hnd.
  - unfold map_of; simpl. rewrite lookup_empty. set_solver.
  - rewrite fmap_app in Hnd. apply NoDup_app in Hnd as (Hnd & Hdis & _).
    rewrite map_of_snoc, lookup_insert_Some, elem_of_app, IH, list_elem_of_singleton by done.
    split; [naive_solver|]. intros [Hin|[= -> ->]]; [|naive_solver].
    right. split; [|done]. intros ->. apply (Hdis k); [|set_solver].
    apply list_elem_of_fmap. by exists (k, v).
Qed.

Lemma vote_entry_key p k v : vote_entry p = Some (k, v) → k = dec_of (id p).
Proof. unfold vote_entry. intros H. by repeat case_match; simplify_eq. Qed.

Lemma dec_of_inj n m : 0 <= n → 0 <= m → dec_of n = dec_of m → n = m.
Proof. intros Hn Hm. rewrite !dec_of_nonneg_eq by done. by apply dec_of_nonneg_inj. Qed.

Lemma entries_keys ps :
  Forall (λ p, 0 <= id p) ps → NoDup (id <$> ps) → NoDup (omap vote_entry ps).*1.
Proof.
  induction 1 as [|p ps Hp Hps IH]; intros Hnd; [constructor|].
  csimpl in Hnd. apply NoDup_cons in Hnd as [Hnew Hnd]. csimpl.
  destruct (vote_entry p) as [[k v]|] eqn:He; [|by apply IH]. csimpl.
  apply NoDup_cons. split; [|by apply IH]. intros Hin.
  apply list_elem_of_fmap in Hin as ([k' v'] & Hk & Hin). simpl in Hk. subst k'.
  apply list_elem_of_omap in Hin as (q & Hq & Hqe).
  apply vote_entry_key in He, Hqe. apply Hnew, list_elem_of_fmap. exists q. split; [|done].
  eapply list.Forall_forall in Hps; [|done]. apply dec_of_inj; [done..|congruence].
Qed.

(** ** Properties *)

(** Loading the votes of a user gives exactly the map from the identifier of
    each proposal, printed in decimal, to the user's vote record, for the
    proposals the contract says the user voted on and whose record could be
    fetched; a failing request drops only its own proposal. *)
Theorem votes_loaded_exactly (ps : list Proposal) (s : State) (k : jstr) (v : VoteRecord) :
  Forall (λ p, 0 <= id p) ps → NoDup (id <$> ps) →
  votedMap (votes_settled ps s) !! k = Some v ↔
    ∃ p, p ∈ ps ∧ k = dec_of (id p) ∧
      fetchHasVoted (Number_of_bigint (id p)) = Ok true ∧
      fetchVoteRecord (Number_of_bigint (id p)) = Ok (Some v).
Proof.
  intros Hps Hnd. unfold votes_settled. cbn [votedMap].
  rewrite map_of_lookup by (by apply entries_keys). rewrite list_elem_of_omap.
  split; intros (p & Hp & H); exists p.
  - unfold vote_entry in H.
    destruct (fetchHasVoted _) as [[]|], (fetchVoteRecord _) as [[r|]|]; simplify_eq/=.
    by split_and!.
  - destruct H as (-> & Hv & Hr). split; [done|]. unfold vote_entry. by rewrite Hv, Hr.
Qed.
End votes.

Lemma votes_loaded_exactly_witness :
  let record := {| vote := Yes; weight := 12 |} in
  votedMap (votes_settled (λ _, Ok true) (λ _, Ok (Some record)) [sample_proposal] initial)
    !! js "7" = Some record.
Proof.
  intros record.
  apply (votes_loaded_exactly (λ _, Ok true) (λ _, Ok (Some record)) [sample_proposal] initial);
    [repeat constructor; vm_compute; done | repeat constructor; set_solver |].
  exists sample_proposal. split; [set_solver|]. split; [reflexivity|]. split; reflexivity.
Defined.
End ProposalStore.
