(* ===== verification/Toasts.v ===== *)
(** * The two toast implementations of the front end
    (frontend/src/components/Toast.tsx and ToastContext.tsx)

    [ToastHook] keeps a timer per toast in a map and cancels it on dismissal.
    [ToastProvider] is a reducer; its [notify] is a callback that reads the next
    identifier from the render it was created in, so that value is an argument. *)
From Stdlib Require Import Ascii String ZArith Lia.
From stdpp Require Import prelude list gmap strings.
From S2P Require Import Prelude JsString Api.
Local Open Scope Z_scope.

Module ToastHook.

Inductive ToastType := pending | success | error.
Global Instance ToastType_eq_dec : EqDecision ToastType.
Proof. solve_decision. Defined.

Record Toast := { id : nat; type : ToastType; message : jstr }.

Definition icon (t : ToastType) : jstr :=
  match t with pending => js "⏳" | success => js "✅" | error => js "❌" end.

Definition AUTO_DISMISS_MS (t : ToastType) : Z :=
  match t with pending => 0 | success => 4000 | error => 6000 end.

(** The component state, the timers it remembers by toast, the timers the engine
    will fire, and the module's identifier counter. *)
Record State := {
  toasts : list Toast;
  timers : gmap nat Z;        (* toast id -> delay of its timer *)
  engine : gset nat;          (* toasts whose timer is armed *)
  nextId : nat }.

Definition mounted (n : nat) : State :=
  {| toasts := []; timers := ∅; engine := ∅; nextId := n |}.

Definition dismiss (i : nat) (s : State) : State := {|
  toasts := filter (λ t, id t ≠ i) (toasts s);
  timers := match timers s !! i with Some _ => delete i (timers s) | None => timers s end;
  engine := match timers s !! i with Some _ => engine s ∖ {[i]} | None => engine s end;
  nextId := nextId s |}.

Definition show (ty : ToastType) (msg : jstr) (s : State) : nat * State :=
  let i := nextId s in
  let delay := AUTO_DISMISS_MS ty in
  (i, {| toasts := toasts s ++ [{| id := i; type := ty; message := msg |}];
         timers := if 0 <? delay then <[i := delay]> (timers s) else timers s;
         engine := if 0 <? delay then {[i]} ∪ engine s else engine s;
         nextId := S i |}).

(** The timer of toast [i] fires. *)
Definition expire (i : nat) (s : State) : State :=
  dismiss i {| toasts := toasts s; timers := timers s; engine := engine s ∖ {[i]};
               nextId := nextId s |}.

Definition unmount (s : State) : State := {|
  toasts := toasts s; timers := ∅; engine := engine s ∖ dom (timers s); nextId := nextId s |}.

(** What [ToastContainer] shows: nothing, or the toasts in order. *)
Definition ToastContainer (s : State) : option (list (nat * jstr * jstr)) :=
  match toasts s with
  | [] => None
  | ts => Some ((λ t, (id t, icon (type t), message t)) <$> ts)
  end.

Inductive Event := Show (ty : ToastType) (msg : jstr) | Dismiss (i : nat) | Expire (i : nat).

Definition handle (e : Event) (s : State) : option State :=
  match e with
  | Show ty msg => Some (show ty msg s).2
  | Dismiss i => Some (dismiss i s)
  | Expire i => if bool_decide (i ∈ engine s) then Some (expire i s) else None
  end.
Definition handle_all : list Event → State → option State := run handle.

(** ** Lemmas *)
(** The toasts that disappear by themselves. *)
Definition timed (ts : list Toast) : gset nat :=
  list_to_set (id <$> filter (λ t, type t ≠ pending) ts).

Definition toast_inv (s : State) : Prop :=
  dom (timers s) = timed (toasts s) ∧ engine s = timed (toasts s) ∧
  NoDup (id <$> toasts s) ∧ Forall (λ t, (id t < nextId s)%nat) (toasts s) ∧
  ∀ i d, timers s !! i = Some d → ∃ t, t ∈ toasts s ∧ id t = i ∧ d = AUTO_DISMISS_MS (type t).

Lemma elem_of_timed i ts : i ∈ timed ts ↔ ∃ t, t ∈ ts ∧ id t = i ∧ type t ≠ pending.
Proof.
  unfold timed. rewrite elem_of_list_to_set, list_elem_of_fmap. setoid_rewrite list_elem_of_filter.
  naive_solver.
Qed.

Lemma timed_dismiss i ts : timed (filter (λ t, id t ≠ i) ts) = timed ts ∖ {[i]}.
Proof.
  apply set_eq. intros j. rewrite elem_of_difference, !elem_of_timed, elem_of_singleton.
  setoid_rewrite list_elem_of_filter. naive_solver.
Qed.

Lemma NoDup_filter_ids i ts : NoDup (id <$> ts) → NoDup (id <$> filter (λ t, id t ≠ i) ts).
Proof.
  induction ts as [|t ts IH]; [done|]. csimpl. intros [Hn Hd]%NoDup_cons. rewrite filter_cons.
  case_decide; [|by apply IH]. csimpl. apply NoDup_cons. split; [|by apply IH].
  intros Hin. apply Hn. apply list_elem_of_fmap in Hin as (u & -> & [_ Hu]%list_elem_of_filter).
  apply list_elem_of_fmap. by exists u.
Qed.

Lemma dismiss_inv i s : toast_inv s → toast_inv (dismiss i s).
Proof.
  intros (Hd & He & Hn & Hf & Hdel).
  assert (i ∈ timed (toasts s) ↔ is_Some (timers s !! i)) as Hi by (by rewrite <- Hd, elem_of_dom).
  assert (∀ j d, timers s !! j = Some d → j ≠ i →
    ∃ t, t ∈ filter (λ t, id t ≠ i) (toasts s) ∧ id t = j ∧ d = AUTO_DISMISS_MS (type t)) as Hk.
  { intros j d Hj Hne. destruct (Hdel j d Hj) as (t & Ht & <- & ->). exists t.
    by rewrite list_elem_of_filter. }
  unfold dismiss, toast_inv. cbn [toasts timers engine nextId]. rewrite timed_dismiss.
  split_and!; [| |by apply NoDup_filter_ids | by apply Forall_filter_keep |].
  - destruct (timers s !! i) eqn:Ht; [by rewrite dom_delete_L, Hd|].
    rewrite Hd. assert (i ∉ timed (toasts s)) by (rewrite Hi; by intros []). set_solver.
  - destruct (timers s !! i) eqn:Ht; [by rewrite He|].
    rewrite He. assert (i ∉ timed (toasts s)) by (rewrite Hi; by intros []). set_solver.
  - intros j d. destruct (timers s !! i) eqn:Ht.
    + intros [Hne Hj]%lookup_delete_Some. by apply Hk.
    + intros Hj. apply Hk; [done|]. congruence.
Qed.

Lemma expire_dismiss i s : toast_inv s → i ∈ engine s → expire i s = dismiss i s.
Proof.
  intros (Hd & He & _) Hi. unfold expire, dismiss. cbn [toasts timers engine nextId].
  rewrite He, <- Hd, elem_of_dom in Hi. destruct Hi as [d Hi]. rewrite Hi. f_equal. set_solver.
Qed.

Lemma timed_app ts t :
  timed (ts ++ [t]) = if decide (type t = pending) then timed ts else {[id t]} ∪ timed ts.
Proof.
  apply set_eq. intros j. rewrite elem_of_timed. setoid_rewrite elem_of_app.
  setoid_rewrite list_elem_of_singleton. case_decide.
  - rewrite elem_of_timed. naive_solver.
  - rewrite elem_of_union, elem_of_singleton, elem_of_timed. naive_solver.
Qed.

Lemma show_inv ty msg s : toast_inv s → toast_inv (show ty msg s).2.
Proof.
  intros (Hd & He & Hn & Hf & Hdel). unfold show, toast_inv. cbn [snd toasts timers engine nextId].
  rewrite timed_app. cbn [type id].
  assert (∀ t, t ∈ toasts s → (id t < nextId s)%nat) as Hlt by (by apply list.Forall_forall).
  split_and!.
  - destruct ty; simpl; [done|..]; by rewrite dom_insert_L, Hd.
  - destruct ty; simpl; [done|..]; by rewrite He.
  - rewrite fmap_app. csimpl. apply NoDup_app. split_and!; [done| |apply NoDup_singleton].
    intros j (t & -> & Ht)%list_elem_of_fmap Heq%list_elem_of_singleton. specialize (Hlt t Ht). lia.
  - apply Forall_app. split; [|by repeat constructor]. eapply Forall_impl; [done|]. simpl. lia.
  - assert (∀ j d, timers s !! j = Some d → ∃ t, t ∈ toasts s ++ [{| id := nextId s; type := ty;
      message := msg |}] ∧ id t = j ∧ d = AUTO_DISMISS_MS (type t)) as Hold.
    { intros j d (t & Ht & ?)%Hdel. exists t. set_solver. }
    intros j d. destruct ty; simpl; [apply Hold|..];
      (intros [[<- <-]|[_ Hj]]%lookup_insert_Some; [eexists; split; [apply elem_of_app; right; by apply list_elem_of_singleton|done] | by apply Hold]).
Qed.

Lemma handle_inv e s s' : handle e s = Some s' → toast_inv s → toast_inv s'.
Proof.
  destruct e as [ty msg|i|i]; cbn [handle].
  - intros [= <-]. apply show_inv.
  - intros [= <-]. apply dismiss_inv.
  - case_bool_decide; [|done]. intros [= <-] Hs. rewrite expire_dismiss by done. by apply dismiss_inv.
Qed.

Lemma handle_all_inv es s s' : handle_all es s = Some s' → toast_inv s → toast_inv s'.
Proof.
  apply (run_preserves handle (λ _, True)); [|by apply Forall_true].
  intros e s1 s2 _ H1 H2. by eapply handle_inv.
Qed.

Lemma mounted_inv n : toast_inv (mounted n).
Proof. split_and!; simpl; try done; [set_solver.. | constructor]. Qed.

(** A pending toast goes away only when it is dismissed. *)
Lemma pending_stays t es s s' :
  toast_inv s → t ∈ toasts s → type t = pending → Dismiss (id t) ∉ es →
  handle_all es s = Some s' → t ∈ toasts s'.
Proof.
  intros Hs Ht Hty. revert s Hs Ht. induction es as [|e es IH]; intros s Hs Ht Hd H; [by injection H as <-|].
  apply not_elem_of_cons in Hd as [Hne Hd]. unfold handle_all in H. cbn [run] in H.
  destruct (handle e s) as [s1|] eqn:He; [|done]. cbn [mbind option_bind] in H.
  apply (IH s1); [by eapply handle_inv| |done|done].
  assert (∀ i, i ≠ id t → t ∈ toasts (dismiss i s)) as Hkeep.
  { intros i Hi. cbn [dismiss toasts]. apply list_elem_of_filter. by split. }
  destruct e as [ty msg|i|i]; cbn [handle] in He.
  - injection He as <-. cbn [show snd toasts]. apply elem_of_app. by left.
  - injection He as <-. apply Hkeep. congruence.
  - case_bool_decide as Hi; [|done]. injection He as <-. rewrite expire_dismiss by done. apply Hkeep.
    intros ->. destruct Hs as (_ & Hen & Hn & _). rewrite Hen, elem_of_timed in Hi.
    destruct Hi as (u & Hu & Hid & Hp). apply Hp. rewrite <- Hty. f_equal.
    apply list_elem_of_lookup in Hu as [j Hj], Ht as [k Hk].
    assert (j = k) as ->; [|congruence].
    apply (NoDup_lookup (id <$> toasts s) j k (id t)); [done|by rewrite list_lookup_fmap, Hj; cbn; rewrite Hid|
      by rewrite list_lookup_fmap, Hk].
Qed.

(** ** Properties *)

(** Timers and toasts stay in step: after any history the armed timers are
    exactly one per toast that is not pending, each with the delay of the toast's
    type, identifiers are never reused, and unmounting leaves no timer armed. *)
Theorem toast_timers_in_step (n : nat) (es : list Event) (s : State) :
  handle_all es (mounted n) = Some s →
  engine s = timed (toasts s) ∧ dom (timers s) = timed (toasts s) ∧
  (∀ i d, timers s !! i = Some d → ∃ t, t ∈ toasts s ∧ id t = i ∧ d = AUTO_DISMISS_MS (type t)) ∧
  NoDup (id <$> toasts s) ∧ engine (unmount s) = ∅.
Proof.
  intros Hs. destruct (handle_all_inv es _ _ Hs (mounted_inv n)) as (Hd & He & Hn & _ & Hdel).
  split_and!; try done. simpl. rewrite He, Hd. set_solver.
Qed.

Lemma toast_timers_in_step_witness :
  ∃ s, handle_all [Show success (js "ok"); Show pending (js "wait"); Expire 1] (mounted 1) = Some s ∧
    engine s = timed (toasts s).
Proof.
  destruct (handle_all [Show success (js "ok"); Show pending (js "wait"); Expire 1] (mounted 1))
    as [s|] eqn:Hs; [|vm_compute in Hs; discriminate Hs].
  exists s. split; [reflexivity|].
  exact (proj1 (toast_timers_in_step 1 _ s Hs)).
Defined.
End ToastHook.

Module ToastProvider.
Import ToastHook.

Record CtxToast := { cid : nat; ctype : ToastType; cmessage : jstr; txHash : option jstr }.
Record ToastState := { ctoasts : list CtxToast; cnextId : nat }.

Inductive Action := ADD (ty : ToastType) (msg : jstr) (tx : option jstr) | REMOVE (i : nat).

Definition reducer (state : ToastState) (action : Action) : ToastState :=
  match action with
  | ADD ty msg tx => {|
      ctoasts := ctoasts state ++ [{| cid := cnextId state; ctype := ty; cmessage := msg;
                                      txHash := tx |}];
      cnextId := S (cnextId state) |}
  | REMOVE i => {| ctoasts := filter (λ t, cid t ≠ i) (ctoasts state); cnextId := cnextId state |}
  end.

(** The provider: the reducer's state and the removals that timers will dispatch. *)
Record Provider := { state : ToastState; removals : list nat }.
Definition initial : Provider := {| state := {| ctoasts := []; cnextId := 0 |}; removals := [] |}.

(** [notify] through a callback created in a render where [nextId] was [seen]. *)
Definition notify (seen : nat) (ty : ToastType) (msg : jstr) (tx : option jstr) (p : Provider)
    : nat * Provider :=
  (seen, {| state := reducer (state p) (ADD ty msg tx);
            removals := if bool_decide (ty ≠ pending) then removals p ++ [seen] else removals p |}).

Definition dismiss (i : nat) (p : Provider) : Provider :=
  {| state := reducer (state p) (REMOVE i); removals := removals p |}.

(** The oldest timer fires. *)
Definition fire (p : Provider) : Provider :=
  match removals p with
  | [] => p
  | i :: rest => {| state := reducer (state p) (REMOVE i); removals := rest |}
  end.

Inductive Event := Notify (ty : ToastType) (msg : jstr) (tx : option jstr) | Dismiss (i : nat) | Fire.

(** Every call made through the callback of the latest render. *)
Definition handle (e : Event) (p : Provider) : Provider :=
  match e with
  | Notify ty msg tx => (notify (cnextId (state p)) ty msg tx p).2
  | Dismiss i => dismiss i p
  | Fire => fire p
  end.
Definition handle_all (es : list Event) (p : Provider) : Provider := foldl (flip handle) p es.

(** What the provider shows: icon, message and, with a transaction hash, the
    link to the explorer. *)
Definition render (env : Config.Env) (p : Provider) : list (nat * jstr * jstr * option jstr) :=
  (λ t, (cid t, icon (ctype t), cmessage t,
         match txHash t with
         | Some ((_ :: _) as h) => Some (Config.explorerTxUrl env h)
         | _ => None
         end)) <$> ctoasts (state p).

(** Every toast that is not pending has its removal scheduled; identifiers are
    below the next one. *)
Definition scheduled (p : Provider) : Prop :=
  Forall (λ t, ctype t ≠ pending → cid t ∈ removals p) (ctoasts (state p)) ∧
  Forall (λ t, (cid t < cnextId (state p))%nat) (ctoasts (state p)) ∧
  Forall (λ i, (i < cnextId (state p))%nat) (removals p).

Lemma notify_scheduled ty msg tx p :
  scheduled p → scheduled (notify (cnextId (state p)) ty msg tx p).2.
Proof.
  intros (Hs & Hlt & Hr). split_and!; cbn.
  - apply Forall_app. split.
    + eapply Forall_impl; [exact Hs|]. intros t Ht Hp. case_bool_decide; set_solver.
    + constructor; [|done]. cbn. intros Hp. rewrite bool_decide_true by done. set_solver.
  - apply Forall_app. split; [|by repeat constructor]. eapply Forall_impl; [exact Hlt|]. simpl. lia.
  - assert (Forall (λ i, (i < S (cnextId (state p)))%nat) (removals p)) as Hr'
      by (eapply Forall_impl; [exact Hr|]; simpl; lia).
    case_bool_decide; [|done]. apply Forall_app. split; [done|]. by repeat constructor.
Qed.

Lemma fire_scheduled p : scheduled p → scheduled (fire p).
Proof.
  intros (Hs & Hlt & Hr). unfold fire.
  destruct (removals p) as [|i rest] eqn:Hrem; [by rewrite <- Hrem in *|].
  inversion Hr; subst. split_and!; cbn; [|by apply Forall_filter_keep|done].
  apply list.Forall_forall. intros t [Hne Ht]%list_elem_of_filter Hp.
  eapply list.Forall_forall in Hs; [|done]. specialize (Hs Hp). set_solver.
Qed.

Lemma handle_scheduled e p : scheduled p → scheduled (handle e p).
Proof.
  intros Hp. destruct e as [ty msg tx|i|]; [by apply notify_scheduled | | by apply fire_scheduled].
  destruct Hp as (Hs & Hlt & Hr). by split_and!; cbn; try apply Forall_filter_keep.
Qed.

Lemma handle_all_scheduled es p : scheduled p → scheduled (handle_all es p).
Proof. apply fold_preserves. intros. by apply handle_scheduled. Qed.

(** A toast no timer is going to remove is still there after the timers fired. *)
Lemma fires_keep k t p :
  t ∈ ctoasts (state p) → cid t ∉ removals p → t ∈ ctoasts (state (Nat.iter k fire p)).
Proof.
  revert p. induction k as [|k IH]; intros p Ht Hr; [done|].
  rewrite Nat.iter_succ_r. apply IH; unfold fire; destruct (removals p) as [|i rest] eqn:Hrem; cbn.
  - done.
  - apply list_elem_of_filter. set_solver.
  - by rewrite Hrem.
  - set_solver.
Qed.

(** ** Properties *)

(** Through up-to-date callbacks every toast that is not pending has its
    removal scheduled. Through one callback called twice, as a handler that first
    announces a pending step and then its outcome does, both calls return the
    identifier of the pending toast, and only that one is scheduled for removal:
    the toast with the outcome is still shown after any number of timers fired. *)
Theorem stale_notify_removes_wrong_toast (es : list Event) (m1 m2 : jstr) :
  let p0 := handle_all es initial in
  let seen := cnextId (state p0) in
  let '(i1, p1) := notify seen pending m1 None p0 in
  let '(i2, p2) := notify seen success m2 None p1 in
  scheduled p0 ∧ i1 = seen ∧ i2 = seen ∧ removals p2 = removals p0 ++ [seen] ∧
  ∀ k, {| cid := S seen; ctype := success; cmessage := m2; txHash := None |}
         ∈ ctoasts (state (Nat.iter k fire p2)).
Proof.
  intros p0 seen. unfold notify. cbv zeta beta iota.
  assert (scheduled p0) as Hs by (apply handle_all_scheduled; by split_and!; constructor).
  split_and!; [done..|]. intros k. apply fires_keep; cbn; [set_solver|].
  destruct Hs as (_ & _ & Hr). intros [Hin|Hin%list_elem_of_singleton]%elem_of_app; [|lia].
  eapply list.Forall_forall in Hr; [|done]. fold seen in Hr. lia.
Qed.
End ToastProvider.
