(* ===== verification/Panels.v ===== *)
(** * Panels and dialogs of the front end
    (frontend/src/components/VoteSimulationPreview.tsx, DelegationPanel.tsx,
    UserDashboard.tsx, Header.tsx, ConnectWalletModal.tsx, ConfirmModal.tsx,
    ErrorBoundary.tsx and the focus trap of ProposalDetail.tsx)

    Each component is its state, its handlers and what it shows; styles are left
    out, and the elements of the modals are in [PageParts]. Requests the components
    wait for settle as events. *)
From Stdlib Require Import Ascii String ZArith Lia.
From stdpp Require Import prelude list gmap strings.
From S2P Require Import Prelude JsString JsNumber Format.
Local Open Scope Z_scope.

Module VoteSimulationPreview.
Import Format.

Definition VOTE_OPTIONS : list VoteType := [Yes; No; Abstain].

Definition stroopsToXlm (stroops : jstr) : jstr :=
  let n := js_Number stroops in
  if isNaN n then stroops else toFixed (num_div_Z n 10000000) 7 ++ js " XLM".

(** A rejection: a [SimulationError] of the contract, or anything else. *)
Inductive Failure := Simulation (message : jstr) | Other (text : jstr).

Record State := {
  selectedVote : VoteType;
  preview : option jstr;                  (* feeStoops of the preview *)
  simError : option (bool * jstr);        (* (isContract, message) *)
  loading : bool }.
Definition initial : State :=
  {| selectedVote := Yes; preview := None; simError := None; loading := false |}.

Definition select_vote (v : VoteType) (s : State) : State :=
  {| selectedVote := v; preview := preview s; simError := simError s; loading := loading s |}.

(** [handleSimulate] up to its await, and when the request settles. *)
Definition handleSimulate (s : State) : State :=
  {| selectedVote := selectedVote s; preview := None; simError := None; loading := true |}.
Definition simulated (r : res Failure jstr) (s : State) : State :=
  {| selectedVote := selectedVote s;
     preview := match r with Ok fee => Some fee | Err _ => preview s end;
     simError := match r with
                 | Ok _ => simError s
                 | Err (Simulation m) => Some (true, m)
                 | Err (Other m) => Some (false, m)
                 end;
     loading := false |}.

(** What is shown: the options, the button, and at most one of three boxes. *)
Record View := {
  options : list (VoteType * bool);
  button : jstr;
  button_disabled : bool;
  success_box : option jstr;
  contract_box : option jstr;
  network_box : option jstr }.
Definition render (s : State) : View := {|
  options := (λ v, (v, bool_decide (selectedVote s = v))) <$> VOTE_OPTIONS;
  button := if loading s then js "Simulating…" else js "Simulate";
  button_disabled := loading s;
  success_box := (λ fee, js "Estimated fee: " ++ stroopsToXlm fee) <$> preview s;
  contract_box := match simError s with Some (true, m) => Some m | _ => None end;
  network_box := match simError s with Some (false, m) => Some m | _ => None end |}.

Example fee1 : stroopsToXlm (js "1234567") = js "0.1234567 XLM".
Proof. vm_compute. reflexivity. Qed.
Example fee2 : stroopsToXlm (js "fee") = js "fee".
Proof. reflexivity. Qed.

(** ** Lemmas: dividing by 10^7 in doubles and printing seven decimals *)
Lemma div_half_even_error a d : 0 < d → Z.abs (2 * (div_half_even a d * d - a)) <= d.
Proof.
  intros Hd. unfold div_half_even. pose proof (Z.div_mod a d ltac:(lia)).
  pose proof (Z.mod_pos_bound a d Hd).
  destruct (Z.ltb_spec (2 * (a mod d)) d); [nia|].
  destruct (Z.ltb_spec d (2 * (a mod d))); [nia|].
  destruct (Z.even (a / d)); nia.
Qed.

(** Rounding to the nearest integer with error below one half. *)
Lemma nearest_integer p q n : 0 < q → Z.abs (2 * (p - q * n)) < q → (2 * p + q) / (2 * q) = n.
Proof. intros Hq Hn. symmetry. apply (Z.div_unique_pos _ _ n (2 * p + q - 2 * q * n)); lia. Qed.

Lemma divided_fee n :
  0 < n < 2 ^ 52 →
  ∃ m e, round_ratio n 10000000 = Fin m e ∧ 0 < m ∧ -76 <= e ∧
    m * 2 ^ Z.max 0 e < 2 ^ 52 * 2 ^ Z.max 0 (- e) ∧
    Z.abs (2 * (m * 2 ^ Z.max 0 e * 10 ^ 7 - 2 ^ Z.max 0 (- e) * n)) < 2 ^ Z.max 0 (- e).
Proof.
  intros Hn. unfold round_ratio. destruct (Z.eqb_spec n 0); [lia|].
  assert (0 <= Z.log2 n <= 51) as Hl.
  { split; [apply Z.log2_nonneg|]. apply Z.lt_succ_r. change (Z.succ 51) with 52.
    apply Z.log2_lt_pow2; lia. }
  assert (-24 <= floor_log2 n 10000000 <= 28) as Hfl.
  { unfold floor_log2. change (Z.log2 10000000) with 23. case_match; lia. }
  rewrite (Z.max_l (floor_log2 n 10000000 - 52)) by lia.
  set (k := 52 - floor_log2 n 10000000).
  replace (floor_log2 n 10000000 - 52) with (- k) by (unfold k; lia).
  rewrite (Z.max_r 0 (- - k)), (Z.max_l 0 (- k)), Z.opp_involutive, Z.pow_0_r, !Z.mul_1_r
    by (unfold k; lia).
  assert (24 <= k <= 76) as Hk by (unfold k; lia).
  pose proof (div_half_even_error (n * 2 ^ k) 10000000 ltac:(lia)) as Herr.
  set (m := div_half_even (n * 2 ^ k) 10000000) in *.
  assert (2 ^ 24 <= 2 ^ k) as Hpk by (apply Z.pow_le_mono_r; lia).
  assert (2 ^ k <= 2 ^ 76) as Hpk2 by (apply Z.pow_le_mono_r; lia).
  change (2 ^ 24) with 16777216 in Hpk.
  assert (0 < m) as Hm by nia.
  assert (m < 2 ^ 52 * 2 ^ k) as Hmb by nia.
  destruct (Z.leb_spec (2 ^ 1024) m) as [Hov|_].
  { exfalso. assert (2 ^ 52 * 2 ^ k <= 2 ^ 52 * 2 ^ 76) by nia.
    assert (2 ^ 52 * 2 ^ 76 < 2 ^ 1024) by (rewrite <- Z.pow_add_r by lia; apply Z.pow_lt_mono_r; lia).
    lia. }
  destruct (canon_spec m (- k)) as (m' & e' & -> & _ & He & Heq); [lia|].
  exists m', e'. set (a := Z.max 0 e'). set (b := Z.max 0 (- e')).
  assert (0 < 2 ^ a) by (apply pow2_pos; lia). assert (0 < 2 ^ b) by (apply pow2_pos; lia).
  assert (m * 2 ^ b = m' * 2 ^ a * 2 ^ k) as Hscale.
  { rewrite Heq, <- !Z.mul_assoc, <- !Z.pow_add_r by lia. f_equal. f_equal. lia. }
  assert (0 < m') by (assert (0 < 2 ^ (e' - - k)) by (apply pow2_pos; lia); nia).
  split_and!; [done | done | lia | |].
  - apply (Z.mul_lt_mono_pos_r (2 ^ k)); [lia|]. rewrite <- Hscale. nia.
  - change (10 ^ 7) with 10000000.
    apply (Z.mul_lt_mono_pos_r (2 ^ k)); [lia|].
    rewrite <- (Z.abs_eq (2 ^ k)) at 1 by lia. rewrite <- Z.abs_mul.
    replace (2 * (m' * 2 ^ a * 10000000 - 2 ^ b * n) * 2 ^ k)
      with (2 ^ b * (2 * (m * 10000000 - n * 2 ^ k))) by nia.
    rewrite Z.abs_mul, (Z.abs_eq (2 ^ b)) by lia.
    apply Z.mul_lt_mono_pos_l; lia.
Qed.

(** ** Properties *)

(** Fees are printed exactly: for every whole number of stroops below 2^52
    (about 450 million XLM) the division in double precision followed by printing
    seven decimals gives exactly the whole XLM and the seven digits of the rest. *)
Theorem stroopsToXlm_exact (n : Z) :
  0 <= n < 2 ^ 52 →
  stroopsToXlm (dec_of_nonneg n) =
    dec_of_nonneg (n / 10 ^ 7) ++ js "." ++ fixed 7 n ++ js " XLM".
Proof.
  intros Hn. unfold stroopsToXlm.
  rewrite js_Number_dec, isNaN_num_of_Z by (assert (2 ^ 52 < 2 ^ 53) by done; lia).
  assert (toFixed (num_div_Z (num_of_Z n) 10000000) 7 =
    dec_of_nonneg (n / 10 ^ 7) ++ js "." ++ fixed 7 n) as ->; [|by rewrite <- !app_assoc].
  destruct (Z.eq_dec n 0) as [->|Hn0]; [reflexivity|].
  destruct (num_of_Z_spec n) as (m0 & e0 & -> & He0 & Hn').
  assert (0 < 2 ^ e0) by (apply pow2_pos; lia).
  unfold num_div_Z. rewrite (Z.max_r 0 e0), (Z.max_l 0 (- e0)), Z.pow_0_r, Z.mul_1_r by lia.
  destruct (Z.ltb_spec m0 0); [nia|]. rewrite (Z.abs_eq m0), <- Hn' by lia.
  destruct (divided_fee n ltac:(lia)) as (m & e & -> & Hm & He & Hb & Hr).
  assert (0 < 2 ^ Z.max 0 e) by (apply pow2_pos; lia).
  assert (0 < 2 ^ Z.max 0 (- e)) by (apply pow2_pos; lia).
  unfold toFixed. rewrite num_lt_Z_r, num_lt_Z_l.
  assert (2 ^ 52 < 10 ^ 21) by done.
  destruct (Z.ltb_spec (m * 2 ^ Z.max 0 e) (10 ^ 21 * 2 ^ Z.max 0 (- e))); [|nia].
  destruct (Z.ltb_spec (- 10 ^ 21 * 2 ^ Z.max 0 (- e)) (m * 2 ^ Z.max 0 e)); [|nia].
  cbn [andb]. destruct (Z.ltb_spec m 0); [lia|]. unfold toFixed_pos.
  rewrite (nearest_integer _ _ n) by (lia || done).
  change (Z.to_nat 7) with 7%nat. rewrite padStart_dec by lia. change (7 =? 0) with false. cbv iota.
  rewrite <- (length_fixed 7 n) at 2 4. rewrite slice_butlast_app, slice_last_app. done.
Qed.

Lemma stroopsToXlm_exact_witness : stroopsToXlm (js "12345678") = js "1.2345678 XLM".
Proof.
  change (js "12345678") with (dec_of_nonneg 12345678).
  rewrite (stroopsToXlm_exact 12345678 ltac:(lia)). reflexivity.
Defined.
End VoteSimulationPreview.

Module DelegationPanel.

Inductive PanelState := idle | delegating | revoking.
Global Instance PanelState_eq_dec : EqDecision PanelState.
Proof. solve_decision. Defined.

Record State := {
  currentDelegate : option jstr;
  loading : bool;
  panelState : PanelState;
  delegateInput : jstr;
  error : option jstr;
  success : option jstr }.
Definition initial : State := {|
  currentDelegate := None; loading := true; panelState := idle; delegateInput := [];
  error := None; success := None |}.

(** [d.slice(0, 8)…d.slice(-6)] *)
Definition short (d : jstr) : jstr := slice d 0 8 ++ js "…" ++ slice_last d 6.

Section panel.
  Variable walletAddress : jstr.

(** The delegation of the connected address arrives. *)
Definition fetched (d : option jstr) (s : State) : State := {|
  currentDelegate := d; loading := false; panelState := panelState s;
  delegateInput := delegateInput s; error := error s; success := success s |}.

Definition open_panel (p : PanelState) (s : State) : State := {|
  currentDelegate := currentDelegate s; loading := loading s; panelState := p;
  delegateInput := delegateInput s; error := error s; success := None |}.

Definition input (v : jstr) (s : State) : State := {|
  currentDelegate := currentDelegate s; loading := loading s; panelState := panelState s;
  delegateInput := trim v; error := error s; success := success s |}.

Definition set_error (e : option jstr) (s : State) : State := {|
  currentDelegate := currentDelegate s; loading := loading s; panelState := panelState s;
  delegateInput := delegateInput s; error := e; success := success s |}.

Definition handleDelegate (s : State) : State :=
  if negb (startsWith (delegateInput s) (js "G")) || (jlen (delegateInput s) <? 56)
  then set_error (Some (js "Enter a valid Stellar address (G…)")) s
  else if bool_decide (delegateInput s = walletAddress)
  then set_error (Some (js "You cannot delegate to yourself.")) s
  else {| currentDelegate := Some (delegateInput s); loading := loading s; panelState := idle;
          delegateInput := []; error := None;
          success := Some (js "Voting power delegated to " ++ short (delegateInput s) ++ js ".") |}.

Definition handleRevoke (s : State) : State := {|
  currentDelegate := None; loading := loading s; panelState := idle;
  delegateInput := delegateInput s; error := None;
  success := Some (js "Delegation revoked. Voting power returned to your account.") |}.

Definition cancel (clear_input : bool) (s : State) : State := {|
  currentDelegate := currentDelegate s; loading := loading s; panelState := idle;
  delegateInput := if clear_input then [] else delegateInput s; error := None;
  success := success s |}.

Inductive Event :=
| Fetched (d : option jstr)
| ClickDelegate | ClickRevoke
| Input (v : jstr)
| Submit
| ConfirmRevoke
| Cancel.

(** A control works only while it is shown. *)
Definition handle (e : Event) (s : State) : State :=
  match e, loading s, panelState s with
  | Fetched d, _, _ => fetched d s
  | ClickDelegate, false, idle => if truthy (currentDelegate s) then s else open_panel delegating s
  | ClickRevoke, false, idle => if truthy (currentDelegate s) then open_panel revoking s else s
  | Input v, false, delegating => input v s
  | Submit, false, delegating => handleDelegate s
  | ConfirmRevoke, false, revoking => handleRevoke s
  | Cancel, false, delegating => cancel true s
  | Cancel, false, revoking => cancel false s
  | _, _, _ => s
  end.
Definition handle_all (es : list Event) (s : State) : State := foldl (flip handle) s es.

(** The status line. *)
Definition status (s : State) : jstr :=
  if loading s then js "Loading delegation status…"
  else match currentDelegate s with
       | Some ((_ :: _) as d) => js "Delegating to: " ++ short d
       | _ => js "No active delegation — you vote with your own balance."
       end.

(** What the panel shows below its title. *)
Inductive Controls :=
| Buttons (labels : list jstr)
| DelegateForm (value : jstr)
| RevokeQuestion
| NoControls.
Record View := { status_line : jstr; full_address : option jstr; messages : list jstr; controls : Controls }.
Definition render (s : State) : View :=
  if loading s
  then {| status_line := status s; full_address := None; messages := []; controls := NoControls |}
  else {|
    status_line := status s;
    full_address := match currentDelegate s with Some ((_ :: _) as d) => Some d | _ => None end;
    messages := match success s with Some ((_ :: _) as m) => [js "✅ " ++ m] | _ => [] end ++
                match error s with Some ((_ :: _) as m) => [js "⚠️ " ++ m] | _ => [] end;
    controls := match panelState s with
                | idle => Buttons [if truthy (currentDelegate s) then js "Revoke delegation"
                                   else js "Delegate voting power"]
                | delegating => DelegateForm (delegateInput s)
                | revoking => RevokeQuestion
                end |}.

Definition acceptable (d : jstr) : Prop :=
  startsWith d (js "G") = true ∧ 56 <= jlen d ∧ d ≠ walletAddress.

Lemma handle_delegate e s d :
  currentDelegate (handle e s) = Some d →
  currentDelegate s = Some d ∨ e = Fetched (Some d) ∨ acceptable d.
Proof.
  destruct e; simpl; destruct (loading s), (panelState s); simpl; try naive_solver;
    try (case_match; naive_solver).
  unfold handleDelegate. intros Hd.
  destruct (negb _ || _) eqn:Hv; [naive_solver|]. case_bool_decide; [naive_solver|].
  simpl in Hd. injection Hd as <-. bool_prop. by right; right.
Qed.

(** The delegate shown was read from the contract or typed in by the user as an
    address of another account. *)
Theorem delegate_shown_is_justified (es : list Event) (d : jstr) :
  currentDelegate (handle_all es initial) = Some d → Fetched (Some d) ∈ es ∨ acceptable d.
Proof.
  unfold handle_all. assert (∀ s, currentDelegate (foldl (flip handle) s es) = Some d →
    currentDelegate s = Some d ∨ Fetched (Some d) ∈ es ∨ acceptable d) as H.
  { induction es as [|e es IH]; intros s; simpl; [by left|].
    intros [Hd|[Hd|Hd]]%IH; [|right; left; by apply list_elem_of_further | by right; right].
    apply handle_delegate in Hd as [Hd|[->|Hd]]; [by left | right; left; by left | by right; right]. }
  intros Hd. apply H in Hd as [Hd|Hd]; done.
Qed.
End panel.
End DelegationPanel.

Module UserDashboard.
Import Format.

Definition VOTE_ICON (v : VoteType) : jstr :=
  match v with Yes => js "✅" | No => js "❌" | Abstain => js "⬜" end.
Definition vote_name (v : VoteType) : jstr :=
  match v with Yes => js "Yes" | No => js "No" | Abstain => js "Abstain" end.

Section dashboard.
  Variables (walletAddress : jstr) (tokenBalance : option Z) (decimals : nat)
    (proposals : list Proposal) (votedMap : gmap Z VoteRecord).

Definition active : list Proposal := filter (λ p, state p = Active) proposals.
Definition voted : list Proposal := filter (λ p, is_Some (votedMap !! id p)) proposals.
Definition unvoted : list Proposal := filter (λ p, ¬ is_Some (votedMap !! id p)) active.

Record View := {
  wallet_line : jstr;
  balance_line : option jstr;
  stats : list (jstr * Z);
  vote_lines : list (jstr * jstr);
  more_line : option jstr;
  nudge : option jstr }.

Definition UserDashboard : View := {|
  wallet_line := slice walletAddress 0 8 ++ js "…" ++ slice_last walletAddress 6;
  balance_line := (λ b, formatTokenAmount b decimals) <$> tokenBalance;
  stats := [(js "Active proposals", Z.of_nat (length active));
            (js "You voted", Z.of_nat (length voted));
            (js "Awaiting your vote", Z.of_nat (length unvoted))];
  vote_lines := (λ p, (js "#" ++ dec_of (id p) ++ js " " ++ title p,
      match votedMap !! id p with
      | Some r => VOTE_ICON (vote r) ++ js " " ++ vote_name (vote r)
      | None => js " "
      end)) <$> take 5 voted;
  more_line := if 5 <? Z.of_nat (length voted)
               then Some (js "+" ++ dec_of (Z.of_nat (length voted) - 5) ++ js " more") else None;
  nudge := if 0 <? Z.of_nat (length unvoted)
           then Some (js "🔔 You have " ++ dec_of (Z.of_nat (length unvoted)) ++ js " active proposal"
                  ++ (if 1 <? Z.of_nat (length unvoted) then js "s" else [])
                  ++ js " you haven't voted on yet.")
           else None |}.

(** The counters add up: the active proposals are those awaiting the user's vote
    and those among the voted ones that are still active. *)
Theorem dashboard_counters :
  (length active = length unvoted + length (filter (λ p, state p = Active) voted))%nat.
Proof.
  unfold unvoted, voted, active. induction proposals as [|p ps IH]; [done|].
  rewrite !(filter_cons _ p). repeat (case_decide; rewrite ?filter_cons); simpl; try lia; tauto.
Qed.
End dashboard.
End UserDashboard.

Module Header.
Import Format.

Record State := { menuOpen : bool; showFullAddress : bool; hamburgerFocused : bool }.
Definition initial : State := {| menuOpen := false; showFullAddress := false; hamburgerFocused := false |}.

Inductive Event :=
| Key (k : jstr)
| MouseDown (in_menu in_hamburger : bool)
| MediaChange (wide : bool)
| ToggleMenu | ToggleAddress | NavLink | MobileWallet.

Definition set_menu (b : bool) (s : State) : State :=
  {| menuOpen := b; showFullAddress := showFullAddress s; hamburgerFocused := hamburgerFocused s |}.

Definition handle (e : Event) (s : State) : State :=
  match e with
  | Key k => if bool_decide (k = js "Escape") && menuOpen s
             then {| menuOpen := false; showFullAddress := showFullAddress s; hamburgerFocused := true |}
             else s
  | MouseDown in_menu in_hamburger =>
      if menuOpen s && negb in_menu && negb in_hamburger then set_menu false s else s
  | MediaChange wide => if wide then set_menu false s else s
  | ToggleMenu => set_menu (negb (menuOpen s)) s
  | ToggleAddress => {| menuOpen := menuOpen s; showFullAddress := negb (showFullAddress s);
                        hamburgerFocused := hamburgerFocused s |}
  | NavLink | MobileWallet => set_menu false s
  end.

Definition NAV_LINKS : list (jstr * jstr * option jstr) :=
  [(js "Proposals", js "#proposals", None); (js "Dashboard", js "#dashboard", None);
   (js "Docs", js "https://github.com/sophiawilliamz/cosmosvote", Some (js "_blank"))].

Record View := {
  subtitle : jstr;
  links : list (jstr * jstr * option jstr);
  theme_label : jstr;
  wallet_texts : list jstr;
  hamburger_label : jstr;
  menu_hidden : bool;
  mobile_texts : list jstr }.

Definition render (network : jstr) (dark : bool) (walletAddress : option jstr)
    (tokenBalance : option Z) (decimals : nat) (connectLabel : jstr) (s : State) : View :=
  let balance := match tokenBalance with Some b => [formatTokenAmount b decimals] | None => [] end in {|
  subtitle := js "On-chain governance · " ++ network;
  links := NAV_LINKS;
  theme_label := js "Switch to " ++ (if dark then js "light" else js "dark") ++ js " mode";
  wallet_texts := match walletAddress with
                  | Some ((_ :: _) as a) =>
                      [if showFullAddress s then a else maskAddress a] ++ balance ++ [js "Disconnect"]
                  | _ => [connectLabel]
                  end;
  hamburger_label := if menuOpen s then js "Close menu" else js "Open menu";
  menu_hidden := negb (menuOpen s);
  mobile_texts := match walletAddress with
                  | Some ((_ :: _) as a) => [maskAddress a] ++ balance ++ [js "Disconnect"]
                  | _ => [connectLabel]
                  end |}.

(** The menu closes on Escape, on a click outside, on widening and on every
    choice made in it; a click inside, or on the button, does not close it. *)
Theorem menu_closes (s : State) (e : Event) :
  menuOpen s = true →
  menuOpen (handle e s) =
    match e with
    | Key k => negb (bool_decide (k = js "Escape"))
    | MouseDown in_menu in_hamburger => in_menu || in_hamburger
    | MediaChange wide => negb wide
    | ToggleMenu | NavLink | MobileWallet => false
    | ToggleAddress => true
    end.
Proof.
  intros Hm. destruct e as [k|[] []|[]| | | |]; simpl; rewrite ?Hm; try done.
  by case_bool_decide; simpl.
Qed.
End Header.

Module Dialogs.

(** ** ConnectWalletModal.tsx *)
Record ConnectState := { cw_error : option jstr; cw_loading : option jstr }.
Definition connect_start (wallet : jstr) (s : ConnectState) : ConnectState :=
  {| cw_error := None; cw_loading := Some wallet |}.
Definition connect_settled (r : res jstr ()) (s : ConnectState) : ConnectState :=
  {| cw_error := match r with Ok _ => cw_error s | Err m => Some m end; cw_loading := None |}.
Definition connect_buttons (s : ConnectState) : list (jstr * bool) :=
  (λ w, ((if bool_decide (cw_loading s = Some w) then js "⏳" else js "🔗") ++ js " " ++ w,
         truthy (cw_loading s))) <$> [js "Freighter"; js "xBull"].

(** ** ConfirmModal.tsx: a click on the overlay or on Cancel cancels, one on the
    other button confirms, one inside the dialog does nothing. *)
Inductive ConfirmClick := Overlay | InDialog | CancelButton | ConfirmButton.
Inductive ConfirmCall := onConfirm | onCancel.
Definition ConfirmModal (c : ConfirmClick) : list ConfirmCall :=
  match c with
  | Overlay | CancelButton => [onCancel]
  | InDialog => []
  | ConfirmButton => [onConfirm]
  end.

(** ** ErrorBoundary.tsx *)
Record Boundary := { caught : option jstr }.
Definition getDerivedStateFromError (message : jstr) : Boundary := {| caught := Some message |}.
Definition retry (b : Boundary) : Boundary := {| caught := None |}.
Definition render {A} (children : A) (fallback : option A) (default_box : jstr → A) (b : Boundary) : A :=
  match caught b, fallback with
  | Some _, Some f => f
  | Some m, None => default_box m
  | None, _ => children
  end.

(** ** The focus trap of ProposalDetail.tsx: [n] focusable elements, the focused
    one by its index, [None] when the focus is elsewhere. *)
Inductive Effect := Close | FocusOn (i : nat) | Default.
Definition trap (n : nat) (focused : option nat) (key : jstr) (shift : bool) : Effect :=
  if bool_decide (key = js "Escape") then Close
  else if bool_decide (key ≠ js "Tab") then Default
  else if (n =? 0)%nat then Default
  else if shift
  then if bool_decide (focused = Some 0%nat) then FocusOn (n - 1) else Default
  else if bool_decide (focused = Some (n - 1)%nat) then FocusOn 0 else Default.

(** What the browser does with Tab when the handler does not prevent it. *)
Definition browser_tab (n : nat) (focused : option nat) (shift : bool) : option nat :=
  match focused with
  | None => None
  | Some i => if shift then match i with O => None | S j => Some j end
              else if (S i <? n)%nat then Some (S i) else None
  end.
Definition press_tab (n : nat) (shift : bool) (focused : option nat) : option nat :=
  match trap n focused (js "Tab") shift with
  | FocusOn i => Some i
  | _ => browser_tab n focused shift
  end.

(** Tab and Shift+Tab go round the dialog's elements and never leave it. *)
Theorem focus_trap_cycles (n i : nat) (shift : bool) :
  (i < n)%nat →
  press_tab n shift (Some i) =
    Some (if shift then match i with O => n - 1 | S j => j end
          else if (S i =? n)%nat then 0 else S i)%nat.
Proof.
  intros Hi. unfold press_tab, trap. rewrite bool_decide_false by done.
  rewrite bool_decide_false by (by intros []).
  destruct (Nat.eqb_spec n 0); [lia|]. destruct shift.
  - destruct i as [|j]; [by rewrite bool_decide_true|]. by rewrite bool_decide_false by congruence.
  - destruct (Nat.eqb_spec (S i) n) as [<-|Hne].
    + rewrite bool_decide_true; [done|]. f_equal. lia.
    + rewrite bool_decide_false by (intros [=]; lia). simpl.
      by destruct (Nat.ltb_spec (S i) n); [|lia].
Qed.
End Dialogs.
