(* ===== verification/PageParts.v ===== *)
(** * Smaller parts of the page as elements
    (the markup of Pagination.tsx, ConfirmModal.tsx, ConnectWalletModal.tsx,
    Spinner.tsx and ProposalSkeleton.tsx)

    What [Pagination] and [Panels] say these components show and do, here from the
    elements they return: which clicks call what, and that the guards the handlers
    rely on are in the markup. *)
From Stdlib Require Import Ascii String ZArith Lia.
From stdpp Require Import prelude list strings.
From S2P Require Import Prelude JsString JsNumber Format Markup Pagination Panels.
Local Open Scope Z_scope.

(** ** Pagination.tsx *)
Module Navigation.
Import Markup Pagination.Pagination.

Inductive Action := Prev | Next | GoTo (page : Z).
Notation node := (Node Action).

Definition btnBase : Style :=
  [css "padding" "0.4rem 0.75rem"; css "border" "1px solid var(--border-color, #d1d5db)"; css_num "borderRadius" 6;
   css "fontSize" "0.875rem"; css "cursor" "pointer"; css "transition" "background 0.15s, color 0.15s";
   css_dec "lineHeight" "1.4"; css "minWidth" "2.25rem"; css "textAlign" "center"].
Definition navBtnStyle (disabled : bool) : Style :=
  spread btnBase
    [css_if disabled "background" "var(--bg-stat, #f3f4f6)" "var(--bg-card, #fff)";
     css_if disabled "color" "var(--text-muted, #9ca3af)" "var(--text-primary, #1e293b)";
     css_if disabled "cursor" "default" "pointer"].
Definition pageBtnStyle (isCurrent : bool) : Style :=
  spread btnBase
    [css_if isCurrent "background" "#3b82f6" "var(--bg-card, #fff)";
     css_if isCurrent "color" "#fff" "var(--text-primary, #1e293b)";
     css_if isCurrent "borderColor" "#3b82f6" "var(--border-color, #d1d5db)";
     (js "fontWeight", if isCurrent then Num (num_of_Z 700) else Undefined);
     css_if isCurrent "cursor" "default" "pointer"].

Section view.
  Variables (page totalPages totalCount pageSize : Z) (has_onPage : bool).

Definition summary : node :=
  Elem Span [(AriaLive, Txt (js "polite")); (AriaAtomic, Txt (js "true"))]
    [css "fontSize" "0.875rem"; css "color" "var(--text-muted, #888)"] []
    [Text (summaryText (Pagination page totalPages totalCount pageSize has_onPage))].
Definition prev_button : node :=
  Elem Button [(Disabled, Bool (page <=? 1)); (AriaLabel, Txt (js "Go to previous page"))]
    (navBtnStyle (page <=? 1)) [on_click [Call Prev]] [txt "← Prev"].
Definition next_button : node :=
  Elem Button [(Disabled, Bool (totalPages <=? page)); (AriaLabel, Txt (js "Go to next page"))]
    (navBtnStyle (totalPages <=? page)) [on_click [Call Next]] [txt "Next →"].
Definition ellipsis : node :=
  Elem Span [(AriaHidden, Txt (js "true"))]
    [css "padding" "0.4rem 0.25rem"; css "color" "var(--text-muted, #888)"; css "fontSize" "0.875rem"] [] [txt "…"].
Definition page_button (num : Z) : node :=
  Elem Button
    [(Disabled, Bool (num =? page)); (AriaLabel, Txt (js "Go to page " ++ dec_of num));
     (AriaCurrent, if num =? page then Txt (js "page") else Undefined)]
    (pageBtnStyle (num =? page)) [on_click [Call (GoTo num)]] [Text (dec_of num)].
Definition page_item (num : option Z) : node :=
  match num with None => ellipsis | Some n => page_button n end.
Definition pageNumbers : list (option Z) := if has_onPage then buildPageNumbers page totalPages else [].
Definition indicator_span : list node :=
  match indicator (Pagination page totalPages totalCount pageSize has_onPage) with
  | Some t =>
      [Elem Span [(AriaCurrent, Txt (js "page"))]
         [css "padding" "0.4rem 0.75rem"; css "fontSize" "0.875rem"; css "color" "var(--text-secondary, #555)"] []
         [Text t]]
  | None => []
  end.
Definition controls : node :=
  Elem Div [] [css "display" "flex"; css "gap" "0.375rem"; css "alignItems" "center"; css "flexWrap" "wrap"] []
    ([prev_button] ++ List.map page_item pageNumbers ++ indicator_span ++ [next_button]).
Definition nav : node :=
  Elem Nav [(AriaLabel, Txt (js "Proposal list pagination"))] [css "marginTop" "1.5rem"] []
    [Elem Div []
       [css "display" "flex"; css "justifyContent" "space-between"; css "alignItems" "center"; css "flexWrap" "wrap";
        css "gap" "0.5rem"] [] [summary; controls]].

(** ** What a click can meet *)
Inductive place : option node → option node → Prop :=
| on_nothing : place None None
| on_prev : place (Some prev_button) None
| on_next : place (Some next_button) None
| on_page n : Some n ∈ pageNumbers → place (Some (page_button n)) None.

Lemma nav_region : region place nav.
Proof.
  apply region_plain; [done..|constructor|]. constructor; [|constructor].
  apply region_plain; [done..|constructor|]. constructor; [apply region_inert; [done|constructor]|].
  constructor; [|constructor]. apply region_plain; [done..|constructor|].
  constructor; [apply region_button; [done|constructor]|]. apply list.Forall_app. split.
  - rewrite Forall_fmap. apply list.Forall_forall. intros [n|] Hn; cbn [page_item compose].
    + apply region_button; [done|by constructor].
    + apply region_inert; [done|constructor].
  - apply list.Forall_app. split.
    + unfold indicator_span. destruct (indicator _); [|done]. constructor; [apply region_inert; [done|constructor]|done].
    + constructor; [apply region_button; [done|constructor]|constructor].
Qed.
End view.

(** Where the application goes. *)
Definition destination (page totalPages : Z) (a : Action) : Z :=
  match a with
  | Prev => Z.max 1 (page - 1)
  | Next => Z.min totalPages (page + 1)
  | GoTo n => n
  end.

Lemma page_numbers_range page total n : Some n ∈ buildPageNumbers page total → 1 <= n <= total.
Proof.
  unfold buildPageNumbers. destruct (Z.leb_spec total 1); [set_solver|]. intros Hn.
  assert (n ∈ omap (λ o, o) (with_gaps None (sort_numbers (page_window page total)))) as Hin
    by (apply list_elem_of_omap; by exists (Some n)).
  rewrite with_gaps_numbers, sort_numbers_elem, page_window_elem in Hin. lia.
Qed.

Lemma click_nav page totalPages totalCount pageSize has_onPage p l :
  click p (nav page totalPages totalCount pageSize has_onPage) = Some l → l ≠ [] →
  (l = [Prev] ∧ 1 < page) ∨ (l = [Next] ∧ page < totalPages) ∨
  ∃ n, l = [GoTo n] ∧ n ≠ page ∧ Some n ∈ pageNumbers page totalPages has_onPage.
Proof.
  intros Hl Hne. destruct (region_click _ _ p l (nav_region _ _ _ _ _) Hl) as (b & f & HP & _ & ->).
  revert Hne. destruct HP as [| | |n Hn]; [done|..]; unfold prev_button, next_button, page_button; rewrite pressed_button; intros Hne.
  - destruct (Z.leb_spec page 1); [done|]. by left.
  - destruct (Z.leb_spec totalPages page); [done|]. right. by left.
  - destruct (Z.eqb_spec n page); [done|]. right. right. by exists n.
Qed.

Lemma click_control page totalPages totalCount pageSize has_onPage j d at_ st cs a :
  children (controls page totalPages totalCount pageSize has_onPage) !! j =
    Some (Elem Button ((Disabled, Bool d) :: at_) st [on_click [Call a]] cs) →
  click [0; 1; j]%nat (nav page totalPages totalCount pageSize has_onPage) = Some (if d then [] else [a]).
Proof.
  intros Hj. assert (∃ l, click [0; 1; j]%nat (nav page totalPages totalCount pageSize has_onPage) = Some l ∧
    button_on [0; 1; j]%nat (nav page totalPages totalCount pageSize has_onPage) =
      Some (Elem Button ((Disabled, Bool d) :: at_) st [on_click [Call a]] cs)) as (l & Hl & Hb).
  { unfold click, nav. cbn [dispatch button_on children lookup list_lookup mbind option_bind].
    change (list_lookup j (children ?c)) with (children c !! j). rewrite Hj. cbn [mbind option_bind]. eauto. }
  rewrite Hl. destruct (region_click _ _ _ l (nav_region _ _ _ _ _) Hl) as (b & f & HP & Hb' & ->).
  rewrite Hb in Hb'. subst b. assert (f = None) as -> by (by inversion HP). by rewrite pressed_button.
Qed.

Lemma control_next page totalPages totalCount pageSize has_onPage :
  children (controls page totalPages totalCount pageSize has_onPage) !!
    S (length (pageNumbers page totalPages has_onPage) +
       length (indicator_span page totalPages totalCount pageSize has_onPage)) = Some (next_button page totalPages).
Proof.
  unfold controls. cbn [children]. rewrite lookup_app_r by (cbn; lia). cbn [length].
  rewrite !lookup_app_r by (rewrite length_map; lia). rewrite length_map.
  by replace (_ - _)%nat with 0%nat by lia.
Qed.
Lemma control_page page totalPages totalCount pageSize has_onPage j n :
  pageNumbers page totalPages has_onPage !! j = Some (Some n) →
  children (controls page totalPages totalCount pageSize has_onPage) !! S j = Some (page_button page n).
Proof.
  intros Hj. unfold controls. cbn [children]. rewrite lookup_app_r by (cbn; lia). cbn [length].
  replace (S j - 1)%nat with j by lia. rewrite lookup_app_l by (rewrite length_map; by eapply lookup_lt_Some).
  rewrite list_lookup_fmap. by rewrite Hj.
Qed.

(** Where the page controls lead: whatever is clicked in them, at most one handler
    is called, and the page it leads to exists and is another one: the one before,
    the one after, or the number that is listed. Each of these is a button: the one
    before unless this is the first, the one after unless it is the last, and every
    listed number but that of this page, whose button is marked as the current one
    and disabled. *)
Theorem page_controls_lead_to_pages (page totalPages totalCount pageSize : Z) (has_onPage : bool) :
  1 <= page <= totalPages →
  let view := nav page totalPages totalCount pageSize has_onPage in
  (∀ p l, click p view = Some l → l ≠ [] →
     ∃ a, l = [a] ∧ 1 <= destination page totalPages a <= totalPages ∧ destination page totalPages a ≠ page) ∧
  (1 < page → ∃ p, click p view = Some [Prev]) ∧ (page < totalPages → ∃ p, click p view = Some [Next]) ∧
  (∀ n, Some n ∈ pageNumbers page totalPages has_onPage →
     ∃ p b, node_at p view = Some b ∧ disabled b = (n =? page) ∧ text_content b = dec_of n ∧
       (attr AriaCurrent b = Some (Txt (js "page")) ↔ n = page) ∧
       click p view = Some (if n =? page then [] else [GoTo n])).
Proof.
  intros Hp view. split_and!.
  - intros p l Hl Hne. destruct (click_nav _ _ _ _ _ p l Hl Hne) as [[-> Hp']|[[-> Hp']|(n & -> & Hn & Hin)]];
      (eexists; split; [done|]); cbn [destination]; [lia..|]. split; [|done]. unfold pageNumbers in Hin.
    destruct has_onPage; [by eapply page_numbers_range|set_solver].
  - intros H1. exists [0; 1; 0]%nat. unfold view. erewrite click_control; [|reflexivity].
    by destruct (Z.leb_spec page 1); [lia|].
  - intros H1. eexists [0; 1; _]%nat. unfold view. erewrite click_control by apply control_next.
    by destruct (Z.leb_spec totalPages page); [lia|].
  - intros n [j Hj]%list_elem_of_lookup.
    pose proof (control_page page totalPages totalCount pageSize has_onPage j n Hj) as Hb.
    exists [0; 1; S j]%nat, (page_button page n). split_and!.
    + unfold view, nav. cbn [node_at children lookup list_lookup mbind option_bind].
      change (list_lookup j (_ ++ ?x)) with ((children (controls page totalPages totalCount pageSize has_onPage)) !! S j).
      by rewrite Hb.
    + unfold page_button. by destruct (n =? page).
    + apply app_nil_r.
    + unfold page_button. cbn [attr assoc]. destruct (Z.eqb_spec n page); split; done || by intros.
    + unfold view. erewrite click_control; [done|]. exact Hb.
Qed.

Lemma page_controls_lead_to_pages_witness :
  ∃ p, click p (nav 2 9 175 20 true) = Some [Next] ∧
  ∃ q b, node_at q (nav 2 9 175 20 true) = Some b ∧ click q (nav 2 9 175 20 true) = Some [GoTo 9].
Proof.
  destruct (page_controls_lead_to_pages 2 9 175 20 true) as (_ & _ & Hn & Hp); [split; discriminate|].
  destruct Hn as [p Hn]; [reflexivity|]. exists p. split; [exact Hn|].
  destruct (Hp 9) as (q & b & Hb & _ & _ & _ & Hc).
  - vm_compute. right. right. right. right. left.
  - exists q, b. split; [exact Hb|exact Hc].
Defined.

(** The application's handlers have no guard; the buttons do. *)
Lemma list_navigation_guarded (toLowerCase : jstr → jstr) (s : ProposalList.ListState) (p : list nat) (l : list Action) :
  ProposalList.loading s = false → ProposalList.filtered toLowerCase s ≠ [] →
  click p (nav (ProposalList.safePage toLowerCase s) (ProposalList.totalPages toLowerCase s)
    (Z.of_nat (length (ProposalList.filtered toLowerCase s))) ProposalList.PAGE_SIZE false) = Some l →
  foldl (λ s a, match a with
                | Prev => ProposalList.onPrev s
                | Next => ProposalList.onNext toLowerCase s
                | GoTo _ => s
                end) s l =
  foldl (λ s a, match a with
                | Prev => ProposalList.handle toLowerCase ProposalList.Prev s
                | Next => ProposalList.handle toLowerCase ProposalList.Next s
                | GoTo _ => s
                end) s l.
Proof.
  intros Hload Hne Hl. destruct (decide (l = [])) as [->|Hl0]; [done|].
  destruct (click_nav _ _ _ _ _ p l Hl Hl0) as [[-> Hp]|[[-> Hp]|(n & -> & _ & Hn)]]; [..|done];
    cbn [foldl ProposalList.handle]; rewrite Hload, bool_decide_false by done; cbn [orb].
  - by destruct (Z.leb_spec (ProposalList.safePage toLowerCase s) 1); [lia|].
  - by destruct (Z.leb_spec (ProposalList.totalPages toLowerCase s) (ProposalList.safePage toLowerCase s)); [lia|].
Qed.

End Navigation.

(** ** ConfirmModal.tsx and ConnectWalletModal.tsx *)
Module Modals.
Import Markup Dialogs.

Definition overlay : Style :=
  [css "position" "fixed"; css_num "inset" 0; css "background" "rgba(0,0,0,0.6)"; css "display" "flex";
   css "alignItems" "center"; css "justifyContent" "center"; css_num "zIndex" 200].
Definition dialog : Style :=
  [css "background" "#fff"; css_num "borderRadius" 10; css "padding" "1.5rem"; css_num "maxWidth" 420; css "width" "90%"].

Section confirm.
  Variables (title message confirmLabel confirmColor : jstr).

Definition cancel_button : Node ConfirmCall :=
  Elem Button []
    [css "padding" "0.5rem 1rem"; css "border" "1px solid #d1d5db"; css_num "borderRadius" 6; css "background" "#fff";
     css "cursor" "pointer"] [on_click [Call onCancel]] [txt "Cancel"].
Definition confirm_button : Node ConfirmCall :=
  Elem Button []
    [css "padding" "0.5rem 1rem"; css "border" "none"; css_num "borderRadius" 6; (js "background", Txt confirmColor);
     css "color" "#fff"; css "cursor" "pointer"] [on_click [Call onConfirm]] [Text confirmLabel].
Definition confirm_modal : Node ConfirmCall :=
  modal onCancel [] overlay
    [(Role, Txt (js "alertdialog")); (AriaModal, Txt (js "true")); (AriaLabelledby, Txt (js "confirm-title"));
     (AriaDescribedby, Txt (js "confirm-msg"))] dialog
    [Elem H3 [(Id, Txt (js "confirm-title"))] [css "margin" "0 0 0.75rem"] [] [Text title];
     Elem Paragraph [(Id, Txt (js "confirm-msg"))] [css "margin" "0 0 1.5rem"; css "color" "#555"] [] [Text message];
     Elem Div [] [css "display" "flex"; css "gap" "0.75rem"; css "justifyContent" "flex-end"] []
       [cancel_button; confirm_button]].

(** What a click hits, in the terms of [Dialogs.ConfirmModal]. *)
Definition hits (p : list nat) : ConfirmClick :=
  match p with
  | [] => Overlay
  | [0; 2; 0]%nat | [0; 2; 0; 0]%nat => CancelButton
  | [0; 2; 1]%nat | [0; 2; 1; 0]%nat => ConfirmButton
  | _ => InDialog
  end.
End confirm.

(** The loading state that disables both buttons. *)
Inductive WalletCall := HandleConnect (wallet : jstr) | CloseModal.
Section connect.
  Variable s : ConnectState.

Definition wallets : list jstr := [js "Freighter"; js "xBull"].
Definition busy (wallet : jstr) : bool := bool_decide (cw_loading s = Some wallet).
Definition wallet_button (wallet : jstr) : Node WalletCall :=
  Elem Button [(Disabled, Bool (truthy (cw_loading s))); (AriaBusy, Bool (busy wallet))]
    [css "display" "flex"; css "alignItems" "center"; css "gap" "0.75rem"; css "padding" "0.75rem 1rem";
     css "border" "1px solid #e5e7eb"; css_num "borderRadius" 8; css_if (busy wallet) "background" "#f1f5f9" "#fff";
     css_if (truthy (cw_loading s)) "cursor" "not-allowed" "pointer"; css "fontSize" "1rem"; css_num "fontWeight" 500]
    [on_click [Call (HandleConnect wallet)]]
    [Text (if busy wallet then js "⏳" else js "🔗"); txt " "; Text wallet].
Definition error_line : list (Node WalletCall) :=
  match cw_error s with
  | Some ((_ :: _) as e) =>
      [Elem Paragraph [(Role, Txt (js "alert"))]
         [css "color" "#dc2626"; css "marginTop" "1rem"; css "fontSize" "0.875rem"] [] [Text e]]
  | _ => []
  end.
Definition close_button : Node WalletCall :=
  Elem Button [(AriaLabel, Txt (js "Close wallet modal"))]
    [css "marginTop" "1.25rem"; css "background" "none"; css "border" "none"; css "color" "#64748b";
     css "cursor" "pointer"; css "fontSize" "0.875rem"] [on_click [Call CloseModal]] [txt "Cancel"].
Definition wallet_modal : Node WalletCall :=
  modal CloseModal
    [(Role, Txt (js "dialog")); (AriaModal, Txt (js "true")); (AriaLabelledby, Txt (js "wallet-modal-title"))]
    [css "position" "fixed"; css_num "inset" 0; css "background" "rgba(0,0,0,0.5)"; css "display" "flex";
     css "alignItems" "center"; css "justifyContent" "center"; css_num "zIndex" 1000]
    [] [css "background" "#fff"; css_num "borderRadius" 12; css "padding" "2rem"; css_num "minWidth" 320;
        css "boxShadow" "0 20px 60px rgba(0,0,0,0.3)"]
    ([Elem H2 [(Id, Txt (js "wallet-modal-title"))]
        [css "margin" "0 0 1.5rem"; css "fontSize" "1.25rem"; css "color" "#1e293b"] [] [txt "Connect Wallet"];
      Elem Div [] [css "display" "flex"; css "flexDirection" "column"; css "gap" "0.75rem"] []
        (List.map wallet_button wallets)] ++ error_line ++ [close_button]).
End connect.

(** ** Properties *)
(** Every click on the confirmation dialog, through its elements, calls what
    [ConfirmModal] says: the backdrop and Cancel cancel, the other button confirms,
    and the rest of the dialog does nothing. *)
Theorem confirm_modal_clicks (title message label color : jstr) (p : list nat) (l : list ConfirmCall) :
  click p (confirm_modal title message label color) = Some l → l = ConfirmModal (hits p).
Proof.
  destruct p as [|[|i] p]; [by intros [= <-]| |done].
  destruct p as [|[|[|[|i]]] p]; [by intros [= <-]| | | |done].
  - destruct p as [|[|i] [|j p]]; try done; by intros [= <-].
  - destruct p as [|[|i] [|j p]]; try done; by intros [= <-].
  - destruct p as [|[|[|i]] p]; [by intros [= <-]| | |done].
    all: destruct p as [|[|i] [|j p]]; try done; by intros [= <-].
Qed.
Lemma confirm_modal_clicks_witness :
  click [0; 2; 1]%nat (confirm_modal (js "Cast vote") (js "Vote Yes?") (js "Confirm") (js "#16a34a")) = Some [onConfirm] ∧
  [onConfirm] = ConfirmModal (hits [0; 2; 1]%nat).
Proof.
  split; [reflexivity|]. apply (confirm_modal_clicks (js "Cast vote") (js "Vote Yes?") (js "Confirm") (js "#16a34a")).
  reflexivity.
Defined.

(** ** A user, the wallets and the connection dialog *)
Inductive wallet_place (s : ConnectState) : option (Node WalletCall) → option (Node WalletCall) → Prop :=
| on_nothing : wallet_place s None None
| on_wallet w : w ∈ wallets → wallet_place s (Some (wallet_button s w)) None
| on_close : wallet_place s (Some close_button) None.
Lemma wallet_region s :
  Forall (region (wallet_place s))
    ([Elem H2 [(Id, Txt (js "wallet-modal-title"))]
        [css "margin" "0 0 1.5rem"; css "fontSize" "1.25rem"; css "color" "#1e293b"] [] [txt "Connect Wallet"];
      Elem Div [] [css "display" "flex"; css "flexDirection" "column"; css "gap" "0.75rem"] []
        (List.map (wallet_button s) wallets)] ++ error_line s ++ [close_button]).
Proof.
  constructor; [apply region_inert; [done|constructor]|]. constructor; [|apply list.Forall_app; split].
  - apply region_plain; [done..|constructor|]. rewrite Forall_fmap. apply list.Forall_forall. intros w Hw.
    apply region_button; [by destruct (busy s w)|by constructor].
  - apply region_all_inert; [|constructor]. unfold error_line. by destruct (cw_error s) as [[|u e]|].
  - constructor; [|constructor]. apply region_button; [done|constructor].
Qed.
Lemma click_wallet_modal s p l :
  click p (wallet_modal s) = Some l →
  l = [] ∨ l = [CloseModal] ∨ ∃ w, truthy (cw_loading s) = false ∧ w ∈ wallets ∧ l = [HandleConnect w].
Proof.
  intros Hl. destruct (modal_click (wallet_place s) _ _ _ _ _ _ _ _ (wallet_region s) ltac:(constructor) Hl)
    as [[_ ->]|(_ & b & f & HP & _ & ->)]; [by right; left|]. destruct HP as [|w Hw|]; [by left| |by right; left].
  unfold wallet_button. rewrite pressed_button. destruct (truthy (cw_loading s)); [by left|]. right. right. by exists w.
Qed.

(** The connections that are being made, by wallet. *)
Record Session := { modal_state : ConnectState; connecting : list jstr; closed : nat }.
Definition shown : Session := {| modal_state := {| cw_error := None; cw_loading := None |}; connecting := []; closed := 0 |}.
Definition perform (d : Session) (c : WalletCall) : Session :=
  match c with
  | HandleConnect w =>
      {| modal_state := connect_start w (modal_state d); connecting := connecting d ++ [w]; closed := closed d |}
  | CloseModal => {| modal_state := modal_state d; connecting := connecting d; closed := S (closed d) |}
  end.
Inductive Move := Clicked (p : list nat) | Settled (i : nat) (r : res jstr ()).
Definition move (m : Move) (d : Session) : Session :=
  match m with
  | Clicked p => foldl perform d (default [] (click p (wallet_modal (modal_state d))))
  | Settled i r =>
      match connecting d !! i with
      | Some _ => {| modal_state := connect_settled r (modal_state d); connecting := delete i (connecting d);
                     closed := closed d |}
      | None => d
      end
  end.
Definition moves (l : list Move) (d : Session) : Session := foldl (flip move) d l.

(** One wallet at a time: whatever is clicked in the dialog and whenever the attempts
    end, at most one wallet is being connected, and the dialog marks exactly that one
    as busy. *)
Theorem one_connection_at_a_time (l : list Move) :
  let d := moves l shown in
  (connecting d = [] ∧ cw_loading (modal_state d) = None) ∨
  ∃ w, w ∈ wallets ∧ connecting d = [w] ∧ cw_loading (modal_state d) = Some w.
Proof.
  apply (fold_preserves move (λ d, (connecting d = [] ∧ cw_loading (modal_state d) = None) ∨
    ∃ w, w ∈ wallets ∧ connecting d = [w] ∧ cw_loading (modal_state d) = Some w)); [|by left].
  intros [p|i r] d Hd; cbn [move].
  - destruct (click p (wallet_modal (modal_state d))) as [lc|] eqn:Hl; [|done]. cbn [default from_option id].
    destruct (click_wallet_modal _ _ _ Hl) as [->|[->|(w & Hb & Hw & ->)]]; cbn [foldl perform connecting modal_state]; try done.
    destruct Hd as [[Hc _]|(w' & Hw' & _ & Hl')].
    + right. exists w. by rewrite Hc.
    + exfalso. rewrite Hl' in Hb. revert Hw' Hb. unfold wallets. intros [->|[->|[]%elem_of_nil]%elem_of_cons]%elem_of_cons; done.
  - destruct (connecting d !! i) as [w|] eqn:Hi; [|done]. left. cbn [connecting modal_state connect_settled cw_loading].
    split; [|done]. destruct Hd as [[Hc _]|(w' & _ & Hc & _)]; rewrite Hc in Hi |- *; [done|].
    by apply list_lookup_singleton_Some in Hi as [-> _].
Qed.
End Modals.

(** ** Spinner.tsx and ProposalSkeleton.tsx *)
Module Placeholders.
Import Markup.

Definition spinnerStyle : Style :=
  [css "display" "inline-block"; css "width" "1em"; css "height" "1em"; css "border" "2px solid currentColor";
   css "borderTopColor" "transparent"; css "borderRadius" "50%"; css "animation" "spin 0.7s linear infinite";
   css "verticalAlign" "middle"].
Definition keyframes : jstr := js "@keyframes spin { to { transform: rotate(360deg); } }".
(** A fragment: two nodes. The defaults of the properties are "1em" and
    "currentColor". *)
Definition Spinner (size color : option jstr) : list (Node Empty_set) :=
  let size := default (js "1em") size in let color := default (js "currentColor") color in
  [Elem StyleSheet [] [] [] [Text keyframes];
   Elem Span [(Role, Txt (js "status")); (AriaLabel, Txt (js "Loading"))]
     (spread spinnerStyle [(js "width", Txt size); (js "height", Txt size); (js "color", Txt color)]) [] []].

Section skeleton.
  (** The names that the build gives to the classes of ProposalSkeleton.module.css. *)
  Variable styles : string → jstr.
Definition bone (name : string) : Node Empty_set :=
  Elem Div [(ClassName, Txt (styles "skeleton" ++ js " " ++ styles name))] [] [] [].
Definition ProposalSkeleton : Node Empty_set :=
  Elem Article [(ClassName, Txt (styles "card")); (AriaHidden, Txt (js "true"))] [] []
    [Elem Div [(ClassName, Txt (styles "cardHeader"))] [] [] [bone "titleSkeleton"; bone "badgeSkeleton"];
     bone "descSkeleton"; bone "metaSkeleton";
     Elem Div [(ClassName, Txt (styles "progressTrack"))] [] [] [bone "progressSkeleton"];
     bone "countsSkeleton"].
End skeleton.

(** The placeholders take no part in anything: no gesture on them calls a handler or
    submits, they have no text and no identifier of their own, the skeleton is
    hidden from assistive technology, and the spinner says that it is loading and has
    the size and the colour it was given. *)
Theorem placeholders_are_inert (styles : string → jstr) (size color : option jstr) :
  Forall (λ n, inert n = true ∧ ids n = []) (ProposalSkeleton styles :: Spinner size color) ∧
  text_content (ProposalSkeleton styles) = [] ∧
  attr AriaHidden (ProposalSkeleton styles) = Some (Txt (js "true")) ∧
  ∃ sheet span, Spinner size color = [sheet; span] ∧ attr AriaLabel span = Some (Txt (js "Loading")) ∧
    text_content span = [] ∧
    (λ k, assoc (js k) (style_of span)) <$> ["width"; "height"; "color"; "animation"]%string =
      [Some (Txt (default (js "1em") size)); Some (Txt (default (js "1em") size));
       Some (Txt (default (js "currentColor") color)); Some (Txt (js "spin 0.7s linear infinite"))].
Proof.
  split_and!; [by repeat constructor|reflexivity|reflexivity|].
  eexists _, _. split; [reflexivity|]. split; [reflexivity|]. split; [reflexivity|]. reflexivity.
Qed.
End Placeholders.
