(* ===== verification/Detail.v ===== *)
(** * The proposal dialog (frontend/src/components/ProposalDetail.tsx)

    What the dialog keeps, how the answers about the user's vote move it, what its
    vote buttons do, and what it shows. The component reads names that no file
    declares ([Undeclared]) and two callbacks it does not take from its props; they
    are arguments here. The texts of dates are the locale's. *)
From Stdlib Require Import Ascii String ZArith Lia.
From stdpp Require Import prelude list gmap strings.
From S2P Require Import Prelude JsString JsNumber JsonValue Format Api Toasts.
Local Open Scope Z_scope.

Module Detail.
Import Format.

(** The vote as the component types it. *)
Record Vote := { v_vote : jstr; v_weight : Z }.
Inductive PendingAction := finalize | execute | cancel.
Record Props := { proposal : Proposal; decimals : nat; walletAddress : option jstr }.

(** The names of the body that are not declared. *)
Record Undeclared := {
  expired : bool;
  isAdmin : bool;
  votingMessage : option jstr;
  votingError : option jstr;
  canVote : bool;
  isVoting : bool;
  isProposalActive : bool;
  votingOpen : bool;
  pendingAction : option PendingAction }.

Section dialog.
  (** [new Date(ms).toLocaleString()] and [explorerAccountUrl]. *)
  Variables (toLocaleString : jsnum → jstr) (explorerAccountUrl : jstr → jstr).

(** [Number(ts) * 1000] *)
Definition times_1000 (x : jsnum) : jsnum :=
  match x with Fin m e => JsonValue.round_signed (m * 1000) e | _ => x end.
Definition formatDate (ts : Z) : jstr := toLocaleString (times_1000 (Number_of_bigint ts)).

(** ** The status of the user's vote *)
(** [Promise.all] of [fetchHasVoted], which may reject, and [fetchVoteRecord]. *)
Definition Answer : Type := res jstr (bool * option Vote).
Record State := {
  hasVoted : option bool;
  voteRecord : option Vote;
  showFullProposer : bool;
  requests : list (jsnum * jstr) }.        (* the checks under way *)
Definition initial : State :=
  {| hasVoted := None; voteRecord := None; showFullProposer := false; requests := [] |}.

Inductive Event :=
| Effect (p : Props)                (* the first render, or one with another id or address *)
| Settled (i : nat) (a : Answer)    (* the i-th check under way settles *)
| ToggleProposer.

Definition announcement (a : bool * option Vote) : jstr :=
  match a with
  | (true, Some r) => js "You previously voted " ++ v_vote r ++ js " on this proposal."
  | _ => js "You have not voted on this proposal."
  end.
(** The new state and what [onAnnounce] is told. A rejection is handled nowhere. *)
Definition handle (e : Event) (s : State) : State * list jstr :=
  match e with
  | Effect p =>
      match walletAddress p with
      | Some ((_ :: _) as w) =>
          ({| hasVoted := hasVoted s; voteRecord := voteRecord s; showFullProposer := showFullProposer s;
              requests := requests s ++ [(Number_of_bigint (id (proposal p)), w)] |},
           [js "Checking vote status…"])
      | _ => (s, [])
      end
  | Settled i a =>
      match requests s !! i with
      | None => (s, [])
      | Some _ =>
          let rest := delete i (requests s) in
          match a with
          | Ok (v, r) => ({| hasVoted := Some v; voteRecord := r; showFullProposer := showFullProposer s;
                             requests := rest |}, [announcement (v, r)])
          | Err _ => ({| hasVoted := hasVoted s; voteRecord := voteRecord s;
                         showFullProposer := showFullProposer s; requests := rest |}, [])
          end
      end
  | ToggleProposer => ({| hasVoted := hasVoted s; voteRecord := voteRecord s;
                          showFullProposer := negb (showFullProposer s); requests := requests s |}, [])
  end.
Definition handle_all (es : list Event) (s : State) : State := foldl (λ s e, (handle e s).1) s es.

(** ** handleVote: the toasts it asks for, with the pause in between; no transaction
    is built. *)
Inductive VoteStep := AskToast (t : ToastHook.ToastType) (m : jstr) | Wait (ms : Z).
Definition handleVote (p : Props) (has_onToast : bool) (voteType : jstr) : list VoteStep :=
  if truthy (walletAddress p) && has_onToast then
    [AskToast ToastHook.pending (js "Submitting " ++ voteType ++ js " vote — confirm in wallet…");
     Wait 1000;
     AskToast ToastHook.success (js "Vote " ++ 34 :: voteType ++ 34 :: js " submitted on proposal #"
                                   ++ dec_of (id (proposal p)) ++ js ".")]
  else [].
(** With the toasts of Toast.tsx as [onToast]. *)
Definition vote_toasts (steps : list VoteStep) : list ToastHook.Event :=
  omap (λ st, match st with AskToast t m => Some (ToastHook.Show t m) | Wait _ => None end) steps.

(** ** What is shown *)
Inductive StatusBox :=
| Checking                          (* Checking vote status... *)
| YouVoted (line : jstr)
| CastYourVote (buttons : list (jstr * jstr))   (* icon, choice *)
| NotVoted.                         (* You have not voted on this proposal. *)
Definition vote_icon (v : jstr) : jstr :=
  if bool_decide (v = js "Yes") then js "✅" else if bool_decide (v = js "No") then js "❌" else js "⬜".
Definition choices : list jstr := [js "Yes"; js "No"; js "Abstain"].

Definition status_box (p : Props) (s : State) : option StatusBox :=
  if truthy (walletAddress p) then
    Some (match hasVoted s, voteRecord s with
          | None, _ => Checking
          | Some true, Some r =>
              YouVoted (js "You voted " ++ v_vote r ++ js " with weight " ++ formatTokenAmount (v_weight r) (decimals p))
          | Some _, _ =>
              if bool_decide (state (proposal p) = Active)
              then CastYourVote ((λ v, (vote_icon v, v)) <$> choices) else NotVoted
          end)
  else None.

(** The row of three buttons below: label and whether it is disabled. *)
Definition vote_row (u : Undeclared) : list (jstr * bool) :=
  (λ l, (if isVoting u then js "Submitting..." else l, negb (canVote u) || isVoting u))
    <$> [js "Vote Yes"; js "Vote No"; js "Abstain"].
Definition notes (p : Props) (u : Undeclared) (s : State) : list jstr :=
  let wallet := truthy (walletAddress p) in
  (if negb wallet then [js "ℹ️ Connect your wallet to vote on this proposal"] else []) ++
  (if wallet && default false (hasVoted s) then [js "✓ You have already voted on this proposal"] else []) ++
  (if wallet && negb (isProposalActive u)
   then [js "ℹ️ This proposal is not active and cannot receive new votes"] else []) ++
  (if wallet && isProposalActive u && negb (votingOpen u)
   then [js "ℹ️ Voting is not open yet or has ended for this proposal"] else []).

Record View := {
  heading : jstr;
  texts : list jstr;
  proposer_link : jstr * jstr;
  toggle : jstr * jstr;
  rows : list (jstr * jstr);
  box : option StatusBox;
  messages : list jstr;
  vote_buttons : list (jstr * bool);
  footnotes : list jstr;
  confirm_modal : option PendingAction }.
Definition shown_text (o : option jstr) : list jstr := match o with Some ((_ :: _) as m) => [m] | _ => [] end.
Definition render (p : Props) (u : Undeclared) (s : State) : View :=
  let q := proposal p in {|
    heading := js "Proposal #" ++ dec_of (id q);
    texts := [title q; description q];
    proposer_link := (explorerAccountUrl (proposer q),
                      if showFullProposer s then proposer q else maskAddress (proposer q));
    toggle := if showFullProposer s then (js "Hide full proposer address", js "🙈")
              else (js "Reveal full proposer address", js "👁");
    rows := [(js "State", state_name (state q)); (js "Start", formatDate (start_time q));
             (js "End", formatDate (end_time q)); (js "Quorum", formatTokenAmount (quorum q) (decimals p));
             (js "Total Votes", formatTokenAmount (votes_yes q + votes_no q + votes_abstain q) (decimals p))];
    box := status_box p s;
    messages := shown_text (votingMessage u) ++ shown_text (votingError u);
    vote_buttons := vote_row u;
    footnotes := notes p u s;
    confirm_modal := pendingAction u |}.

(** Three conditions the component computes and shows nothing for. *)
Definition showFinalize (p : Props) (u : Undeclared) : bool :=
  truthy (walletAddress p) && bool_decide (state (proposal p) = Active) && expired u.
Definition showExecute (p : Props) (u : Undeclared) : bool := isAdmin u && bool_decide (state (proposal p) = Passed).
Definition showCancel (p : Props) (u : Undeclared) : bool :=
  isAdmin u && (bool_decide (state (proposal p) = Active) || bool_decide (state (proposal p) = Passed)).
End dialog.

(** ** The checks against the contract *)
(** A vote record as the contract's view gives it, cast to the component's type. *)
Definition vote_of (v : Api.Native) : Vote :=
  match v with
  | Api.NVote r => {| v_vote := match vote r with Yes => js "Yes" | No => js "No" | Abstain => js "Abstain" end;
                      v_weight := weight r |}
  | _ => {| v_vote := js "undefined"; v_weight := 0 |}
  end.
Definition check (env : Config.Env) (sdk : Api.Sdk) (server : Api.Server) (i : Z) (wallet : jstr) : Answer :=
  v ← Api.fetchHasVoted env sdk server i wallet;
  Ok (v, vote_of <$> Api.fetchVoteRecord env sdk server i wallet).
(** ** Properties *)

(** The vote buttons vote for nothing: whatever happened to the toasts before,
    a click of a connected user builds no transaction; it leaves a toast that the
    vote is pending and, a second later, one that it was submitted, never an error;
    and the pending toast stays, whatever happens afterwards, until somebody
    dismisses it, though the code takes it to be replaced. *)
Theorem vote_button_only_toasts (p : Props) (v : jstr) (n : nat) (es es' : list ToastHook.Event)
    (s s1 s2 : ToastHook.State) :
  truthy (walletAddress p) = true →
  ToastHook.handle_all es (ToastHook.mounted n) = Some s →
  ToastHook.handle_all (vote_toasts (handleVote p true v)) s = Some s1 →
  ToastHook.handle_all es' s1 = Some s2 →
  let pending := {| ToastHook.id := ToastHook.nextId s; ToastHook.type := ToastHook.pending;
                    ToastHook.message := js "Submitting " ++ v ++ js " vote — confirm in wallet…" |} in
  let success := {| ToastHook.id := S (ToastHook.nextId s); ToastHook.type := ToastHook.success;
                    ToastHook.message := js "Vote " ++ 34 :: v ++ 34 :: js " submitted on proposal #"
                                           ++ dec_of (id (proposal p)) ++ js "." |} in
  ToastHook.toasts s1 = ToastHook.toasts s ++ [pending; success] ∧
  (ToastHook.Dismiss (ToastHook.nextId s) ∉ es' → pending ∈ ToastHook.toasts s2).
Proof.
  intros Hw Hs H1 H2 pending success.
  pose proof (ToastHook.handle_all_inv es _ _ Hs (ToastHook.mounted_inv n)) as Hinv.
  pose proof (ToastHook.handle_all_inv _ _ _ H1 Hinv) as Hinv1.
  unfold handleVote in H1. rewrite Hw in H1. cbn [andb vote_toasts omap list_omap] in H1.
  unfold ToastHook.handle_all in H1. cbn [run ToastHook.handle mbind option_bind] in H1. injection H1 as <-.
  assert (ToastHook.toasts (ToastHook.show ToastHook.success (ToastHook.message success)
    (ToastHook.show ToastHook.pending (ToastHook.message pending) s).2).2 = ToastHook.toasts s ++ [pending; success]) as Ht.
  { cbn [ToastHook.show snd ToastHook.toasts ToastHook.nextId]. by rewrite <- app_assoc. }
  split; [exact Ht|]. intros Hd. apply (ToastHook.pending_stays pending es' _ s2 Hinv1); [|done|done|exact H2].
  refine (eq_ind_r (λ l, pending ∈ l) _ Ht). apply elem_of_app. right. left.
Qed.

Definition sample_props : Props :=
  {| proposal := sample_proposal; decimals := 2; walletAddress := Some (js "GALICE") |}.
(** Voting yes, and waiting for the toast of success to go. *)
Lemma vote_button_only_toasts_witness :
  ∃ s1 s2, ToastHook.handle_all (vote_toasts (handleVote sample_props true (js "Yes"))) (ToastHook.mounted 1) = Some s1 ∧
    ToastHook.handle_all [ToastHook.Expire 2] s1 = Some s2 ∧ length (ToastHook.toasts s1) = 2%nat ∧
    ∃ t, t ∈ ToastHook.toasts s2 ∧ ToastHook.type t = ToastHook.pending.
Proof.
  destruct (ToastHook.handle_all (vote_toasts (handleVote sample_props true (js "Yes"))) (ToastHook.mounted 1))
    as [s1|] eqn:H1; [|vm_compute in H1; discriminate H1].
  destruct (ToastHook.handle_all [ToastHook.Expire 2] s1) as [s2|] eqn:H2;
    [|vm_compute in H1; injection H1 as <-; vm_compute in H2; discriminate H2].
  exists s1, s2. split; [reflexivity|]. split; [exact H2|].
  destruct (vote_button_only_toasts sample_props (js "Yes") 1 [] [ToastHook.Expire 2] (ToastHook.mounted 1) s1 s2
    eq_refl eq_refl H1 H2) as [Ht Hp].
  split; [rewrite Ht; reflexivity|]. eexists. split; [apply Hp|reflexivity].
  apply not_elem_of_cons. split; [discriminate|apply not_elem_of_nil].
Defined.

(** The dialog shows whichever check settled last: when the address or the
    proposal changes while a check is under way and the first answer comes second,
    the vote of the first address is shown to the second. *)
Theorem late_answer_shows_other_vote (p1 p2 : Props) (w1 w2 : jstr) (a1 a2 : bool * option Vote) :
  walletAddress p1 = Some w1 → walletAddress p2 = Some w2 → w1 ≠ [] → w2 ≠ [] →
  let s := handle_all [Effect p1; Effect p2; Settled 1 (Ok a2); Settled 0 (Ok a1)] initial in
  hasVoted s = Some a1.1 ∧ voteRecord s = a1.2 ∧ requests s = [].
Proof.
  intros H1 H2 Hw1 Hw2. destruct w1 as [|u1 w1]; [done|]. destruct w2 as [|u2 w2]; [done|].
  unfold handle_all. cbn [foldl handle]. rewrite H1. cbn [fst]. rewrite H2.
  cbn [fst requests initial app lookup list_lookup]. destruct a1, a2. cbn. done.
Qed.

End Detail.
