(* ===== verification/Events.v ===== *)
(** * Events of the contracts and the types the clients have for them
    (frontend/src/events.ts, against contracts/governance/src/events.rs and
    contracts/token/src/events.rs)

    A contract publishes two topics, its tag and the event's, with a tuple of
    values or a single value. events.ts declares a type per event; the watcher of
    the notification service recognises five of them. *)
From Stdlib Require Import Ascii String ZArith Lia.
From stdpp Require Import prelude list strings.
From S2P Require Import Prelude JsString JsNumber Subscriptions Watcher Format.
Local Open Scope Z_scope.

(** ** What the contracts publish *)
Module ContractEvents.
Import Format.

Inductive Val :=
| VU64 (n : Z) | VI128 (n : Z) | VU32 (n : Z)
| VAddress (a : jstr) | VString (s : jstr) | VBytes (h : jstr)
| VVote (v : VoteType) | VState (st : ProposalState).

Inductive GovernanceEvents :=
| initialized (admin token : jstr)
| proposal_created (id : Z) (proposer title : jstr) (quorum end_time : Z)
| vote_cast (proposal_id : Z) (voter : jstr) (vote : VoteType) (weight : Z)
| proposal_finalized (proposal_id : Z) (state : ProposalState)
| proposal_executed (proposal_id : Z) (admin : jstr)
| proposal_cancelled (proposal_id : Z) (admin : jstr) (voter_count : Z)
| upgraded (new_wasm_hash : jstr)
| quorum_updated (proposal_id old_quorum new_quorum : Z)
| vote_retracted (proposal_id : Z) (voter : jstr) (weight : Z)
| vote_changed (proposal_id : Z) (voter : jstr) (old_vote new_vote : VoteType) (weight : Z)
| admin_transferred (old_admin new_admin : jstr)
| admin_transfer_proposed (current_admin pending_admin : jstr)
| admin_transfer_accepted (previous_admin new_admin : jstr)
| admin_transfer_cancelled (admin cancelled_pending : jstr)
| proposal_amended (proposal_id : Z) (proposer old_title new_title old_description new_description : jstr)
| paused (admin : jstr)
| unpaused (admin : jstr)
| voting_token_updated (old_token new_token : jstr)
| contract_upgraded (new_wasm_hash : jstr).

(** The event's tag and its values, in the order of the tuple. *)
Definition publish (e : GovernanceEvents) : jstr * list Val :=
  match e with
  | initialized a t => (js "init", [VAddress a; VAddress t])
  | proposal_created i p t q en =>
      (js "created", [VU64 i; VAddress p; VString t; VI128 q; VU64 en])
  | vote_cast i v vo w => (js "voted", [VU64 i; VAddress v; VVote vo; VI128 w])
  | proposal_finalized i st => (js "final", [VU64 i; VState st])
  | proposal_executed i a => (js "exec", [VU64 i; VAddress a])
  | proposal_cancelled i a n => (js "cancel", [VU64 i; VAddress a; VU32 n])
  | upgraded h => (js "upgraded", [VBytes h])
  | quorum_updated i o n => (js "quorum", [VU64 i; VI128 o; VI128 n])
  | vote_retracted i v w => (js "retract", [VU64 i; VAddress v; VI128 w])
  | vote_changed i v o n w => (js "chgvote", [VU64 i; VAddress v; VVote o; VVote n; VI128 w])
  | admin_transferred o n => (js "admin", [VAddress o; VAddress n])
  | admin_transfer_proposed c p => (js "propose", [VAddress c; VAddress p])
  | admin_transfer_accepted p n => (js "accept", [VAddress p; VAddress n])
  | admin_transfer_cancelled a c => (js "adm_cncl", [VAddress a; VAddress c])
  | proposal_amended i p ot nt od nd =>
      (js "amended", [VU64 i; VAddress p; VString ot; VString nt; VString od; VString nd])
  | paused a => (js "paused", [VAddress a])
  | unpaused a => (js "unpause", [VAddress a])
  | voting_token_updated o n => (js "token", [VAddress o; VAddress n])
  | contract_upgraded h => (js "upgrade", [VBytes h])
  end.

Inductive TokenEvents :=
| token_initialized (admin : jstr) (supply : Z)
| transfer (from to : jstr) (amount : Z)
| approval (owner spender : jstr) (amount : Z)
| minted (admin to : jstr) (amount : Z)
| burned (admin from : jstr) (amount : Z)
| token_admin_transferred (old new : jstr)
| token_admin_transfer_proposed (current pending : jstr)
| token_admin_transfer_accepted (previous new : jstr)
| delegated (owner delegate : jstr)
| undelegated (owner : jstr)
| token_unpaused (admin : jstr)
| token_paused (admin : jstr).

Definition token_publish (e : TokenEvents) : jstr * list Val :=
  match e with
  | token_initialized a s => (js "init", [VAddress a; VI128 s])
  | transfer f t n => (js "xfer", [VAddress f; VAddress t; VI128 n])
  | approval o s n => (js "approve", [VAddress o; VAddress s; VI128 n])
  | minted a t n => (js "mint", [VAddress a; VAddress t; VI128 n])
  | burned a f n => (js "burn", [VAddress a; VAddress f; VI128 n])
  | token_admin_transferred o n => (js "admin", [VAddress o; VAddress n])
  | token_admin_transfer_proposed c p => (js "propose", [VAddress c; VAddress p])
  | token_admin_transfer_accepted p n => (js "accept", [VAddress p; VAddress n])
  | delegated o d => (js "delegate", [VAddress o; VAddress d])
  | undelegated o => (js "undelegt", [VAddress o])
  | token_unpaused a => (js "unpause", [VAddress a])
  | token_paused a => (js "paused", [VAddress a])
  end.
End ContractEvents.

(** ** events.ts *)
Module Events.
Import Format ContractEvents.

(** [Extract<ProposalState, 'Passed' | 'Rejected'>] *)
Inductive FinalState := FPassed | FRejected.
Definition final_state (f : FinalState) : ProposalState :=
  match f with FPassed => Passed | FRejected => Rejected end.

Inductive GovernanceEvent :=
| GovInitializedEvent (admin token : jstr)
| GovProposalCreatedEvent (id : Z) (proposer title : jstr) (quorum end_time : Z)
| GovVoteCastEvent (proposal_id : Z) (voter : jstr) (vote : VoteType) (weight : Z)
| GovProposalFinalizedEvent (proposal_id : Z) (state : FinalState)
| GovProposalExecutedEvent (proposal_id : Z) (admin : jstr)
| GovProposalCancelledEvent (proposal_id : Z) (admin : jstr)
| GovQuorumUpdatedEvent (proposal_id old_quorum new_quorum : Z)
| GovAdminTransferInitiatedEvent (current_admin pending_admin : jstr)
| GovAdminTransferCompletedEvent (previous_admin new_admin : jstr)
| GovAdminTransferredEvent (old_admin new_admin : jstr)
| GovPausedEvent (admin : jstr)
| GovUnpausedEvent (admin : jstr).

(** The tag constants. *)
Definition GOV_TAGS : list (jstr * jstr) :=
  [(js "INITIALIZED", js "init"); (js "PROPOSAL_CREATED", js "created"); (js "VOTE_CAST", js "voted");
   (js "PROPOSAL_FINALIZED", js "final"); (js "PROPOSAL_EXECUTED", js "exec");
   (js "PROPOSAL_CANCELLED", js "cancel"); (js "QUORUM_UPDATED", js "quorum");
   (js "ADMIN_TRANSFER_INITIATED", js "admint"); (js "ADMIN_TRANSFER_COMPLETED", js "admina");
   (js "ADMIN_TRANSFERRED", js "admin"); (js "PAUSED", js "paused"); (js "UNPAUSED", js "unpause")].
Definition TOKEN_TAGS : list (jstr * jstr) :=
  [(js "INITIALIZED", js "init"); (js "TRANSFER", js "xfer"); (js "APPROVAL", js "approve");
   (js "MINTED", js "mint"); (js "BURNED", js "burn"); (js "ADMIN_TRANSFERRED", js "admin")].

(** [topics[1]] and the values of [data], in the order of its fields. *)
Definition typed (e : GovernanceEvent) : jstr * list Val :=
  match e with
  | GovInitializedEvent a t => (js "init", [VAddress a; VAddress t])
  | GovProposalCreatedEvent i p t q en =>
      (js "created", [VU64 i; VAddress p; VString t; VI128 q; VU64 en])
  | GovVoteCastEvent i v vo w => (js "voted", [VU64 i; VAddress v; VVote vo; VI128 w])
  | GovProposalFinalizedEvent i st => (js "final", [VU64 i; VState (final_state st)])
  | GovProposalExecutedEvent i a => (js "exec", [VU64 i; VAddress a])
  | GovProposalCancelledEvent i a => (js "cancel", [VU64 i; VAddress a])
  | GovQuorumUpdatedEvent i o n => (js "quorum", [VU64 i; VI128 o; VI128 n])
  | GovAdminTransferInitiatedEvent c p => (js "admint", [VAddress c; VAddress p])
  | GovAdminTransferCompletedEvent p n => (js "admina", [VAddress p; VAddress n])
  | GovAdminTransferredEvent o n => (js "admin", [VAddress o; VAddress n])
  | GovPausedEvent a => (js "paused", [VAddress a])
  | GovUnpausedEvent a => (js "unpause", [VAddress a])
  end.

Inductive TokenEvent :=
| TokenInitializedEvent (admin : jstr) (supply : Z)
| TokenTransferEvent (from to : jstr) (amount : Z)
| TokenApprovalEvent (owner spender : jstr) (amount : Z)
| TokenMintedEvent (admin to : jstr) (amount : Z)
| TokenBurnedEvent (admin from : jstr) (amount : Z)
| TokenAdminTransferredEvent (old_admin new_admin : jstr).

Definition token_typed (e : TokenEvent) : jstr * list Val :=
  match e with
  | TokenInitializedEvent a s => (js "init", [VAddress a; VI128 s])
  | TokenTransferEvent f t n => (js "xfer", [VAddress f; VAddress t; VI128 n])
  | TokenApprovalEvent o s n => (js "approve", [VAddress o; VAddress s; VI128 n])
  | TokenMintedEvent a t n => (js "mint", [VAddress a; VAddress t; VI128 n])
  | TokenBurnedEvent a f n => (js "burn", [VAddress a; VAddress f; VI128 n])
  | TokenAdminTransferredEvent o n => (js "admin", [VAddress o; VAddress n])
  end.

(** The contract events that a type of events.ts describes, field by field. *)
Definition described (e : GovernanceEvents) : bool :=
  match e with
  | initialized _ _ | proposal_created _ _ _ _ _ | vote_cast _ _ _ _ | proposal_executed _ _
  | quorum_updated _ _ _ | admin_transferred _ _ | paused _ | unpaused _ => true
  | proposal_finalized _ st => bool_decide (st = Passed ∨ st = Rejected)
  | _ => false
  end.
Definition token_described (e : TokenEvents) : bool :=
  match e with
  | token_initialized _ _ | transfer _ _ _ | approval _ _ _ | minted _ _ _ | burned _ _ _
  | token_admin_transferred _ _ => true
  | _ => false
  end.

(** The type a described event has. *)
Definition type_of (e : GovernanceEvents) : option GovernanceEvent :=
  match e with
  | initialized a t => Some (GovInitializedEvent a t)
  | proposal_created i p t q en => Some (GovProposalCreatedEvent i p t q en)
  | vote_cast i v vo w => Some (GovVoteCastEvent i v vo w)
  | proposal_finalized i Passed => Some (GovProposalFinalizedEvent i FPassed)
  | proposal_finalized i Rejected => Some (GovProposalFinalizedEvent i FRejected)
  | proposal_executed i a => Some (GovProposalExecutedEvent i a)
  | quorum_updated i o n => Some (GovQuorumUpdatedEvent i o n)
  | admin_transferred o n => Some (GovAdminTransferredEvent o n)
  | paused a => Some (GovPausedEvent a)
  | unpaused a => Some (GovUnpausedEvent a)
  | _ => None
  end.
Definition token_type_of (e : TokenEvents) : option TokenEvent :=
  match e with
  | token_initialized a s => Some (TokenInitializedEvent a s)
  | transfer f t n => Some (TokenTransferEvent f t n)
  | approval o s n => Some (TokenApprovalEvent o s n)
  | minted a t n => Some (TokenMintedEvent a t n)
  | burned a f n => Some (TokenBurnedEvent a f n)
  | token_admin_transferred o n => Some (TokenAdminTransferredEvent o n)
  | _ => None
  end.

(** ** Lemmas *)
Lemma type_of_described e :
  match type_of e with
  | Some f => described e = true ∧ typed f = publish e
  | None => described e = false
  end.
Proof. destruct e as [| | |i []| | | | | | | | | | | | | | |]; cbn [type_of]; done. Qed.

Lemma token_type_of_described e :
  match token_type_of e with
  | Some f => token_described e = true ∧ token_typed f = token_publish e
  | None => token_described e = false
  end.
Proof. destruct e; cbn [token_type_of]; done. Qed.

Lemma typed_described e f : typed f = publish e → described e = true.
Proof.
  destruct e as [| | |i []| | | | | | | | | | | | | | |], f as [| | |? []| | | | | | | |];
    intros H; try reflexivity; discriminate H.
Qed.

Lemma token_typed_described e f : token_typed f = token_publish e → token_described e = true.
Proof. destruct e, f; intros H; try reflexivity; discriminate H. Qed.

Lemma gov_tags_exact t : t ∈ GOV_TAGS.*2 ↔ ∃ f, (typed f).1 = t.
Proof.
  split; [|intros [[] <-]; apply (bool_decide_unpack _); reflexivity].
  intros Ht. cbn [fmap list_fmap GOV_TAGS TOKEN_TAGS snd] in Ht.
  repeat (apply elem_of_cons in Ht as [->|Ht]); [..|by apply elem_of_nil in Ht].
  - by exists (GovInitializedEvent [] []).
  - by exists (GovProposalCreatedEvent 0 [] [] 0 0).
  - by exists (GovVoteCastEvent 0 [] Yes 0).
  - by exists (GovProposalFinalizedEvent 0 FPassed).
  - by exists (GovProposalExecutedEvent 0 []).
  - by exists (GovProposalCancelledEvent 0 []).
  - by exists (GovQuorumUpdatedEvent 0 0 0).
  - by exists (GovAdminTransferInitiatedEvent [] []).
  - by exists (GovAdminTransferCompletedEvent [] []).
  - by exists (GovAdminTransferredEvent [] []).
  - by exists (GovPausedEvent []).
  - by exists (GovUnpausedEvent []).
Qed.

Lemma token_tags_exact t : t ∈ TOKEN_TAGS.*2 ↔ ∃ f, (token_typed f).1 = t.
Proof.
  split; [|intros [[] <-]; apply (bool_decide_unpack _); reflexivity].
  intros Ht. cbn [fmap list_fmap GOV_TAGS TOKEN_TAGS snd] in Ht.
  repeat (apply elem_of_cons in Ht as [->|Ht]); [..|by apply elem_of_nil in Ht].
  - by exists (TokenInitializedEvent [] 0).
  - by exists (TokenTransferEvent [] [] 0).
  - by exists (TokenApprovalEvent [] [] 0).
  - by exists (TokenMintedEvent [] [] 0).
  - by exists (TokenBurnedEvent [] [] 0).
  - by exists (TokenAdminTransferredEvent [] []).
Qed.

(** ** The watcher's view: the record Horizon returns for a published event *)
Definition val_text (v : Val) : jstr :=
  match v with
  | VU64 n | VI128 n | VU32 n => dec_of n
  | VAddress s | VString s | VBytes s => s
  | VVote Yes => js "Yes" | VVote No => js "No" | VVote Abstain => js "Abstain"
  | VState st => state_name st
  end.
Definition record_of (rec_id closed_at : jstr) (e : GovernanceEvents)
    : Subscriptions.HorizonRecord := {|
  Subscriptions.rec_id := rec_id;
  Subscriptions.topic := Some [Some (js "gov"); Some (publish e).1];
  Subscriptions.value_tuple := Some ((λ v, Some (val_text v)) <$> (publish e).2);
  Subscriptions.ledger_closed_at := Some closed_at |}.

(** The five events of a proposal's life, with the proposal's identifier. *)
Definition lifecycle (e : GovernanceEvents) : option (Subscriptions.GovernanceEventType * Z) :=
  match e with
  | proposal_created i _ _ _ _ => Some (Subscriptions.created, i)
  | vote_cast i _ _ _ => Some (Subscriptions.voted, i)
  | proposal_finalized i _ => Some (Subscriptions.final, i)
  | proposal_executed i _ => Some (Subscriptions.exec, i)
  | proposal_cancelled i _ _ => Some (Subscriptions.cancel, i)
  | _ => None
  end.

(** ** Properties *)

(** The types of events.ts and the contracts: a governance event has a type
    with its topics and its values, field by field, exactly when it is one of
    nine; the cancellation has a third value, the number of voters, that its type
    leaves out, and the nine other events have no type. No event is published
    with the topics of the two administrator-transfer types. Six of the twelve
    token events have a type, exactly. The tag constants list exactly the tags of
    the types. *)
Theorem event_types_match_contracts :
  (∀ e, (∃ f, typed f = publish e) ↔ described e = true) ∧
  (∀ i a n f, typed f ≠ publish (proposal_cancelled i a n)) ∧
  (∀ c p e, (publish e).1 ≠ (typed (GovAdminTransferInitiatedEvent c p)).1 ∧
            (publish e).1 ≠ (typed (GovAdminTransferCompletedEvent c p)).1) ∧
  (∀ e, (∃ f, token_typed f = token_publish e) ↔ token_described e = true) ∧
  (∀ t, t ∈ GOV_TAGS.*2 ↔ ∃ f, (typed f).1 = t) ∧
  (∀ t, t ∈ TOKEN_TAGS.*2 ↔ ∃ f, (token_typed f).1 = t).
Proof.
  split_and!; [| | | |exact gov_tags_exact|exact token_tags_exact].
  - intros e. split; [intros [f Hf]; by eapply typed_described|]. intros He.
    pose proof (type_of_described e) as Ht. destruct (type_of e) as [f|]; [|congruence].
    exists f. apply Ht.
  - intros i a n f Hf. by apply typed_described in Hf.
  - intros c p e. by destruct e.
  - intros e. split; [intros [f Hf]; by eapply token_typed_described|]. intros He.
    pose proof (token_type_of_described e) as Ht. destruct (token_type_of e) as [f|]; [|congruence].
    exists f. apply Ht.
Qed.

(** Every lifecycle event of a proposal that the governance contract
    publishes is recognised by the watcher, with its tag as the type and the
    proposal's identifier in decimal; every other event is skipped. *)
Theorem watcher_recognises_lifecycle (rec_id closed_at : jstr) (e : GovernanceEvents) :
  (λ ev, (Subscriptions.ev_type ev, Subscriptions.ev_proposalId ev)) <$>
    Watcher.parseEvent (record_of rec_id closed_at e) =
  (λ l, (Subscriptions.event_tag l.1, Some (dec_of l.2))) <$> lifecycle e.
Proof. by destruct e as [| | |i []| | | | | | | | | | | | | | |]. Qed.
End Events.
