(* ===== verification/Monitor.v ===== *)
(** * The anomaly monitor (scripts/monitor.js)

    A process that asks the Soroban RPC server for the events of two contracts,
    applies a table of rules to each batch and logs lines of JSON. A poll is a
    function of the two answers; the answers of the server, the clock and the
    engine's error texts are arguments. What a line holds besides its time stamp
    is an [Entry]. *)
From Stdlib Require Import Ascii String ZArith Lia.
From stdpp Require Import prelude list strings.
From S2P Require Import Prelude JsString JsNumber Utf8 Json JsonValue Format Events.
Local Open Scope Z_scope.

Module Monitor.
Import Json JsonValue.

(** ** CONFIG *)
Record Thresholds := {
  largeTransferAmount : Z;
  rapidVoteBurst : jsnum;
  adminChangeCount : jsnum }.
Record Config := {
  rpcUrl : jstr;
  governanceContractId : jstr;
  tokenContractId : jstr;
  pollIntervalMs : jsnum;
  thresholds : Thresholds }.

(** [process.env.X || fallback] *)
Definition env_or (env : jstr → option jstr) (name fallback : jstr) : jstr :=
  match env name with Some ((_ :: _) as v) => v | _ => fallback end.
(** [None]: BigInt throws and the process does not start. *)
Definition config_of (env : jstr → option jstr) : option Config :=
  large ← BigInt_of_string (env_or env (js "LARGE_TRANSFER_THRESHOLD") (js "1000000000000"));
  Some {|
    rpcUrl := env_or env (js "STELLAR_RPC_URL") (js "https://soroban-testnet.stellar.org");
    governanceContractId := env_or env (js "GOVERNANCE_CONTRACT_ID") [];
    tokenContractId := env_or env (js "TOKEN_CONTRACT_ID") [];
    pollIntervalMs := parseInt (env_or env (js "POLL_INTERVAL_MS") (js "30000"));
    thresholds := {|
      largeTransferAmount := large;
      rapidVoteBurst := parseInt (env_or env (js "RAPID_VOTE_BURST") (js "50"));
      adminChangeCount := parseInt (env_or env (js "ADMIN_CHANGE_COUNT") (js "2")) |} |}.

(** ** Logging *)
Inductive Level := ALERT | INFO | ERROR.
Global Instance Level_eq_dec : EqDecision Level.
Proof. solve_decision. Defined.
Definition level_text (l : Level) : jstr :=
  match l with ALERT => js "ALERT" | INFO => js "INFO" | ERROR => js "ERROR" end.

(** A call of [log]: the members of [details], [None] for undefined. *)
Record Entry := { level : Level; event : jstr; details : list (jstr * option json) }.
Definition defined (l : list (jstr * option json)) : list (jstr * json) :=
  omap (λ kv, pair kv.1 <$> kv.2) l.
(** The line printed at the time [now]. *)
Definition log (now : jstr) (e : Entry) : jstr :=
  Json.stringify 0 (JObj ((js "timestamp", JStr now) :: (js "level", JStr (level_text (level e)))
    :: (js "event", JStr (event e)) :: defined (details e))).
Definition alert (name : jstr) (d : list (jstr * option json)) : Entry :=
  {| level := ALERT; event := name; details := d |}.
Definition info (name : jstr) (d : list (jstr * option json)) : Entry :=
  {| level := INFO; event := name; details := d |}.

(** ** Rules *)
Record Event := {
  ev_type : option json;
  contractId : option json;
  topics : list json;
  ev_value : option json }.

(** What the engine throws. *)
Inductive EngineError :=
| JsonSyntax (body : jstr)        (* res.json() *)
| NotAFunction (v : json)         (* v.map where v is not an array *)
| NullProperty                    (* a member of null *)
| NotABigInt (v : json).          (* BigInt(v) *)

Definition has_topic (t : jstr) (ev : Event) : bool := existsb (is_text t) (topics ev).
Definition member_of (ev : Event) (k : jstr) : option json := opt_prop k (ev_value ev).

(** The counters of [detectAnomalies]. *)
Record Window := { adminChanges : Z; voteCount : Z }.
(** [count >= threshold] *)
Definition reaches (count : Z) (threshold : jsnum) : bool := num_le threshold (num_of_Z count).

Definition is_admin_change (ev : Event) : bool :=
  has_topic (js "set_admin") ev || has_topic (js "update_config") ev.
Definition suspicious_changes (ev : Event) (n : Z) : Entry :=
  alert (js "SUSPICIOUS_ADMIN_CHANGES")
    [(js "contractId", contractId ev); (js "count", Some (JNum (num_of_Z n)));
     (js "topics", Some (JArr (topics ev)));
     (js "message", Some (JStr (dec_of n ++ js " admin-change events detected in a single window")))].
Definition admin_rule (cfg : Thresholds) (ev : Event) (n : Z) : Z * list Entry :=
  if is_admin_change ev then
    (n + 1,
     info (js "admin_change_detected")
       [(js "contractId", contractId ev); (js "topics", Some (JArr (topics ev)))]
     :: (if reaches (n + 1) (adminChangeCount cfg) then [suspicious_changes ev (n + 1)] else []))
  else (n, []).

Definition large_transfer (cfg : Thresholds) (ev : Event) (amount : Z) : Entry :=
  alert (js "LARGE_TOKEN_TRANSFER")
    [(js "contractId", contractId ev); (js "from", member_of ev (js "from"));
     (js "to", member_of ev (js "to")); (js "amount", Some (JStr (dec_of amount)));
     (js "threshold", Some (JStr (dec_of (largeTransferAmount cfg))))].
Definition transfer_rule (cfg : Thresholds) (ev : Event) : res EngineError (list Entry) :=
  match member_of ev (js "amount") with
  | Some v =>
      if has_topic (js "transfer") ev then
        match to_bigint v with
        | Some amount =>
            Ok (if largeTransferAmount cfg <=? amount then [large_transfer cfg ev amount] else [])
        | None => Err (NotABigInt v)
        end
      else Ok []
  | None => Ok []
  end.

Definition vote_rule (ev : Event) (n : Z) : Z := if has_topic (js "vote_cast") ev then n + 1 else n.

Definition cancelled (ev : Event) : Entry :=
  alert (js "PROPOSAL_CANCELLED")
    [(js "contractId", contractId ev); (js "proposalId", member_of ev (js "proposal_id"));
     (js "cancelledBy", member_of ev (js "admin"))].
Definition cancel_rule (ev : Event) : list Entry :=
  if has_topic (js "proposal_cancelled") ev then [cancelled ev] else [].
Definition contract_paused (ev : Event) : Entry :=
  alert (js "CONTRACT_PAUSED")
    [(js "contractId", contractId ev); (js "pausedBy", member_of ev (js "admin"));
     (js "message", Some (JStr (js "Governance contract has been paused")))].
Definition pause_rule (ev : Event) : list Entry :=
  if has_topic (js "contract_paused") ev then [contract_paused ev] else [].
Definition minted (ev : Event) : Entry :=
  alert (js "TOKEN_MINTED")
    [(js "contractId", contractId ev); (js "to", member_of ev (js "to"));
     (js "amount", member_of ev (js "amount"));
     (js "message", Some (JStr (js "Token mint event detected — verify this is authorised")))].
Definition mint_rule (ev : Event) : list Entry := if has_topic (js "mint") ev then [minted ev] else [].

(** The body of the loop: a conversion that throws ends it. *)
Definition check_event (cfg : Thresholds) (ev : Event) (w : Window)
    : list Entry * res EngineError Window :=
  let '(n, out) := admin_rule cfg ev (adminChanges w) in
  match transfer_rule cfg ev with
  | Err e => (out, Err e)
  | Ok large =>
      (out ++ large ++ cancel_rule ev ++ pause_rule ev ++ mint_rule ev,
       Ok {| adminChanges := n; voteCount := vote_rule ev (voteCount w) |})
  end.
Fixpoint check_events (cfg : Thresholds) (evs : list Event) (w : Window)
    : list Entry * res EngineError Window :=
  match evs with
  | [] => ([], Ok w)
  | ev :: rest =>
      match check_event cfg ev w with
      | (out, Ok w') => let '(out', r) := check_events cfg rest w' in (out ++ out', r)
      | (out, Err e) => (out, Err e)
      end
  end.

Definition burst_rule (cfg : Thresholds) (votes : Z) : list Entry :=
  if reaches votes (rapidVoteBurst cfg) then
    [alert (js "RAPID_VOTE_BURST")
       [(js "count", Some (JNum (num_of_Z votes))); (js "threshold", Some (JNum (rapidVoteBurst cfg)));
        (js "message", Some (JStr (dec_of votes ++ js " vote_cast events in a single poll window")))]]
  else [].

Definition detectAnomalies (cfg : Thresholds) (evs : list Event) : list Entry * res EngineError () :=
  match check_events cfg evs {| adminChanges := 0; voteCount := 0 |} with
  | (out, Ok w) => (out ++ burst_rule cfg (voteCount w), Ok ())
  | (out, Err e) => (out, Err e)
  end.

(** ** fetchEvents *)
Inductive Answer :=
| Responded (status : Z) (statusText body : jstr)
| Unreachable (message : jstr).          (* fetch rejects *)
Inductive Failure :=
| Rpc (status : Z) (statusText : jstr)
| Network (message : jstr)
| Engine (e : EngineError).

(** The body of the request; none is sent without a contract. *)
Definition request (contract : jstr) (cursor : option json) : option jstr :=
  if bool_decide (contract = []) then None
  else Some (Json.stringify 0 (JObj
    [(js "jsonrpc", JStr (js "2.0")); (js "id", JNum (num_of_Z 1)); (js "method", JStr (js "getEvents"));
     (js "params", JObj (
        (match cursor with
         | Some c => if truthy_value cursor then [(js "startLedger", c)] else []
         | None => [] end) ++
        [(js "filters", JArr [JObj [(js "type", JStr (js "contract"));
            (js "contractIds", JArr [JStr contract])]]);
         (js "pagination", JObj [(js "limit", JNum (num_of_Z 200))])]))])).

(** [t?.sym ?? t] *)
Definition topic_of (t : json) : json := default t (coalesce (prop (js "sym") t) (Some t)).
Definition normalise (e : json) : res EngineError Event :=
  match e with
  | JNull => Err NullProperty
  | _ =>
      ts ← match prop (js "topic") e with
           | None | Some JNull => Ok []
           | Some (JArr l) => Ok (List.map topic_of l)
           | Some v => Err (NotAFunction v)
           end;
      Ok {| ev_type := prop (js "type") e; contractId := prop (js "contractId") e; topics := ts;
            ev_value := prop (js "value") e |}
  end.
Fixpoint normalise_all (l : list json) : res EngineError (list Event) :=
  match l with
  | [] => Ok []
  | e :: r => ev ← normalise e; evs ← normalise_all r; Ok (ev :: evs)
  end.

(** The answer read: the events and the cursor for the next request. *)
Definition read_body (cursor : option json) (body : jstr) : res EngineError (list Event * option json) :=
  v ← ok_or (Json.parse body) (JsonSyntax body);
  let result := prop (js "result") v in
  evs ← match coalesce (opt_prop (js "events") result) (Some (JArr [])) with
        | Some (JArr l) => normalise_all l
        | Some w => Err (NotAFunction w)
        | None => Ok []
        end;
  Ok (evs, coalesce (opt_prop (js "cursor") result) cursor).

Definition fetchEvents (contract : jstr) (cursor : option json) (answer : Answer)
    : res Failure (list Event * option json) :=
  if bool_decide (contract = []) then Ok ([], cursor)
  else match answer with
       | Unreachable m => Err (Network m)
       | Responded status st body =>
           if (200 <=? status) && (status <? 300)
           then match read_body cursor body with Ok r => Ok r | Err e => Err (Engine e) end
           else Err (Rpc status st)
       end.

(** ** The loop of [main] *)
Section main.
  Variable cfg : Config.
  (** The engine's texts. *)
  Variable engine_message : EngineError → jstr.

Definition message (f : Failure) : jstr :=
  match f with
  | Rpc status st => js "RPC error: " ++ dec_of status ++ [32] ++ st
  | Network m => m
  | Engine e => engine_message e
  end.
Definition poll_failed (m : jstr) : Entry :=
  {| level := ERROR; event := js "poll_failed"; details := [(js "message", Some (JStr m))] |}.

Definition monitor_started : Entry :=
  let t := thresholds cfg in
  info (js "monitor_started")
    [(js "rpcUrl", Some (JStr (rpcUrl cfg)));
     (js "governanceContractId", Some (JStr (governanceContractId cfg)));
     (js "tokenContractId", Some (JStr (tokenContractId cfg)));
     (js "pollIntervalMs", Some (JNum (pollIntervalMs cfg)));
     (js "thresholds", Some (JObj
        [(js "largeTransferAmount", JStr (dec_of (largeTransferAmount t)));
         (js "rapidVoteBurst", JNum (rapidVoteBurst t)); (js "adminChangeCount", JNum (adminChangeCount t))]))].

Record Cursors := { govCursor : option json; tokenCursor : option json }.
Definition started : Cursors := {| govCursor := None; tokenCursor := None |}.

(** [Promise.all]: both results, or the error of the request that failed first. *)
Definition both {A} (token_first : bool) (g t : res Failure A) : res Failure (A * A) :=
  match g, t with
  | Ok a, Ok b => Ok (a, b)
  | Err e, Ok _ => Err e
  | Ok _, Err e => Err e
  | Err e, Err e' => Err (if token_first then e' else e)
  end.

(** One turn of the loop, then the process waits [pollIntervalMs]. *)
Definition poll (gov token : Answer) (token_first : bool) (s : Cursors) : Cursors * list Entry :=
  match both token_first (fetchEvents (governanceContractId cfg) (govCursor s) gov)
                         (fetchEvents (tokenContractId cfg) (tokenCursor s) token) with
  | Err f => (s, [poll_failed (message f)])
  | Ok ((ge, gc), (te, tc)) =>
      let s' := {| govCursor := gc; tokenCursor := tc |} in
      let all := ge ++ te in
      match all with
      | [] => (s', [])
      | _ =>
          let '(out, r) := detectAnomalies (thresholds cfg) all in
          (s', info (js "events_fetched") [(js "count", Some (JNum (num_of_Z (Z.of_nat (length all)))))] :: out
               ++ match r with Ok _ => [] | Err e => [poll_failed (engine_message e)] end)
      end
  end.

(** The first [n] turns against a server that answers a request with [rpc]. *)
Section server.
  Variables (rpc : nat → jstr → Answer) (token_first : nat → bool).
Definition answer_to (n : nat) (contract : jstr) (cursor : option json) : Answer :=
  match request contract cursor with Some body => rpc n body | None => Unreachable [] end.
Fixpoint run_monitor (n : nat) (s : Cursors) : Cursors * list Entry :=
  match n with
  | O => (s, [])
  | S k =>
      let '(s1, out) := poll (answer_to n (governanceContractId cfg) (govCursor s))
                             (answer_to n (tokenContractId cfg) (tokenCursor s)) (token_first k) s in
      let '(s2, out') := run_monitor k s1 in (s2, out ++ out')
  end.
Definition main (n : nat) : list Entry := monitor_started :: (run_monitor n started).2.
End server.
End main.

(** A batch with a voting event, a large transfer and a mint, as JSON. *)
Definition sample_body : jstr :=
  Json.stringify 0 (JObj [(js "result", JObj
    [(js "events", JArr
       [JObj [(js "topic", JArr [JObj [(js "sym", JStr (js "vote_cast"))]])];
        JObj [(js "contractId", JStr (js "CT")); (js "topic", JArr [JStr (js "transfer")]);
              (js "value", JObj [(js "from", JStr (js "GA")); (js "amount", JStr (js "0x2000000000000"))])];
        JObj [(js "topic", JNull)]]);
     (js "cursor", JNum (num_of_Z 7))])]).
Definition sample_config : Config := {|
  rpcUrl := js "https://rpc"; governanceContractId := js "CG"; tokenContractId := [];
  pollIntervalMs := num_of_Z 30000;
  thresholds := {| largeTransferAmount := 1000000000000; rapidVoteBurst := num_of_Z 50;
                   adminChangeCount := num_of_Z 2 |} |}.
Example poll_ex :
  let '(s, out) := poll sample_config (λ _, []) (Responded 200 (js "OK") sample_body) (Unreachable []) false started in
  s = {| govCursor := Some (JNum (num_of_Z 7)); tokenCursor := None |} ∧ event <$> out =
    [js "events_fetched"; js "LARGE_TOKEN_TRANSFER"] ∧
  request (js "CG") (govCursor s) ≠ request (js "CG") None.
Proof. vm_compute. done. Qed.
Example config_ex : thresholds <$> config_of (λ _, None) = Some (thresholds sample_config).
Proof. vm_compute. reflexivity. Qed.

(** ** Lemmas *)
Definition named (name : jstr) (out : list Entry) : list Entry := filter (λ e, event e = name) out.

Lemma named_app name a b : named name (a ++ b) = named name a ++ named name b.
Proof. apply filter_app. Qed.
(** Entries that all have one name are kept or dropped together. *)
Lemma named_same name l : Forall (λ e, event e = name) l → named name l = l.
Proof. apply filter_all. Qed.
Lemma named_other name name' l :
  Forall (λ e, event e = name') l → bool_decide (name ≠ name') = true → named name l = [].
Proof.
  intros Hl Hn%bool_decide_eq_true. apply filter_none. eapply Forall_impl; [exact Hl|].
  intros e He Heq. congruence.
Qed.

Definition admin_infos (ev : Event) : list Entry :=
  if is_admin_change ev
  then [info (js "admin_change_detected") [(js "contractId", contractId ev); (js "topics", Some (JArr (topics ev)))]]
  else [].
Definition admin_alerts (cfg : Thresholds) (ev : Event) (n : Z) : list Entry :=
  if is_admin_change ev && reaches (n + 1) (adminChangeCount cfg) then [suspicious_changes ev (n + 1)] else [].
Lemma admin_rule_eq cfg ev n :
  admin_rule cfg ev n =
    (n + (if is_admin_change ev then 1 else 0), admin_infos ev ++ admin_alerts cfg ev n).
Proof.
  unfold admin_rule, admin_infos, admin_alerts. destruct (is_admin_change ev); [|by rewrite Z.add_0_r].
  cbn [andb]. by destruct (reaches _ _).
Qed.
Lemma admin_infos_names ev : Forall (λ e, event e = js "admin_change_detected") (admin_infos ev).
Proof. unfold admin_infos. destruct (is_admin_change ev); repeat constructor. Qed.
Lemma admin_alerts_names cfg ev n : Forall (λ e, event e = js "SUSPICIOUS_ADMIN_CHANGES") (admin_alerts cfg ev n).
Proof. unfold admin_alerts. destruct (_ && _); repeat constructor. Qed.

Lemma transfer_rule_names cfg ev l :
  transfer_rule cfg ev = Ok l → Forall (λ e, event e = js "LARGE_TOKEN_TRANSFER") l.
Proof.
  unfold transfer_rule. intros H. repeat case_match; simplify_eq; repeat constructor.
Qed.
Lemma cancel_rule_names ev : Forall (λ e, event e = js "PROPOSAL_CANCELLED") (cancel_rule ev).
Proof. unfold cancel_rule. destruct (has_topic _ _); repeat constructor. Qed.
Lemma pause_rule_names ev : Forall (λ e, event e = js "CONTRACT_PAUSED") (pause_rule ev).
Proof. unfold pause_rule. destruct (has_topic _ _); repeat constructor. Qed.
Lemma mint_rule_names ev : Forall (λ e, event e = js "TOKEN_MINTED") (mint_rule ev).
Proof. unfold mint_rule. destruct (has_topic _ _); repeat constructor. Qed.
Lemma burst_rule_names cfg n : Forall (λ e, event e = js "RAPID_VOTE_BURST") (burst_rule cfg n).
Proof. unfold burst_rule. destruct (reaches _ _); repeat constructor. Qed.

(** The large transfers of a batch, and the batches whose amounts can be read. *)
Definition large_of (cfg : Thresholds) (ev : Event) : list Entry :=
  match transfer_rule cfg ev with Ok l => l | Err _ => [] end.
Definition readable (cfg : Thresholds) (ev : Event) : bool := is_ok (transfer_rule cfg ev).
Definition count_events (p : Event → bool) (evs : list Event) : Z :=
  Z.of_nat (length (List.filter p evs)).

Lemma check_event_readable cfg ev w :
  readable cfg ev = true →
  check_event cfg ev w =
    ((admin_rule cfg ev (adminChanges w)).2 ++ large_of cfg ev ++ cancel_rule ev ++ pause_rule ev ++ mint_rule ev,
     Ok {| adminChanges := (admin_rule cfg ev (adminChanges w)).1; voteCount := vote_rule ev (voteCount w) |}).
Proof.
  unfold readable, check_event, large_of. destruct (admin_rule _ _ _). by destruct (transfer_rule cfg ev).
Qed.

(** What a batch without an unreadable amount gives, from any window. *)
Lemma check_events_readable cfg evs w :
  forallb (readable cfg) evs = true →
  ∃ out, check_events cfg evs w = (out, Ok
    {| adminChanges := adminChanges w + count_events is_admin_change evs;
       voteCount := voteCount w + count_events (has_topic (js "vote_cast")) evs |}) ∧
  named (js "LARGE_TOKEN_TRANSFER") out = List.concat (List.map (large_of cfg) evs) ∧
  named (js "PROPOSAL_CANCELLED") out = List.concat (List.map cancel_rule evs) ∧
  named (js "CONTRACT_PAUSED") out = List.concat (List.map pause_rule evs) ∧
  named (js "TOKEN_MINTED") out = List.concat (List.map mint_rule evs) ∧
  named (js "RAPID_VOTE_BURST") out = [] ∧
  Z.of_nat (length (named (js "admin_change_detected") out)) = count_events is_admin_change evs ∧
  ∀ c, adminChangeCount cfg = num_of_Z c →
    Z.of_nat (length (named (js "SUSPICIOUS_ADMIN_CHANGES") out)) =
      Z.max 0 (adminChanges w + count_events is_admin_change evs - Z.max (adminChanges w) (c - 1)).
Proof.
  revert w. induction evs as [|ev evs IH]; intros w Hr.
  { exists []. split_and!; try done.
    - cbn [check_events count_events List.filter length]. rewrite !Z.add_0_r. by destruct w.
    - intros c _. unfold count_events. cbn [List.filter length named]. rewrite Z.add_0_r.
      change (Z.of_nat (length (named (js "SUSPICIOUS_ADMIN_CHANGES") []))) with 0. lia. }
  cbn [forallb] in Hr. apply andb_true_iff in Hr as [Hr Hrs]. cbn [check_events].
  rewrite check_event_readable by done. rewrite admin_rule_eq. cbn [fst snd].
  set (w1 := {| adminChanges := _; voteCount := _ |}).
  destruct (IH w1 Hrs) as (out & -> & Hl & Hc & Hp & Hm & Hb & Hadm & Hsus). clear IH.
  assert (Forall (λ e, event e = js "LARGE_TOKEN_TRANSFER") (large_of cfg ev)) as HL.
  { unfold large_of. destruct (transfer_rule cfg ev) eqn:Ht; [by eapply transfer_rule_names|constructor]. }
  pose proof (cancel_rule_names ev) as HC. pose proof (pause_rule_names ev) as HP.
  pose proof (mint_rule_names ev) as HM. pose proof (admin_infos_names ev) as HI.
  pose proof (admin_alerts_names cfg ev (adminChanges w)) as HA.
  eexists. split; [reflexivity || (f_equal; f_equal)|].
  { unfold w1. cbn [adminChanges voteCount]. unfold vote_rule, count_events. cbn [List.filter].
    f_equal; destruct (is_admin_change ev), (has_topic (js "vote_cast") ev); cbn [length]; lia. }
  cbn [List.map List.concat]. rewrite !named_app.
  rewrite Hl, Hc, Hp, Hm, Hb. split_and!; [..|intros c Hcc].
  all: rewrite ?(named_same _ _ HL), ?(named_same _ _ HC), ?(named_same _ _ HP), ?(named_same _ _ HM),
    ?(named_same _ _ HI), ?(named_same _ _ HA);
    repeat match goal with
    | HL : Forall (λ e, event e = ?n') ?l |- context [named ?n ?l] =>
        rewrite (named_other n n' l HL) by (vm_compute; reflexivity)
    end; rewrite ?app_nil_r; try reflexivity.
  - rewrite length_app, Nat2Z.inj_add. cbn [app]. rewrite Hadm. unfold admin_infos, count_events.
    cbn [List.filter]. destruct (is_admin_change ev); cbn [length]; lia.
  - rewrite length_app, Nat2Z.inj_add. cbn [app]. rewrite (Hsus c Hcc). unfold w1, admin_alerts. cbn [adminChanges].
    unfold count_events, reaches. cbn [List.filter]. rewrite Hcc, num_le_of_Z.
    destruct (is_admin_change ev), (Z.leb_spec c (adminChanges w + 1)); cbn [andb length]; lia.
Qed.

(** An event of one of the contracts, with its two topics. *)
Definition ContractEvent : Type := ContractEvents.GovernanceEvents + ContractEvents.TokenEvents.
Definition published (e : ContractEvent) : jstr * jstr :=
  match e with
  | inl g => (js "gov", (ContractEvents.publish g).1)
  | inr t => (js "token", (ContractEvents.token_publish t).1)
  end.
Definition is_minted (e : ContractEvent) : bool :=
  match e with inr (ContractEvents.minted _ _ _) => true | _ => false end.

(** The event as an item of the answer to getEvents: [topic] gives the JSON of a
    topic; the address and the value are the server's. *)
Definition delivered (topic : jstr → json) (address value : ContractEvent → json) (e : ContractEvent) : json :=
  JObj [(js "type", JStr (js "contract")); (js "contractId", address e);
        (js "topic", JArr [topic (published e).1; topic (published e).2]); (js "value", value e)].
(** The documented form of a topic is the base64 text of its XDR. The XDR of any value
    begins with its type, a number below 256 in four bytes, so the text begins with
    AAAA. *)
Definition xdr_topic (base64_xdr : jstr → jstr) (s : jstr) : json := JStr (base64_xdr s).
Definition xdr_texts (base64_xdr : jstr → jstr) : Prop :=
  ∀ s, startsWith (base64_xdr s) (js "AAAA") = true.
(** The form [normalise] looks for: an object with a member [sym]. *)
Definition symbol (s : jstr) : json := JObj [(js "sym", JStr s)].

(** What the monitor makes of it, with [f] for the text of a topic. *)
Definition event_of (f : jstr → jstr) (address value : ContractEvent → json) (e : ContractEvent) : Event :=
  {| ev_type := Some (JStr (js "contract")); contractId := Some (address e);
     topics := [JStr (f (published e).1); JStr (f (published e).2)]; ev_value := Some (value e) |}.

Lemma assoc_here {A} (k : jstr) (v : A) l : assoc k ((k, v) :: l) = Some v.
Proof. cbn [assoc]. by rewrite decide_True. Qed.
Lemma assoc_next {A} (k k' : jstr) (v : A) l : bool_decide (k ≠ k') = true → assoc k ((k', v) :: l) = assoc k l.
Proof. intros H%bool_decide_eq_true. cbn [assoc]. by rewrite decide_False. Qed.
Ltac members :=
  cbn [prop opt_prop mbind option_bind];
  repeat first [ rewrite assoc_here | rewrite assoc_next by (vm_compute; reflexivity) ].

Lemma topic_of_symbol s : topic_of (symbol s) = JStr s.
Proof. unfold topic_of, symbol. members. done. Qed.
Lemma normalise_delivered topic f address value e :
  (∀ s, topic_of (topic s) = JStr (f s)) →
  normalise (delivered topic address value e) = Ok (event_of f address value e).
Proof.
  intros Hf. unfold normalise, delivered. members. cbn [List.map mbind res_bind].
  by rewrite !Hf.
Qed.
Lemma normalise_all_delivered topic f address value l :
  (∀ s, topic_of (topic s) = JStr (f s)) →
  normalise_all (delivered topic address value <$> l) = Ok (event_of f address value <$> l).
Proof.
  intros Hf. induction l as [|e l IH]; [done|]. change (delivered topic address value <$> e :: l)
    with (delivered topic address value e :: (delivered topic address value <$> l)).
  cbn [normalise_all]. rewrite (normalise_delivered _ _ _ _ _ Hf). cbn [mbind res_bind]. by rewrite IH.
Qed.

Lemma has_topic_published t f address value e :
  has_topic t (event_of f address value e) =
    bool_decide (f (published e).1 = t) || bool_decide (f (published e).2 = t).
Proof. unfold has_topic, event_of. cbn [topics existsb is_text]. by rewrite orb_false_r. Qed.

(** The topics of the rules, but for mints. *)
Definition rule_topics : list jstr :=
  [js "set_admin"; js "update_config"; js "transfer"; js "vote_cast"; js "proposal_cancelled"; js "contract_paused"].

(** An event without these topics moves no counter, and alerts only for a mint. *)
Lemma check_unseen cfg ev w :
  forallb (λ t, negb (has_topic t ev)) rule_topics = true →
  check_event cfg ev w = (mint_rule ev, Ok w).
Proof.
  intros Ht. unfold rule_topics in Ht. cbn [forallb] in Ht.
  rewrite !andb_true_iff, !negb_true_iff in Ht. destruct Ht as (H1 & H2 & H3 & H4 & H5 & H6 & _).
  unfold check_event, admin_rule, is_admin_change, transfer_rule, cancel_rule, pause_rule, vote_rule.
  rewrite H1, H2, H3, H4, H5, H6. cbn [orb]. destruct w. by destruct (member_of _ _).
Qed.
Lemma check_all_unseen cfg evs w :
  Forall (λ ev, forallb (λ t, negb (has_topic t ev)) rule_topics = true) evs →
  check_events cfg evs w = (mjoin (mint_rule <$> evs), Ok w).
Proof.
  intros H. induction H as [|ev evs Hev _ IH]; [done|]. cbn [check_events].
  by rewrite (check_unseen cfg ev w Hev), IH.
Qed.

(** Decoded tags against the topics of the rules. *)
Lemma published_topics address value e :
  forallb (λ t, negb (has_topic t (event_of id address value e))) rule_topics = true ∧
  has_topic (js "mint") (event_of id address value e) = is_minted e.
Proof.
  assert (forallb (λ t, negb (bool_decide ((published e).1 = t) || bool_decide ((published e).2 = t))) rule_topics = true ∧
    bool_decide ((published e).1 = js "mint") || bool_decide ((published e).2 = js "mint") = is_minted e) as [H1 H2]
    by (destruct e as [[]|[]]; split; vm_compute; reflexivity).
  unfold rule_topics in *. cbn [forallb] in *. by rewrite !has_topic_published.
Qed.

(** Texts of XDR against the topics of the rules. *)
Lemma xdr_unseen b address value e t :
  xdr_texts b → startsWith t (js "AAAA") = false → has_topic t (event_of b address value e) = false.
Proof.
  intros Hb Ht. rewrite has_topic_published. apply orb_false_iff.
  split; apply bool_decide_eq_false; intros <-; by rewrite Hb in Ht.
Qed.
Lemma xdr_no_mint b address value l :
  xdr_texts b → mjoin (mint_rule <$> (event_of b address value <$> l)) = [].
Proof.
  intros Hb. induction l as [|e l IH]; [done|]. rewrite !fmap_cons.
  change (mjoin (?x :: ?l)) with (x ++ mjoin l). rewrite IH. unfold mint_rule. by rewrite xdr_unseen.
Qed.

(** The transfers of a batch with their amounts. *)
Definition transfer_amount (ev : Event) : option Z :=
  if has_topic (js "transfer") ev then member_of ev (js "amount") ≫= to_bigint else None.
Definition transfers (evs : list Event) : list (Event * Z) :=
  omap (λ ev, pair ev <$> transfer_amount ev) evs.

Lemma rule_filter (rule : Event → list Entry) (f : Event → Entry) (p : Event → bool) evs :
  (∀ ev, rule ev = if p ev then [f ev] else []) →
  List.concat (List.map rule evs) = f <$> List.filter p evs.
Proof.
  intros Hr. induction evs as [|ev evs IH]; [done|]. cbn [List.map List.concat List.filter].
  rewrite Hr, IH. by destruct (p ev).
Qed.
Lemma large_filter cfg evs :
  List.concat (List.map (large_of cfg) evs) =
    (λ t, large_transfer cfg t.1 t.2) <$> List.filter (λ t, largeTransferAmount cfg <=? t.2) (transfers evs).
Proof.
  induction evs as [|ev evs IH]; [done|]. cbn [List.map List.concat]. rewrite IH.
  unfold large_of, transfer_rule, transfers. cbn [omap list_omap]. unfold transfer_amount at 2.
  destruct (member_of ev (js "amount")) as [v|], (has_topic (js "transfer") ev); try done.
  cbn [mbind option_bind]. destruct (to_bigint v) as [a|]; [|done]. cbn [fmap option_fmap option_map List.filter snd].
  by destruct (largeTransferAmount cfg <=? a).
Qed.

(** ** Properties *)

(** C27. Every batch is judged exactly: when the amounts of the batch can be read,
    each transfer of at least the threshold, each cancellation, each pause and each
    mint gives its alert, in order and nothing else under these names; every
    administrative change is logged and those from the threshold on give an alert;
    and the burst alert is given, once, when the votes of the batch reach their
    threshold. *)
Theorem detects_exactly (cfg : Thresholds) (evs : list Event) (c v : Z) :
  forallb (readable cfg) evs = true → adminChangeCount cfg = num_of_Z c → 1 <= c →
  rapidVoteBurst cfg = num_of_Z v →
  let '(out, r) := detectAnomalies cfg evs in
  r = Ok () ∧
  named (js "LARGE_TOKEN_TRANSFER") out =
    (λ t, large_transfer cfg t.1 t.2) <$> List.filter (λ t, largeTransferAmount cfg <=? t.2) (transfers evs) ∧
  named (js "PROPOSAL_CANCELLED") out = cancelled <$> List.filter (has_topic (js "proposal_cancelled")) evs ∧
  named (js "CONTRACT_PAUSED") out = contract_paused <$> List.filter (has_topic (js "contract_paused")) evs ∧
  named (js "TOKEN_MINTED") out = minted <$> List.filter (has_topic (js "mint")) evs ∧
  Z.of_nat (length (named (js "admin_change_detected") out)) = count_events is_admin_change evs ∧
  Z.of_nat (length (named (js "SUSPICIOUS_ADMIN_CHANGES") out)) =
    Z.max 0 (count_events is_admin_change evs - (c - 1)) ∧
  Z.of_nat (length (named (js "RAPID_VOTE_BURST") out)) =
    if v <=? count_events (has_topic (js "vote_cast")) evs then 1 else 0.
Proof.
  intros Hr Hc Hc1 Hv. unfold detectAnomalies.
  destruct (check_events_readable cfg evs {| adminChanges := 0; voteCount := 0 |} Hr)
    as (out & -> & Hl & Hca & Hp & Hm & Hb & Ha & Hs). cbn [adminChanges voteCount].
  rewrite large_filter in Hl. rewrite (rule_filter _ cancelled (has_topic (js "proposal_cancelled"))) in Hca by reflexivity.
  rewrite (rule_filter _ contract_paused (has_topic (js "contract_paused"))) in Hp by reflexivity.
  rewrite (rule_filter _ minted (has_topic (js "mint"))) in Hm by reflexivity.
  pose proof (burst_rule_names cfg (0 + count_events (has_topic (js "vote_cast")) evs)) as HB.
  rewrite !named_app, Hl, Hca, Hp, Hm, Hb, (named_same _ _ HB). rewrite !length_app, !Nat2Z.inj_add, Ha, (Hs c Hc).
  cbn [adminChanges].
  rewrite (named_other (js "LARGE_TOKEN_TRANSFER") _ _ HB), (named_other (js "PROPOSAL_CANCELLED") _ _ HB),
    (named_other (js "CONTRACT_PAUSED") _ _ HB), (named_other (js "TOKEN_MINTED") _ _ HB),
    (named_other (js "admin_change_detected") _ _ HB), (named_other (js "SUSPICIOUS_ADMIN_CHANGES") _ _ HB)
    by (vm_compute; reflexivity).
  rewrite !app_nil_r. cbn [length].
  split; [reflexivity|]. do 4 (split; [reflexivity|]). split; [lia|]. split; [lia|].
  unfold burst_rule, reaches. rewrite Hv, num_le_of_Z. destruct (Z.leb_spec v (0 + count_events (has_topic (js "vote_cast")) evs)),
    (Z.leb_spec v (count_events (has_topic (js "vote_cast")) evs)); cbn [length]; lia.
Qed.

Definition sample_events : list Event :=
  let ev t v := {| ev_type := None; contractId := None; topics := [JStr t]; ev_value := Some v |} in
  [ev (js "set_admin") JNull; ev (js "transfer") (JObj [(js "amount", JStr (js "1000000000000"))]);
   ev (js "vote_cast") JNull; ev (js "update_config") JNull; ev (js "transfer") (JObj [(js "amount", JBool true)]);
   ev (js "set_admin") JNull].
Lemma detects_exactly_witness :
  let '(out, r) := detectAnomalies (thresholds sample_config) sample_events in
  r = Ok () ∧ length (named (js "LARGE_TOKEN_TRANSFER") out) = 1%nat ∧
  Z.of_nat (length (named (js "SUSPICIOUS_ADMIN_CHANGES") out)) = 2.
Proof.
  pose proof (detects_exactly (thresholds sample_config) sample_events 2 50
    ltac:(vm_compute; reflexivity) eq_refl ltac:(lia) eq_refl) as H.
  destruct (detectAnomalies _ _) as [out r]. destruct H as (Hr & Hl & _ & _ & _ & _ & Hs & _).
  split_and!; [exact Hr| |].
  - rewrite Hl. vm_compute. reflexivity.
  - rewrite Hs. vm_compute. reflexivity.
Defined.

(** C28. The monitor recognises nothing. The RPC server gives the topics of an event as
    base64 texts of XDR, which begin with AAAA as the XDR of every value does, and the
    monitor compares them with names. So whatever the governance and token contracts publish,
    whatever the addresses and values, the batch is read without error and no rule sees
    an event: nothing is logged for it, but the alert on a burst of votes when its
    threshold is reached by no vote at all. *)
Theorem monitor_recognises_nothing (cfg : Thresholds) (base64_xdr : jstr → jstr)
    (address value : ContractEvent → json) (l : list ContractEvent) :
  xdr_texts base64_xdr →
  ∃ evs, normalise_all (delivered (xdr_topic base64_xdr) address value <$> l) = Ok evs ∧
    length evs = length l ∧ detectAnomalies cfg evs = (burst_rule cfg 0, Ok ()).
Proof.
  intros Hb. exists (event_of base64_xdr address value <$> l). split; [by apply normalise_all_delivered|].
  split; [apply length_fmap|]. unfold detectAnomalies. rewrite check_all_unseen.
  - by rewrite xdr_no_mint.
  - apply Forall_fmap, Forall_true. intros e. unfold compose, rule_topics. cbn [forallb].
    by rewrite !xdr_unseen by done.
Qed.

(** If the topics came decoded, as the member [sym] of an object, the monitor would
    recognise the contracts' mints and nothing else: its other rules look for topics
    that no contract publishes. *)
Theorem decoded_topics_show_mints_only (cfg : Thresholds) (address value : ContractEvent → json)
    (l : list ContractEvent) :
  ∃ evs, normalise_all (delivered symbol address value <$> l) = Ok evs ∧
    detectAnomalies cfg evs =
      (((λ e, minted (event_of id address value e)) <$> List.filter is_minted l) ++ burst_rule cfg 0, Ok ()).
Proof.
  exists (event_of id address value <$> l). split; [apply normalise_all_delivered, topic_of_symbol|].
  unfold detectAnomalies. rewrite check_all_unseen.
  - cbn [voteCount]. do 2 f_equal. induction l as [|e l IH]; [done|].
    rewrite !fmap_cons. change (mjoin (?x :: ?l)) with (x ++ mjoin l). rewrite IH. cbn [List.filter]. unfold mint_rule.
    rewrite (proj2 (published_topics address value e)). by destruct (is_minted e).
  - apply Forall_fmap, Forall_true. intros e. apply published_topics.
Qed.

(** Base64, and the XDR of a symbol of ASCII letters: its type 15, its length, its
    bytes and zeros up to a multiple of four. *)
Definition base64_digit (n : Z) : Z :=
  if n <? 26 then 65 + n else if n <? 52 then 71 + n else if n <? 62 then n - 4 else if n =? 62 then 43 else 47.
Fixpoint base64 (bytes : list Z) : jstr :=
  match bytes with
  | [] => []
  | [a] => [base64_digit (a / 4); base64_digit (a mod 4 * 16); 61; 61]
  | [a; b] => [base64_digit (a / 4); base64_digit (a mod 4 * 16 + b / 16); base64_digit (b mod 16 * 4); 61]
  | a :: b :: c :: rest =>
      base64_digit (a / 4) :: base64_digit (a mod 4 * 16 + b / 16) :: base64_digit (b mod 16 * 4 + c / 64)
        :: base64_digit (c mod 64) :: base64 rest
  end.
Definition xdr_symbol (s : jstr) : jstr :=
  base64 ([0; 0; 0; 15; 0; 0; 0; jlen s] ++ s ++ repeat 0 (Z.to_nat (- jlen s mod 4))).
Example xdr_symbol_ex :
  xdr_symbol (js "transfer") = js "AAAADwAAAAh0cmFuc2Zlcg==" ∧ xdr_symbol (js "mint") = js "AAAADwAAAARtaW50".
Proof. vm_compute. done. Qed.
Lemma xdr_symbol_texts : xdr_texts xdr_symbol.
Proof. intros s. reflexivity. Qed.

Definition sample_published : list ContractEvent :=
  [inr (ContractEvents.minted (js "GA") (js "GB") 5); inl (ContractEvents.vote_cast 0 (js "GB") Format.Yes 5);
   inr (ContractEvents.transfer (js "GB") (js "GC") (10 ^ 15)); inl (ContractEvents.proposal_cancelled 0 (js "GA") 1);
   inl (ContractEvents.paused (js "GA")); inl (ContractEvents.admin_transfer_accepted (js "GA") (js "GC"))].
Lemma monitor_recognises_nothing_witness :
  ∃ evs, normalise_all (delivered (xdr_topic xdr_symbol) (λ _, JNull) (λ _, JNull) <$> sample_published) = Ok evs ∧
    length evs = 6%nat ∧ detectAnomalies (thresholds sample_config) evs = ([], Ok ()).
Proof.
  destruct (monitor_recognises_nothing (thresholds sample_config) xdr_symbol (λ _, JNull) (λ _, JNull)
    sample_published xdr_symbol_texts) as (evs & H1 & H2 & H3).
  exists evs. split; [exact H1|]. split; [exact H2|]. rewrite H3. vm_compute. reflexivity.
Defined.

(** An amount that cannot be read ends the batch: the events after it are not
    judged, no burst is reported, and the cursors have moved past them already. *)
Lemma check_events_app cfg pre post w :
  check_events cfg (pre ++ post) w =
    match check_events cfg pre w with
    | (out, Ok w') => let '(out', r) := check_events cfg post w' in (out ++ out', r)
    | (out, Err e) => (out, Err e)
    end.
Proof.
  revert w. induction pre as [|ev pre IH]; intros w; cbn [app check_events].
  - by destruct (check_events cfg post w).
  - destruct (check_event cfg ev w) as [out [w'|e]]; [|done]. rewrite IH.
    destruct (check_events cfg pre w') as [out' [w2|e]]; [|done].
    destruct (check_events cfg post w2) as [out'' r]. by rewrite app_assoc.
Qed.
Theorem unreadable_amount_ends_the_batch (cfg : Thresholds) (pre post post' : list Event) (bad : Event) :
  readable cfg bad = false →
  detectAnomalies cfg (pre ++ bad :: post) = detectAnomalies cfg (pre ++ bad :: post') ∧
  is_ok (detectAnomalies cfg (pre ++ bad :: post)).2 = false.
Proof.
  intros Hb. unfold detectAnomalies. rewrite !check_events_app.
  destruct (check_events cfg pre _) as [out [w|e]]; [|done]. cbn [check_events].
  unfold readable in Hb. unfold check_event. destruct (admin_rule _ _ _).
  by destruct (transfer_rule cfg bad).
Qed.

(** What the server is told about where to start: a ledger, or a cursor within
    [pagination]. *)
Definition says_where (request : json) : bool :=
  let params := prop (js "params") request in
  match opt_prop (js "startLedger") params, opt_prop (js "cursor") (opt_prop (js "pagination") params) with
  | None, None => false
  | _, _ => true
  end.
(** The answer of a JSON-RPC server that refuses a request: status 200 and a body
    without [result]. *)
Definition refusal (a : Answer) : Prop :=
  ∃ st body v, a = Responded 200 st body ∧ Json.parse body = Some v ∧ prop (js "result") v = None.

Lemma request_says_nowhere contract body :
  request contract None = Some body → ∃ v, Json.parse body = Some v ∧ says_where v = false.
Proof.
  unfold request. destruct (bool_decide _); [done|]. intros [= <-]. eexists. split.
  - apply parse_stringify_json. vm_compute. reflexivity.
  - unfold says_where. members. reflexivity.
Qed.

Lemma fetch_refused contract a :
  (∃ body, request contract None = Some body ∧ refusal a) ∨ request contract None = None →
  fetchEvents contract None a = Ok ([], None).
Proof.
  unfold request, fetchEvents. destruct (bool_decide _); [done|]. intros [(body & _ & Ha)|H]; [|done].
  destruct Ha as (st & b & v & -> & Hp & Hv). change ((200 <=? 200) && (200 <? 300)) with true. cbn match.
  unfold read_body. rewrite Hp. cbn [ok_or mbind res_bind]. by rewrite Hv.
Qed.

(** C29. The monitor cannot start: its first request names neither a ledger nor a
    cursor to start from, and a refusal of the server (status 200, an [error] and no
    [result]) is read as a batch without events that leaves the cursor as it was.
    So against a server that refuses requests which do not say where to start, the
    process logs its first line and, however long it runs, nothing else, not even an
    error. *)
Theorem refused_monitor_is_silent (cfg : Config) (engine_message : EngineError → jstr)
    (rpc : nat → jstr → Answer) (token_first : nat → bool) (n : nat) :
  (∀ k body v, Json.parse body = Some v → says_where v = false → refusal (rpc k body)) →
  run_monitor cfg engine_message rpc token_first n started = (started, []) ∧
  main cfg engine_message rpc token_first n = [monitor_started cfg].
Proof.
  intros Hrpc.
  assert (∀ k contract, fetchEvents contract None (answer_to rpc k contract None) = Ok ([], None)) as Hf.
  { intros k contract. apply fetch_refused. unfold answer_to. destruct (request contract None) as [body|] eqn:Hb; [|by right].
    left. exists body. split; [done|]. destruct (request_says_nowhere contract body Hb) as (v & Hp & Hv).
    by eapply Hrpc. }
  assert (run_monitor cfg engine_message rpc token_first n started = (started, [])) as H.
  { induction n as [|k IH]; [done|]. cbn [run_monitor]. unfold poll. cbn [govCursor tokenCursor started].
    rewrite !Hf. cbn [both app]. fold started. by rewrite IH. }
  split; [exact H|]. unfold main. by rewrite H.
Qed.

(** A server that answers as it should, and the monitor against it for ten turns. *)
Definition strict_server (body : jstr) : Answer :=
  match Json.parse body with
  | Some v => if says_where v then Responded 200 (js "OK") sample_body
              else Responded 200 (js "OK") (Json.stringify 0 (JObj [(js "error", JStr (js "startLedger must be positive"))]))
  | None => Responded 400 (js "Bad Request") []
  end.
Lemma refused_monitor_is_silent_witness :
  main sample_config (λ _, []) (λ _, strict_server) (λ _, false) 10 = [monitor_started sample_config].
Proof.
  apply (refused_monitor_is_silent sample_config (λ _, []) (λ _, strict_server) (λ _, false) 10).
  intros k body v Hp Hv. unfold refusal, strict_server. rewrite Hp, Hv.
  exists (js "OK"). eexists _, _. split; [reflexivity|]. split; [vm_compute; reflexivity|]. vm_compute. reflexivity.
Defined.

End Monitor.
