(* ===== verification/AdminMonitor.v ===== *)
(** * The monitor of administrative actions (scripts/admin_monitor.js)

    A timer starts a poll every fifteen seconds. A poll asks Horizon for the
    records after the cursor it finds, waits, and then goes through the answer:
    each record moves the shared cursor, and an administrative event is announced
    on Slack or on the console. Nothing keeps a poll from starting while another
    one waits, so the process is a state with the polls that wait, moved by ticks
    of the timer and by answers. *)
From Stdlib Require Import Ascii String ZArith Lia.
From stdpp Require Import prelude list strings.
From S2P Require Import Prelude JsString JsNumber Utf8 Json JsonValue Format Events Monitor.
Local Open Scope Z_scope.

Module AdminMonitor.
Import Json JsonValue.

Definition ADMIN_EVENTS : list jstr :=
  [js "exec"; js "cancel"; js "paused"; js "unpaused"; js "admin_trans"; js "quorum"].
Definition POLL_INTERVAL_MS : Z := 15000.

(** A record of the answer, as far as it is read. *)
Record Rec := { rec_id : jstr; topic : option (list json); ledger_closed_at : option json }.

(** ** sendSlackAlert *)
Inductive Output :=
| Printed (message : jstr)                                  (* no webhook configured *)
| Posted (url : jstr) (content_length : Z) (body : list Z)  (* the bytes written *)
| PollError.                                                (* console.error in the handler *)

Section monitor.
  Variable SLACK_WEBHOOK_URL : option jstr.
  (** Whether [new URL] and [https.request] accept the address; else they throw. *)
  Variable usable_url : jstr → bool.

Definition slack_payload (message : jstr) : jstr :=
  Json.stringify 0 (JObj [(js "text", JStr (js "🚨 *Admin Action Alert* 🚨" ++ 10 :: message))]).
Definition sendSlackAlert (message : jstr) : res () Output :=
  match SLACK_WEBHOOK_URL with
  | Some ((_ :: _) as url) =>
      if usable_url url
      then Ok (Posted url (jlen (slack_payload message)) (Utf8.utf8_encode (slack_payload message)))
      else Err ()
  | _ => Ok (Printed message)
  end.

(** ** A record of the answer: what it prints, or the exception it throws. *)
(** [v.value || v]: throws on null. *)
Definition value_or (v : json) : res () json :=
  match v with
  | JNull => Err ()
  | _ => Ok (if truthy_value (prop (js "value") v) then default v (prop (js "value") v) else v)
  end.
Definition is_object (v : json) : bool := match v with JNull | JArr _ | JObj _ => true | _ => false end.
Definition topic_values (r : Rec) : res () (option (json * json)) :=
  match topic r with
  | Some (t0 :: t1 :: _) =>
      if is_object t0
      then ns ← value_or t0; sub ← value_or t1; Ok (Some (ns, sub))
      else Ok (Some (t0, t1))
  | _ => Ok None
  end.
Definition is_admin_event (ns sub : json) : bool :=
  is_text (js "gov") ns && existsb (λ t, is_text t sub) ADMIN_EVENTS.
Definition admin_message (sub : json) (r : Rec) : jstr :=
  js "Admin event detected: *" ++ text sub ++ [42; 10] ++ js "Event ID: `" ++ rec_id r ++ [96; 10]
    ++ js "Ledger: " ++ opt_text (ledger_closed_at r).
Definition process_record (r : Rec) : res () (list Output) :=
  vals ← topic_values r;
  match vals with
  | Some (ns, sub) =>
      if is_admin_event ns sub then o ← sendSlackAlert (admin_message sub r); Ok [o] else Ok []
  | None => Ok []
  end.

(** The loop over the records: the cursor is moved before a record is looked at,
    and an exception leaves the rest. *)
Fixpoint process_records (l : list Rec) (cursor : jstr) : jstr * list Output :=
  match l with
  | [] => (cursor, [])
  | r :: rest =>
      match process_record r with
      | Ok out => let '(c, out') := process_records rest (rec_id r) in (c, out ++ out')
      | Err _ => (rec_id r, [PollError])
      end
  end.

(** ** The process *)
Definition asked (cursor : jstr) : option jstr := if bool_decide (cursor = js "now") then None else Some cursor.
Record Monitor := { cursor : jstr; waiting : list (option jstr) }.
Definition startMonitor : Monitor := {| cursor := js "now"; waiting := [] |}.

Inductive Action :=
| Tick                                       (* the timer fires *)
| Answer (i : nat) (a : res () (list Rec)).  (* the answer to the i-th waiting poll *)

Definition act (a : Action) (s : Monitor) : Monitor * list Output :=
  match a with
  | Tick => ({| cursor := cursor s; waiting := waiting s ++ [asked (cursor s)] |}, [])
  | Answer i r =>
      match waiting s !! i with
      | None => (s, [])
      | Some _ =>
          let left := delete i (waiting s) in
          match r with
          | Ok l => let '(c, out) := process_records l (cursor s) in ({| cursor := c; waiting := left |}, out)
          | Err _ => ({| cursor := cursor s; waiting := left |}, [PollError])
          end
      end
  end.
Fixpoint run (l : list Action) (s : Monitor) : Monitor * list Output :=
  match l with
  | [] => (s, [])
  | a :: l' => let '(s1, out) := act a s in let '(s2, out') := run l' s1 in (s2, out ++ out')
  end.
End monitor.

Definition gov_record (tag : jstr) (i : jstr) : Rec := {|
  rec_id := i; topic := Some [JObj [(js "value", JStr (js "gov"))]; JObj [(js "value", JStr tag)]];
  ledger_closed_at := Some (JStr (js "2024")) |}.
Example run_ex :
  (run None (λ _, true) [Tick; Answer 0 (Ok [gov_record (js "exec") (js "7"); gov_record (js "voted") (js "8")])]
     startMonitor) =
  ({| cursor := js "8"; waiting := [] |},
   [Printed (js "Admin event detected: *exec*" ++ 10 :: js "Event ID: `7`" ++ 10 :: js "Ledger: 2024")]).
Proof. vm_compute. reflexivity. Qed.
(** ** Lemmas *)
(** A contract's event as a record, its topics as objects or as texts. *)
Definition topic_json (as_object : bool) (s : jstr) : json :=
  if as_object then JObj [(js "value", JStr s)] else JStr s.
Definition record_of (as_object : bool) (e : Monitor.ContractEvent) (i : jstr) (at_ : option json) : Rec := {|
  rec_id := i;
  topic := Some [topic_json as_object (Monitor.published e).1; topic_json as_object (Monitor.published e).2];
  ledger_closed_at := at_ |}.
Definition recognised (e : Monitor.ContractEvent) : bool :=
  match e with
  | inl (ContractEvents.proposal_executed _ _) | inl (ContractEvents.proposal_cancelled _ _ _)
  | inl (ContractEvents.paused _) | inl (ContractEvents.quorum_updated _ _ _) => true
  | _ => false
  end.

Lemma topic_values_record b e i at_ :
  (Monitor.published e).1 ≠ [] → (Monitor.published e).2 ≠ [] →
  topic_values (record_of b e i at_) = Ok (Some (JStr (Monitor.published e).1, JStr (Monitor.published e).2)).
Proof.
  intros H1 H2. unfold topic_values, record_of. cbn [topic]. destruct b; [|done]. cbn [topic_json is_object].
  assert (∀ s, s ≠ [] → value_or (JObj [(js "value", JStr s)]) = Ok (JStr s)) as Hv.
  { intros s Hs. unfold value_or. cbn [prop]. rewrite Monitor.assoc_here. cbn [truthy_value default].
    by rewrite bool_decide_true. }
  by rewrite !Hv.
Qed.
Lemma published_recognised e :
  (Monitor.published e).1 ≠ [] ∧ (Monitor.published e).2 ≠ [] ∧
  is_admin_event (JStr (Monitor.published e).1) (JStr (Monitor.published e).2) = recognised e.
Proof. destruct e as [[]|[]]; split_and!; done || (vm_compute; reflexivity). Qed.

Lemma utf8_length_app s t :
  Utf8.well_formed s = true → utf8_length (s ++ t) = utf8_length s + utf8_length t.
Proof.
  remember (length s) as n eqn:Hn. assert (length s ≤ n)%nat as Hle by lia. clear Hn. revert s Hle.
  induction n as [|n IH]; intros [|u s] Hle Hw; try done; [simpl in Hle; lia|].
  cbn [Utf8.well_formed] in Hw. apply andb_true_iff in Hw as [Hu Hw]. simpl in Hle.
  destruct (is_high u) eqn:Hh.
  - destruct s as [|v s]; [done|]. apply andb_true_iff in Hw as [Hv Hw].
    cbn [app utf8_length]. rewrite Hh, Hv. cbn [andb].
    assert (0x800 <= u) by (unfold is_high in Hh; bool_prop; lia).
    rewrite (proj2 (Z.ltb_ge u 0x80)), (proj2 (Z.ltb_ge u 0x800)) by lia.
    rewrite IH by (done || (simpl in Hle; lia)). lia.
  - apply andb_true_iff in Hw as [_ Hw]. pose proof (IH s ltac:(lia) Hw) as IHs.
    assert (∀ r, utf8_length (u :: r) =
      (if u <? 0x80 then 1 else if u <? 0x800 then 2 else 3) + utf8_length r) as Hcons.
    { intros r. cbn [utf8_length]. rewrite Hh. destruct (u <? 0x80), (u <? 0x800), r as [|v r]; cbn [andb]; lia || done. }
    cbn [app]. rewrite !Hcons, IHs. lia.
Qed.

(** What the payload starts with. *)
Definition payload_head : jstr :=
  js "{" ++ [34] ++ js "text" ++ [34; 58; 34] ++ js "🚨 *Admin Action Alert* 🚨\n".
Lemma slack_payload_eq message : slack_payload message = payload_head ++ quote_units message ++ [34; 125].
Proof.
  change (slack_payload message) with (payload_head ++ (quote_units message ++ [34]) ++ [125]).
  by rewrite <- (app_assoc (quote_units message)).
Qed.

(** Records that can be processed, and what they print. *)
Section process.
  Variables (hook : option jstr) (usable_url : jstr → bool).
Definition processable (r : Rec) : bool := is_ok (process_record hook usable_url r).
Definition output (r : Rec) : list Output :=
  match process_record hook usable_url r with Ok out => out | Err _ => [] end.
Definition outputs (l : list Rec) : list Output := List.concat (List.map output l).

Lemma process_records_ok l c :
  forallb processable l = true →
  process_records hook usable_url l c = (default c (last (rec_id <$> l)), outputs l).
Proof.
  revert c. induction l as [|r l IH]; intros c Hl; [done|]. cbn [forallb] in Hl.
  apply andb_true_iff in Hl as [Hr Hl]. cbn [process_records]. unfold processable in Hr.
  destruct (process_record hook usable_url r) as [out|e] eqn:He; [|done]. rewrite IH by done.
  unfold outputs. cbn [List.map List.concat]. unfold output at 2. rewrite He.
  f_equal. destruct l as [|r' l]; [done|]. change (rec_id <$> r :: r' :: l) with (rec_id r :: rec_id r' :: (rec_id <$> l)).
  change (rec_id <$> r' :: l) with (rec_id r' :: (rec_id <$> l)). rewrite last_cons_cons.
  destruct (last (rec_id r' :: (rec_id <$> l))) eqn:Hlast; [done|]. by apply last_None in Hlast.
Qed.
End process.

(** Horizon: at most fifty records after the cursor, from the first when none is
    given. *)
Fixpoint after (c : jstr) (log : list Rec) : list Rec :=
  match log with
  | [] => []
  | r :: rest => if decide (rec_id r = c) then rest else after c rest
  end.
Definition serve (log : list Rec) (c : option jstr) : list Rec :=
  take 50 (match c with Some c => after c log | None => log end).

(** [n] polls, each answered before the next tick. *)
Fixpoint polls_in_turn (hook : option jstr) (usable_url : jstr → bool) (log : list Rec) (n : nat) (s : Monitor)
    : Monitor * list Output :=
  match n with
  | O => (s, [])
  | S k =>
      let '(s1, out) := run hook usable_url [Tick; Answer 0 (Ok (serve log (asked (cursor s))))] s in
      let '(s2, out') := polls_in_turn hook usable_url log k s1 in (s2, out ++ out')
  end.

Lemma after_skip pre r rest :
  NoDup (rec_id <$> pre ++ r :: rest) → after (rec_id r) (pre ++ r :: rest) = rest.
Proof.
  induction pre as [|x pre IH]; cbn [app]; intros Hnd.
  - cbn [after]. by rewrite decide_True.
  - change (NoDup (rec_id x :: (rec_id <$> pre ++ r :: rest))) in Hnd. apply NoDup_cons in Hnd as [Hx Hnd].
    cbn [after]. rewrite decide_False; [by apply IH|]. intros Heq. apply Hx. rewrite Heq.
    apply list_elem_of_fmap. exists r. split; [done|]. apply elem_of_app. right. left.
Qed.

(** The cursor left by the records processed so far. *)
Definition cursor_of (done_ : list Rec) : jstr := default (js "now") (last (rec_id <$> done_)).
Lemma serve_rest pre rest :
  NoDup (rec_id <$> pre ++ rest) → js "now" ∉ rec_id <$> pre ++ rest →
  serve (pre ++ rest) (asked (cursor_of pre)) = take 50 rest.
Proof.
  intros Hnd Hnow. unfold serve, asked, cursor_of.
  destruct pre as [|r pre _] using rev_ind; [by rewrite bool_decide_true|].
  rewrite fmap_app. change (rec_id <$> [r]) with [rec_id r]. rewrite last_snoc. change (default (js "now") (Some (rec_id r))) with (rec_id r).
  rewrite bool_decide_false.
  - cbn match. rewrite <- app_assoc. change ([r] ++ rest) with (r :: rest). rewrite after_skip; [done|]. by rewrite <- app_assoc in Hnd.
  - intros Heq. apply Hnow. rewrite <- Heq. apply list_elem_of_fmap. exists r. split; [done|].
    apply elem_of_app. left. apply elem_of_app. right. left.
Qed.

Lemma poll_in_turn hook usable_url l s :
  waiting s = [] → forallb (processable hook usable_url) l = true →
  run hook usable_url [Tick; Answer 0 (Ok l)] s =
    ({| cursor := default (cursor s) (last (rec_id <$> l)); waiting := [] |}, outputs hook usable_url l).
Proof.
  intros Hw Hl. cbn [run act waiting cursor]. rewrite Hw. cbn [app lookup list_lookup delete list_delete].
  rewrite process_records_ok by done. by rewrite !app_nil_r.
Qed.

(** ** Properties *)

(** C30. Exactly four of the contracts' events are announced: whatever the address of
    the webhook that can be used, if any, and whether Horizon gives the topics as
    objects or as texts, an event of the contracts leads to one alert if it is the
    execution or the cancellation of a proposal, a pause of the governance contract
    or a change of quorum, and to nothing otherwise. The names "unpaused" and
    "admin_trans" of the list are published by no contract: unpausing and every step
    of an administrator's transfer go unannounced, as does a change of the voting
    token or of the code. *)
Theorem admin_monitor_recognises (hook : option jstr) (usable_url : jstr → bool) (as_object : bool)
    (e : Monitor.ContractEvent) (i : jstr) (at_ : option json) :
  process_record hook usable_url (record_of as_object e i at_) =
    if recognised e
    then o ← sendSlackAlert hook usable_url
               (admin_message (JStr (Monitor.published e).2) (record_of as_object e i at_)); Ok [o]
    else Ok [].
Proof.
  destruct (published_recognised e) as (H1 & H2 & H3). unfold process_record.
  rewrite topic_values_record by done. cbn [mbind res_bind]. rewrite H3. by destruct (recognised e).
Qed.

(** Polls that do not overlap go through the history once: as long as every poll
    is answered before the next tick, and no record makes the handler throw, [n]
    polls from the start process the first 50 n records of the history, in order,
    each once, and leave the cursor on the last of them. The cursor called 'now' is
    not sent, so the history starts with the first record, not with the present. *)
Theorem polls_in_turn_process_once (hook : option jstr) (usable_url : jstr → bool) (log : list Rec) (n : nat) :
  NoDup (rec_id <$> log) → js "now" ∉ rec_id <$> log → forallb (processable hook usable_url) log = true →
  polls_in_turn hook usable_url log n startMonitor =
    ({| cursor := cursor_of (take (50 * n) log); waiting := [] |}, outputs hook usable_url (take (50 * n) log)).
Proof.
  intros Hnd Hnow Hp.
  assert (∀ pre rest, log = pre ++ rest →
    polls_in_turn hook usable_url log n {| cursor := cursor_of pre; waiting := [] |} =
      ({| cursor := cursor_of (pre ++ take (50 * n) rest); waiting := [] |},
       outputs hook usable_url (take (50 * n) rest))) as H; [|exact (H [] log eq_refl)].
  induction n as [|n IH]; intros pre rest Hlog.
  { rewrite Nat.mul_0_r. change (take 0 rest) with (@nil Rec). by rewrite app_nil_r. }
  cbn [polls_in_turn cursor].
  rewrite Hlog, serve_rest, <- Hlog by (by rewrite <- Hlog).
  assert (forallb (processable hook usable_url) (take 50 rest) = true) as Hp1.
  { rewrite forallb_forall in *. intros r Hr. apply Hp. rewrite Hlog. apply in_or_app. right.
    apply list_elem_of_In in Hr. apply list_elem_of_In. eapply subseteq_take, Hr. }
  rewrite poll_in_turn by done. cbn [cursor].
  assert (default (cursor_of pre) (last (rec_id <$> take 50 rest)) = cursor_of (pre ++ take 50 rest)) as ->.
  { unfold cursor_of. rewrite fmap_app, last_app. by destruct (last (rec_id <$> take 50 rest)). }
  rewrite (IH (pre ++ take 50 rest) (drop 50 rest)) by (by rewrite <- app_assoc, take_drop).
  replace (50 * S n)%nat with (50 + 50 * n)%nat by lia.
  rewrite <- app_assoc, <- (take_take_drop rest 50 (50 * n)). f_equal.
  unfold outputs. by rewrite List.map_app, concat_app.
Qed.

Lemma polls_in_turn_process_once_witness :
  let log := [gov_record (js "created") (js "1"); gov_record (js "exec") (js "2"); gov_record (js "unpause") (js "3")] in
  cursor (polls_in_turn None (λ _, true) log 2 startMonitor).1 = js "3" ∧
  length (polls_in_turn None (λ _, true) log 2 startMonitor).2 = 1%nat.
Proof.
  intros log. rewrite (polls_in_turn_process_once None (λ _, true) log 2).
  - split; vm_compute; reflexivity.
  - apply (bool_decide_unpack _). vm_compute. exact I.
  - apply (bool_decide_unpack _). vm_compute. exact I.
  - vm_compute. reflexivity.
Defined.

(** Two ticks before the first answer: both polls ask with the same cursor, so the
    same answer comes twice and everything is announced twice. *)
Theorem overlapping_polls_repeat (hook : option jstr) (usable_url : jstr → bool) (l : list Rec) (s : Monitor) :
  waiting s = [] → forallb (processable hook usable_url) l = true →
  waiting (run hook usable_url [Tick; Tick] s).1 = [asked (cursor s); asked (cursor s)] ∧
  (run hook usable_url [Tick; Tick; Answer 0 (Ok l); Answer 0 (Ok l)] s).2 =
    outputs hook usable_url l ++ outputs hook usable_url l.
Proof.
  intros Hw Hl. cbn [run act waiting cursor fst]. rewrite Hw. split; [done|].
  cbn [app lookup list_lookup delete list_delete]. rewrite process_records_ok by done.
  cbn [waiting cursor app lookup list_lookup]. rewrite process_records_ok by done. cbn [snd].
  by rewrite !app_nil_r.
Qed.

(** Every alert on Slack is announced shorter than it is: the Content-Length sent
    is the number of UTF-16 units of the payload, while its bytes are at least four
    more, two for each siren, whatever the message. *)
Theorem slack_length_too_short (hook : option jstr) (usable_url : jstr → bool) (message : jstr)
    (url : jstr) (n : Z) (body : list Z) :
  units message = true →
  sendSlackAlert hook usable_url message = Ok (Posted url n body) →
  n + 4 <= Z.of_nat (length body).
Proof.
  intros Hu Hs. assert (n = jlen (slack_payload message) ∧ body = Utf8.utf8_encode (slack_payload message)) as [-> ->].
  { unfold sendSlackAlert in Hs. by repeat case_match; simplify_eq. }
  rewrite slack_payload_eq.
  pose proof (well_formed_quote_units message Hu) as Hq.
  assert (Utf8.well_formed (quote_units message ++ [34; 125]) = true) as Hw by (by apply well_formed_app).
  rewrite Utf8.utf8_encode_length by (apply well_formed_app; [vm_compute; reflexivity|done]).
  rewrite utf8_length_app by (vm_compute; reflexivity). unfold jlen. rewrite length_app, Nat2Z.inj_add.
  pose proof (utf8_length_bounds (quote_units message ++ [34; 125])) as [Hb _]. unfold jlen in Hb.
  change (utf8_length payload_head) with 41. change (Z.of_nat (length payload_head)) with 37. lia.
Qed.

Lemma slack_length_too_short_witness :
  ∃ n body, sendSlackAlert (Some (js "https://hooks")) (λ _, true) (js "é") = Ok (Posted (js "https://hooks") n body) ∧
    n + 4 <= Z.of_nat (length body).
Proof.
  eexists _, _. split; [reflexivity|].
  apply (slack_length_too_short (Some (js "https://hooks")) (λ _, true) (js "é") (js "https://hooks"));
    [vm_compute; reflexivity|reflexivity].
Defined.

(** ** What Slack reads *)

(** A server reads as many bytes as the Content-Length says. *)
Definition read_body (n : Z) (body : list Z) : jstr := Utf8.utf8_decode (take (Z.to_nat n) body).

(** The texts of a record are made of code units, as all strings are. *)
Definition unit_texts (r : Rec) : bool := units (rec_id r) && units (opt_text (ledger_closed_at r)).
Definition unit_answer (a : Action) : bool :=
  match a with Answer _ (Ok l) => forallb unit_texts l | _ => true end.

Lemma units_app s t : units (s ++ t) = units s && units t.
Proof. apply forallb_app. Qed.
Lemma admin_message_units ns sub r :
  is_admin_event ns sub = true → unit_texts r = true → units (admin_message sub r) = true.
Proof.
  intros [_ (t & Ht & Hs)%existsb_exists]%andb_true_iff [Hi Hl]%andb_true_iff. unfold admin_message.
  destruct sub as [| | |s| |]; try discriminate Hs. apply bool_decide_eq_true_1 in Hs as ->. cbn [text].
  rewrite !units_app, Hi, Hl. assert (units t = true) as ->; [|vm_compute; reflexivity].
  assert (forallb units ADMIN_EVENTS = true) as Ha by (vm_compute; reflexivity).
  by apply (proj1 (forallb_forall _ _) Ha).
Qed.

Lemma head_split : payload_head = (123 :: quote (js "text") ++ [58; 34]) ++ drop 9 payload_head.
Proof. vm_compute. reflexivity. Qed.
(** What the payload quotes before the message. *)
Lemma siren_units message :
  quote_units (js "🚨 *Admin Action Alert* 🚨" ++ 10 :: message) = drop 9 payload_head ++ quote_units message.
Proof.
  change (10 :: message) with ([10] ++ message). rewrite app_assoc, quote_units_app by (vm_compute; reflexivity).
  by f_equal.
Qed.

(** The bytes announced stop within the text of the alert. *)
Lemma cut_payload_unreadable message :
  units message = true →
  Json.parse (read_body (jlen (slack_payload message)) (Utf8.utf8_encode (slack_payload message))) = None.
Proof.
  intros Hu.
  destruct (sendSlackAlert (Some (js "https://hooks")) (λ _, true) message) as [[|url n body|]|] eqn:Hs;
    try discriminate Hs.
  pose proof (slack_length_too_short _ _ _ _ _ _ Hu Hs) as Hlen. injection Hs as _ <- <-.
  set (M := js "🚨 *Admin Action Alert* 🚨" ++ 10 :: message) in *.
  assert (slack_payload message = (123 :: quote (js "text") ++ [58; 34]) ++ quote_units M ++ [34; 125]) as Heq.
  { rewrite slack_payload_eq, head_split at 1. unfold M. by rewrite siren_units, <- !app_assoc. }
  assert (38 <= jlen (slack_payload message)) as Hlong.
  { rewrite slack_payload_eq. unfold jlen. rewrite !length_app. change (length payload_head) with 37%nat.
    simpl. lia. }
  assert (Utf8.well_formed (slack_payload message) = true) as Hwf.
  { rewrite slack_payload_eq. apply well_formed_app; [vm_compute; reflexivity|].
    by apply well_formed_app; [apply well_formed_quote_units|]. }
  unfold read_body, jlen in *. rewrite Nat2Z.id.
  destruct (Utf8.decode_encode_take _ (length (slack_payload message)) Hwf) as (p & q & e & Hpq & -> & He & Hp & Hq);
    [lia|].
  rewrite Heq in Hpq. symmetry in Hpq. apply app_eq_inv in Hpq as [(k & -> & Hk) | (k & Hk & _)].
  2: { apply (f_equal length) in Hk. rewrite length_app in Hk. simpl in Hk. lia. }
  rewrite <- app_assoc. cbn [app]. rewrite <- (app_assoc (quote (js "text"))). cbn [app].
  apply parse_cut. eapply string_body_cut; [exact Hk|lia|exact He].
Qed.

Section slack.
  Variables (hook : option jstr) (usable_url : jstr → bool).

(** An output is unreadable where it is a request whose text is no JSON. *)
Definition unreadable (o : Output) : Prop :=
  match o with Posted _ n body => Json.parse (read_body n body) = None | _ => True end.

Lemma sent_unreadable message o :
  units message = true → sendSlackAlert hook usable_url message = Ok o → unreadable o.
Proof.
  intros Hu Hs. unfold sendSlackAlert in Hs. repeat case_match; simplify_eq; cbn [unreadable]; try done.
  by apply cut_payload_unreadable.
Qed.
Lemma processed_unreadable l c :
  forallb unit_texts l = true → Forall unreadable (process_records hook usable_url l c).2.
Proof.
  revert c. induction l as [|r l IH]; intros c Hl; [constructor|]. cbn [forallb] in Hl.
  apply andb_true_iff in Hl as [Hr Hl]. cbn [process_records].
  destruct (process_record hook usable_url r) as [out|] eqn:Hp; [|by repeat constructor].
  specialize (IH (rec_id r) Hl). destruct (process_records hook usable_url l (rec_id r)) as [c' out'].
  apply Forall_app. split; [|exact IH]. unfold process_record in Hp.
  destruct (topic_values r) as [[[ns sub]|]|]; try (injection Hp as <-; constructor); try discriminate Hp.
  cbn [mbind res_bind] in Hp. destruct (is_admin_event ns sub) eqn:Ha; [|injection Hp as <-; constructor].
  destruct (sendSlackAlert hook usable_url (admin_message sub r)) as [o|] eqn:Ho; [|discriminate Hp].
  injection Hp as <-. repeat constructor. eapply sent_unreadable; [|exact Ho].
  by eapply admin_message_units.
Qed.

(** C31. No alert ever reaches Slack: whatever the webhook, the ticks, the order of the
    answers and the records in them, each request the monitor makes announces fewer
    bytes than its body has, and the text that a server reads from the bytes
    announced, those a Content-Length admits, is no JSON: it stops inside the text of
    the alert, before the closing quotation mark. *)
Theorem slack_alerts_are_unreadable (l : list Action) (s : Monitor) (url : jstr) (n : Z) (body : list Z) :
  forallb unit_answer l = true → Posted url n body ∈ (run hook usable_url l s).2 →
  Json.parse (read_body n body) = None.
Proof.
  intros Hl Hin. assert (Forall unreadable (run hook usable_url l s).2) as Hall.
  { clear Hin. revert s. induction l as [|a l IH]; intros s; [constructor|]. cbn [forallb] in Hl.
    apply andb_true_iff in Hl as [Ha Hl]. cbn [run].
    assert (Forall unreadable (act hook usable_url a s).2) as Hact.
    { unfold act. destruct a as [|i [r|]]; [constructor| |]; (destruct (waiting s !! i); [|constructor]).
      - pose proof (processed_unreadable r (cursor s) Ha) as Hp.
        by destruct (process_records hook usable_url r (cursor s)).
      - by repeat constructor. }
    destruct (act hook usable_url a s) as [s1 out]. specialize (IH Hl s1).
    destruct (run hook usable_url l s1) as [s2 out']. by apply Forall_app. }
  exact (proj1 (Forall_forall _ _) Hall _ Hin).
Qed.
End slack.

Lemma slack_alerts_are_unreadable_witness :
  let l := [Tick; Answer 0 (Ok [gov_record (js "exec") (js "7")])] in
  ∃ url n body, Posted url n body ∈ (run (Some (js "https://hooks")) (λ _, true) l startMonitor).2 ∧
    Json.parse (read_body n body) = None.
Proof.
  intros l. set (p := slack_payload (admin_message (JStr (js "exec")) (gov_record (js "exec") (js "7")))).
  exists (js "https://hooks"), (jlen p), (Utf8.utf8_encode p).
  assert (Posted (js "https://hooks") (jlen p) (Utf8.utf8_encode p)
    ∈ (run (Some (js "https://hooks")) (λ _, true) l startMonitor).2) as H by apply list_elem_of_here.
  split; [exact H|].
  exact (slack_alerts_are_unreadable (Some (js "https://hooks")) (λ _, true) l startMonitor _ _ _ eq_refl H).
Defined.

End AdminMonitor.
