(* ===== verification/Token.v ===== *)
(** * The governance token (contracts/token/src)

    Balances, allowances and delegations with their administrator, as one state.
    Each entry point is a function from the context of the call and the state to
    a new state, an error of the contract, or a trap. The published events are
    kept in the state. [upgrade] is in [Upgrade], the life of the entries in
    [TokenRent]. *)
From Stdlib Require Import Ascii String ZArith Lia.
From stdpp Require Import prelude list gmap strings.
From S2P Require Import Prelude JsString Soroban Events.
Local Open Scope Z_scope.

Module Token.
Import Soroban ContractEvents.

(** ** types.rs *)
Inductive ContractError :=
| AlreadyInitialized | NotInitialized | NotAdmin | InvalidNewAdmin | InvalidAmount
| InsufficientBalance | AllowanceExceeded | CannotDelegateSelf | AlreadyDelegating
| NotDelegating | InvalidExpiry | NoPendingAdmin | NotPendingAdmin | ContractPaused | NotPaused.
Global Instance ContractError_eq_dec : EqDecision ContractError.
Proof. solve_decision. Defined.
Notation result := (res (failure ContractError)).
Notation err e := (Contract (E := ContractError) e).

(** ** storage.rs *)
Record Allowance := { al_amount : Z; expiry_ledger : Z }.

Record TokenStorage := {
  s_admin : option address;
  s_pending_admin : option address;
  s_total_supply : Z;
  s_initialized : bool;
  s_paused : bool;
  s_name : jstr;
  s_symbol : jstr;
  s_decimals : Z;
  balances : gmap address Z;
  delegations : gmap address address;
  allowances : gmap (address * address) Allowance;
  events : list TokenEvents }.

Definition empty : TokenStorage := {|
  s_admin := None; s_pending_admin := None; s_total_supply := 0; s_initialized := false;
  s_paused := false; s_name := []; s_symbol := []; s_decimals := 0; balances := ∅;
  delegations := ∅; allowances := ∅; events := [] |}.

(** The setters write the instance entries, the balances, the delegations and
    the allowances; the getters are below. *)
Definition set_instance (adm pend : option address) (supply : Z) (init pau : bool) (s : TokenStorage)
    : TokenStorage := {|
  s_admin := adm; s_pending_admin := pend; s_total_supply := supply; s_initialized := init;
  s_paused := pau; s_name := s_name s; s_symbol := s_symbol s; s_decimals := s_decimals s;
  balances := balances s; delegations := delegations s; allowances := allowances s;
  events := events s |}.
Definition set_admin (a : option address) (s : TokenStorage) : TokenStorage :=
  set_instance a (s_pending_admin s) (s_total_supply s) (s_initialized s) (s_paused s) s.
Definition set_pending_admin (a : option address) (s : TokenStorage) : TokenStorage :=
  set_instance (s_admin s) a (s_total_supply s) (s_initialized s) (s_paused s) s.
Definition set_total_supply (v : Z) (s : TokenStorage) : TokenStorage :=
  set_instance (s_admin s) (s_pending_admin s) v (s_initialized s) (s_paused s) s.
Definition set_initialized (s : TokenStorage) : TokenStorage :=
  set_instance (s_admin s) (s_pending_admin s) (s_total_supply s) true (s_paused s) s.
Definition set_paused (v : bool) (s : TokenStorage) : TokenStorage :=
  set_instance (s_admin s) (s_pending_admin s) (s_total_supply s) (s_initialized s) v s.
Definition set_meta (n sym : jstr) (d : Z) (s : TokenStorage) : TokenStorage := {|
  s_admin := s_admin s; s_pending_admin := s_pending_admin s; s_total_supply := s_total_supply s;
  s_initialized := s_initialized s; s_paused := s_paused s; s_name := n; s_symbol := sym;
  s_decimals := d; balances := balances s; delegations := delegations s;
  allowances := allowances s; events := events s |}.

Definition set_maps (b : gmap address Z) (dl : gmap address address)
    (al : gmap (address * address) Allowance) (s : TokenStorage) : TokenStorage := {|
  s_admin := s_admin s; s_pending_admin := s_pending_admin s; s_total_supply := s_total_supply s;
  s_initialized := s_initialized s; s_paused := s_paused s; s_name := s_name s;
  s_symbol := s_symbol s; s_decimals := s_decimals s; balances := b; delegations := dl;
  allowances := al; events := events s |}.
Definition set_balance (a : address) (v : Z) (s : TokenStorage) : TokenStorage :=
  set_maps (<[a := v]> (balances s)) (delegations s) (allowances s) s.
Definition set_allowance (owner spender : address) (v expiry : Z) (s : TokenStorage) : TokenStorage :=
  set_maps (balances s) (delegations s)
    (<[(owner, spender) := {| al_amount := v; expiry_ledger := expiry |}]> (allowances s)) s.
Definition set_delegation (owner d : address) (s : TokenStorage) : TokenStorage :=
  set_maps (balances s) (<[owner := d]> (delegations s)) (allowances s) s.
Definition remove_delegation (owner : address) (s : TokenStorage) : TokenStorage :=
  set_maps (balances s) (delete owner (delegations s)) (allowances s) s.

Definition publish (e : TokenEvents) (s : TokenStorage) : TokenStorage := {|
  s_admin := s_admin s; s_pending_admin := s_pending_admin s; s_total_supply := s_total_supply s;
  s_initialized := s_initialized s; s_paused := s_paused s; s_name := s_name s;
  s_symbol := s_symbol s; s_decimals := s_decimals s; balances := balances s;
  delegations := delegations s; allowances := allowances s; events := events s ++ [e] |}.

Definition balance (s : TokenStorage) (a : address) : Z := default 0 (balances s !! a).
Definition delegation (s : TokenStorage) (a : address) : option address := delegations s !! a.
Definition allowance_record (c : Ctx) (s : TokenStorage) (owner spender : address) : option Allowance :=
  match allowances s !! (owner, spender) with
  | Some data =>
      if (expiry_ledger data <? sequence c) || (al_amount data <=? 0) then None else Some data
  | None => None
  end.
Definition allowance (c : Ctx) (s : TokenStorage) (owner spender : address) : Z :=
  default 0 (al_amount <$> allowance_record c s owner spender).

(** ** lib.rs: guards *)
Definition validate_amount (amount : Z) : result () := ensure (0 <? amount) (err InvalidAmount).
Definition assert_admin (s : TokenStorage) (caller : address) : result () :=
  admin ← unwrap (s_admin s);
  ensure (bool_decide (admin = caller)) (err NotAdmin).
Definition assert_not_paused (s : TokenStorage) : result () :=
  ensure (negb (s_paused s)) (err ContractPaused).

(** ** lib.rs: entry points *)
Definition initialize (admin : address) (initial_supply : Z) (name symbol : jstr) (decimals : Z)
    (s : TokenStorage) : result TokenStorage :=
  _ ← ensure (negb (s_initialized s)) (err AlreadyInitialized);
  let s1 := set_balance admin initial_supply
              (set_total_supply initial_supply (set_admin (Some admin) s)) in
  mret (publish (token_initialized admin initial_supply)
          (set_initialized (set_meta name symbol decimals s1))).

(** [balance_at] takes a ledger and ignores it. *)
Definition balance_at (s : TokenStorage) (owner : address) (_ledger : Z) : Z := balance s owner.

Definition transfer (c : Ctx) (from to : address) (amount : Z) (s : TokenStorage)
    : result TokenStorage :=
  _ ← require_auth c from;
  _ ← assert_not_paused s;
  _ ← validate_amount amount;
  let from_bal := balance s from in
  _ ← ensure (negb (from_bal <? amount)) (err InsufficientBalance);
  if bool_decide (from = to) then mret s else
  debited ← sub_i128 from_bal amount;
  let s1 := set_balance from debited s in
  credited ← add_i128 (balance s1 to) amount;
  mret (publish (ContractEvents.transfer from to amount) (set_balance to credited s1)).

Definition transfer_from (c : Ctx) (spender from to : address) (amount : Z) (s : TokenStorage)
    : result TokenStorage :=
  _ ← require_auth c spender;
  _ ← assert_not_paused s;
  _ ← validate_amount amount;
  record ← ok_or (allowance_record c s from spender) (err AllowanceExceeded);
  _ ← ensure (negb (al_amount record <? amount)) (err AllowanceExceeded);
  let from_bal := balance s from in
  _ ← ensure (negb (from_bal <? amount)) (err InsufficientBalance);
  remaining ← sub_i128 (al_amount record) amount;
  let s1 := set_allowance from spender remaining (expiry_ledger record) s in
  debited ← sub_i128 from_bal amount;
  let s2 := set_balance from debited s1 in
  credited ← add_i128 (balance s2 to) amount;
  mret (publish (ContractEvents.transfer from to amount) (set_balance to credited s2)).

Definition approve (c : Ctx) (owner spender : address) (amount expiry : Z) (s : TokenStorage)
    : result TokenStorage :=
  _ ← require_auth c owner;
  _ ← ensure (negb (amount <? 0)) (err InvalidAmount);
  _ ← ensure (negb (expiry <=? sequence c)) (err InvalidExpiry);
  mret (publish (approval owner spender amount) (set_allowance owner spender amount expiry s)).

Definition mint (c : Ctx) (admin to : address) (amount : Z) (s : TokenStorage)
    : result TokenStorage :=
  _ ← require_auth c admin;
  _ ← assert_admin s admin;
  _ ← assert_not_paused s;
  _ ← validate_amount amount;
  supply ← add_i128 (s_total_supply s) amount;
  let s1 := set_total_supply supply s in
  credited ← add_i128 (balance s1 to) amount;
  mret (publish (minted admin to amount) (set_balance to credited s1)).

(** The part [burn] and [burn_self] share. *)
Definition burn_from (from : address) (amount : Z) (s : TokenStorage) : result TokenStorage :=
  let bal := balance s from in
  _ ← ensure (negb (bal <? amount)) (err InsufficientBalance);
  supply ← sub_i128 (s_total_supply s) amount;
  debited ← sub_i128 bal amount;
  mret (set_balance from debited (set_total_supply supply s)).

Definition burn (c : Ctx) (admin from : address) (amount : Z) (s : TokenStorage)
    : result TokenStorage :=
  _ ← require_auth c admin;
  _ ← assert_admin s admin;
  _ ← assert_not_paused s;
  _ ← validate_amount amount;
  s1 ← burn_from from amount s;
  mret (publish (burned admin from amount) s1).

Definition burn_self (c : Ctx) (owner : address) (amount : Z) (s : TokenStorage)
    : result TokenStorage :=
  _ ← require_auth c owner;
  _ ← validate_amount amount;
  s1 ← burn_from owner amount s;
  mret (publish (burned owner owner amount) s1).

Definition delegate (c : Ctx) (owner delegate_to : address) (s : TokenStorage)
    : result TokenStorage :=
  _ ← require_auth c owner;
  _ ← ensure (negb (bool_decide (owner = delegate_to))) (err CannotDelegateSelf);
  _ ← ensure (bool_decide (delegation s owner = None)) (err AlreadyDelegating);
  mret (publish (delegated owner delegate_to) (set_delegation owner delegate_to s)).

Definition undelegate (c : Ctx) (owner : address) (s : TokenStorage) : result TokenStorage :=
  _ ← require_auth c owner;
  _ ← ensure (negb (bool_decide (delegation s owner = None))) (err NotDelegating);
  mret (publish (undelegated owner) (remove_delegation owner s)).

Definition get_delegated_weight (s : TokenStorage) (voter : address) (delegators : list address) : Z :=
  foldl (λ weight d, if bool_decide (delegation s d = Some voter)
                     then saturating_add weight (balance s d) else weight)
    (balance s voter) delegators.

Definition propose_admin (c : Ctx) (admin new_admin : address) (s : TokenStorage)
    : result TokenStorage :=
  _ ← require_auth c admin;
  _ ← assert_admin s admin;
  mret (publish (token_admin_transfer_proposed admin new_admin)
          (set_pending_admin (Some new_admin) s)).

Definition accept_admin (c : Ctx) (pending_admin : address) (s : TokenStorage)
    : result TokenStorage :=
  _ ← require_auth c pending_admin;
  current_pending ← ok_or (s_pending_admin s) (err NoPendingAdmin);
  _ ← ensure (bool_decide (pending_admin = current_pending)) (err NotPendingAdmin);
  previous_admin ← unwrap (s_admin s);
  mret (publish (token_admin_transfer_accepted previous_admin pending_admin)
          (set_pending_admin None (set_admin (Some pending_admin) s))).

Definition pause (c : Ctx) (admin : address) (s : TokenStorage) : result TokenStorage :=
  _ ← require_auth c admin;
  _ ← assert_admin s admin;
  _ ← ensure (negb (s_paused s)) (err ContractPaused);
  mret (publish (token_paused admin) (set_paused true s)).

Definition unpause (c : Ctx) (admin : address) (s : TokenStorage) : result TokenStorage :=
  _ ← require_auth c admin;
  _ ← assert_admin s admin;
  _ ← ensure (s_paused s) (err NotPaused);
  mret (publish (token_unpaused admin) (set_paused false s)).

(** ** Histories of calls *)
Inductive Call :=
| Initialize (admin : address) (initial_supply : Z) (name symbol : jstr) (decimals : Z)
| Transfer (from to : address) (amount : Z)
| TransferFrom (spender from to : address) (amount : Z)
| Approve (owner spender : address) (amount expiry : Z)
| Mint (admin to : address) (amount : Z)
| Burn (admin from : address) (amount : Z)
| BurnSelf (owner : address) (amount : Z)
| Delegate (owner delegate_to : address)
| Undelegate (owner : address)
| ProposeAdmin (admin new_admin : address)
| AcceptAdmin (pending_admin : address)
| Pause (admin : address)
| Unpause (admin : address).

Definition exec (c : Ctx) (k : Call) (s : TokenStorage) : result TokenStorage :=
  match k with
  | Initialize a n nm sy d => initialize a n nm sy d s
  | Transfer f t n => transfer c f t n s
  | TransferFrom sp f t n => transfer_from c sp f t n s
  | Approve o sp n e => approve c o sp n e s
  | Mint a t n => mint c a t n s
  | Burn a f n => burn c a f n s
  | BurnSelf o n => burn_self c o n s
  | Delegate o d => delegate c o d s
  | Undelegate o => undelegate c o s
  | ProposeAdmin a n => propose_admin c a n s
  | AcceptAdmin p => accept_admin c p s
  | Pause a => pause c a s
  | Unpause a => unpause c a s
  end.

(** A call that fails is rolled back. *)
Definition step (ck : Ctx * Call) (s : TokenStorage) : TokenStorage :=
  match exec ck.1 ck.2 s with Ok s' => s' | Err _ => s end.
Definition steps (l : list (Ctx * Call)) (s : TokenStorage) : TokenStorage := foldl (flip step) s l.

(** ** Lemmas *)
Definition supply_sum (s : TokenStorage) : Z := map_total (λ _ v, v) (balances s).

(** Balances are not negative and add up to the supply, which is an i128. *)
Definition token_inv (s : TokenStorage) : Prop :=
  (∀ a v, balances s !! a = Some v → 0 <= v) ∧
  supply_sum s = s_total_supply s ∧ s_total_supply s <= i128_max.

Lemma balance_nonneg s a : token_inv s → 0 <= balance s a.
Proof.
  intros [Hb _]. unfold balance. destruct (balances s !! a) eqn:Ha; simpl; [by eapply Hb | lia].
Qed.

Lemma balance_le_supply s a : token_inv s → balance s a <= s_total_supply s.
Proof.
  intros (Hb & <- & _). pose proof (map_total_member (λ _ v, v) (balances s) a Hb) as Hm.
  unfold balance. by destruct (balances s !! a).
Qed.

Lemma sum_set_balance a v s : supply_sum (set_balance a v s) = supply_sum s - balance s a + v.
Proof.
  unfold supply_sum, balance. cbn [set_balance set_maps balances].
  rewrite map_total_insert. by destruct (balances s !! a).
Qed.

Lemma balance_set_balance a v s b :
  balance (set_balance a v s) b = if decide (a = b) then v else balance s b.
Proof.
  unfold balance. cbn [set_balance set_maps balances]. rewrite lookup_insert.
  by destruct (decide (a = b)).
Qed.

(** The invariant only looks at the balances and the supply. *)
Lemma token_inv_same s s' :
  balances s' = balances s → s_total_supply s' = s_total_supply s → token_inv s → token_inv s'.
Proof. unfold token_inv, supply_sum. by intros -> ->. Qed.

(** Writing one balance and the supply together. *)
Lemma token_inv_write a v n s :
  0 <= v → (∀ b w, balances s !! b = Some w → 0 <= w) →
  supply_sum s - balance s a + v = n → n <= i128_max →
  token_inv (set_balance a v (set_total_supply n s)).
Proof.
  intros Hv Hb Hs Hn. split_and!; [|by rewrite sum_set_balance|done].
  intros b w. cbn [set_balance set_maps set_total_supply set_instance balances].
  intros [[-> <-]|[_ Hw]]%lookup_insert_Some; [done | by eapply Hb].
Qed.

(** Moving an amount from one balance to another, the two being possibly the same. *)
Lemma move_inv from to amount s :
  token_inv s → 0 < amount <= balance s from →
  let s1 := set_balance from (balance s from - amount) s in
  token_inv (set_balance to (balance s1 to + amount) s1).
Proof.
  intros Hinv Ha s1. pose proof Hinv as (Hb & Hs & Hm).
  assert (∀ b w, balances s1 !! b = Some w → 0 <= w) as Hb1.
  { intros b w. unfold s1. cbn [set_balance set_maps balances].
    intros [[-> <-]|[_ Hw]]%lookup_insert_Some; [lia | by eapply Hb]. }
  assert (0 <= balance s1 to) as Ht.
  { unfold s1. rewrite balance_set_balance. case_decide; [lia | by apply balance_nonneg]. }
  split_and!; [|rewrite sum_set_balance|done].
  - intros b w. cbn [set_balance set_maps balances].
    intros [[-> <-]|[_ Hw]]%lookup_insert_Some; [lia | by eapply Hb1].
  - unfold s1 at 1. rewrite sum_set_balance. cbn [set_balance set_maps s_total_supply s1] in *. lia.
Qed.

(** What the guards say when they let a call through. *)
Lemma require_auth_Ok c a u : require_auth (E := ContractError) c a = Ok u → authorized c a = true.
Proof. apply ensure_Ok_inv. Qed.
Lemma validate_amount_Ok n u : validate_amount n = Ok u → 0 < n.
Proof. unfold validate_amount. intros H. apply ensure_Ok_inv in H. lia. Qed.
Lemma assert_admin_Ok s a u : assert_admin s a = Ok u → s_admin s = Some a.
Proof.
  unfold assert_admin, unwrap. intros H. destruct (s_admin s); simpl in H; [|done].
  apply ensure_Ok_inv in H. bool_prop. by subst.
Qed.
Ltac guards :=
  repeat match goal with
  | H : require_auth _ _ = Ok _ |- _ => apply require_auth_Ok in H
  | H : validate_amount _ = Ok _ |- _ => apply validate_amount_Ok in H
  | H : assert_admin _ _ = Ok _ |- _ => apply assert_admin_Ok in H
  | H : assert_not_paused _ = Ok _ |- _ => apply ensure_Ok_inv in H
  | H : sub_i128 _ _ = Ok _ |- _ => apply sub_i128_Ok in H as [-> ?]
  | H : add_i128 _ _ = Ok _ |- _ => apply add_i128_Ok in H as [-> ?]
  end; bool_prop.
(** [call_simpl H op] unfolds the call [op] that returned in [H] and keeps what its
    guards checked. *)
Ltac call_simpl H op := unfold op in H; res_simpl H; guards.

Lemma transfer_Ok c from to amount s s' :
  transfer c from to amount s = Ok s' →
  authorized c from = true ∧ 0 < amount <= balance s from ∧
  balances s' = (if decide (from = to) then balances s else
    let s1 := set_balance from (balance s from - amount) s in
    balances (set_balance to (balance s1 to + amount) s1)) ∧
  s_total_supply s' = s_total_supply s.
Proof.
  intros H. call_simpl H transfer. destruct (decide (from = to)) as [Heq|Hne].
  - rewrite bool_decide_true in H by done. res_simpl H. split_and!; [done|lia|lia|done|done].
  - rewrite bool_decide_false in H by done. res_simpl H. guards. split_and!; [done|lia|lia|done|done].
Qed.

Lemma transfer_from_Ok c spender from to amount s s' :
  transfer_from c spender from to amount s = Ok s' →
  authorized c spender = true ∧ 0 < amount <= balance s from ∧
  amount <= allowance c s from spender ∧
  allowance c s' from spender = allowance c s from spender - amount ∧
  (let s1 := set_balance from (balance s from - amount) s in
   balances s' = balances (set_balance to (balance s1 to + amount) s1)) ∧
  s_total_supply s' = s_total_supply s.
Proof.
  intros H. call_simpl H transfer_from. unfold allowance. rewrite Hr2.
  change (default 0 (al_amount <$> Some r2)) with (al_amount r2).
  split_and!; [done|lia|lia|lia| |done|done].
  unfold allowance_record in *.
  cbn [publish set_balance set_allowance set_maps allowances]. rewrite lookup_insert_eq.
  destruct (allowances s !! (from, spender)) as [d|]; [|done].
  destruct ((expiry_ledger d <? sequence c) || (al_amount d <=? 0)) eqn:Hd; [done|].
  injection Hr2 as <-. bool_prop. cbn [al_amount expiry_ledger].
  destruct (Z.ltb_spec (expiry_ledger d) (sequence c)); [lia|].
  destruct (Z.leb_spec (al_amount d - amount) 0); simpl; lia.
Qed.

Lemma burn_from_Ok from amount s s' :
  burn_from from amount s = Ok s' →
  amount <= balance s from ∧
  s' = set_balance from (balance s from - amount) (set_total_supply (s_total_supply s - amount) s).
Proof. intros H. call_simpl H burn_from. split; [lia | done]. Qed.

(** Every call preserves the invariant; the initial supply must not be negative. *)
Definition sound_call (k : Call) : Prop :=
  match k with Initialize _ n _ _ _ => 0 <= n <= i128_max | _ => True end.
(** Nobody has a balance before the initialisation. *)
Definition token_wf (s : TokenStorage) : Prop :=
  token_inv s ∧ (s_initialized s = false → s_admin s = None ∧ balances s = ∅ ∧ s_pending_admin s = None).

Lemma burn_from_inv from amount s s' :
  token_inv s → 0 < amount → burn_from from amount s = Ok s' → token_inv s'.
Proof.
  intros Hinv Ha [Hle ->]%burn_from_Ok. pose proof Hinv as (Hb & Hs & Hm).
  apply token_inv_write; [lia|done|lia|lia].
Qed.

Ltac burned_inv :=
  match goal with
  | H : burn_from _ _ _ = Ok ?x |- _ => apply (token_inv_same x); [done..|]; by eapply burn_from_inv
  end.

Lemma exec_inv c k s s' : sound_call k → token_wf s → exec c k s = Ok s' → token_inv s'.
Proof.
  intros Hk [Hinv Hinit] H. pose proof Hinv as (Hb & Hs & Hm).
  destruct k as [a n nm sy d|f t n|sp f t n|o sp n e|a t n|a f n|o n|o d|o|a n|p|a|a]; cbn [exec] in H.
  - call_simpl H initialize. destruct (Hinit ltac:(done)) as (_ & He & _).
    eapply token_inv_same; [done..|]. apply (token_inv_write a n n (set_admin (Some a) s));
      [apply Hk | by cbn; rewrite He | | apply Hk].
    unfold supply_sum, balance. cbn [set_admin set_instance balances].
    rewrite He, map_total_empty, lookup_empty. simpl. lia.
  - apply transfer_Ok in H as (_ & Ha & Hbal & Hsup).
    destruct (decide (f = t)); [by eapply token_inv_same|].
    eapply token_inv_same; [exact Hbal|exact Hsup|]. by apply move_inv.
  - apply transfer_from_Ok in H as (_ & Ha & _ & _ & Hbal & Hsup).
    eapply token_inv_same; [exact Hbal|exact Hsup|]. by apply move_inv.
  - call_simpl H approve. by eapply token_inv_same.
  - call_simpl H mint. eapply token_inv_same; [done..|].
    change (balance (set_total_supply _ s) t) with (balance s t).
    pose proof (balance_nonneg s t Hinv).
    apply token_inv_write; [lia | done | lia |]. by refine (proj2 (proj1 (in_i128_spec _) _)).
  - call_simpl H burn. burned_inv.
  - call_simpl H burn_self. burned_inv.
  - call_simpl H delegate. by eapply token_inv_same.
  - call_simpl H undelegate. by eapply token_inv_same.
  - call_simpl H propose_admin. by eapply token_inv_same.
  - call_simpl H accept_admin. by eapply token_inv_same.
  - call_simpl H pause. by eapply token_inv_same.
  - call_simpl H unpause. by eapply token_inv_same.
Qed.

Lemma exec_uninitialised c k s s' :
  token_wf s → exec c k s = Ok s' → s_initialized s' = false →
  s_admin s' = None ∧ balances s' = ∅ ∧ s_pending_admin s' = None.
Proof.
  intros [_ Hinit] H Hs'.
  destruct k as [a n nm sy d|f t n|sp f t n|o sp n e|a t n|a f n|o n|o d|o|a n|p|a|a]; cbn [exec] in H.
  1: call_simpl H initialize; done.
  1: call_simpl H transfer. 2: call_simpl H transfer_from. 3: call_simpl H approve.
  4: call_simpl H mint. 5: call_simpl H burn. 6: call_simpl H burn_self. 7: call_simpl H delegate.
  8: call_simpl H undelegate. 9: call_simpl H propose_admin. 10: call_simpl H accept_admin.
  11: call_simpl H pause. 12: call_simpl H unpause.
  all: try (case_bool_decide; res_simpl H; guards).
  all: try match goal with Hb : burn_from _ _ _ = Ok _ |- _ => apply burn_from_Ok in Hb as [? ->] end.
  all: destruct (Hinit Hs') as (Ha & Hb & Hp); try done; try congruence.
  all: exfalso; unfold balance in *; rewrite Hb in *; rewrite lookup_empty in *; simpl in *; lia.
Qed.

Lemma step_wf ck s : sound_call ck.2 → token_wf s → token_wf (step ck s).
Proof.
  intros Hk Hwf. unfold step. destruct (exec ck.1 ck.2 s) as [s'|] eqn:He; [|done]. split.
  - by eapply exec_inv.
  - intros Hi. by eapply exec_uninitialised.
Qed.

Lemma steps_wf l s : Forall (λ ck, sound_call ck.2) l → token_wf s → token_wf (steps l s).
Proof.
  intros Hl. revert s. induction Hl as [|ck l Hk _ IH]; intros s Hs; [done|]. by apply IH, step_wf.
Qed.

Lemma empty_wf : token_wf empty.
Proof. split; [|done]. split_and!; done. Qed.

(** Weights: the balances of a list of accounts. *)
Definition sum_of (s : TokenStorage) (l : list address) : Z := foldr (λ a acc, balance s a + acc) 0 l.
Definition delegating_to (s : TokenStorage) (v : address) (l : list address) : list address :=
  filter (λ d, delegation s d = Some v) l.

Lemma keys_total (m : gmap address Z) (l : list address) :
  NoDup l → (∀ a v, m !! a = Some v → 0 <= v) →
  foldr (λ a acc, default 0 (m !! a) + acc) 0 l <= map_total (λ _ v, v) m.
Proof.
  intros Hl. revert m. induction Hl as [|a l Ha Hl IH]; intros m Hm; simpl.
  - by apply map_total_nonneg.
  - pose proof (IH (delete a m)) as IH'. rewrite map_total_delete in IH'.
    assert (foldr (λ b acc, default 0 (delete a m !! b) + acc) 0 l =
            foldr (λ b acc, default 0 (m !! b) + acc) 0 l) as Heq.
    { clear -Ha. induction l as [|b l IH]; [done|]. apply not_elem_of_cons in Ha as [Hab Ha]. simpl.
      rewrite lookup_delete_ne by done. by rewrite IH. }
    rewrite Heq in IH'. destruct (m !! a); simpl in *; (assert (∀ b v, delete a m !! b = Some v → 0 <= v)
      as Hd by (intros b v [_ Hb]%lookup_delete_Some; by eapply Hm)); specialize (IH' Hd); lia.
Qed.

Lemma sum_of_le_supply s l : token_inv s → NoDup l → sum_of s l <= s_total_supply s.
Proof. intros (Hb & <- & _) Hl. by apply keys_total. Qed.

Lemma sum_of_nonneg s l : token_inv s → 0 <= sum_of s l.
Proof.
  intros Hs. induction l as [|a l IH]; simpl; [lia|]. pose proof (balance_nonneg s a Hs). lia.
Qed.

Lemma weight_sum s v l w :
  token_inv s → 0 <= w → w + sum_of s (delegating_to s v l) <= i128_max →
  foldl (λ weight d, if bool_decide (delegation s d = Some v)
                     then saturating_add weight (balance s d) else weight) w l =
    w + sum_of s (delegating_to s v l).
Proof.
  intros Hs. revert w. induction l as [|d l IH]; intros w Hw Hle; simpl; [lia|].
  unfold delegating_to in *. rewrite filter_cons in *.
  destruct (decide (delegation s d = Some v)) as [Hd|Hd].
  - rewrite bool_decide_true by done. simpl in *. pose proof (balance_nonneg s d Hs).
    pose proof (sum_of_nonneg s (filter (λ d, delegation s d = Some v) l) Hs).
    assert (saturating_add w (balance s d) = w + balance s d) as -> by (unfold saturating_add; lia).
    rewrite IH by lia. lia.
  - rewrite bool_decide_false by done. by apply IH.
Qed.

(** What a call does to the balance of an account and to the supply. *)
Definition balance_change (k : Call) (a : address) : Z :=
  match k with
  | Transfer f t n | TransferFrom _ f t n => (if decide (a = t) then n else 0) - (if decide (a = f) then n else 0)
  | Mint _ t n => if decide (a = t) then n else 0
  | Burn _ f n | BurnSelf f n => - (if decide (a = f) then n else 0)
  | _ => 0
  end.
Definition supply_change (k : Call) : Z :=
  match k with Mint _ _ n => n | Burn _ _ n | BurnSelf _ n => - n | _ => 0 end.

Lemma balance_same s s' a : balances s' = balances s → balance s' a = balance s a.
Proof. unfold balance. by intros ->. Qed.

Lemma moved_balance s from to n a :
  let s1 := set_balance from (balance s from - n) s in
  balance (set_balance to (balance s1 to + n) s1) a =
    balance s a + ((if decide (a = to) then n else 0) - (if decide (a = from) then n else 0)).
Proof. intros s1. unfold s1. rewrite !balance_set_balance. repeat case_decide; subst; done || lia. Qed.

Lemma transfer_effect c from to n s s' a :
  transfer c from to n s = Ok s' →
  balance s' a = balance s a + ((if decide (a = to) then n else 0) - (if decide (a = from) then n else 0)) ∧
  s_total_supply s' = s_total_supply s.
Proof.
  intros (_ & Ha & Hbal & ->)%transfer_Ok. split; [|done].
  destruct (decide (from = to)) as [->|Hne]; [rewrite (balance_same s) by done; repeat case_decide; lia|].
  rewrite <- moved_balance. by apply balance_same.
Qed.

Lemma exec_effect c k s s' a :
  s_initialized s = true → exec c k s = Ok s' →
  balance s' a = balance s a + balance_change k a ∧
  s_total_supply s' = s_total_supply s + supply_change k.
Proof.
  intros Hinit H.
  destruct k as [ad n nm sy d|f t n|sp f t n|o sp n e|ad t n|ad f n|o n|o d|o|ad n|p|ad|ad];
    cbn [exec balance_change supply_change] in *.
  1: call_simpl H initialize; congruence.
  3: call_simpl H approve. 4: call_simpl H mint. 5: call_simpl H burn. 6: call_simpl H burn_self.
  7: call_simpl H delegate. 8: call_simpl H undelegate. 9: call_simpl H propose_admin.
  10: call_simpl H accept_admin. 11: call_simpl H pause. 12: call_simpl H unpause.
  3,7-12: split; [rewrite Z.add_0_r; by apply balance_same | cbn; lia].
  - destruct (transfer_effect _ _ _ _ _ _ a H) as [-> ->]. split; lia.
  - apply transfer_from_Ok in H as (_ & Ha & _ & _ & Hbal & ->). split; [|lia].
    rewrite <- moved_balance. by apply balance_same.
  - split; [|done]. change (balance (publish _ ?x)) with (balance x). rewrite balance_set_balance.
    change (balance (set_total_supply _ s)) with (balance s). repeat case_decide; subst; done || lia.
  - apply burn_from_Ok in Hr3 as [_ ->]. split; [|cbn; lia].
    change (balance (publish _ ?x)) with (balance x). rewrite balance_set_balance.
    change (balance (set_total_supply _ s)) with (balance s). repeat case_decide; subst; done || lia.
  - apply burn_from_Ok in Hr1 as [_ ->]. split; [|cbn; lia].
    change (balance (publish _ ?x)) with (balance x). rewrite balance_set_balance.
    change (balance (set_total_supply _ s)) with (balance s). repeat case_decide; subst; done || lia.
Qed.

(** ** Properties *)

(** C5. The supply is conserved: after any history of calls, by anyone, with any
    authorisations and in any ledger, where the initial supply is not negative,
    the balances are not negative and add up to the total supply, which is an
    i128; so no balance exceeds the supply. *)
Theorem token_supply_conserved (l : list (Ctx * Call)) :
  Forall (λ ck, sound_call ck.2) l →
  let s := steps l empty in
  map_total (λ _ v, v) (balances s) = s_total_supply s ∧ s_total_supply s <= i128_max ∧
  ∀ a, 0 <= balance s a <= s_total_supply s.
Proof.
  intros Hl s. destruct (steps_wf l empty Hl empty_wf) as [Hinv _]. fold s in Hinv.
  pose proof Hinv as (_ & Hs & Hm). split_and!; [done|done|].
  intros a. split; [by apply balance_nonneg | by apply balance_le_supply].
Qed.

(** C11. Nobody loses tokens without consent: when a call lowers an account's
    balance after the initialisation, the account has authorised it, or a spender
    has within an allowance that shrinks by as much, or it is a burn authorised
    by the administrator. *)
Theorem debits_are_authorised (c : Ctx) (k : Call) (s s' : TokenStorage) (a : address) :
  s_initialized s = true → exec c k s = Ok s' → balance s' a < balance s a →
  authorized c a = true ∨
  (∃ spender to n, k = TransferFrom spender a to n ∧ authorized c spender = true ∧
     balance s a - balance s' a = n ∧ allowance c s' a spender = allowance c s a spender - n ∧
     0 <= allowance c s' a spender) ∨
  (∃ admin n, k = Burn admin a n ∧ s_admin s = Some admin ∧ authorized c admin = true).
Proof.
  intros Hinit H Hlt. destruct (exec_effect c k s s' a Hinit H) as [He _]. rewrite He in Hlt.
  destruct k as [ad n nm sy d|f t n|sp f t n|o sp n e|ad t n|ad f n|o n|o d|o|ad n|p|ad|ad];
    cbn [exec balance_change] in *; try lia.
  - apply transfer_Ok in H as (Hau & Hn & _). left. repeat case_decide; subst; done || lia.
  - apply transfer_from_Ok in H as (Hau & Hn & Hle & Hal & _). right; left. exists sp, t, n.
    repeat case_decide; subst; try lia. split_and!; done || lia.
  - call_simpl H mint. case_decide; lia.
  - call_simpl H burn. right; right. exists ad, n. case_decide; subst; done || lia.
  - call_simpl H burn_self. left. case_decide; subst; done || lia.
Qed.

(** The error a transfer gives, in the order the code checks. *)
Definition transfer_error (c : Ctx) (from : address) (amount : Z) (s : TokenStorage)
    : option (failure ContractError) :=
  if negb (authorized c from) then Some Trap
  else if s_paused s then Some (err ContractPaused)
  else if amount <=? 0 then Some (err InvalidAmount)
  else if balance s from <? amount then Some (err InsufficientBalance)
  else None.

(** A transfer never overflows: in a state the token can reach it fails
    only for want of authorisation, when paused, for an amount that is not
    positive or for want of balance, with the error for the first of these; else
    it succeeds and moves exactly the amount. *)
Theorem transfer_total (c : Ctx) (from to : address) (amount : Z) (s : TokenStorage) :
  token_wf s →
  match transfer_error c from amount s with
  | Some e => transfer c from to amount s = Err e
  | None => ∃ s', transfer c from to amount s = Ok s' ∧
      ∀ a, balance s' a = balance s a + balance_change (Transfer from to amount) a
  end.
Proof.
  intros [Hinv _]. unfold transfer_error, transfer, require_auth, assert_not_paused, validate_amount.
  destruct (authorized c from); [|done]. destruct (s_paused s); [done|].
  cbn [ensure negb mbind res_bind].
  destruct (Z.ltb_spec 0 amount), (Z.leb_spec amount 0); try lia; [|done].
  cbn [ensure mbind res_bind]. destruct (Z.ltb_spec (balance s from) amount); [done|].
  cbn [ensure negb mbind res_bind]. case_bool_decide as Hft.
  { exists s. split; [done|]. intros a. cbn [balance_change]. subst. lia. }
  pose proof (balance_nonneg s from Hinv). pose proof (balance_le_supply s from Hinv).
  pose proof Hinv as (_ & _ & Hmax).
  assert (balance s to <= s_total_supply s - balance s from) as Hroom.
  { pose proof (sum_of_le_supply s [to; from] Hinv) as Hsum. simpl in Hsum.
    enough (NoDup [to; from]) by (specialize (Hsum ltac:(done)); lia).
    constructor; [set_solver|]. apply NoDup_singleton. }
  pose proof (balance_nonneg s to Hinv).
  unfold sub_i128, add_i128.
  assert (in_i128 (balance s from - amount) = true) as -> by (apply in_i128_spec; lia).
  cbn [mbind res_bind]. rewrite balance_set_balance, decide_False by done.
  assert (in_i128 (balance s to + amount) = true) as -> by (apply in_i128_spec; lia).
  eexists. split; [reflexivity|]. intros a. cbn [balance_change].
  rewrite <- moved_balance. apply balance_same. cbn [publish balances].
  by rewrite balance_set_balance, decide_False by done.
Qed.

(** The delegated weight is the sum it should be: for accounts listed once,
    the voter not among them, it is the voter's balance and those of the listed
    accounts that delegate to the voter, it never saturates and is at most the
    supply. The accounts are the caller's choice, though: listing one twice
    counts it twice, and an account that has delegated keeps the weight of its
    own balance, so that both it and its delegate are given it. *)
Theorem delegated_weight_exact (s : TokenStorage) (voter : address) (delegators : list address) :
  token_wf s → NoDup delegators → voter ∉ delegators →
  get_delegated_weight s voter delegators
    = balance s voter + sum_of s (delegating_to s voter delegators) ∧
  0 <= get_delegated_weight s voter delegators <= s_total_supply s ∧
  (∀ d, delegation s d = Some voter → balance s voter + 2 * balance s d <= i128_max →
     get_delegated_weight s voter [d; d] = balance s voter + 2 * balance s d ∧
     get_delegated_weight s d [] = balance s d).
Proof.
  intros [Hinv _] Hnd Hv. pose proof (balance_nonneg s voter Hinv).
  assert (balance s voter + sum_of s (delegating_to s voter delegators) <= s_total_supply s) as Hle.
  { apply (sum_of_le_supply s (voter :: delegating_to s voter delegators) Hinv).
    constructor; [|by apply NoDup_filter]. by intros [_ ?]%list_elem_of_filter. }
  pose proof Hinv as (_ & _ & Hmax). pose proof (sum_of_nonneg s (delegating_to s voter delegators) Hinv).
  assert (get_delegated_weight s voter delegators =
    balance s voter + sum_of s (delegating_to s voter delegators)) as Heq
    by (apply weight_sum; [done|done|lia]).
  split_and!; [done|lia|lia|]. intros d Hd Hm. split; [|done].
  unfold get_delegated_weight. rewrite weight_sum; [|done|done|];
    unfold delegating_to; rewrite !filter_cons_True by done; rewrite filter_nil; simpl; lia.
Qed.

(** The theorems on a token with two accounts, one delegating to the other. *)
Definition everyone (n : Z) : Ctx := {| sequence := n; timestamp := 0; authorized _ := true |}.
Definition sample_history : list (Ctx * Call) :=
  [(everyone 1, Initialize (js "GADMIN") 1000 (js "CosmosVote") (js "VOTE") 7);
   (everyone 2, Transfer (js "GADMIN") (js "GALICE") 300);
   (everyone 3, Delegate (js "GALICE") (js "GADMIN"));
   (everyone 4, Approve (js "GALICE") (js "GBOB") 50 90)].
Definition sample_token : TokenStorage := steps sample_history empty.

Lemma sample_sound : Forall (λ ck, sound_call ck.2) sample_history.
Proof. repeat constructor; vm_compute; discriminate. Qed.

Lemma token_supply_conserved_witness :
  map_total (λ _ v, v) (balances sample_token) = 1000 ∧ balance sample_token (js "GALICE") <= 1000.
Proof.
  destruct (token_supply_conserved sample_history sample_sound) as (Hs & _ & Ha).
  split; [exact Hs | exact (proj2 (Ha (js "GALICE")))].
Defined.

Lemma debits_are_authorised_witness :
  let s' := step (everyone 5, TransferFrom (js "GBOB") (js "GALICE") (js "GADMIN") 20) sample_token in
  balance s' (js "GALICE") = 280 ∧ allowance (everyone 5) s' (js "GALICE") (js "GBOB") = 30 ∧
  (authorized (everyone 5) (js "GALICE") = true ∨
   (∃ spender to n, TransferFrom (js "GBOB") (js "GALICE") (js "GADMIN") 20 =
        TransferFrom spender (js "GALICE") to n ∧ authorized (everyone 5) spender = true ∧
      balance sample_token (js "GALICE") - balance s' (js "GALICE") = n ∧
      allowance (everyone 5) s' (js "GALICE") spender =
        allowance (everyone 5) sample_token (js "GALICE") spender - n ∧
      0 <= allowance (everyone 5) s' (js "GALICE") spender) ∨
   (∃ admin n, TransferFrom (js "GBOB") (js "GALICE") (js "GADMIN") 20 = Burn admin (js "GALICE") n ∧
      s_admin sample_token = Some admin ∧ authorized (everyone 5) admin = true)).
Proof.
  split; [vm_compute; reflexivity|]. split; [vm_compute; reflexivity|].
  apply (debits_are_authorised (everyone 5) (TransferFrom (js "GBOB") (js "GALICE") (js "GADMIN") 20)
    sample_token); vm_compute; reflexivity.
Defined.

Lemma delegated_weight_exact_witness :
  get_delegated_weight sample_token (js "GADMIN") [js "GALICE"; js "GBOB"] = 1000.
Proof.
  refine (eq_trans (proj1 (delegated_weight_exact sample_token (js "GADMIN") [js "GALICE"; js "GBOB"]
    (steps_wf _ _ sample_sound empty_wf) _ _)) _); [| |vm_compute; reflexivity].
  - apply (bool_decide_unpack _). vm_compute. exact I.
  - apply (bool_decide_unpack _). vm_compute. exact I.
Defined.
End Token.
