(* ===== verification/Governance.v ===== *)
(** * The governance contract (contracts/governance/src)

    Proposals with their votes, and the administrator's powers over them, as one
    state. An entry point takes the world it runs in: the context of the call,
    the voting token's answers and the treasury's. Each returns a new state, an
    error of the contract, or a trap.

    lib.rs uses names its types do not declare, and is modelled as far as its
    types go. Left out are the multi-choice vote ([Vote::Choice], for which no
    entry point has an arm, [choices], [winning_choice], [choice_votes]) and the
    three configuration events that events.rs lacks; [cancellation_reason] is kept
    as a field. Here storage entries do not expire and extending their time to
    live has no effect, as storage.rs means it (best-effort); [Rent] adds the lives
    of the entries and shows what becomes of this when the host may refuse. The
    version never changes. [upgrade] is in [Upgrade]. *)
From Stdlib Require Import Ascii String ZArith Lia.
From stdpp Require Import prelude list gmap strings.
From S2P Require Import Prelude JsString Soroban ContractTypes Format Events Token.
Local Open Scope Z_scope.

Module Governance.
Import Soroban ContractTypes ContractEvents.

Notation Vote := Format.VoteType.
Notation ProposalState := Format.ProposalState.
Notation result := (res (failure ContractError)).
Notation err e := (Contract (E := ContractError) e).

(** ** types.rs *)
Inductive TreasuryAsset := Native | TokenAsset (a : address).
Record TreasuryAction := { recipient : address; ta_amount : Z; asset : TreasuryAsset }.

Record Proposal := {
  p_id : Z;
  proposer : address;
  title : jstr;
  description : jstr;
  link : option jstr;
  votes_yes : Z;
  votes_no : Z;
  votes_abstain : Z;
  quorum : Z;
  start_time : Z;
  end_time : Z;
  state : ProposalState;
  snapshot_ledger : Z;
  voter_count : Z;
  treasury_action : option TreasuryAction;
  cancellation_reason : option jstr }.

Record VoteRecord := { vote : Vote; weight : Z }.
Global Instance VoteRecord_eq_dec : EqDecision VoteRecord.
Proof. solve_decision. Defined.

(** ** storage.rs: instance and persistent storage *)
Record Instance := {
  i_admin : option address;
  i_pending_admin : option address;
  i_voting_token : option address;
  i_treasury : option address;
  i_proposal_count : Z;
  i_active_count : Z;
  i_min_balance : Z;
  i_cooldown : Z;
  i_min_quorum_bps : Z;
  i_restrict_admin : bool;
  i_ready : bool;
  i_paused : bool }.

Record GovernanceStorage := {
  instance : Instance;
  proposals : gmap Z Proposal;
  voted : gmap (Z * address) bool;
  vote_records : gmap (Z * address) VoteRecord;
  last_proposal : gmap address Z;
  events : list GovernanceEvents }.

Definition empty : GovernanceStorage := {|
  instance := {| i_admin := None; i_pending_admin := None; i_voting_token := None; i_treasury := None;
    i_proposal_count := 0; i_active_count := 0; i_min_balance := 0; i_cooldown := 0;
    i_min_quorum_bps := 0; i_restrict_admin := false; i_ready := false; i_paused := false |};
  proposals := ∅; voted := ∅; vote_records := ∅; last_proposal := ∅; events := [] |}.

Definition set_roles (adm pend : option address) (i : Instance) : Instance := {|
  i_admin := adm; i_pending_admin := pend; i_voting_token := i_voting_token i; i_treasury := i_treasury i;
  i_proposal_count := i_proposal_count i; i_active_count := i_active_count i;
  i_min_balance := i_min_balance i; i_cooldown := i_cooldown i; i_min_quorum_bps := i_min_quorum_bps i;
  i_restrict_admin := i_restrict_admin i; i_ready := i_ready i; i_paused := i_paused i |}.
Definition set_token (t : option address) (i : Instance) : Instance := {|
  i_admin := i_admin i; i_pending_admin := i_pending_admin i; i_voting_token := t;
  i_treasury := i_treasury i; i_proposal_count := i_proposal_count i; i_active_count := i_active_count i;
  i_min_balance := i_min_balance i; i_cooldown := i_cooldown i; i_min_quorum_bps := i_min_quorum_bps i;
  i_restrict_admin := i_restrict_admin i; i_ready := i_ready i; i_paused := i_paused i |}.
Definition set_counts (count active : Z) (i : Instance) : Instance := {|
  i_admin := i_admin i; i_pending_admin := i_pending_admin i; i_voting_token := i_voting_token i;
  i_treasury := i_treasury i; i_proposal_count := count; i_active_count := active;
  i_min_balance := i_min_balance i; i_cooldown := i_cooldown i; i_min_quorum_bps := i_min_quorum_bps i;
  i_restrict_admin := i_restrict_admin i; i_ready := i_ready i; i_paused := i_paused i |}.
Definition set_limits (min_balance cooldown : Z) (restrict : bool) (i : Instance) : Instance := {|
  i_admin := i_admin i; i_pending_admin := i_pending_admin i; i_voting_token := i_voting_token i;
  i_treasury := i_treasury i; i_proposal_count := i_proposal_count i; i_active_count := i_active_count i;
  i_min_balance := min_balance; i_cooldown := cooldown; i_min_quorum_bps := i_min_quorum_bps i;
  i_restrict_admin := restrict; i_ready := i_ready i; i_paused := i_paused i |}.
Definition set_paused (b : bool) (i : Instance) : Instance := {|
  i_admin := i_admin i; i_pending_admin := i_pending_admin i; i_voting_token := i_voting_token i;
  i_treasury := i_treasury i; i_proposal_count := i_proposal_count i; i_active_count := i_active_count i;
  i_min_balance := i_min_balance i; i_cooldown := i_cooldown i; i_min_quorum_bps := i_min_quorum_bps i;
  i_restrict_admin := i_restrict_admin i; i_ready := i_ready i; i_paused := b |}.

Definition with_instance (f : Instance → Instance) (s : GovernanceStorage) : GovernanceStorage := {|
  instance := f (instance s); proposals := proposals s; voted := voted s;
  vote_records := vote_records s; last_proposal := last_proposal s; events := events s |}.
Definition set_proposal (i : Z) (p : Proposal) (s : GovernanceStorage) : GovernanceStorage := {|
  instance := instance s; proposals := <[i := p]> (proposals s); voted := voted s;
  vote_records := vote_records s; last_proposal := last_proposal s; events := events s |}.
(** A vote's flag and record, written or removed. *)
Definition set_vote (i : Z) (voter : address) (r : option VoteRecord) (s : GovernanceStorage)
    : GovernanceStorage := {|
  instance := instance s; proposals := proposals s;
  voted := <[(i, voter) := bool_decide (r ≠ None)]> (voted s);
  vote_records := match r with
                  | Some r' => <[(i, voter) := r']> (vote_records s)
                  | None => delete (i, voter) (vote_records s)
                  end;
  last_proposal := last_proposal s; events := events s |}.
(** A vote's record alone. *)
Definition set_vote_record (i : Z) (voter : address) (r : VoteRecord) (s : GovernanceStorage)
    : GovernanceStorage := {|
  instance := instance s; proposals := proposals s; voted := voted s;
  vote_records := <[(i, voter) := r]> (vote_records s); last_proposal := last_proposal s;
  events := events s |}.
Definition set_last_proposal_time (a : address) (t : Z) (s : GovernanceStorage) : GovernanceStorage := {|
  instance := instance s; proposals := proposals s; voted := voted s; vote_records := vote_records s;
  last_proposal := <[a := t]> (last_proposal s); events := events s |}.
Definition publish (e : GovernanceEvents) (s : GovernanceStorage) : GovernanceStorage := {|
  instance := instance s; proposals := proposals s; voted := voted s; vote_records := vote_records s;
  last_proposal := last_proposal s; events := events s ++ [e] |}.

Definition has_voted (s : GovernanceStorage) (i : Z) (voter : address) : bool :=
  default false (voted s !! (i, voter)).

(** ** The other contracts, as a call sees them; [None] and [false] are a trap. *)
Record TokenView := {
  tk_balance : address → option Z;
  tk_balance_at : address → Z → option Z;
  tk_total_supply : option Z;
  tk_get_delegation : address → option (option address) }.
Record World := {
  ctx : Ctx;
  token_at : address → TokenView;
  disburse_at : address → TreasuryAction → bool }.

(** ** lib.rs: guards *)
Definition assert_ready (s : GovernanceStorage) : result () :=
  _ ← ensure (i_ready (instance s)) (err NotInitialized);
  ensure (negb (i_paused (instance s))) (err ContractPaused).
Definition assert_admin (s : GovernanceStorage) (caller : address) : result () :=
  admin ← unwrap (i_admin (instance s));
  ensure (bool_decide (admin = caller)) (err NotAdmin).
(** [admin.require_auth()?; assert_admin(&admin)?], the head of every entry point
    of the administrator. *)
Definition admin_call (w : World) (s : GovernanceStorage) (admin : address) : result () :=
  _ ← require_auth (ctx w) admin;
  assert_admin s admin.
Definition get_proposal (s : GovernanceStorage) (i : Z) : result Proposal :=
  ok_or (proposals s !! i) (err ProposalNotFound).
Definition ensure_active (p : Proposal) : result () :=
  ensure (bool_decide (state p = Format.Active)) (err ProposalNotActive).
Definition lift {A} (r : res ContractError A) : result A :=
  match r with Ok a => Ok a | Err e => Err (err e) end.
Definition checked (o : option Z) : result Z := ok_or o (err ArithmeticOverflow).

(** ** lib.rs: proposals *)
Definition initialize (admin voting_token : address) (min_balance cooldown min_bps : Z)
    (restrict : bool) (treasury : option address) (s : GovernanceStorage) : result GovernanceStorage :=
  _ ← ensure (negb (i_ready (instance s))) (err AlreadyInitialized);
  mret (publish (initialized admin voting_token) (with_instance (λ i, {|
    i_admin := Some admin; i_pending_admin := i_pending_admin i; i_voting_token := Some voting_token;
    i_treasury := match treasury with Some t => Some t | None => i_treasury i end;
    i_proposal_count := 0; i_active_count := i_active_count i; i_min_balance := min_balance;
    i_cooldown := cooldown; i_min_quorum_bps := min_bps; i_restrict_admin := restrict;
    i_ready := true; i_paused := false |}) s)).

Definition create_proposal (w : World) (who : address) (ttl desc : jstr) (q duration : Z)
    (lnk : option jstr) (action : option TreasuryAction) (s : GovernanceStorage)
    : result (Z * GovernanceStorage) :=
  _ ← require_auth (ctx w) who;
  _ ← assert_ready s;
  _ ← lift (check_create_args ttl desc lnk q duration);
  let active_count := i_active_count (instance s) in
  _ ← ensure (negb (50 <=? active_count)) (err ProposalsStillActive);
  token ← unwrap (i_voting_token (instance s));
  total_supply ← unwrap (tk_total_supply (token_at w token));
  _ ← ensure (negb (total_supply <? q)) (err QuorumExceedsSupply);
  let bps := i_min_quorum_bps (instance s) in
  _ ← (if 0 <? bps
       then floor ← checked ((λ v, v ÷ 10000) <$> checked_mul total_supply bps);
            ensure (negb (q <? floor)) (err QuorumBelowFloor)
       else mret ());
  let min_balance := i_min_balance (instance s) in
  _ ← (if 0 <? min_balance
       then bal ← unwrap (tk_balance (token_at w token) who);
            ensure (negb (bal <? min_balance)) (err InsufficientBalance)
       else mret ());
  let now := timestamp (ctx w) in
  let cooldown := i_cooldown (instance s) in
  _ ← (if 0 <? cooldown
       then match last_proposal s !! who with
            | Some last => next ← add_u64 last cooldown; ensure (negb (now <? next)) (err ProposalCooldown)
            | None => mret ()
            end
       else mret ());
  let i := i_proposal_count (instance s) in
  ends ← add_u64 now duration;
  let p := {|
    p_id := i; proposer := who; title := ttl; description := desc; link := lnk; votes_yes := 0;
    votes_no := 0; votes_abstain := 0; quorum := q; start_time := now; end_time := ends;
    state := Format.Active; snapshot_ledger := sequence (ctx w); voter_count := 0;
    treasury_action := action; cancellation_reason := None |} in
  count ← add_u64 i 1;
  active ← add_u64 active_count 1;
  mret (i, publish (proposal_created i who ttl q ends)
             (set_last_proposal_time who now
               (with_instance (set_counts count active) (set_proposal i p s)))).

Definition total_votes (p : Proposal) : result Z :=
  checked (checked_add (votes_yes p) (votes_no p) ≫= λ v, checked_add v (votes_abstain p)).

Definition with_texts (ttl desc : jstr) (p : Proposal) : Proposal := {|
  p_id := p_id p; proposer := proposer p; title := ttl; description := desc; link := link p;
  votes_yes := votes_yes p; votes_no := votes_no p; votes_abstain := votes_abstain p;
  quorum := quorum p; start_time := start_time p; end_time := end_time p; state := state p;
  snapshot_ledger := snapshot_ledger p; voter_count := voter_count p;
  treasury_action := treasury_action p; cancellation_reason := cancellation_reason p |}.

Definition amend_proposal (w : World) (who : address) (i : Z) (new_title new_description : jstr)
    (s : GovernanceStorage) : result GovernanceStorage :=
  _ ← require_auth (ctx w) who;
  _ ← assert_ready s;
  p ← get_proposal s i;
  _ ← ensure (bool_decide (proposer p = who)) (err NotProposer);
  _ ← ensure_active p;
  total ← total_votes p;
  _ ← ensure (negb (0 <? total)) (err VotesAlreadyCast);
  _ ← ensure (negb ((utf8_length new_title =? 0) || (128 <? utf8_length new_title))) (err InvalidTitle);
  _ ← ensure (negb ((utf8_length new_description =? 0) || (1024 <? utf8_length new_description)))
        (err InvalidDescription);
  mret (publish (proposal_amended i who (title p) new_title (description p) new_description)
          (set_proposal i (with_texts new_title new_description p) s)).

(** ** lib.rs: voting *)
Definition tally (v : Vote) (p : Proposal) : Z :=
  match v with
  | Format.Yes => votes_yes p | Format.No => votes_no p | Format.Abstain => votes_abstain p
  end.
(** A proposal with one tally and the number of voters replaced. *)
Definition with_tally (v : Vote) (n : Z) (voters : Z) (p : Proposal) : Proposal := {|
  p_id := p_id p; proposer := proposer p; title := title p; description := description p;
  link := link p;
  votes_yes := match v with Format.Yes => n | _ => votes_yes p end;
  votes_no := match v with Format.No => n | _ => votes_no p end;
  votes_abstain := match v with Format.Abstain => n | _ => votes_abstain p end;
  quorum := quorum p; start_time := start_time p; end_time := end_time p; state := state p;
  snapshot_ledger := snapshot_ledger p; voter_count := voters;
  treasury_action := treasury_action p; cancellation_reason := cancellation_reason p |}.

Definition cast_vote (w : World) (voter : address) (i : Z) (v : Vote) (s : GovernanceStorage)
    : result GovernanceStorage :=
  _ ← require_auth (ctx w) voter;
  _ ← assert_ready s;
  p ← get_proposal s i;
  _ ← ensure_active p;
  let now := timestamp (ctx w) in
  _ ← ensure (negb (now <? start_time p)) (err VotingNotStarted);
  _ ← ensure (negb (end_time p <? now)) (err VotingPeriodEnded);
  _ ← ensure (negb (has_voted s i voter)) (err AlreadyVoted);
  _ ← (if i_restrict_admin (instance s)
       then admin ← unwrap (i_admin (instance s));
            ensure (negb (bool_decide (voter = admin ∧ proposer p = admin))) (err AdminVoteRestricted)
       else mret ());
  token ← unwrap (i_voting_token (instance s));
  delegation ← unwrap (tk_get_delegation (token_at w token) voter);
  _ ← ensure (bool_decide (delegation = None)) (err NoVotingPower);
  weight ← unwrap (tk_balance_at (token_at w token) voter (snapshot_ledger p));
  _ ← ensure (negb (weight <=? 0)) (err NoVotingPower);
  n ← checked (checked_add (tally v p) weight);
  voters ← add_u32 (voter_count p) 1;
  mret (publish (vote_cast i voter v weight)
          (set_proposal i (with_tally v n voters p)
            (set_vote i voter (Some {| vote := v; weight := weight |}) s))).

(** The guards [retract_vote] and [change_vote] share. *)
Definition cast_record (w : World) (voter : address) (i : Z) (s : GovernanceStorage)
    : result (Proposal * VoteRecord) :=
  _ ← require_auth (ctx w) voter;
  _ ← assert_ready s;
  p ← get_proposal s i;
  _ ← ensure_active p;
  _ ← ensure (negb (end_time p <? timestamp (ctx w))) (err VotingPeriodEnded);
  _ ← ensure (has_voted s i voter) (err VoteNotFound);
  record ← ok_or (vote_records s !! (i, voter)) (err VoteNotFound);
  mret (p, record).

Definition retract_vote (w : World) (voter : address) (i : Z) (s : GovernanceStorage)
    : result GovernanceStorage :=
  pr ← cast_record w voter i s;
  let '(p, record) := pr in
  n ← sub_i128 (tally (vote record) p) (weight record);
  mret (publish (vote_retracted i voter (weight record))
          (set_proposal i (with_tally (vote record) n (voter_count p) p) (set_vote i voter None s))).

Definition change_vote (w : World) (voter : address) (i : Z) (new_vote : Vote) (s : GovernanceStorage)
    : result GovernanceStorage :=
  pr ← cast_record w voter i s;
  let '(p, record) := pr in
  _ ← ensure (negb (bool_decide (vote record = new_vote))) (err VoteAlreadySame);
  n ← sub_i128 (tally (vote record) p) (weight record);
  let p1 := with_tally (vote record) n (voter_count p) p in
  m ← checked (checked_add (tally new_vote p1) (weight record));
  mret (publish (vote_changed i voter (vote record) new_vote (weight record))
          (set_proposal i (with_tally new_vote m (voter_count p) p1)
            (set_vote_record i voter {| vote := new_vote; weight := weight record |} s))).

(** ** lib.rs: finalisation, execution, cancellation *)
Definition with_state (st : ProposalState) (reason : option jstr) (p : Proposal) : Proposal := {|
  p_id := p_id p; proposer := proposer p; title := title p; description := description p;
  link := link p; votes_yes := votes_yes p; votes_no := votes_no p;
  votes_abstain := votes_abstain p; quorum := quorum p; start_time := start_time p;
  end_time := end_time p; state := st; snapshot_ledger := snapshot_ledger p;
  voter_count := voter_count p; treasury_action := treasury_action p; cancellation_reason := reason |}.

(** A proposal leaves the active ones. *)
Definition drop_active (s : GovernanceStorage) : GovernanceStorage :=
  let active := i_active_count (instance s) in
  if 0 <? active
  then with_instance (set_counts (i_proposal_count (instance s)) (active - 1)) s else s.

Definition finalise (w : World) (i : Z) (s : GovernanceStorage) : result GovernanceStorage :=
  _ ← assert_ready s;
  p ← get_proposal s i;
  _ ← ensure_active p;
  _ ← ensure (negb (timestamp (ctx w) <=? end_time p)) (err VotingStillOpen);
  total ← total_votes p;
  let passed := (quorum p <=? total) && (votes_no p <? votes_yes p) in
  let st := if passed then Format.Passed else Format.Rejected in
  mret (publish (proposal_finalized i st)
          (drop_active (set_proposal i (with_state st (cancellation_reason p) p) s))).

Definition execute (w : World) (admin : address) (i : Z) (s : GovernanceStorage)
    : result GovernanceStorage :=
  _ ← admin_call w s admin;
  p ← get_proposal s i;
  _ ← ensure (bool_decide (state p = Format.Passed)) (err ProposalNotPassed);
  _ ← (match treasury_action p, i_treasury (instance s) with
       | Some action, Some t => ensure (disburse_at w t action) Trap
       | _, _ => mret ()
       end);
  mret (publish (proposal_executed i admin)
          (set_proposal i (with_state Format.Executed (cancellation_reason p) p) s)).

Definition cancel (w : World) (admin : address) (i : Z) (reason : option jstr) (s : GovernanceStorage)
    : result GovernanceStorage :=
  _ ← admin_call w s admin;
  p ← get_proposal s i;
  _ ← ensure_active p;
  mret (publish (proposal_cancelled i admin (voter_count p))
          (drop_active (set_proposal i (with_state Format.Cancelled reason p) s))).

(** ** lib.rs: administration *)
Definition with_quorum (q : Z) (p : Proposal) : Proposal := {|
  p_id := p_id p; proposer := proposer p; title := title p; description := description p;
  link := link p; votes_yes := votes_yes p; votes_no := votes_no p;
  votes_abstain := votes_abstain p; quorum := q; start_time := start_time p;
  end_time := end_time p; state := state p; snapshot_ledger := snapshot_ledger p;
  voter_count := voter_count p; treasury_action := treasury_action p;
  cancellation_reason := cancellation_reason p |}.

Definition update_quorum (w : World) (admin : address) (i : Z) (new_quorum : Z) (s : GovernanceStorage)
    : result GovernanceStorage :=
  _ ← admin_call w s admin;
  _ ← ensure (negb (new_quorum <=? 0)) (err InvalidQuorum);
  token ← unwrap (i_voting_token (instance s));
  supply ← unwrap (tk_total_supply (token_at w token));
  _ ← ensure (negb (supply <? new_quorum)) (err QuorumExceedsSupply);
  p ← get_proposal s i;
  _ ← ensure_active p;
  let window := Z.max 0 (end_time p - start_time p) / 10 in
  limit ← add_u64 (start_time p) window;
  _ ← ensure (negb (limit <? timestamp (ctx w))) (err QuorumUpdateNotAllowed);
  mret (publish (quorum_updated i (quorum p) new_quorum) (set_proposal i (with_quorum new_quorum p) s)).

Definition zero_addr : address := js "GAAAAAAAAAAAAAAAAAAAAAAAAAAAAAAAAAAAAAAAAAAAAAAAAAAAAWHF".

Definition propose_admin (w : World) (admin new_admin : address) (s : GovernanceStorage)
    : result GovernanceStorage :=
  _ ← admin_call w s admin;
  _ ← ensure (negb (bool_decide (new_admin = zero_addr))) (err InvalidNewAdmin);
  mret (publish (admin_transfer_proposed admin new_admin)
          (with_instance (λ i, set_roles (i_admin i) (Some new_admin) i) s)).

Definition update_voting_token (w : World) (admin new_token : address) (s : GovernanceStorage)
    : result GovernanceStorage :=
  _ ← admin_call w s admin;
  _ ← ensure (negb (0 <? i_active_count (instance s))) (err ProposalsStillActive);
  old_token ← unwrap (i_voting_token (instance s));
  mret (publish (voting_token_updated old_token new_token)
          (with_instance (set_token (Some new_token)) s)).

Definition accept_admin (w : World) (pending_admin : address) (s : GovernanceStorage)
    : result GovernanceStorage :=
  _ ← require_auth (ctx w) pending_admin;
  current_pending ← ok_or (i_pending_admin (instance s)) (err NoPendingAdmin);
  _ ← ensure (bool_decide (pending_admin = current_pending)) (err NotPendingAdmin);
  previous_admin ← unwrap (i_admin (instance s));
  mret (publish (admin_transfer_accepted previous_admin pending_admin)
          (with_instance (set_roles (Some pending_admin) None) s)).

Definition cancel_admin_transfer (w : World) (admin : address) (s : GovernanceStorage)
    : result GovernanceStorage :=
  _ ← admin_call w s admin;
  pending ← ok_or (i_pending_admin (instance s)) (err NoPendingAdmin);
  mret (publish (admin_transfer_cancelled admin pending)
          (with_instance (λ i, set_roles (i_admin i) None i) s)).

Definition pause (w : World) (admin : address) (s : GovernanceStorage) : result GovernanceStorage :=
  _ ← admin_call w s admin;
  _ ← ensure (negb (i_paused (instance s))) (err ContractPaused);
  mret (publish (paused admin) (with_instance (set_paused true) s)).
Definition unpause (w : World) (admin : address) (s : GovernanceStorage) : result GovernanceStorage :=
  _ ← admin_call w s admin;
  _ ← ensure (i_paused (instance s)) (err NotPaused);
  mret (publish (unpaused admin) (with_instance (set_paused false) s)).

Definition set_min_proposal_balance (w : World) (admin : address) (new_value : Z) (s : GovernanceStorage)
    : result GovernanceStorage :=
  _ ← admin_call w s admin;
  _ ← ensure (negb (new_value <? 0)) (err InsufficientBalance);
  mret (with_instance (λ i, set_limits new_value (i_cooldown i) (i_restrict_admin i) i) s).
Definition set_proposal_cooldown (w : World) (admin : address) (new_value : Z) (s : GovernanceStorage)
    : result GovernanceStorage :=
  _ ← admin_call w s admin;
  mret (with_instance (λ i, set_limits (i_min_balance i) new_value (i_restrict_admin i) i) s).
Definition set_restrict_admin_vote (w : World) (admin : address) (new_value : bool)
    (s : GovernanceStorage) : result GovernanceStorage :=
  _ ← admin_call w s admin;
  mret (with_instance (λ i, set_limits (i_min_balance i) (i_cooldown i) new_value i) s).

(** ** lib.rs: queries *)
Definition page_limit (limit : Z) : Z := if 20 <? limit then 20 else limit.
(** [(from_id + limit).min(count)] traps when the sum overflows. *)
Definition get_proposals (s : GovernanceStorage) (from_id limit : Z) : result (list Proposal) :=
  last ← add_u64 from_id (page_limit limit);
  let end_ := Z.min last (i_proposal_count (instance s)) in
  mret (omap (λ k, proposals s !! (from_id + Z.of_nat k)) (seq 0 (Z.to_nat (end_ - from_id)))).

(** The loop over the identifiers from [from_id] to the count, [n] of them left. *)
Fixpoint by_state (s : GovernanceStorage) (st : ProposalState) (current limit : Z) (n : nat)
    (acc : list Proposal) : list Proposal :=
  match n with
  | O => acc
  | S n' =>
      if Z.of_nat (length acc) <? limit
      then by_state s st (current + 1) limit n'
             (match proposals s !! current with
              | Some p => if bool_decide (state p = st) then acc ++ [p] else acc
              | None => acc
              end)
      else acc
  end.
Definition get_proposals_by_state (s : GovernanceStorage) (st : ProposalState) (from_id limit : Z)
    : list Proposal :=
  by_state s st from_id (page_limit limit) (Z.to_nat (i_proposal_count (instance s) - from_id)) [].

(** [get_config] traps before the initialisation. *)
Record GovernanceConfig := {
  cfg_admin : address;
  cfg_voting_token : address;
  cfg_min_proposal_balance : Z;
  cfg_proposal_cooldown : Z;
  cfg_restrict_admin_vote : bool;
  cfg_paused : bool }.
Definition get_config (s : GovernanceStorage) : result GovernanceConfig :=
  a ← unwrap (i_admin (instance s));
  t ← unwrap (i_voting_token (instance s));
  mret {| cfg_admin := a; cfg_voting_token := t; cfg_min_proposal_balance := i_min_balance (instance s);
          cfg_proposal_cooldown := i_cooldown (instance s);
          cfg_restrict_admin_vote := i_restrict_admin (instance s); cfg_paused := i_paused (instance s) |}.
Definition proposal_count (s : GovernanceStorage) : Z := i_proposal_count (instance s).
Definition get_admin (s : GovernanceStorage) : result address := unwrap (i_admin (instance s)).
Definition get_pending_admin (s : GovernanceStorage) : option address := i_pending_admin (instance s).

Definition get_vote (s : GovernanceStorage) (i : Z) (voter : address) : result VoteRecord :=
  ok_or (vote_records s !! (i, voter)) (err VoteNotFound).

(** ** Histories of calls *)
Inductive Call :=
| Initialize (admin voting_token : address) (min_balance cooldown min_bps : Z) (restrict : bool)
    (treasury : option address)
| CreateProposal (who : address) (ttl desc : jstr) (q duration : Z) (lnk : option jstr)
    (action : option TreasuryAction)
| AmendProposal (who : address) (i : Z) (new_title new_description : jstr)
| CastVote (voter : address) (i : Z) (v : Vote)
| RetractVote (voter : address) (i : Z)
| ChangeVote (voter : address) (i : Z) (v : Vote)
| Finalise (i : Z)
| Execute (admin : address) (i : Z)
| Cancel (admin : address) (i : Z) (reason : option jstr)
| UpdateQuorum (admin : address) (i : Z) (q : Z)
| ProposeAdmin (admin new_admin : address)
| UpdateVotingToken (admin new_token : address)
| AcceptAdmin (pending_admin : address)
| CancelAdminTransfer (admin : address)
| Pause (admin : address)
| Unpause (admin : address)
| SetMinProposalBalance (admin : address) (v : Z)
| SetProposalCooldown (admin : address) (v : Z)
| SetRestrictAdminVote (admin : address) (v : bool).

Definition exec (w : World) (k : Call) (s : GovernanceStorage) : result GovernanceStorage :=
  match k with
  | Initialize a t mb cd bps r tr => initialize a t mb cd bps r tr s
  | CreateProposal a t d q u l ac => r ← create_proposal w a t d q u l ac s; mret r.2
  | AmendProposal a i t d => amend_proposal w a i t d s
  | CastVote a i v => cast_vote w a i v s
  | RetractVote a i => retract_vote w a i s
  | ChangeVote a i v => change_vote w a i v s
  | Finalise i => finalise w i s
  | Execute a i => execute w a i s
  | Cancel a i r => cancel w a i r s
  | UpdateQuorum a i q => update_quorum w a i q s
  | ProposeAdmin a n => propose_admin w a n s
  | UpdateVotingToken a t => update_voting_token w a t s
  | AcceptAdmin p => accept_admin w p s
  | CancelAdminTransfer a => cancel_admin_transfer w a s
  | Pause a => pause w a s
  | Unpause a => unpause w a s
  | SetMinProposalBalance a v => set_min_proposal_balance w a v s
  | SetProposalCooldown a v => set_proposal_cooldown w a v s
  | SetRestrictAdminVote a v => set_restrict_admin_vote w a v s
  end.

(** A call that fails is rolled back. *)
Definition step (wk : World * Call) (s : GovernanceStorage) : GovernanceStorage :=
  match exec wk.1 wk.2 s with Ok s' => s' | Err _ => s end.
Definition steps (l : list (World * Call)) (s : GovernanceStorage) : GovernanceStorage :=
  foldl (flip step) s l.
End Governance.
