(* ===== verification/GovernanceLife.v ===== *)
(** * The governance contract: what its calls do and what holds of every history

    The effect of each call on the proposals and votes ([effect]) abstracts the
    entry points of Governance.v, which implement it ([exec_core]). The invariant
    ([gov_inv]), the life of a proposal ([moves]) and the theorems are proved on
    the effects, over histories of calls in arbitrary worlds. The last part runs
    the contract against the token of Token.v. *)
From Stdlib Require Import Ascii String ZArith Lia.
From stdpp Require Import prelude list gmap strings.
From S2P Require Import Prelude JsString Soroban ContractTypes Format Events Token Governance.
Local Open Scope Z_scope.

Module GovernanceLife.
Import Soroban ContractTypes ContractEvents Governance.

(** ** What a call does

    The part of the state that decides proposals, and the effect of each call on
    it: the contract's protocol without its checks' order, its messages and its
    arithmetic. *)
Record Core := {
  c_proposals : gmap Z Proposal;
  c_voted : gmap (Z * address) bool;
  c_records : gmap (Z * address) VoteRecord;
  c_count : Z;
  c_active : Z;
  c_ready : bool }.

Definition core (s : GovernanceStorage) : Core := {|
  c_proposals := proposals s; c_voted := voted s; c_records := vote_records s;
  c_count := i_proposal_count (instance s); c_active := i_active_count (instance s);
  c_ready := i_ready (instance s) |}.

Definition with_counts (n a : Z) (c : Core) : Core := {|
  c_proposals := c_proposals c; c_voted := c_voted c; c_records := c_records c;
  c_count := n; c_active := a; c_ready := c_ready c |}.
Definition put (i : Z) (p : Proposal) (c : Core) : Core := {|
  c_proposals := <[i := p]> (c_proposals c); c_voted := c_voted c; c_records := c_records c;
  c_count := c_count c; c_active := c_active c; c_ready := c_ready c |}.
(** A vote's flag and record, both. *)
Definition write_vote (i : Z) (a : address) (r : option VoteRecord) (c : Core) : Core := {|
  c_proposals := c_proposals c; c_voted := <[(i, a) := bool_decide (r ≠ None)]> (c_voted c);
  c_records := match r with
               | Some r' => <[(i, a) := r']> (c_records c)
               | None => delete (i, a) (c_records c)
               end;
  c_count := c_count c; c_active := c_active c; c_ready := c_ready c |}.

Definition one_less (a : Z) : Z := if 0 <? a then a - 1 else a.

(** The fields of a proposal that no call changes. *)
Definition fixed_fields (p : Proposal) :=
  (p_id p, proposer p, link p, start_time p, end_time p, snapshot_ledger p, treasury_action p).
Definition admin_of (w : World) (s : GovernanceStorage) (a : address) : Prop :=
  i_admin (instance s) = Some a ∧ authorized (ctx w) a = true.
Definition in_window (w : World) (p : Proposal) : Prop := timestamp (ctx w) <= end_time p.

Inductive effect (w : World) (s : GovernanceStorage) : Call → Core → Prop :=
| e_none k : effect w s k (core s)
| e_initialize a t mb cd bps r tr :
    i_ready (instance s) = false →
    effect w s (Initialize a t mb cd bps r tr) {| c_proposals := proposals s; c_voted := voted s;
      c_records := vote_records s; c_count := 0; c_active := i_active_count (instance s); c_ready := true |}
| e_create who ttl desc q d l ac p :
    i_ready (instance s) = true → c_active (core s) < 50 → authorized (ctx w) who = true → p_id p = c_count (core s) → proposer p = who →
    state p = Format.Active → (∀ v, tally v p = 0) →
    0 < q → quorum p = q → start_time p = timestamp (ctx w) → end_time p = timestamp (ctx w) + d →
    snapshot_ledger p = sequence (ctx w) →
    effect w s (CreateProposal who ttl desc q d l ac)
      (with_counts (c_count (core s) + 1) (c_active (core s) + 1) (put (c_count (core s)) p (core s)))
| e_edit k i p p' :
    proposals s !! i = Some p → state p = Format.Active → state p' = Format.Active →
    fixed_fields p' = fixed_fields p → (∀ v, tally v p' = tally v p) →
    effect w s k (put i p' (core s))
| e_cast a i v p n token :
    authorized (ctx w) a = true → proposals s !! i = Some p → state p = Format.Active →
    start_time p <= timestamp (ctx w) → in_window w p → has_voted s i a = false →
    i_voting_token (instance s) = Some token →
    tk_get_delegation (token_at w token) a = Some None →
    tk_balance_at (token_at w token) a (snapshot_ledger p) = Some n → 0 < n →
    effect w s (CastVote a i v) (put i (with_tally v (tally v p + n) (voter_count p + 1) p)
      (write_vote i a (Some {| vote := v; weight := n |}) (core s)))
| e_retract a i p r :
    authorized (ctx w) a = true → proposals s !! i = Some p → state p = Format.Active →
    in_window w p → vote_records s !! (i, a) = Some r →
    effect w s (RetractVote a i)
      (put i (with_tally (vote r) (tally (vote r) p - weight r) (voter_count p) p)
        (write_vote i a None (core s)))
| e_change a i v p r :
    authorized (ctx w) a = true → proposals s !! i = Some p → state p = Format.Active →
    in_window w p → has_voted s i a = true → vote_records s !! (i, a) = Some r → vote r ≠ v →
    effect w s (ChangeVote a i v)
      (put i (with_tally v (tally v p + weight r) (voter_count p)
               (with_tally (vote r) (tally (vote r) p - weight r) (voter_count p) p))
        (write_vote i a (Some {| vote := v; weight := weight r |}) (core s)))
| e_finalise i p :
    proposals s !! i = Some p → state p = Format.Active → end_time p < timestamp (ctx w) →
    effect w s (Finalise i) (with_counts (c_count (core s)) (one_less (c_active (core s)))
      (put i (with_state (if (quorum p <=? votes_yes p + votes_no p + votes_abstain p)
                             && (votes_no p <? votes_yes p) then Format.Passed else Format.Rejected)
                (cancellation_reason p) p) (core s)))
| e_cancel a i reason p :
    admin_of w s a → proposals s !! i = Some p → state p = Format.Active →
    effect w s (Cancel a i reason) (with_counts (c_count (core s)) (one_less (c_active (core s)))
      (put i (with_state Format.Cancelled reason p) (core s)))
| e_execute a i p :
    admin_of w s a → proposals s !! i = Some p → state p = Format.Passed →
    effect w s (Execute a i) (put i (with_state Format.Executed (cancellation_reason p) p) (core s)).

(** *** What the guards say when they let a call through *)
Lemma admin_call_Ok w s a u : admin_call w s a = Ok u → admin_of w s a.
Proof.
  unfold admin_call, assert_admin, unwrap, require_auth. intros H. res_simpl H. bool_prop.
  subst. by split.
Qed.
Lemma cast_record_Ok w a i s p r :
  cast_record w a i s = Ok (p, r) →
  authorized (ctx w) a = true ∧ proposals s !! i = Some p ∧ state p = Format.Active ∧ in_window w p ∧
  has_voted s i a = true ∧ vote_records s !! (i, a) = Some r.
Proof.
  unfold cast_record, require_auth, assert_ready, get_proposal, ensure_active. intros H. res_simpl H.
  unfold in_window. bool_prop. split_and!; done.
Qed.
Lemma checked_add_Ok a b n : checked (checked_add a b) = Ok n → n = a + b ∧ in_i128 n = true.
Proof.
  unfold checked, checked_add. intros H%ok_or_Ok_inv.
  destruct (in_i128 (a + b)) eqn:Hin; by simplify_eq.
Qed.
Lemma total_votes_Ok p n : total_votes p = Ok n → n = votes_yes p + votes_no p + votes_abstain p.
Proof.
  unfold total_votes, checked, checked_add. intros H%ok_or_Ok_inv.
  destruct (in_i128 (votes_yes p + votes_no p)); [|done]. simpl in H.
  destruct (in_i128 _); by simplify_eq.
Qed.
Lemma lift_Ok {A} (r : res ContractError A) a : lift r = Ok a → r = Ok a.
Proof. destruct r; [by intros [= ->] | done]. Qed.
Ltac gov_guards :=
  repeat match goal with
  | H : admin_call _ _ _ = Ok _ |- _ => apply admin_call_Ok in H
  | H : cast_record _ _ _ _ = Ok _ |- _ => apply cast_record_Ok in H as (? & ? & ? & ? & ? & ?)
  | H : checked (checked_add _ _) = Ok _ |- _ => apply checked_add_Ok in H as [-> ?]
  | H : total_votes _ = Ok _ |- _ => apply total_votes_Ok in H as ->
  | H : sub_i128 _ _ = Ok _ |- _ => apply sub_i128_Ok in H as [-> ?]
  | H : add_u64 _ _ = Ok _ |- _ => apply add_u64_Ok in H as [-> ?]
  | H : add_u32 _ _ = Ok _ |- _ => apply add_u32_Ok in H as ->
  | H : lift _ = Ok _ |- _ => apply lift_Ok in H
  | H : get_proposal _ _ = Ok _ |- _ => apply ok_or_Ok_inv in H
  | H : unwrap _ = Ok _ |- _ => apply ok_or_Ok_inv in H
  | H : require_auth _ _ = Ok _ |- _ => apply ensure_Ok_inv in H
  | H : ensure_active _ = Ok _ |- _ => apply ensure_Ok_inv in H
  end; bool_prop.
Ltac gov_simpl H op := unfold op in H; res_simpl H; gov_guards.

Lemma core_drop_active s :
  core (drop_active s) = with_counts (c_count (core s))
    (one_less (c_active (core s))) (core s).
Proof. unfold drop_active, one_less, core, with_counts. cbn. by destruct (0 <? _). Qed.

(** Writing the record of a vote whose flag is set writes both. *)
Lemma core_change s i a e p r :
  has_voted s i a = true →
  core (publish e (set_proposal i p (set_vote_record i a r s))) = put i p (write_vote i a (Some r) (core s)).
Proof.
  unfold has_voted. intros Hv. unfold core, put, write_vote. cbn. f_equal. symmetry. apply insert_id.
  destruct (voted s !! (i, a)); simpl in *; congruence.
Qed.
Lemma tally_other v v' n m p : v' ≠ v → tally v (with_tally v' n m p) = tally v p.
Proof. by destruct v, v'. Qed.

Lemma exec_core w k s s' : exec w k s = Ok s' → effect w s k (core s').
Proof.
  intros H. destruct k; cbn [exec] in H.
  - gov_simpl H initialize. by apply e_initialize.
  - res_simpl H. gov_simpl Hr create_proposal. unfold assert_ready in Hr1. res_simpl Hr1. unfold check_create_args in Hr2. res_simpl Hr2. bool_prop.
    cbn [snd]. eapply e_create with (p := Build_Proposal _ _ _ _ _ _ _ _ _ _ _ _ _ _ _ _); try done. by intros [].
  - gov_simpl H amend_proposal. by eapply e_edit with (p := r1).
  - gov_simpl H cast_vote. subst. eapply e_cast; done.
  - gov_simpl H retract_vote. destruct r as [p r]. res_simpl H. gov_guards. by apply e_retract.
  - gov_simpl H change_vote. destruct r as [p r]. res_simpl H. gov_guards.
    rewrite core_change by done. rewrite tally_other by done. by apply e_change.
  - gov_simpl H finalise.
    change (core (publish _ ?x)) with (core x). rewrite core_drop_active. by refine (e_finalise w s i _ _ _ _).
  - gov_simpl H execute. by eapply e_execute.
  - gov_simpl H cancel. change (core (publish _ ?x)) with (core x). rewrite core_drop_active.
    by refine (e_cancel w s admin i reason _ _ _ _).
  - gov_simpl H update_quorum. by eapply e_edit with (p := r4).
  - gov_simpl H propose_admin. exact (e_none w s _).
  - gov_simpl H update_voting_token. exact (e_none w s _).
  - gov_simpl H accept_admin. exact (e_none w s _).
  - gov_simpl H cancel_admin_transfer. exact (e_none w s _).
  - gov_simpl H pause. exact (e_none w s _).
  - gov_simpl H unpause. exact (e_none w s _).
  - gov_simpl H set_min_proposal_balance. exact (e_none w s _).
  - gov_simpl H set_proposal_cooldown. exact (e_none w s _).
  - gov_simpl H set_restrict_admin_vote. exact (e_none w s _).
Qed.

(** ** The invariant

    What the records of the votes on a proposal add up to. *)
Definition counted (c : Core) (i : Z) (v : Vote) : Z :=
  map_total (λ k r, if bool_decide (k.1 = i ∧ vote r = v) then weight r else 0) (c_records c).
Definition is_active (p : Proposal) : Z := match state p with Format.Active => 1 | _ => 0 end.

Record gov_inv (c : Core) : Prop := {
  inv_ids i p : c_proposals c !! i = Some p → 0 <= i < c_count c ∧ p_id p = i;
  inv_tallies i p v : c_proposals c !! i = Some p → tally v p = counted c i v;
  inv_flags i a : default false (c_voted c !! (i, a)) = bool_decide (is_Some (c_records c !! (i, a)));
  inv_records i a r :
    c_records c !! (i, a) = Some r → 0 < weight r ∧ is_Some (c_proposals c !! i);
  inv_active : c_active c = map_total (λ _ p, is_active p) (c_proposals c);
  inv_fresh : c_ready c = false → c_proposals c = ∅;
  inv_count : 0 <= c_count c }.

Lemma active_positive c i p :
  gov_inv c → c_proposals c !! i = Some p → state p = Format.Active →
  one_less (c_active c) = c_active c - 1.
Proof.
  intros Hc Hi Hp. rewrite (inv_active c Hc).
  assert (1 <= map_total (λ _ p, is_active p) (c_proposals c)) as Hm.
  { transitivity (default 0 (is_active <$> c_proposals c !! i)).
    - rewrite Hi. cbn. unfold is_active. by rewrite Hp.
    - apply (map_total_member (λ _ p, is_active p)). intros j q _. unfold is_active. destruct (state q); lia. }
  unfold one_less. destruct (Z.ltb_spec 0 (map_total (λ _ p, is_active p) (c_proposals c))); lia.
Qed.

(** Replacing a proposal by another with the tallies the votes now add up to. *)
Lemma put_inv c c' i p p' :
  gov_inv c → c_proposals c !! i = Some p → c_proposals c' = <[i := p']> (c_proposals c) →
  p_id p' = p_id p → c_count c' = c_count c → c_ready c' = c_ready c →
  c_active c' = c_active c - is_active p + is_active p' →
  (∀ v, tally v p' = counted c' i v) → (∀ j v, j ≠ i → counted c' j v = counted c j v) →
  (∀ j a, default false (c_voted c' !! (j, a)) = bool_decide (is_Some (c_records c' !! (j, a)))) →
  (∀ j a r, c_records c' !! (j, a) = Some r → 0 < weight r ∧ (j = i ∨ is_Some (c_records c !! (j, a)))) →
  gov_inv c'.
Proof.
  intros Hc Hi Hps Hid Hn Hr Ha Ht Ho Hf Hw. destruct (inv_ids c Hc i p Hi) as [Hib Hpi]. split.
  - intros j q. rewrite Hps, Hn. intros [[<- <-]|[_ Hj]]%lookup_insert_Some; [by rewrite Hid|].
    by apply (inv_ids c).
  - intros j q v. rewrite Hps. intros [[<- <-]|[Hj Hq]]%lookup_insert_Some; [done|].
    rewrite Ho by done. by apply inv_tallies.
  - done.
  - intros j a r Hja. destruct (Hw j a r Hja) as [Hpos Hor]. split; [done|]. rewrite Hps.
    destruct (decide (i = j)) as [->|Hne]; [rewrite lookup_insert_eq; eauto|].
    rewrite lookup_insert_ne by done. destruct Hor as [->|[r' Hr']]; [done|].
    by eapply (inv_records c).
  - rewrite Ha, Hps, map_total_insert, Hi, (inv_active c Hc). cbn. lia.
  - rewrite Hr. intros Hrdy. by rewrite (inv_fresh c Hc Hrdy), lookup_empty in Hi.
  - rewrite Hn. by apply inv_count.
Qed.

(** The same when no vote is written. *)
Lemma put_same_votes c i p p' n a :
  gov_inv c → c_proposals c !! i = Some p → p_id p' = p_id p → (∀ v, tally v p' = tally v p) →
  n = c_count c → a = c_active c - is_active p + is_active p' →
  gov_inv (with_counts n a (put i p' c)).
Proof.
  intros Hc Hi Hid Ht -> ->. eapply (put_inv c _ i p p'); try done.
  - intros v. rewrite Ht. exact (inv_tallies _ Hc i p v Hi).
  - apply (inv_flags c Hc).
  - intros j b r Hr. split; [by eapply (inv_records c)|eauto].
Qed.

Lemma counted_write c i a r j v :
  counted (write_vote i a r c) j v = counted c j v
    - default 0 ((λ o, if bool_decide (i = j ∧ vote o = v) then weight o else 0) <$> c_records c !! (i, a))
    + default 0 ((λ o, if bool_decide (i = j ∧ vote o = v) then weight o else 0) <$> r).
Proof.
  unfold counted, write_vote. cbn [c_records]. destruct r as [r|].
  - rewrite map_total_insert. done.
  - rewrite map_total_delete. change (default 0 (_ <$> None)) with 0. rewrite Z.add_0_r. done.
Qed.

Lemma counted_other c i a r j v : j ≠ i → counted (write_vote i a r c) j v = counted c j v.
Proof.
  intros Hj. rewrite counted_write.
  assert (∀ o : option VoteRecord,
    default 0 ((λ o, if bool_decide (i = j ∧ vote o = v) then weight o else 0) <$> o) = 0) as Hz.
  { intros [o|]; [|done]. cbn. rewrite bool_decide_false by naive_solver. done. }
  rewrite !Hz. lia.
Qed.

(** What an optional record adds to a tally. *)
Definition weight_for (v : Vote) (r : option VoteRecord) : Z :=
  match r with Some o => if bool_decide (vote o = v) then weight o else 0 | None => 0 end.
Lemma weight_if (i : Z) v r :
  default 0 ((λ o, if bool_decide (i = i ∧ vote o = v) then weight o else 0) <$> r) = weight_for v r.
Proof. destruct r as [o|]; [|done]. cbn. do 2 case_bool_decide; naive_solver. Qed.

Lemma weight_for_Some v r : weight_for v (Some r) = if decide (vote r = v) then weight r else 0.
Proof. cbn. case_bool_decide; by case_decide. Qed.
Lemma tally_with_tally v v' n m p :
  tally v' (with_tally v n m p) = if decide (v = v') then n else tally v' p.
Proof. by destruct v, v'. Qed.
Ltac tallies :=
  rewrite ?tally_with_tally, ?weight_for_Some; cbn [vote weight weight_for];
  repeat case_decide; subst; (done || lia).

(** The same when a vote on the proposal is written or removed. *)
Lemma put_vote c i a p p' r :
  gov_inv c → c_proposals c !! i = Some p → fixed_fields p' = fixed_fields p → state p' = state p →
  (∀ r', r = Some r' → 0 < weight r') →
  (∀ v, tally v p' = tally v p - weight_for v (c_records c !! (i, a)) + weight_for v r) →
  gov_inv (put i p' (write_vote i a r c)).
Proof.
  intros Hc Hi Hfix Hst Hpos Ht. eapply (put_inv c _ i p p'); try done.
  - unfold fixed_fields in Hfix. by simplify_eq.
  - unfold is_active. rewrite Hst. cbn. lia.
  - intros v. change (counted (put i p' ?c) i v) with (counted c i v).
    rewrite Ht, counted_write, (inv_tallies c Hc i p v Hi), !weight_if. done.
  - intros j v Hj. change (counted (put i p' ?c) j v) with (counted c j v). by apply counted_other.
  - intros j b. cbn [put write_vote c_voted c_records]. destruct (decide ((i, a) = (j, b))) as [<-|Hne].
    + rewrite lookup_insert_eq. destruct r; [rewrite lookup_insert_eq | rewrite lookup_delete_eq]; done.
    + rewrite lookup_insert_ne by done.
      destruct r; [rewrite lookup_insert_ne by done | rewrite lookup_delete_ne by done]; apply (inv_flags c Hc).
  - intros j b r'. cbn [put write_vote c_records]. destruct r as [r|].
    + intros [[[= <- <-] <-]|[_ Hr]]%lookup_insert_Some; [split; eauto|].
      split; [by eapply (inv_records c) | eauto].
    + intros [_ Hr]%lookup_delete_Some. split; [by eapply (inv_records c) | eauto].
Qed.

(** The next identifier is free, and nobody has voted on it. *)
Lemma no_such_proposal c : gov_inv c → c_proposals c !! c_count c = None.
Proof.
  intros Hc. destruct (c_proposals c !! c_count c) as [p|] eqn:Hp; [|done].
  pose proof (inv_ids c Hc _ p Hp). lia.
Qed.
Lemma no_votes c i v : gov_inv c → c_proposals c !! i = None → counted c i v = 0.
Proof.
  intros Hc Hi. transitivity (map_total (λ _ _, 0) (c_records c)).
  - apply map_total_ext. intros [j a] r Hr. rewrite bool_decide_false; [done|]. cbn. intros [-> _].
    destruct (inv_records c Hc i a r Hr) as [_ [p Hp]]. congruence.
  - generalize (c_records c). intros m. induction m as [|k r m Hk IH] using map_ind; [done|].
    by rewrite map_total_new, IH.
Qed.

Lemma effect_inv w s k c' : gov_inv (core s) → effect w s k c' → gov_inv c'.
Proof.
  intros Hc He.
  inversion He as [|a t mb cd bps r tr Hr|who ttl desc q d l ac p Hrdy Hcap Hau Hid Hp Hst Ht Hq1 Hq2 Hs1 Hs2 Hs3
    |k' i p p' Hi Hs1 Hs2 Hf Ht|a i v p n tok Hau Hi Hst Hw1 Hw2 Hv Htok Hd Hb Hn|a i p r Hau Hi Hst Hw Hr
    |a i v p r Hau Hi Hst Hw Hv Hr Hne|i p Hi Hst Hend|a i reason p Ha Hi Hst|a i p Ha Hi Hst]; subst; clear He.
  - done.
  - pose proof (inv_fresh _ Hc Hr) as He. cbn in He. split; cbn; try done.
    + intros i p. by rewrite He, lookup_empty.
    + intros i p v. by rewrite He, lookup_empty.
    + apply (inv_flags _ Hc).
    + apply (inv_records _ Hc).
    + apply (inv_active _ Hc).
  - pose proof (inv_count _ Hc) as Hn. split; cbn.
    + intros j p'. intros [[<- <-]|[_ Hj]]%lookup_insert_Some; [cbn in *; lia|].
      destruct (inv_ids _ Hc j p' Hj). cbn in *. lia.
    + intros j p' v. intros [[<- <-]|[_ Hj]]%lookup_insert_Some; [|exact (inv_tallies _ Hc j p' v Hj)].
      rewrite Ht. symmetry. apply (no_votes (core s)); [done|]. by apply (no_such_proposal (core s)).
    + apply (inv_flags _ Hc).
    + intros j b r Hr. destruct (inv_records _ Hc j b r Hr) as [Hw He]. split; [done|].
      apply lookup_insert_is_Some'. by right.
    + rewrite map_total_insert. pose proof (no_such_proposal (core s) Hc) as Hfree. cbn in Hfree. rewrite Hfree.
      pose proof (inv_active _ Hc) as Ha. cbn in Ha. rewrite <- Ha. unfold is_active. rewrite Hst. cbn. lia.
    + congruence.
    + cbn in Hn. lia.
  - eapply (put_inv (core s) _ i p p'); try done.
    + unfold fixed_fields in Hf. by simplify_eq.
    + unfold is_active. rewrite Hs1, Hs2. cbn. lia.
    + intros v. rewrite Ht. exact (inv_tallies _ Hc i p v Hi).
    + apply (inv_flags _ Hc).
    + intros j b r Hr. split; [by eapply (inv_records _ Hc)|eauto].
  - eapply put_vote; try done.
    + by intros ? [= <-].
    + intros v'. pose proof (inv_flags _ Hc i a) as Hf.
      change (default false (c_voted (core s) !! (i, a))) with (has_voted s i a) in Hf. rewrite Hv in Hf.
      destruct (c_records (core s) !! (i, a)); [done|]. tallies.
  - eapply put_vote; try done. intros v'. cbn [core c_records]. rewrite Hr. tallies.
  - eapply put_vote; try done.
    + intros ? [= <-]. exact (proj1 (inv_records _ Hc i a r Hr)).
    + intros v'. cbn [core c_records]. rewrite Hr. tallies.
  - eapply put_same_votes; try done. rewrite (active_positive (core s) i p Hc Hi Hst). unfold is_active.
    rewrite Hst. cbn [with_state state].
    destruct (_ && _); cbn; lia.
  - eapply put_same_votes; try done. rewrite (active_positive (core s) i p Hc Hi Hst). unfold is_active.
    rewrite Hst. cbn. lia.
  - pose proof (put_same_votes (core s) i p (with_state Format.Executed (cancellation_reason p) p)) as Hput.
    eapply Hput; try done. unfold is_active. rewrite Hst. cbn. lia.
Qed.

Lemma step_inv wk s : gov_inv (core s) → gov_inv (core (step wk s)).
Proof.
  intros Hs. unfold step. destruct (exec wk.1 wk.2 s) as [s'|] eqn:He; [|done].
  eapply effect_inv; [exact Hs|]. by apply exec_core.
Qed.
Lemma empty_inv : gov_inv (core empty).
Proof. split; try done; cbn; intros *; rewrite ?lookup_empty; done. Qed.
Lemma steps_inv l : gov_inv (core (steps l empty)).
Proof. unfold steps. apply (fold_preserves step (λ s, gov_inv (core s)) step_inv), empty_inv. Qed.
Lemma steps_app l1 l2 s : steps (l1 ++ l2) s = steps l2 (steps l1 s).
Proof. apply foldl_app. Qed.

(** ** The life of a proposal

    What a call may do to a proposal, which keeps its fixed fields. *)
Definition moves (w : World) (s : GovernanceStorage) (k : Call) (i : Z) (p p' : Proposal) : Prop :=
  match state p, state p' with
  | Format.Active, Format.Active => True
  | Format.Active, Format.Passed => k = Finalise i ∧ end_time p < timestamp (ctx w) ∧
      quorum p <= votes_yes p + votes_no p + votes_abstain p ∧ votes_no p < votes_yes p
  | Format.Active, Format.Rejected => k = Finalise i ∧ end_time p < timestamp (ctx w) ∧
      ¬ (quorum p <= votes_yes p + votes_no p + votes_abstain p ∧ votes_no p < votes_yes p)
  | Format.Active, Format.Cancelled => ∃ a reason, k = Cancel a i reason ∧ admin_of w s a
  | Format.Passed, Format.Executed => ∃ a, k = Execute a i ∧ admin_of w s a
  | _, _ => p' = p
  end.
(** Once it is not active its votes do not change. *)
Definition frozen_votes (p p' : Proposal) : Prop :=
  (state p ≠ Format.Active ∨ state p' ≠ Format.Active) →
  (quorum p', votes_yes p', votes_no p', votes_abstain p', title p', description p') =
  (quorum p, votes_yes p, votes_no p, votes_abstain p, title p, description p).

Lemma moves_refl w s k i p : moves w s k i p p.
Proof. unfold moves. by destruct (state p). Qed.

Lemma put_lookup (P : Proposal → Prop) (m : gmap Z Proposal) i j p p' :
  m !! j = Some p → P p → (j = i → P p') → ∃ q, <[i := p']> m !! j = Some q ∧ P q.
Proof.
  intros Hj Hp Hp'. destruct (decide (i = j)) as [->|Hne].
  - exists p'. rewrite lookup_insert_eq. auto.
  - exists p. by rewrite lookup_insert_ne.
Qed.

Lemma effect_moves w s k c' i p :
  gov_inv (core s) → effect w s k c' → proposals s !! i = Some p →
  ∃ p', c_proposals c' !! i = Some p' ∧ fixed_fields p' = fixed_fields p ∧
    moves w s k i p p' ∧ frozen_votes p p'.
Proof.
  intros Hc He Hi.
  set (P := λ p', fixed_fields p' = fixed_fields p ∧ moves w s k i p p' ∧ frozen_votes p p').
  assert (P p) as Hsame by (split_and!; [done | apply moves_refl | by intros _]).
  inversion He as [|a t mb cd bps r tr Hr|who ttl desc q d l ac q' Hrdy Hcap Hau Hid Hp Hst Ht Hq1 Hq2 Hs1 Hs2 Hs3
    |k' j q q' Hj Hs1 Hs2 Hf Ht|a j v q n tok Hau Hj Hst Hw1 Hw2 Hv Htok Hd Hb Hn|a j q r Hau Hj Hst Hw Hr
    |a j v q r Hau Hj Hst Hw Hv Hr Hne|j q Hj Hst Hend|a j reason q Ha Hj Hst|a j q Ha Hj Hst]; subst; clear He;
    cbn [with_counts put write_vote core c_proposals].
  1,2: by exists p.
  1: { apply (put_lookup P _ _ _ p); [done|done|]. intros ->.
       pose proof (no_such_proposal (core s) Hc) as Hno. cbn in Hno, Hi. congruence. }
  all: apply (put_lookup P _ _ _ p); [done|done|]; intros ->; assert (q = p) as -> by congruence.
  all: split_and!; try done; unfold moves, frozen_votes; cbn [with_tally with_state state] in *.
  all: try rewrite Hst; try rewrite Hs1; try rewrite Hs2; try done; try (intros [?|?]; congruence); eauto.
  destruct (_ && _) eqn:Hpass; bool_prop; (split_and!; [done|done|..]); try done.
  intros [? ?]. apply andb_false_iff in Hpass as [?|?]; bool_prop; lia.
Qed.

Lemma step_moves wk s i p :
  gov_inv (core s) → proposals s !! i = Some p →
  ∃ p', proposals (step wk s) !! i = Some p' ∧ fixed_fields p' = fixed_fields p ∧
    moves wk.1 s wk.2 i p p' ∧ frozen_votes p p'.
Proof.
  intros Hc Hi. unfold step. destruct (exec wk.1 wk.2 s) as [s'|] eqn:He.
  - destruct (effect_moves _ _ _ _ i p Hc (exec_core _ _ _ _ He) Hi) as (p' & ? & ? & ? & ?).
    by exists p'.
  - exists p. split_and!; [done|done|apply moves_refl|by intros _].
Qed.

(** A proposal that is no longer active is never active again. *)
Lemma closed_stays l s i p :
  gov_inv (core s) → proposals s !! i = Some p → state p ≠ Format.Active →
  ∃ p', proposals (steps l s) !! i = Some p' ∧ state p' ≠ Format.Active ∧
    fixed_fields p' = fixed_fields p ∧
    (∀ v, tally v p' = tally v p).
Proof.
  revert s p. induction l as [|wk l IH]; intros s p Hc Hi Hp; [by exists p|].
  destruct (step_moves wk s i p Hc Hi) as (p1 & H1 & Hf1 & Hm & Hfr).
  assert (state p1 ≠ Format.Active) as Hp1.
  { unfold moves in Hm.
    destruct (state p) eqn:Hst, (state p1) eqn:Hst1; try done; subst; congruence. }
  destruct (IH (step wk s) p1 (step_inv _ _ Hc) H1 Hp1) as (p' & H' & Hs' & Hf' & Ht').
  exists p'. split_and!; [done|done|congruence|]. intros v. rewrite Ht'.
  specialize (Hfr (or_introl Hp)). destruct v; cbn; congruence.
Qed.

(** The sum of the votes for every choice, by voter. *)
Definition cast_weight (c : Core) (i : Z) : Z :=
  map_total (λ k r, if bool_decide (k.1 = i) then weight r else 0) (c_records c).

Lemma cast_weight_tallies c i p :
  gov_inv c → c_proposals c !! i = Some p →
  votes_yes p + votes_no p + votes_abstain p = cast_weight c i.
Proof.
  intros Hc Hi. pose proof (λ v, inv_tallies c Hc i p v Hi) as Ht.
  change (tally Format.Yes p + tally Format.No p + tally Format.Abstain p = cast_weight c i).
  rewrite !Ht. unfold counted, cast_weight. rewrite <- !map_total_add. apply map_total_ext.
  intros [j a] r _. cbn [fst]. destruct (decide (j = i)) as [->|Hne].
  - rewrite (bool_decide_true (i = i)) by done.
    destruct (vote r); repeat case_bool_decide; try lia; exfalso; naive_solver.
  - rewrite !bool_decide_false by naive_solver. done.
Qed.

(** A sum over the votes on one proposal is a sum over its voters, each once. *)
Lemma cast_weight_voters c i (f : address → Z) (bound : Z) :
  (∀ a r, c_records c !! (i, a) = Some r → weight r = f a) →
  (∀ l, NoDup l → foldr (λ a n, f a + n) 0 l <= bound) →
  cast_weight c i <= bound.
Proof.
  intros Hf Hb. unfold cast_weight.
  assert (∃ l, NoDup l ∧ (∀ a, a ∈ l → is_Some (c_records c !! (i, a))) ∧
    map_total (λ k r, if bool_decide (k.1 = i) then weight r else 0) (c_records c) =
    foldr (λ a n, f a + n) 0 l) as (l & Hl & _ & ->); [|by apply Hb].
  revert Hf. generalize (c_records c). clear Hb. intros m.
  induction m as [|[j a] r m Hk IH] using map_ind; intros Hf.
  { exists []. split_and!; [constructor | by intros a Ha%elem_of_nil | done]. }
  destruct IH as (l & Hl & Hin & Hs).
  { intros b q Hb. apply Hf. rewrite lookup_insert_ne; [done|congruence]. }
  rewrite map_total_new, Hs by done. cbn [fst]. case_bool_decide as Hj; [subst j|].
  - exists (a :: l). split_and!.
    + constructor; [|done]. intros Ha. destruct (Hin a Ha) as [q Hq]. congruence.
    + intros b [->|Hb]%elem_of_cons; [rewrite lookup_insert_eq; eauto|].
      rewrite lookup_insert_ne; [by apply Hin|]. intros [= ->]. destruct (Hin b Hb). congruence.
    + cbn [foldr]. rewrite (Hf a r); [done|]. apply lookup_insert_eq.
  - exists l. split_and!; [done| |lia]. intros b Hb. rewrite lookup_insert_ne; [by apply Hin|congruence].
Qed.

(** At most fifty proposals are active. *)
Lemma active_capped l : c_active (core (steps l empty)) <= 50.
Proof.
  unfold steps. apply (fold_preserves step (λ s, c_active (core s) <= 50)); [|done]. intros [w k] s Hs.
  unfold step. cbn [fst snd]. destruct (exec w k s) as [s'|] eqn:He; [|done]. apply exec_core in He.
  revert He. generalize (core s'). intros c' He. inversion He; subst; cbn in *; try lia.
  all: unfold one_less; destruct (0 <? _); lia.
Qed.

(** A call that changes the record of a vote. *)
Lemma effect_records w s k c' i a :
  effect w s k c' → c_records c' !! (i, a) ≠ vote_records s !! (i, a) →
  authorized (ctx w) a = true ∧
  ∃ p, proposals s !! i = Some p ∧ state p = Format.Active ∧ in_window w p ∧
  match c_records c' !! (i, a) with
  | None => k = RetractVote a i
  | Some r =>
      (k = CastVote a i (vote r) ∧ has_voted s i a = false ∧
       ∃ token, i_voting_token (instance s) = Some token ∧
         tk_balance_at (token_at w token) a (snapshot_ledger p) = Some (weight r)) ∨
      (k = ChangeVote a i (vote r) ∧ weight <$> vote_records s !! (i, a) = Some (weight r))
  end.
Proof.
  intros He Hne.
  inversion He as [| | |k' j p p' Hj Hs1 Hs2 Hf Ht|b j v p n tok Hau Hj Hst Hw1 Hw2 Hv Htok Hd Hb Hn
    |b j p r Hau Hj Hst Hw Hr|b j v p r Hau Hj Hst Hw Hv Hr Hvv| | |]; subst; try done.
  all: cbn [put write_vote c_records core] in *;
    destruct (decide ((j, b) = (i, a))) as [[= -> ->]|Hoth];
    [|by rewrite ?lookup_insert_ne, ?lookup_delete_ne in Hne].
  all: split; [done|]; exists p; rewrite ?lookup_insert_eq, ?lookup_delete_eq; split_and!; try done.
  - left. split_and!; [done..|]. by exists tok.
  - right. by rewrite Hr.
Qed.

Lemma effect_ready w s k c' : effect w s k c' → c_ready (core s) = true → c_ready c' = true.
Proof. by intros []. Qed.
Lemma step_ready wk s : i_ready (instance s) = true → i_ready (instance (step wk s)) = true.
Proof.
  intros Hr. unfold step. destruct (exec wk.1 wk.2 s) as [s'|] eqn:He; [|done].
  exact (effect_ready _ _ _ _ (exec_core _ _ _ _ He) Hr).
Qed.

(** With a token that answers from fixed snapshots, the recorded weights are those
    of the snapshots. *)
Section snapshots.
  Context (snap : Z → address → Z).

Definition answers_from (w : World) : Prop :=
  ∀ token a ledger n, tk_balance_at (token_at w token) a ledger = Some n → n = snap ledger a.
Definition snap_inv (s : GovernanceStorage) : Prop :=
  ∀ i p a r, proposals s !! i = Some p → vote_records s !! (i, a) = Some r →
    weight r = snap (snapshot_ledger p) a.

Lemma step_snap wk s : answers_from wk.1 → gov_inv (core s) → snap_inv s → snap_inv (step wk s).
Proof.
  intros Hw Hc Hs. unfold step. destruct (exec wk.1 wk.2 s) as [s'|] eqn:He; [|done].
  apply exec_core in He. intros i p' a r Hi Hr.
  assert (∀ p, proposals s !! i = Some p → snapshot_ledger p' = snapshot_ledger p) as Hsnap.
  { intros p Hp. destruct (effect_moves _ _ _ _ i p Hc He Hp) as (q & Hq & Hf & _).
    cbn in Hq. unfold fixed_fields in Hf. by simplify_eq. }
  destruct (decide (vote_records s' !! (i, a) = vote_records s !! (i, a))) as [Heq|Hne].
  - rewrite Heq in Hr. destruct (inv_records _ Hc i a r Hr) as [_ [p Hp]]. cbn in Hp.
    rewrite (Hsnap p Hp). by eapply Hs.
  - destruct (effect_records _ _ _ _ i a He Hne) as (_ & p & Hp & _ & _ & Hk).
    cbn [core c_records] in Hk. rewrite Hr in Hk. rewrite (Hsnap p Hp).
    destruct Hk as [(_ & _ & tok & _ & Hb)|[_ Hold]]; [by eapply Hw|].
    destruct (vote_records s !! (i, a)) as [r0|] eqn:Hr0; [|done]. injection Hold as <-. by eapply Hs.
Qed.

Lemma steps_snap l : Forall (λ wk, answers_from wk.1) l → snap_inv (steps l empty).
Proof.
  intros Hl. assert (∀ s, gov_inv (core s) ∧ snap_inv s → snap_inv (steps l s)) as H.
  { induction Hl as [|wk l Hw _ IH]; intros s [Hc Hs]; [done|]. apply IH.
    split; [by apply step_inv | by apply step_snap]. }
  apply H. split; [apply empty_inv|]. intros i p a r Hi. cbn in Hi. by rewrite lookup_empty in Hi.
Qed.
End snapshots.

(** Finalisation in a state that allows it, and after it. *)
Lemma finalise_Ok w i s p :
  gov_inv (core s) → i_ready (instance s) = true → i_paused (instance s) = false →
  proposals s !! i = Some p → state p = Format.Active → end_time p < timestamp (ctx w) →
  cast_weight (core s) i <= i128_max →
  ∃ s', finalise w i s = Ok s' ∧
    proposals s' !! i = Some (with_state (if (quorum p <=? votes_yes p + votes_no p + votes_abstain p)
      && (votes_no p <? votes_yes p) then Format.Passed else Format.Rejected) (cancellation_reason p) p).
Proof.
  intros Hc Hr Hp Hi Hst Hend Hmax. rewrite <- (cast_weight_tallies _ i p Hc Hi) in Hmax.
  assert (∀ v, 0 <= tally v p) as Hpos.
  { intros v. rewrite (inv_tallies _ Hc i p v Hi). apply map_total_nonneg. intros [j a] r Hja.
    destruct (inv_records _ Hc j a r Hja). case_bool_decide; lia. }
  pose proof (Hpos Format.Yes). pose proof (Hpos Format.No). pose proof (Hpos Format.Abstain). cbn [tally] in *.
  assert (total_votes p = Ok (votes_yes p + votes_no p + votes_abstain p)) as Ht.
  { unfold total_votes, checked, checked_add. rewrite (proj2 (in_i128_spec _)) by lia. simpl.
    by rewrite (proj2 (in_i128_spec _)) by lia. }
  unfold finalise, assert_ready, get_proposal, ensure_active. rewrite Hr, Hp, Hi. cbn [ensure negb mbind res_bind ok_or].
  rewrite bool_decide_true by done. cbn [ensure mbind res_bind].
  destruct (Z.leb_spec (timestamp (ctx w)) (end_time p)); [lia|]. cbn [ensure negb mbind res_bind].
  rewrite Ht. cbn [mbind res_bind]. eexists. split; [reflexivity|].
  unfold drop_active. destruct (0 <? _); apply lookup_insert_eq.
Qed.

Lemma finalise_closed l w i s p :
  gov_inv (core s) → proposals s !! i = Some p → state p ≠ Format.Active → i_ready (instance s) = true →
  finalise w i (steps l s) = Err (err ProposalNotActive) ∨ finalise w i (steps l s) = Err (err ContractPaused).
Proof.
  intros Hc Hi Hp Hr. destruct (closed_stays l s i p Hc Hi Hp) as (p' & Hi' & Hp' & _).
  assert (i_ready (instance (steps l s)) = true) as Hr'
    by (unfold steps; by apply (fold_preserves step (λ s, i_ready (instance s) = true) step_ready)).
  unfold finalise, assert_ready, get_proposal, ensure_active. rewrite Hr', Hi'. cbn [ensure mbind res_bind].
  destruct (i_paused _); [by right|]. left. cbn [ensure negb mbind res_bind ok_or].
  by rewrite bool_decide_false.
Qed.

(** ** Properties *)

(** C3. The tallies are the votes: after any history of calls, in any worlds, each
    tally of each proposal is the sum of the weights recorded for that choice; an
    address has voted exactly when its vote is on record, with a positive weight
    and for a proposal that exists; identifiers are those below the count; and the
    counter of active proposals, which limits new ones, counts them and is at
    most fifty. *)
Theorem tally_matches_votes (l : list (World * Call)) :
  let s := steps l empty in
  (∀ i p, proposals s !! i = Some p → 0 <= i < i_proposal_count (instance s) ∧ p_id p = i ∧
     ∀ v, tally v p = map_total (λ k r, if bool_decide (k.1 = i ∧ vote r = v) then weight r else 0)
                        (vote_records s)) ∧
  (∀ i a, has_voted s i a = true ↔
     ∃ r, get_vote s i a = Ok r ∧ 0 < weight r ∧ is_Some (proposals s !! i)) ∧
  i_active_count (instance s)
    = map_total (λ _ p, if bool_decide (state p = Format.Active) then 1 else 0) (proposals s) ∧
  i_active_count (instance s) <= 50.
Proof.
  intros s. pose proof (steps_inv l) as Hc. fold s in Hc. split_and!.
  - intros i p Hi. destruct (inv_ids _ Hc i p Hi) as [Hb Hp]. split_and!; [lia|cbn in *; lia|done|].
    intros v. exact (inv_tallies _ Hc i p v Hi).
  - intros i a. pose proof (inv_flags _ Hc i a) as Hf. pose proof (inv_records _ Hc i a) as Hr. cbn in Hf, Hr.
    unfold has_voted, get_vote. rewrite Hf, bool_decide_eq_true. split.
    + intros [r Hr1]. exists r. rewrite Hr1. destruct (Hr r Hr1). done.
    + intros (r & Hr1 & _). apply ok_or_Ok_inv in Hr1. eauto.
  - transitivity (map_total (λ _ p, is_active p) (proposals s)); [exact (inv_active _ Hc)|].
    apply map_total_ext. intros _ p _. unfold is_active. destruct (state p); done.
  - exact (active_capped l).
Qed.

(** C4. A proposal lives as intended: whatever the call, it stays with its
    proposer, dates, snapshot and treasury action; only a finalisation after its
    end makes an active one passed, when the quorum is reached and yes leads, or
    else rejected; only the administrator, with authorisation, cancels an active
    one or executes a passed one; and a rejected, cancelled or executed one never
    changes. Once it is not active its votes, quorum and texts never change. *)
Theorem proposal_lifecycle (l : list (World * Call)) (w : World) (k : Call) (i : Z) (p : Proposal) :
  let s := steps l empty in
  proposals s !! i = Some p →
  ∃ p', proposals (step (w, k) s) !! i = Some p' ∧ fixed_fields p' = fixed_fields p ∧
    moves w s k i p p' ∧ frozen_votes p p'.
Proof. intros s Hi. apply (step_moves (w, k)); [apply steps_inv | done]. Qed.

(** C10. A vote belongs to its voter: a call changes the vote of an address on a
    proposal only when that address has authorised it, and is its own cast,
    retraction or change, while the proposal is active and its end is not past;
    the weight of a cast is what the voting token gives for the proposal's
    snapshot, and a change keeps the weight. *)
Theorem votes_belong_to_voters (w : World) (k : Call) (s s' : GovernanceStorage) (i : Z) (a : address) :
  exec w k s = Ok s' → vote_records s' !! (i, a) ≠ vote_records s !! (i, a) →
  authorized (ctx w) a = true ∧
  ∃ p, proposals s !! i = Some p ∧ state p = Format.Active ∧ in_window w p ∧
  match vote_records s' !! (i, a) with
  | None => k = RetractVote a i
  | Some r =>
      (k = CastVote a i (vote r) ∧ has_voted s i a = false ∧
       ∃ token, i_voting_token (instance s) = Some token ∧
         tk_balance_at (token_at w token) a (snapshot_ledger p) = Some (weight r)) ∨
      (k = ChangeVote a i (vote r) ∧ weight <$> vote_records s !! (i, a) = Some (weight r))
  end.
Proof. intros He. exact (effect_records w s k (core s') i a (exec_core _ _ _ _ He)). Qed.

(** C6. Finalisation decides, once: in any reachable state that is not paused, an
    active proposal whose end is past is finalised, as long as the votes add up to
    an i128; it is then passed if the recorded weights reach its quorum and
    those for yes exceed those for no, and rejected otherwise; and after that,
    whatever is called, every finalisation of it fails. *)
Theorem finalise_decides (l : list (World * Call)) (w : World) (i : Z) (p : Proposal) :
  let s := steps l empty in
  proposals s !! i = Some p → state p = Format.Active → i_paused (instance s) = false →
  end_time p < timestamp (ctx w) → cast_weight (core s) i <= i128_max →
  ∃ s' p', finalise w i s = Ok s' ∧ proposals s' !! i = Some p' ∧
    state p' = (if decide (quorum p <= cast_weight (core s) i ∧
                           counted (core s) i Format.No < counted (core s) i Format.Yes)
                then Format.Passed else Format.Rejected) ∧
    ∀ l' w', finalise w' i (steps l' s') = Err (err ProposalNotActive) ∨
             finalise w' i (steps l' s') = Err (err ContractPaused).
Proof.
  intros s Hi Hst Hp Hend Hmax. pose proof (steps_inv l) as Hc. fold s in Hc.
  assert (i_ready (instance s) = true) as Hr.
  { destruct (i_ready (instance s)) eqn:Hr; [done|]. pose proof (inv_fresh _ Hc Hr) as He. cbn in He.
    by rewrite He, lookup_empty in Hi. }
  destruct (finalise_Ok w i s p Hc Hr Hp Hi Hst Hend Hmax) as (s' & Hf & Hi').
  eexists s', _. split_and!; [done|exact Hi'|..].
  - cbn [with_state state]. rewrite <- (cast_weight_tallies _ i p Hc Hi).
    pose proof (λ v, inv_tallies _ Hc i p v Hi) as Ht. rewrite <- !Ht. cbn [tally].
    case_decide as Hd; [destruct Hd as [H1 H2]; apply Z.leb_le in H1; apply Z.ltb_lt in H2; by rewrite H1, H2|].
    destruct (_ && _) eqn:Hb; [|done]. exfalso. bool_prop. lia.
  - intros l' w'. assert (gov_inv (core s')) as Hc'.
    { eapply effect_inv; [exact Hc|]. exact (exec_core w (Finalise i) s s' Hf). }
    apply (finalise_closed l' w' i s' _ Hc' Hi'); [cbn; by destruct (_ && _)|].
    exact (effect_ready _ _ _ _ (exec_core w (Finalise i) s s' Hf) Hr).
Qed.

(** With a token that answers from snapshots, votes never exceed the supply:
    when the balances the token gives for a ledger are fixed and those of
    distinct accounts add up to at most the supply, then so do all the votes on a
    proposal, after any history of calls, and so no tally can overflow. *)
Theorem votes_within_supply (snap : Z → address → Z) (supply : Z) (l : list (World * Call))
    (i : Z) (p : Proposal) :
  (∀ ledger accounts, NoDup accounts → foldr (λ a n, snap ledger a + n) 0 accounts <= supply) →
  Forall (λ wk, answers_from snap wk.1) l →
  proposals (steps l empty) !! i = Some p →
  votes_yes p + votes_no p + votes_abstain p <= supply.
Proof.
  intros Hsum Hl Hi. pose proof (steps_inv l) as Hc. rewrite (cast_weight_tallies _ i p Hc Hi).
  apply (cast_weight_voters _ i (snap (snapshot_ledger p))); [|apply Hsum].
  intros a r Hr. by eapply (steps_snap snap l Hl i).
Qed.

(** ** With the token of this repository *)
Definition token_view (t : Token.TokenStorage) : TokenView := {|
  tk_balance a := Some (Token.balance t a);
  tk_balance_at a ledger := Some (Token.balance_at t a ledger);
  tk_total_supply := Some (Token.s_total_supply t);
  tk_get_delegation a := Some (Token.delegation t a) |}.
(** A world at a time where everybody authorises. *)
Definition world (t : Token.TokenStorage) (now : Z) : World := {|
  ctx := {| sequence := now; timestamp := now; authorized _ := true |};
  token_at _ := token_view t; disburse_at _ _ := true |}.

Definition first_holder : Token.TokenStorage :=
  Token.steps [(Token.everyone 1, Token.Initialize (js "GALICE") 1000 (js "CosmosVote") (js "VOTE") 7)]
    Token.empty.
Definition second_holder : Token.TokenStorage :=
  Token.step (Token.everyone 30, Token.Transfer (js "GALICE") (js "GBOB") 1000) first_holder.
Definition opening : list (World * Call) :=
  [(world first_holder 10, Initialize (js "GADMIN") (js "CTOKEN") 0 0 0 false None);
   (world first_holder 20, CreateProposal (js "GALICE") (js "Title") (js "Description") 600 100 None None)].
Definition voted_once : list (World * Call) :=
  opening ++ [(world first_holder 25, CastVote (js "GALICE") 0 Format.Yes)].
Definition voted_twice : list (World * Call) :=
  voted_once ++ [(world second_holder 35, CastVote (js "GBOB") 0 Format.No)].

(** The same tokens vote twice: the token's [balance_at] ignores the ledger it
    is asked about, so the contract's snapshot is no snapshot. A holder of the
    whole supply of a thousand votes, transfers it, and the receiver votes
    with it too: two thousand votes on one proposal, with the supply unchanged,
    where the contract's comments rule both out. *)
Theorem tokens_vote_twice :
  let s := steps voted_twice empty in
  Token.transfer (Token.everyone 30) (js "GALICE") (js "GBOB") 1000 first_holder = Ok second_holder ∧
  Token.s_total_supply first_holder = 1000 ∧ Token.s_total_supply second_holder = 1000 ∧
  ∃ p, proposals s !! 0 = Some p ∧ votes_yes p = 1000 ∧ votes_no p = 1000 ∧ snapshot_ledger p = 20 ∧
    Token.balance_at first_holder (js "GBOB") (snapshot_ledger p) = 0.
Proof.
  split; [vm_compute; reflexivity|]. split; [vm_compute; reflexivity|]. split; [vm_compute; reflexivity|].
  eexists. split; [vm_compute; reflexivity|]. split_and!; reflexivity.
Qed.

(** The theorems on these histories. *)
Definition the_proposal (l : list (World * Call)) : Proposal :=
  match proposals (steps l empty) !! 0 with
  | Some p => p
  | None => Build_Proposal 0 [] [] [] None 0 0 0 0 0 0 Format.Active 0 0 None None
  end.

Lemma tally_matches_votes_witness :
  tally Format.Yes (the_proposal voted_twice)
    = map_total (λ k r, if bool_decide (k.1 = 0 ∧ vote r = Format.Yes) then weight r else 0)
        (vote_records (steps voted_twice empty)) ∧
  votes_yes (the_proposal voted_twice) = 1000.
Proof.
  split; [|vm_compute; reflexivity].
  refine (proj2 (proj2 (proj1 (tally_matches_votes voted_twice) 0 _ _)) Format.Yes).
  vm_compute. reflexivity.
Defined.

Lemma proposal_lifecycle_witness :
  state (the_proposal (voted_once ++ [(world first_holder 121, Finalise 0)])) = Format.Passed ∧
  ∃ p', proposals (step (world first_holder 121, Finalise 0) (steps voted_once empty)) !! 0 = Some p' ∧
    fixed_fields p' = fixed_fields (the_proposal voted_once) ∧
    moves (world first_holder 121) (steps voted_once empty) (Finalise 0) 0 (the_proposal voted_once) p' ∧
    frozen_votes (the_proposal voted_once) p'.
Proof.
  split; [vm_compute; reflexivity|].
  apply (proposal_lifecycle voted_once (world first_holder 121) (Finalise 0) 0 (the_proposal voted_once)).
  vm_compute. reflexivity.
Defined.

Lemma votes_belong_to_voters_witness :
  authorized (ctx (world first_holder 25)) (js "GALICE") = true.
Proof.
  refine (proj1 (votes_belong_to_voters (world first_holder 25) (CastVote (js "GALICE") 0 Format.Yes)
    (steps opening empty) (steps voted_once empty) 0 (js "GALICE") _ _)).
  - vm_compute. reflexivity.
  - vm_compute. discriminate.
Defined.

Lemma finalise_decides_witness :
  ∃ s' p', finalise (world first_holder 121) 0 (steps voted_once empty) = Ok s' ∧
    proposals s' !! 0 = Some p' ∧
    state p' = (if decide (quorum (the_proposal voted_once) <= cast_weight (core (steps voted_once empty)) 0 ∧
                           counted (core (steps voted_once empty)) 0 Format.No
                             < counted (core (steps voted_once empty)) 0 Format.Yes)
                then Format.Passed else Format.Rejected) ∧
    ∀ l' w', finalise w' 0 (steps l' s') = Err (err ProposalNotActive) ∨
             finalise w' 0 (steps l' s') = Err (err ContractPaused).
Proof.
  apply (finalise_decides voted_once (world first_holder 121) 0 (the_proposal voted_once)).
  - vm_compute. reflexivity.
  - vm_compute. reflexivity.
  - vm_compute. reflexivity.
  - vm_compute. reflexivity.
  - vm_compute. discriminate.
Defined.

(** One account holds the supply in every ledger. *)
Definition one_holder (ledger : Z) (a : address) : Z := if bool_decide (a = js "GALICE") then 1000 else 0.
Lemma one_holder_sum ledger accounts :
  NoDup accounts → foldr (λ a n, one_holder ledger a + n) 0 accounts <= 1000.
Proof.
  intros Hl. assert (∀ k, js "GALICE" ∉ k → foldr (λ a n, one_holder ledger a + n) 0 k = 0) as Hz.
  { induction k as [|a k IH]; [done|]. intros [Ha Hk]%not_elem_of_cons. cbn [foldr].
    rewrite IH by done. unfold one_holder. rewrite bool_decide_false by congruence. done. }
  induction Hl as [|a k Ha Hk IH]; [done|]. cbn [foldr]. unfold one_holder at 1. case_bool_decide; [|lia].
  subst. rewrite Hz by done. lia.
Qed.
Lemma first_holder_snapshots now : answers_from one_holder (world first_holder now).
Proof.
  intros token a ledger n [= <-]. unfold Token.balance_at, Token.balance, one_holder.
  assert (Token.balances first_holder = <[js "GALICE" := 1000]> ∅) as -> by (vm_compute; reflexivity).
  rewrite lookup_insert. destruct (decide (js "GALICE" = a)) as [<-|Hne].
  - by rewrite bool_decide_true.
  - rewrite bool_decide_false by congruence. by rewrite lookup_empty.
Qed.

Lemma votes_within_supply_witness :
  votes_yes (the_proposal voted_once) + votes_no (the_proposal voted_once)
    + votes_abstain (the_proposal voted_once) <= 1000.
Proof.
  apply (votes_within_supply one_holder 1000 voted_once 0).
  - exact one_holder_sum.
  - repeat (apply Forall_cons; split; [apply first_holder_snapshots|]). by apply Forall_nil.
  - vm_compute. reflexivity.
Defined.
End GovernanceLife.
