(* ===== verification/EndToEnd.v ===== *)
(** * From the governance contract to the subscribers
    (contracts/governance/src, notification-service/src)

    The events a history of calls publishes, the log Horizon makes of them and
    what the watcher delivers from that log, put together. A reader of the
    deliveries keeps the last state it was told of each proposal ([told]). Whatever
    fails or overlaps on the way, that is a state the proposal had at some moment; when
    no two processes edit the subscription file at once, all of them are of one
    moment, and the present ones once no relevant record is left. *)
From Stdlib Require Import Ascii String ZArith Lia.
From stdpp Require Import prelude list strings gmap.
From S2P Require Import Prelude JsString JsNumber Subscriptions Sharing Channels Watcher Format Soroban ContractTypes Events Governance GovernanceLife.
Local Open Scope Z_scope.

Module EndToEnd.
Import Subscriptions Sharing.Sharing Watcher.Watcher Events.ContractEvents Events.Events Governance.Governance
  GovernanceLife.GovernanceLife.

(** ** The contract's events describe its proposals *)
Definition states (s : GovernanceStorage) : gmap Z ProposalState := state <$> proposals s.

Definition apply_event (m : gmap Z ProposalState) (e : GovernanceEvents) : gmap Z ProposalState :=
  match e with
  | proposal_created i _ _ _ _ => <[i := Format.Active]> m
  | proposal_finalized i st => <[i := st]> m
  | proposal_executed i _ => <[i := Format.Executed]> m
  | proposal_cancelled i _ _ => <[i := Format.Cancelled]> m
  | _ => m
  end.

Lemma states_set_proposal i p s : states (set_proposal i p s) = <[i := state p]> (states s).
Proof. apply fmap_insert. Qed.
Lemma states_same i p p' s :
  proposals s !! i = Some p → state p' = state p → states (set_proposal i p' s) = states s.
Proof.
  intros Hi Hp. rewrite states_set_proposal. apply insert_id. unfold states.
  by rewrite lookup_fmap, Hi, Hp.
Qed.
Lemma states_drop_active s : states (drop_active s) = states s.
Proof. unfold drop_active. by case_match. Qed.
Lemma events_drop_active s : events (drop_active s) = events s.
Proof. unfold drop_active. by case_match. Qed.

(** A call publishes one event, or none and changes no proposal. *)
Definition published (s s' : GovernanceStorage) : Prop :=
  (events s' = events s ∧ states s' = states s) ∨
  ∃ e, events s' = events s ++ [e] ∧ states s' = apply_event (states s) e.

Lemma published_by e s s0 :
  events s = events s0 → states s = apply_event (states s0) e → published s0 (Governance.publish e s).
Proof. intros He Hs. right. exists e. cbn [Governance.publish events]. by rewrite He. Qed.

Lemma exec_published w k s s' : exec w k s = Ok s' → published s s'.
Proof.
  intros H. destruct k; cbn [exec] in H.
  - gov_simpl H initialize. by apply published_by.
  - res_simpl H. gov_simpl Hr create_proposal. cbn [snd]. apply published_by; [done|].
    apply fmap_insert.
  - gov_simpl H amend_proposal. apply published_by; [done|]. by apply (states_same _ r1).
  - gov_simpl H cast_vote. apply published_by; [done|]. by apply (states_same _ r1).
  - gov_simpl H retract_vote. destruct r as [p r]. res_simpl H. gov_guards. apply published_by; [done|].
    by apply (states_same _ p).
  - gov_simpl H change_vote. destruct r as [p r]. res_simpl H. gov_guards. apply published_by; [done|].
    by apply (states_same _ p).
  - gov_simpl H finalise. apply published_by; [by rewrite events_drop_active|].
    rewrite states_drop_active. apply fmap_insert.
  - gov_simpl H execute. apply published_by; [done|]. apply fmap_insert.
  - gov_simpl H cancel. apply published_by; [by rewrite events_drop_active|].
    rewrite states_drop_active. apply fmap_insert.
  - gov_simpl H update_quorum. apply published_by; [done|]. by apply (states_same _ r4).
  - gov_simpl H propose_admin. by apply published_by.
  - gov_simpl H update_voting_token. by apply published_by.
  - gov_simpl H accept_admin. by apply published_by.
  - gov_simpl H cancel_admin_transfer. by apply published_by.
  - gov_simpl H pause. by apply published_by.
  - gov_simpl H unpause. by apply published_by.
  - gov_simpl H set_min_proposal_balance. by left.
  - gov_simpl H set_proposal_cooldown. by left.
  - gov_simpl H set_restrict_admin_vote. by left.
Qed.

Lemma step_published wk s : published s (step wk s).
Proof.
  unfold step. destruct (exec wk.1 wk.2 s) as [s'|] eqn:He; [by eapply exec_published|]. by left.
Qed.

(** The events published up to a call tell the states at that moment. *)
Lemma events_tell_states l :
  states (steps l empty) = foldl apply_event ∅ (events (steps l empty)).
Proof.
  induction l as [|wk l IH] using rev_ind; [apply fmap_empty|].
  rewrite steps_app. cbn [steps foldl flip].
  destruct (step_published wk (steps l empty)) as [[He Hs]|(e & He & Hs)]; rewrite He, Hs, IH.
  - done.
  - by rewrite foldl_app.
Qed.

(** Every beginning of the events was all of them at some moment. *)
Lemma events_prefix l n :
  (n ≤ length (events (steps l empty)))%nat →
  ∃ j, (j ≤ length l)%nat ∧ events (steps (take j l) empty) = take n (events (steps l empty)).
Proof.
  induction l as [|wk l IH] using rev_ind; intros Hn; [by exists 0%nat; destruct n|].
  destruct (decide (n ≤ length (events (steps l empty)))%nat) as [Hle|Hgt].
  - destruct (IH Hle) as (j & Hj & He). exists j. rewrite length_app. split; [lia|].
    rewrite take_app_le by done. rewrite He, steps_app. cbn [steps foldl flip].
    destruct (step_published wk (steps l empty)) as [[-> _]|(e & -> & _)]; [done|].
    by rewrite take_app_le.
  - exists (length (l ++ [wk])). split; [done|]. rewrite firstn_all. rewrite take_ge; [done|].
    rewrite steps_app in *. cbn [steps foldl flip] in *.
    destruct (step_published wk (steps l empty)) as [[He _]|(e & He & _)]; rewrite He in *; [lia|].
    rewrite length_app in *. simpl in *. lia.
Qed.

(** ** What the deliveries say

    The last state told of each proposal, by the text of its identifier: the type
    of the event says it, and for a finalisation the second value. *)
Definition told_by (m : gmap jstr jstr) (ev : Subscriptions.GovernanceEvent) : gmap jstr jstr :=
  match ev_proposalId ev with
  | Some p =>
      if decide (ev_type ev = js "created") then <[p := Format.state_name Format.Active]> m
      else if decide (ev_type ev = js "exec") then <[p := Format.state_name Format.Executed]> m
      else if decide (ev_type ev = js "cancel") then <[p := Format.state_name Format.Cancelled]> m
      else if decide (ev_type ev = js "final")
      then match value_tuple (ev_raw ev) with
           | Some (_ :: Some st :: _) => <[p := st]> m
           | _ => m
           end
      else m
  | None => m
  end.
Definition told (ds : list Delivery) : gmap jstr jstr := foldl told_by ∅ (d_event <$> ds).

(** The log Horizon makes of the events: one record each, with some identifier
    and some time. *)
Definition log_of (log : list HorizonRecord) (evs : list GovernanceEvents) : Prop :=
  Forall2 (λ r e, ∃ rid t, r = record_of rid t e) log evs.

(** The reader's picture and the contract's states. *)
Definition pictures (t : gmap jstr jstr) (m : gmap Z ProposalState) : Prop :=
  ∀ i, 0 <= i → t !! dec_of i = Format.state_name <$> m !! i.

Lemma dec_of_eq i j : 0 <= i → 0 <= j → dec_of i = dec_of j → i = j.
Proof. intros Hi Hj. rewrite !dec_of_nonneg_eq by done. by apply dec_of_nonneg_inj. Qed.

Lemma pictures_insert t m i st :
  0 <= i → pictures t m → pictures (<[dec_of i := Format.state_name st]> t) (<[i := st]> m).
Proof.
  intros Hi Ht j Hj. destruct (decide (i = j)) as [->|Hne]; [by rewrite !lookup_insert_eq|].
  rewrite !lookup_insert_ne; [by apply Ht | done|]. intros Heq. by apply dec_of_eq in Heq.
Qed.

(** The identifier of an event that changes a state. *)
Definition about (e : GovernanceEvents) : option Z :=
  match e with
  | proposal_created i _ _ _ _ | proposal_finalized i _ | proposal_executed i _
  | proposal_cancelled i _ _ => Some i
  | _ => None
  end.
Definition proper_about (e : GovernanceEvents) : Prop := default True ((λ i, 0 <= i) <$> about e).

Lemma told_record rid t e m st :
  proper_about e → pictures m st →
  pictures (foldl told_by m (option_list (parseEvent (record_of rid t e)))) (apply_event st e).
Proof.
  intros Hp Hm. unfold proper_about, about in Hp.
  destruct e as [| | |i s| | | | | | | | | | | | | | |]; try exact Hm;
    cbn [about fmap option_fmap option_map default] in Hp.
  - exact (pictures_insert m st _ Format.Active Hp Hm).
  - destruct s; exact (pictures_insert m st i _ Hp Hm).
  - exact (pictures_insert m st _ Format.Executed Hp Hm).
  - exact (pictures_insert m st _ Format.Cancelled Hp Hm).
Qed.

Lemma told_log log evs m st :
  log_of log evs → Forall proper_about evs → pictures m st →
  pictures (foldl told_by m (relevant log)) (foldl apply_event st evs).
Proof.
  intros Hlog. revert m st. induction Hlog as [|r e log evs (rid & t & ->) Hlog IH]; intros m st Hp Hm; [done|].
  apply Forall_cons in Hp as [He Hp]. cbn [foldl]. unfold relevant. csimpl.
  pose proof (told_record rid t e m st He Hm) as Hr.
  destruct (parseEvent (record_of rid t e)) as [ev|]; cbn [option_list foldl] in Hr |- *; by apply IH.
Qed.

Lemma about_applied m e i : about e = Some i → is_Some (apply_event m e !! i).
Proof. destruct e; intros [= ->]; cbn [apply_event]; rewrite lookup_insert_eq; eauto. Qed.

Lemma events_proper l : Forall proper_about (events (steps l empty)).
Proof.
  induction l as [|wk l IH] using rev_ind; [done|].
  pose proof (steps_inv (l ++ [wk])) as Hinv. rewrite steps_app in *. cbn [steps foldl flip] in *.
  destruct (step_published wk (steps l empty)) as [[-> _]|(e & -> & Hs)]; [done|].
  apply Forall_app. split; [done|]. apply Forall_cons. split; [|done].
  unfold proper_about. destruct (about e) as [i|] eqn:Hi; [|done]. cbn.
  apply (about_applied (states (steps l empty))) in Hi as [st Hst]. rewrite <- Hs in Hst.
  unfold states in Hst. rewrite lookup_fmap in Hst. apply fmap_Some in Hst as (p & Hp & _).
  exact (proj1 (proj1 (inv_ids _ Hinv i p Hp))).
Qed.

(** The picture after the first [n] records is the contract at some moment. *)
Lemma told_prefix l log n :
  log_of log (events (steps l empty)) → (n ≤ length log)%nat →
  ∃ j, (j ≤ length l)%nat ∧
    pictures (foldl told_by ∅ (relevant (take n log))) (states (steps (take j l) empty)).
Proof.
  intros Hlog Hn. destruct (events_prefix l n) as (j & Hj & He).
  { by rewrite <- (Forall2_length _ _ _ Hlog). }
  exists j. split; [done|]. rewrite events_tell_states, He. apply told_log.
  - by apply Forall2_take.
  - apply Forall_take, events_proper.
  - intros i _. by rewrite !lookup_empty.
Qed.

(** What one delivery tells is the state at the moment of its event. *)
Lemma told_by_other m ev key :
  told_by ∅ ev !! key = None → told_by m ev !! key = m !! key.
Proof.
  unfold told_by. destruct (ev_proposalId ev) as [p|]; [|done].
  repeat case_match; try done; rewrite lookup_insert_None; intros [_ Hne];
    by rewrite lookup_insert_ne.
Qed.
Lemma told_by_same m ev key st :
  told_by ∅ ev !! key = Some st → told_by m ev !! key = Some st.
Proof.
  unfold told_by. destruct (ev_proposalId ev) as [p|]; [|by rewrite lookup_empty].
  repeat case_match; try (by rewrite lookup_empty);
    (destruct (decide (p = key)) as [->|Hne];
     [by rewrite !lookup_insert_eq | by rewrite !lookup_insert_ne, lookup_empty]).
Qed.

Lemma told_from evs m key st :
  foldl told_by m evs !! key = Some st →
  m !! key = Some st ∨ ∃ ev, ev ∈ evs ∧ told_by ∅ ev !! key = Some st.
Proof.
  revert m. induction evs as [|ev evs IH]; intros m H; [by left|]. cbn [foldl] in H.
  apply IH in H as [H|(ev' & Hin & H)]; [|right; exists ev'; by split; [right|]].
  destruct (told_by ∅ ev !! key) as [st'|] eqn:Hev.
  - rewrite (told_by_same m ev key st' Hev) in H. right. exists ev. split; [left | congruence].
  - rewrite (told_by_other m ev key Hev) in H. by left.
Qed.

Lemma relevant_from log ev :
  ev ∈ relevant log → ∃ q r, log !! q = Some r ∧ parseEvent r = Some ev.
Proof.
  unfold relevant. intros (r & Hr & Hev)%list_elem_of_omap.
  apply list_elem_of_lookup in Hr as [q Hr]. by exists q, r.
Qed.

Lemma segments_from log segs ev :
  ev ∈ mjoin (segment log <$> segs) → ∃ q r, log !! q = Some r ∧ parseEvent r = Some ev.
Proof.
  intros (l & Hin & Hev)%list_elem_of_join.
  apply list_elem_of_fmap in Hev as ([p n] & -> & _).
  apply relevant_from in Hin as (q & r & Hq & Hr). cbn [fst snd] in Hq.
  apply lookup_take_Some in Hq as [Hq _]. rewrite lookup_drop in Hq. by exists (p + q)%nat, r.
Qed.

(** The record at [q] tells the state its proposal has after the first [q + 1] events. *)
Lemma record_tells l log q r ev i st :
  log_of log (events (steps l empty)) → log !! q = Some r → parseEvent r = Some ev →
  0 <= i → told_by ∅ ev !! dec_of i = Some st →
  ∃ j, (j ≤ length l)%nat ∧ Format.state_name <$> states (steps (take j l) empty) !! i = Some st.
Proof.
  intros Hlog Hq Hev Hi Hst.
  assert (q < length log)%nat as Hlt by (by eapply lookup_lt_Some).
  destruct (told_prefix l log (S q) Hlog Hlt) as (j & Hj & Hp). exists j. split; [done|].
  rewrite <- (Hp i Hi), (take_S_r _ _ r) by done. unfold relevant. rewrite omap_app_lists.
  csimpl. rewrite Hev, foldl_app. cbn [foldl]. by apply told_by_same.
Qed.

Section properties.
  Context {Codec : StoreCodec}.
  Variables EMAIL_FROM SLACK_WEBHOOK_URL DISCORD_WEBHOOK_URL : option jstr.
  Variable deliver : Channels.Channels.Outbound → option jstr.
  Variable CONTRACT_ID : jstr.
  Notation polls := (polls EMAIL_FROM SLACK_WEBHOOK_URL DISCORD_WEBHOOK_URL deliver CONTRACT_ID).

(** C2. What subscribers are told was true. Take any history of calls of the
    governance contract, a log of its events with topics and values as the texts that
    watcher.ts reads (the method it asks for them is not one Horizon.Server documents),
    and any run of a watcher started afresh (every cursor around says "now"), with the
    client failing or answering with pages of the log. However runs of the command line overlap the
    watcher on the subscription file, and whether or not it can be written, each state
    of a proposal that the deliveries tell is one that proposal had at some moment of
    the history. If moreover the file is writable and no two processes edit it at the
    same time, the states told are all those the contract had at one and the same
    moment, and the present ones as soon as no record the watcher would deliver is
    left after its cursor. *)
Theorem notifications_track_the_contract (l : list (World * Call)) (rounds : list Round)
    (log log' : list HorizonRecord) (sh : Shared) :
  log_of log' (events (steps l empty)) → history CONTRACT_ID log rounds log' →
  Forall (λ c, c = js "now") (held sh) →
  let '(ds, sh') := polls rounds sh in
  (∀ i st, 0 <= i → told ds !! dec_of i = Some st →
     ∃ j, (j ≤ length l)%nat ∧ Format.state_name <$> states (steps (take j l) empty) !! i = Some st) ∧
  (Forall undisturbed rounds → writable (disk sh) = true →
   ∃ n j, cursor (load (disk sh')) = cursor_of log' n ∧ (j ≤ length l)%nat ∧
     pictures (told ds) (states (steps (take j l) empty)) ∧
     (relevant (drop n log') = [] → pictures (told ds) (states (steps l empty)))).
Proof.
  intros Hlog Hh Hnow.
  pose proof (polls_skip_nothing EMAIL_FROM SLACK_WEBHOOK_URL DISCORD_WEBHOOK_URL deliver CONTRACT_ID
    rounds log log' 0 sh Hh ltac:(lia)
    ltac:(eapply Forall_impl; [exact Hnow|]; intros c ->; by exists 0%nat)) as Hall.
  pose proof (polls_deliver EMAIL_FROM SLACK_WEBHOOK_URL DISCORD_WEBHOOK_URL deliver CONTRACT_ID
    rounds log log' 0 sh Hh) as H.
  destruct (polls rounds sh) as [ds sh']. split.
  - destruct Hall as (segs & _ & _ & Hds & _). intros i st Hi Ht. unfold told in Ht. rewrite Hds in Ht.
    apply told_from in Ht as [Ht|(ev & Hev & Ht)]; [by rewrite lookup_empty in Ht|].
    apply segments_from in Hev as (q & r & Hq & Hr). by eapply record_tells.
  - intros Hu Hw. assert (cursor (load (disk sh)) = js "now") as Hc by (by apply Forall_cons in Hnow as [? _]).
    specialize (H Hu Hw ltac:(lia) Hc). destruct H as (n & Hn & Hcur & _ & Hds).
    rewrite drop_0 in Hds. unfold told. rewrite Hds. simpl in Hn, Hcur.
    destruct (told_prefix l log' n Hlog Hn) as (j & Hj & Hp). exists n, j. split_and!; [done..|].
    intros Hrest. assert (relevant (take n log') = relevant log') as ->.
    { rewrite <- (take_drop n log') at 2. unfold relevant in *. rewrite omap_app_lists, Hrest.
      by rewrite app_nil_r. }
    rewrite events_tell_states. apply told_log; [done | apply events_proper|].
    intros i _. by rewrite !lookup_empty.
Qed.
End properties.

(** A proposal is created, voted on and finalised, and a watcher started afresh
    polls the log once. *)
Definition sample_calls : list (World * Call) :=
  voted_once ++ [(world first_holder 121, Finalise 0)].
Definition sample_records : list HorizonRecord :=
  zip_with (λ n e, record_of (dec_of (1000 + Z.of_nat n)) (js "t") e) (seq 0 4)
    (events (steps sample_calls empty)).

Lemma zip_log_of (f : nat → jstr) t evs n :
  log_of (zip_with (λ k e, record_of (f k) t e) (seq n (length evs)) evs) evs.
Proof.
  revert n. induction evs as [|e evs IH]; intros n; [constructor|]. cbn [length seq zip_with].
  constructor; [by eexists _, _ | apply IH].
Qed.

Lemma notifications_track_the_contract_witness :
  let '(ds, sh') := run_sample [quiet_round sample_records] (shared example_disk) in
  told ds !! js "0" = Some (js "Passed") ∧
  (∃ j, Format.state_name <$> states (steps (take j sample_calls) empty) !! 0 = Some (js "Passed")) ∧
  ∃ n j, cursor (@load bit_codec (disk sh')) = cursor_of sample_records n ∧
    pictures (told ds) (states (steps (take j sample_calls) empty)).
Proof.
  pose proof (@notifications_track_the_contract bit_codec None None None (λ _, None) contract
    sample_calls [quiet_round sample_records] sample_records sample_records (shared example_disk)) as H.
  assert (length (events (steps sample_calls empty)) = 4%nat) as Hlen by (vm_compute; reflexivity).
  assert (log_of sample_records (events (steps sample_calls empty))) as Hlog.
  { pose proof (zip_log_of (λ n, dec_of (1000 + Z.of_nat n)) (js "t")
      (events (steps sample_calls empty)) 0) as Hz. rewrite Hlen in Hz. unfold sample_records. exact Hz. }
  assert (history contract sample_records [quiet_round sample_records] sample_records) as Hh.
  { apply (history_cons _ _ sample_records); [done | log_facts | log_facts | left; log_facts |].
    apply history_nil. }
  specialize (H Hlog Hh ltac:(constructor; [reflexivity | constructor])). unfold run_sample.
  destruct (@polls bit_codec _ _ _ _ _ _ _) as [ds d'] eqn:Hrun.
  assert (told ds !! js "0" = Some (js "Passed")) as Htold.
  { apply (f_equal fst) in Hrun. cbn [fst] in Hrun. rewrite <- Hrun. vm_compute. reflexivity. }
  destruct H as [Hall Hone]. split; [exact Htold|]. split.
  - destruct (Hall 0 (js "Passed") ltac:(lia) Htold) as (j & _ & Hj). exists j. exact Hj.
  - destruct (Hone ltac:(constructor; [constructor | constructor]) eq_refl) as (n & j & Hc & _ & Hp & _).
    exists n, j. split; [exact Hc | exact Hp].
Defined.

End EndToEnd.
