(* ===== verification/Rent.v ===== *)
(** * The life of the governance contract's entries (governance/src/storage.rs)

    Persistent entries live until a ledger that the accessors extend. How long a
    new entry lives and what extending does are the host's, an argument of the
    model; the accesses of each call and query are those of its successful path, in
    the order of the code, and one of which the host refuses an access is rolled
    back. [Governance] is the same contract on a host that never refuses. *)
From Stdlib Require Import Ascii String ZArith Lia.
From stdpp Require Import prelude list gmap strings.
From S2P Require Import Prelude JsString Soroban ContractTypes Format Events Token Governance GovernanceLife.
Local Open Scope Z_scope.

Module Rent.
Import Soroban ContractTypes Governance GovernanceLife.

Definition PERSISTENT_BUMP_AMOUNT : Z := 518400.
Definition PERSISTENT_THRESHOLD : Z := 17280.

Inductive PersistentKey :=
| KProposal (i : Z)
| KHasVoted (i : Z) (a : address)
| KVoteRecord (i : Z) (a : address)
| KLastProposal (a : address).
Global Instance PersistentKey_eq_dec : EqDecision PersistentKey.
Proof. solve_decision. Defined.
Global Instance PersistentKey_countable : Countable PersistentKey.
Proof.
  apply (inj_countable'
    (λ k, match k with
          | KProposal i => inl i
          | KHasVoted i a => inr (inl (i, a))
          | KVoteRecord i a => inr (inr (inl (i, a)))
          | KLastProposal a => inr (inr (inr a))
          end)
    (λ x, match x with
          | inl i => KProposal i
          | inr (inl (i, a)) => KHasVoted i a
          | inr (inr (inl (i, a))) => KVoteRecord i a
          | inr (inr (inr a)) => KLastProposal a
          end)).
  by intros [].
Defined.

(** The ledger each entry lives until. *)
Notation lives := (gmap PersistentKey Z).

(** ** The host: until when an entry written now lives, and what extending the life
    of an entry, which may not exist, gives; [None] is a trap. *)
Record Host := {
  fresh : Z → Z;
  extend : Z → option Z → Z → Z → option Z }.

Section host.
  Context {K : Type} `{HK : Countable K}.
  Implicit Types (k : K) (m : gmap K Z).
  Variable H : Host.
  Variable now : Z.

(** ** The accessors *)
Definition bump_persistent_ttl (k : K) (m : gmap K Z) : option (gmap K Z) :=
  u ← extend H now (m !! k) PERSISTENT_THRESHOLD PERSISTENT_BUMP_AMOUNT;
  Some (<[k := u]> m).

(** Reading an entry whose life has ended traps. *)
Definition found (k : K) (m : gmap K Z) : option bool :=
  match m !! k with Some u => if now <=? u then Some true else None | None => Some false end.

(** [proposal], [vote_record], [last_proposal_time]: extended when found. *)
Definition get (k : K) (m : gmap K Z) : option (gmap K Z) :=
  b ← found k m; if b : bool then bump_persistent_ttl k m else Some m.
(** [has_voted]: extended whether found or not. *)
Definition get_has_voted (k : K) (m : gmap K Z) : option (gmap K Z) :=
  _ ← found k m; bump_persistent_ttl k m.
(** [set_proposal], [set_has_voted], [set_vote_record], [set_last_proposal_time] *)
Definition set (k : K) (m : gmap K Z) : option (gmap K Z) :=
  b ← found k m;
  bump_persistent_ttl k (if b : bool then m else <[k := fresh H now]> m).
Definition remove (k : K) (m : gmap K Z) : option (gmap K Z) :=
  _ ← found k m; Some (delete k m).

Inductive Access := Get (k : K) | GetHasVoted (k : K)
  | Set_ (k : K) | Remove (k : K).
Definition access (a : Access) (m : gmap K Z) : option (gmap K Z) :=
  match a with
  | Get k => get k m | GetHasVoted k => get_has_voted k m | Set_ k => set k m | Remove k => remove k m
  end.
Definition accesses (l : list Access) (m : gmap K Z) : option (gmap K Z) := foldl (λ o a, o ≫= access a) (Some m) l.
End host.
Arguments Access : clear implicits.

(** ** lib.rs: what a call that succeeds reads and writes *)
Definition create_accesses (who : address) (s : GovernanceStorage) : list (Access PersistentKey) :=
  (if 0 <? i_cooldown (instance s) then [Get (KLastProposal who)] else []) ++
  [Set_ (KProposal (i_proposal_count (instance s))); Set_ (KLastProposal who)].
Definition cast_accesses (a : address) (i : Z) : list (Access PersistentKey) :=
  [Get (KProposal i); GetHasVoted (KHasVoted i a); Set_ (KHasVoted i a); Set_ (KVoteRecord i a);
   Set_ (KProposal i)].
Definition retract_accesses (a : address) (i : Z) : list (Access PersistentKey) :=
  [Get (KProposal i); GetHasVoted (KHasVoted i a); Get (KVoteRecord i a); Set_ (KHasVoted i a);
   Remove (KVoteRecord i a); Set_ (KProposal i)].
Definition change_accesses (a : address) (i : Z) : list (Access PersistentKey) :=
  [Get (KProposal i); GetHasVoted (KHasVoted i a); Get (KVoteRecord i a); Set_ (KVoteRecord i a);
   Set_ (KProposal i)].
(** [amend_proposal], [finalise], [execute], [cancel], [update_quorum] *)
Definition edit_accesses (i : Z) : list (Access PersistentKey) := [Get (KProposal i); Set_ (KProposal i)].

Definition accesses_of (k : Call) (s : GovernanceStorage) : list (Access PersistentKey) :=
  match k with
  | CreateProposal who _ _ _ _ _ _ => create_accesses who s
  | CastVote a i _ => cast_accesses a i
  | RetractVote a i => retract_accesses a i
  | ChangeVote a i _ => change_accesses a i
  | AmendProposal _ i _ _ | Finalise i | Execute _ i | Cancel _ i _ | UpdateQuorum _ i _ => edit_accesses i
  | _ => []
  end.

(** The contract with the lives of its entries. *)
Record State := { store : GovernanceStorage; alive_until : lives }.
Definition start : State := {| store := empty; alive_until := ∅ |}.

Definition exec_rent (H : Host) (w : World) (k : Call) (s : State) : result State :=
  s' ← exec w k (store s);
  m ← ok_or (accesses H (sequence (ctx w)) (accesses_of k (store s)) (alive_until s)) Trap;
  mret {| store := s'; alive_until := m |}.

(** ** lib.rs: the queries that touch entries, when they are made as calls *)
Inductive Query :=
| AskProposal (i : Z)
| AskProposals (from_id limit : Z)
| AskByState (st : ProposalState) (from_id limit : Z)
| AskHasVoted (i : Z) (a : address)
| AskVote (i : Z) (a : address).

(** The loop of [get_proposals_by_state]: the identifiers it looks at, [n] left and
    [found] proposals in the answer so far. *)
Fixpoint visited (s : GovernanceStorage) (st : ProposalState) (current limit found : Z) (n : nat) : list Z :=
  match n with
  | O => []
  | S n' =>
      if found <? limit
      then current :: visited s st (current + 1) limit
             (if bool_decide (state <$> proposals s !! current = Some st) then found + 1 else found) n'
      else []
  end.
Definition query_accesses (q : Query) (s : GovernanceStorage) : list (Access PersistentKey) :=
  match q with
  | AskProposal i => [Get (KProposal i)]
  | AskProposals from_id limit =>
      let end_ := Z.min (from_id + page_limit limit) (i_proposal_count (instance s)) in
      (λ k, Get (KProposal (from_id + Z.of_nat k))) <$> seq 0 (Z.to_nat (end_ - from_id))
  | AskByState st from_id limit =>
      (λ i, Get (KProposal i)) <$>
        visited s st from_id (page_limit limit) 0 (Z.to_nat (i_proposal_count (instance s) - from_id))
  | AskHasVoted i a => [GetHasVoted (KHasVoted i a)]
  | AskVote i a => [Get (KVoteRecord i a)]
  end.
(** Whether the query itself answers: a query that does not is rolled back. *)
Definition answered (q : Query) (s : GovernanceStorage) : bool :=
  match q with
  | AskProposal i => is_ok (get_proposal s i)
  | AskProposals from_id limit => is_ok (get_proposals s from_id limit)
  | AskVote i a => is_ok (get_vote s i a)
  | AskByState _ _ _ | AskHasVoted _ _ => true
  end.
Definition ask_rent (H : Host) (w : World) (q : Query) (s : State) : result State :=
  _ ← ensure (answered q (store s)) Trap;
  m ← ok_or (accesses H (sequence (ctx w)) (query_accesses q (store s)) (alive_until s)) Trap;
  mret {| store := store s; alive_until := m |}.

Inductive Action := Do (k : Call) | Ask (q : Query).
Definition step_rent (H : Host) (wa : World * Action) (s : State) : State :=
  match (match wa.2 with Do k => exec_rent H wa.1 k s | Ask q => ask_rent H wa.1 q s end) with
  | Ok s' => s'
  | Err _ => s
  end.
Definition steps_rent (H : Host) (l : list (World * Action)) (s : State) : State :=
  foldl (flip (step_rent H)) s l.
(** The calls of a history. *)
Definition calls (l : list (World * Action)) : list (World * Call) :=
  omap (λ wa, match wa.2 with Do k => Some (wa.1, k) | Ask _ => None end) l.
Definition doing : list (World * Call) → list (World * Action) := List.map (λ wk, (wk.1, Do wk.2)).

(** ** Hosts *)

(** Extending an entry that does not exist is refused. *)
Definition refuses_missing (H : Host) : Prop := ∀ now t e, extend H now None t e = None.
(** The life of a live entry is extended when less than the threshold is left of it,
    and otherwise stays. *)
Definition extends_below_threshold (H : Host) : Prop :=
  ∀ now u t e, now <= u → extend H now (Some u) t e = Some (if u - now <? t then now + e else u).

(** Until ledger [horizon] nothing is refused and no life ends. *)
Definition lenient (H : Host) (horizon : Z) : Prop :=
  (∀ now o t e, ∃ u, extend H now o t e = Some u ∧ horizon <= u) ∧ (∀ now, horizon <= fresh H now).

(** ** Lemmas *)
Section lemmas.
  Context {K : Type} `{HK : Countable K}.
  Variable H : Host.
  Implicit Types (m : gmap K Z) (k : K).

Definition key (a : Access K) : K :=
  match a with Get k | GetHasVoted k | Set_ k | Remove k => k end.

Lemma bump_other now k k' m m' :
  k ≠ k' → bump_persistent_ttl H now k m = Some m' → m' !! k' = m !! k'.
Proof. intros Hne (u & _ & [= <-])%bind_Some. by apply lookup_insert_ne. Qed.

Lemma access_other now a k' m m' : key a ≠ k' → access H now a m = Some m' → m' !! k' = m !! k'.
Proof.
  destruct a as [k|k|k|k]; cbn [key access]; intros Hne (b & _ & Hb)%bind_Some.
  - destruct b; [by eapply bump_other | by simplify_eq].
  - by eapply bump_other.
  - apply (bump_other _ _ k') in Hb; [|done]. rewrite Hb. destruct b; [done|]. by apply lookup_insert_ne.
  - simplify_eq. by apply lookup_delete_ne.
Qed.

Lemma accesses_nil now m : accesses H now [] m = Some m.
Proof. done. Qed.
Lemma accesses_stop now (l : list (Access K)) :
  foldl (λ (o : option (gmap K Z)) a, o ≫= access H now a) None l = None.
Proof. induction l as [|a l IH]; [done|]. exact IH. Qed.
Lemma accesses_cons now a l m : accesses H now (a :: l) m = access H now a m ≫= accesses H now l.
Proof.
  unfold accesses. cbn [foldl]. change (Some m ≫= access H now a) with (access H now a m).
  destruct (access H now a m) as [m'|]; [done|]. apply accesses_stop.
Qed.
Lemma accesses_other now l k' m m' :
  Forall (λ a, key a ≠ k') l → accesses H now l m = Some m' → m' !! k' = m !! k'.
Proof.
  intros Hl. revert m. induction Hl as [|a l Ha _ IH]; intros m Hm; [by injection Hm as ->|].
  rewrite accesses_cons in Hm. apply bind_Some in Hm as (m1 & H1 & Hm).
  rewrite (IH _ Hm). by eapply access_other.
Qed.

(** On a lenient host every access goes through and keeps all lives long. *)
Definition long_lived (horizon : Z) (m : gmap K Z) : Prop := map_Forall (λ _ u, horizon <= u) m.

Lemma bump_lenient horizon now k m :
  lenient H horizon → long_lived horizon m →
  ∃ m', bump_persistent_ttl H now k m = Some m' ∧ long_lived horizon m'.
Proof.
  intros [He _] Hm. destruct (He now (m !! k) PERSISTENT_THRESHOLD PERSISTENT_BUMP_AMOUNT) as (u & Hu & Hle).
  exists (<[k := u]> m). unfold bump_persistent_ttl. rewrite Hu. split; [done|].
  by apply map_Forall_insert_2.
Qed.
Lemma found_lenient horizon now k m :
  long_lived horizon m → now <= horizon → found now k m = Some (bool_decide (is_Some (m !! k))).
Proof.
  intros Hm Hn. unfold found. destruct (m !! k) as [u|] eqn:Hk; [|done].
  pose proof (Hm k u Hk). simpl in *. rewrite (proj2 (Z.leb_le now u)) by lia. done.
Qed.
Lemma access_lenient horizon now a m :
  lenient H horizon → long_lived horizon m → now <= horizon →
  ∃ m', access H now a m = Some m' ∧ long_lived horizon m'.
Proof.
  intros HH Hm Hn. destruct a as [k|k|k|k]; cbn [access]; unfold get, get_has_voted, set, remove;
    rewrite (found_lenient horizon) by done; cbn.
  - destruct (bool_decide _); [by apply bump_lenient|eauto].
  - by apply bump_lenient.
  - destruct (bool_decide _); [by apply bump_lenient|]. apply bump_lenient; [done|].
    apply map_Forall_insert_2; [|done]. apply HH.
  - eexists. split; [done|]. by apply map_Forall_delete.
Qed.
Lemma accesses_lenient horizon now l m :
  lenient H horizon → long_lived horizon m → now <= horizon →
  ∃ m', accesses H now l m = Some m' ∧ long_lived horizon m'.
Proof.
  intros HH. revert m. induction l as [|a l IH]; intros m Hm Hn; [by exists m|].
  destruct (access_lenient horizon now a m HH Hm Hn) as (m1 & H1 & Hm1).
  destruct (IH m1 Hm1 Hn) as (m2 & H2 & Hm2). exists m2. split; [|done]. by rewrite accesses_cons, H1.
Qed.

End lemmas.

Section calls.
  Variable H : Host.

Lemma ask_rent_Ok w q s s' :
  ask_rent H w q s = Ok s' →
  store s' = store s ∧
  accesses H (sequence (ctx w)) (query_accesses q (store s)) (alive_until s) = Some (alive_until s').
Proof. unfold ask_rent. intros Hs. res_simpl Hs. done. Qed.
Lemma exec_rent_Ok w (k : Call) s s' :
  exec_rent H w k s = Ok s' →
  exec w k (store s) = Ok (store s') ∧
  accesses H (sequence (ctx w)) (accesses_of k (store s)) (alive_until s) = Some (alive_until s').
Proof. unfold exec_rent. intros Hs. res_simpl Hs. done. Qed.

(** A first vote is refused where missing entries are. *)
Lemma first_vote_refused w a i v s :
  refuses_missing H → alive_until s !! KHasVoted i a = None →
  accesses H (sequence (ctx w)) (accesses_of (CastVote a i v) (store s)) (alive_until s) = None.
Proof.
  intros HH Hk. cbn [accesses_of]. unfold cast_accesses. rewrite accesses_cons.
  destruct (access H _ (Get (KProposal i)) (alive_until s)) as [m|] eqn:Hm; [|done].
  apply (access_other _ _ _ (KHasVoted i a)) in Hm; [|done]. rewrite Hk in Hm.
  cbn [mbind option_bind]. rewrite accesses_cons. cbn [access]. unfold get_has_voted, found, bump_persistent_ttl.
  rewrite Hm. cbn. by rewrite HH.
Qed.
End calls.

(** ** Where missing entries are refused, nobody votes *)
Record silent (s : State) : Prop := {
  silent_inv : gov_inv (core (store s));
  silent_records : vote_records (store s) = ∅;
  silent_flags i a : alive_until s !! KHasVoted i a = None;
  silent_states i p : proposals (store s) !! i = Some p →
    state p ≠ Format.Passed ∧ state p ≠ Format.Executed }.

Lemma silent_tallies s i p v : silent s → proposals (store s) !! i = Some p → tally v p = 0.
Proof.
  intros Hs Hi. rewrite (inv_tallies _ (silent_inv s Hs) i p v Hi). unfold counted. cbn.
  by rewrite (silent_records s Hs).
Qed.

(** The calls that write a flag. *)
Definition flags (k : Call) : bool :=
  match k with CastVote _ _ _ | RetractVote _ _ | ChangeVote _ _ _ => true | _ => false end.
Lemma no_flag_written k s i a : flags k = false → Forall (λ x, key x ≠ KHasVoted i a) (accesses_of k s).
Proof.
  destruct k; cbn [flags accesses_of]; intros Hk; try discriminate; unfold create_accesses, edit_accesses;
    repeat constructor; try discriminate.
  destruct (0 <? _); repeat constructor; discriminate.
Qed.

Lemma silent_put c i p' :
  (∀ j q, c_proposals c !! j = Some q → state q ≠ Format.Passed ∧ state q ≠ Format.Executed) →
  state p' ≠ Format.Passed → state p' ≠ Format.Executed →
  ∀ j q, <[i := p']> (c_proposals c) !! j = Some q → state q ≠ Format.Passed ∧ state q ≠ Format.Executed.
Proof. intros Hc H1 H2 j q [[<- <-]|[_ Hq]]%lookup_insert_Some; [done|]. by eapply Hc. Qed.

Lemma effect_silent w s k c' :
  silent s → flags k = false → effect w (store s) k c' →
  c_records c' = ∅ ∧
  ∀ i p, c_proposals c' !! i = Some p → state p ≠ Format.Passed ∧ state p ≠ Format.Executed.
Proof.
  intros Hs Hk He. pose proof (silent_states s Hs) as Hst. pose proof (silent_records s Hs) as Hr.
  destruct He; try discriminate Hk; (split; [exact Hr|]); try exact Hst;
    cbn [with_counts put write_vote c_proposals] in *.
  - apply (silent_put (core (store s)) _ _ Hst); congruence.
  - apply (silent_put (core (store s)) _ _ Hst); congruence.
  - apply (silent_put (core (store s)) _ _ Hst); cbn [with_state state];
      change (votes_yes p) with (tally Format.Yes p); change (votes_no p) with (tally Format.No p);
      rewrite !(silent_tallies s i p) by done; rewrite andb_false_r; done.
  - by apply (silent_put (core (store s)) _ _ Hst).
  - exfalso. by destruct (Hst i p).
Qed.

(** A query writes no flag: it extends the life of one that is there, and there is
    none. *)
Lemma ask_silent H w q s :
  refuses_missing H → silent s →
  silent (match ask_rent H w q s with Ok s' => s' | Err _ => s end).
Proof.
  intros HH Hs. destruct (ask_rent H w q s) as [s'|] eqn:He; [|done].
  apply ask_rent_Ok in He as [He Hm]. destruct Hs as [Hinv Hr Hf Hst]. split; rewrite ?He; try done.
  intros i a. destruct (decide (Forall (λ x, key x ≠ KHasVoted i a) (query_accesses q (store s)))) as [Hall|Hex].
  - rewrite <- (Hf i a). by eapply accesses_other.
  - destruct q as [j|from_id limit|st from_id limit|j b|j b]; cbn [query_accesses] in *.
    4: { exfalso. rewrite accesses_cons in Hm. cbn [access] in Hm. unfold get_has_voted, found, bump_persistent_ttl in Hm.
         rewrite Hf in Hm. cbn in Hm. by rewrite HH in Hm. }
    all: exfalso; apply Hex; try (by repeat constructor).
    all: apply Forall_fmap, Forall_true; done.
Qed.

Lemma step_silent H wk s : refuses_missing H → silent s → silent (step_rent H wk s).
Proof.
  intros HH Hs. destruct wk as [w [k|q]]; unfold step_rent; cbn [fst snd]; [|by apply ask_silent].
  destruct (exec_rent H w k s) as [s'|] eqn:He; [|done].
  apply exec_rent_Ok in He as [He Hm]. pose proof (exec_core _ _ _ _ He) as Hef.
  pose proof (effect_inv _ _ _ _ (silent_inv s Hs) Hef) as Hinv.
  destruct (flags k) eqn:Hk.
  - exfalso. destruct k; try discriminate Hk; cbn [exec] in He.
    + by rewrite first_vote_refused in Hm by (done || apply Hs).
    + gov_simpl He retract_vote. destruct r as [p r]. res_simpl He. gov_guards.
      by rewrite (silent_records s Hs), lookup_empty in *.
    + gov_simpl He change_vote. destruct r as [p r]. res_simpl He. gov_guards.
      by rewrite (silent_records s Hs), lookup_empty in *.
  - destruct (effect_silent w s k _ Hs Hk Hef) as [Hr Hst]. split; [done..| |done].
    intros i a. rewrite <- (silent_flags s Hs i a). eapply accesses_other; [|exact Hm].
    by apply no_flag_written.
Qed.

Lemma start_silent : silent start.
Proof. split; [apply empty_inv | done | done | done]. Qed.
Lemma steps_silent H l : refuses_missing H → silent (steps_rent H l start).
Proof.
  intros HH. unfold steps_rent. apply (fold_preserves (step_rent H) silent); [|apply start_silent].
  intros wk s. by apply step_silent.
Qed.

(** A set of an entry leaves it a life of at least the threshold. *)
Lemma set_life `{HK : Countable K} H now (k : K) (m m' : gmap K Z) :
  extends_below_threshold H → (m !! k = None → now <= fresh H now) → set H now k m = Some m' →
  ∃ u, m' !! k = Some u ∧ now + PERSISTENT_THRESHOLD <= u ∧
    (m !! k = None → fresh H now < now + PERSISTENT_THRESHOLD → u = now + PERSISTENT_BUMP_AMOUNT).
Proof.
  intros HH Hf (b & Hb & (u & Hu & [= <-])%bind_Some)%bind_Some. unfold found in Hb.
  exists u. rewrite lookup_insert_eq. split; [done|].
  destruct (m !! k) as [v|] eqn:Hk.
  - destruct (Z.leb_spec now v); [|done]. injection Hb as <-. rewrite Hk, HH in Hu by done.
    injection Hu as <-. split; [|done]. unfold PERSISTENT_THRESHOLD, PERSISTENT_BUMP_AMOUNT.
    destruct (Z.ltb_spec (v - now) 17280); lia.
  - injection Hb as <-. rewrite lookup_insert_eq, HH in Hu by auto. injection Hu as <-.
    unfold PERSISTENT_THRESHOLD, PERSISTENT_BUMP_AMOUNT.
    destruct (Z.ltb_spec (fresh H now - now) 17280); split; lia.
Qed.

(** ** Properties *)

(** Where the host never refuses before some ledger, the lives make no difference up
    to it: the contract is the one of [Governance]. *)
Theorem lenient_host_is_transparent (H : Host) (horizon : Z) (l : list (World * Action)) :
  lenient H horizon → Forall (λ wa, sequence (ctx wa.1) <= horizon) l →
  store (steps_rent H l start) = steps (calls l) empty.
Proof.
  intros HH Hl. assert (long_lived horizon (alive_until start)) as Hs by apply map_Forall_empty.
  change empty with (store start). revert Hs. generalize start.
  induction Hl as [|[w [k|q]] l Hw _ IH]; intros s Hs; [done|..]; unfold steps_rent in *; cbn [foldl flip].
  - destruct (accesses_lenient H horizon (sequence (ctx w)) (accesses_of k (store s)) (alive_until s) HH Hs Hw)
      as (m & Hm & Hlong).
    assert (store (step_rent H (w, Do k) s) = step (w, k) (store s) ∧
      long_lived horizon (alive_until (step_rent H (w, Do k) s))) as [He Hlong'].
    { unfold step_rent, step, exec_rent. cbn [fst snd]. rewrite Hm. by destruct (exec w k (store s)). }
    rewrite IH by done. by rewrite He.
  - destruct (accesses_lenient H horizon (sequence (ctx w)) (query_accesses q (store s)) (alive_until s) HH Hs Hw)
      as (m & Hm & Hlong).
    assert (store (step_rent H (w, Ask q) s) = store s ∧
      long_lived horizon (alive_until (step_rent H (w, Ask q) s))) as [He Hlong'].
    { unfold step_rent, ask_rent. cbn [fst snd]. rewrite Hm. by destruct (answered q (store s)). }
    rewrite IH by done. by rewrite He.
Qed.

(** C12. Where the host refuses to extend the life of an entry that does not exist,
    nobody can ever vote: [has_voted] asks for it before the first vote. After any
    history of calls and queries there is no record of a vote, every tally is zero, no
    proposal has passed or been executed, and any further vote is rolled back. *)
Theorem nobody_can_vote (H : Host) (l : list (World * Action)) :
  refuses_missing H →
  let s := steps_rent H l start in
  vote_records (store s) = ∅ ∧
  (∀ i p, proposals (store s) !! i = Some p →
     (votes_yes p, votes_no p, votes_abstain p) = (0, 0, 0) ∧
     (state p = Format.Active ∨ state p = Format.Rejected ∨ state p = Format.Cancelled)) ∧
  (∀ w a i v, step_rent H (w, Do (CastVote a i v)) s = s).
Proof.
  intros HH s. pose proof (steps_silent H l HH) as Hs. fold s in Hs. split_and!.
  - apply Hs.
  - intros i p Hi. split.
    + pose proof (silent_tallies s i p Format.Yes Hs Hi). pose proof (silent_tallies s i p Format.No Hs Hi).
      pose proof (silent_tallies s i p Format.Abstain Hs Hi). cbn [tally] in *. congruence.
    + destruct (silent_states s Hs i p Hi). destruct (state p); naive_solver.
  - intros w a i v. unfold step_rent, exec_rent. cbn [fst snd]. rewrite first_vote_refused by (done || apply Hs).
    by destruct (exec w (CastVote a i v) (store s)).
Qed.

(** The longest proposal outlives its entry: where a new entry lives shorter than
    the threshold, a proposal of the longest duration that nobody touches can at no
    later ledger be finalised, five seconds a ledger: voting ends when the entry's life
    does. The comment at the constants promises a buffer. *)
Theorem longest_proposal_is_lost (H : Host) (w w' : World) (s s' : State) (n : Z)
    (who : address) (ttl desc : jstr) (q : Z) (lnk : option jstr) (action : option TreasuryAction) :
  extends_below_threshold H →
  sequence (ctx w) <= fresh H (sequence (ctx w)) < sequence (ctx w) + PERSISTENT_THRESHOLD →
  alive_until s !! KProposal (i_proposal_count (instance (store s))) = None →
  exec_rent H w (CreateProposal who ttl desc q 2592000 lnk action) s = Ok s' →
  sequence (ctx w') = sequence (ctx w) + n → timestamp (ctx w') = timestamp (ctx w) + 5 * n →
  is_ok (exec_rent H w' (Finalise (i_proposal_count (instance (store s)))) s') = false.
Proof.
  intros HH Hf Hnew Hc Hseq Htime. set (i := i_proposal_count (instance (store s))) in *.
  apply exec_rent_Ok in Hc as [He Hm].
  assert (∃ p, proposals (store s') !! i = Some p ∧ end_time p = timestamp (ctx w) + 2592000) as (p & Hp & Hend).
  { cbn [exec] in He. res_simpl He. gov_simpl Hr create_proposal. cbn [snd] in He. rewrite <- He.
    eexists. split; [apply lookup_insert_eq | done]. }
  assert (alive_until s' !! KProposal i = Some (sequence (ctx w) + PERSISTENT_BUMP_AMOUNT)) as Hlife.
  { cbn [accesses_of] in Hm. unfold create_accesses in Hm. fold i in Hm.
    assert (∃ m1, m1 !! KProposal i = None ∧
      accesses H (sequence (ctx w)) [Set_ (KProposal i); Set_ (KLastProposal who)] m1 = Some (alive_until s'))
      as (m1 & Hm1 & Hm2).
    { destruct (0 <? i_cooldown (instance (store s))); [|by exists (alive_until s)].
      cbn [app] in Hm. rewrite accesses_cons in Hm. apply bind_Some in Hm as (m1 & H1 & Hm). exists m1.
      split; [|done]. rewrite <- Hnew. eapply access_other; [|exact H1]. discriminate. }
    rewrite accesses_cons in Hm2. apply bind_Some in Hm2 as (m2 & H2 & H3). cbn [access] in H2.
    destruct (set_life _ _ _ _ _ HH (λ _, proj1 Hf) H2) as (u & Hu & _ & Heq).
    rewrite <- (Heq Hm1 (proj2 Hf)), <- Hu. eapply accesses_other; [|exact H3].
    repeat constructor. discriminate. }
  unfold exec_rent. destruct (exec w' (Finalise i) (store s')) as [s2|] eqn:Hfin; [|done]. cbn [mbind res_bind].
  cbn [exec] in Hfin. gov_simpl Hfin finalise.
  assert (r0 = p) as -> by congruence. cbn [accesses_of]. unfold edit_accesses.
  rewrite accesses_cons. cbn [access].
  unfold get, found. rewrite Hlife. unfold PERSISTENT_BUMP_AMOUNT.
  assert ((sequence (ctx w') <=? sequence (ctx w) + 518400) = false) as -> by lia. reflexivity.
Qed.

(** ** The theorems at concrete hosts *)
Definition strict_host : Host := {|
  fresh now := now + 4095;
  extend now o t e := match o with Some u => Some (if u - now <? t then now + e else u) | None => None end |}.
Definition lenient_host : Host := {| fresh _ := 1000000; extend _ _ _ _ := Some 1000000 |}.

Lemma nobody_can_vote_witness :
  let s := steps_rent strict_host (doing voted_once) start in
  bool_decide (is_Some (proposals (store s) !! 0)) = true ∧ vote_records (store s) = ∅ ∧
  bool_decide (is_Some (vote_records (steps voted_once empty) !! (0, js "GALICE"))) = true.
Proof.
  intros s. split; [vm_compute; reflexivity|]. split; [|vm_compute; reflexivity].
  destruct (nobody_can_vote strict_host (doing voted_once)) as (Hr & _); [by intros ???|exact Hr].
Defined.

Definition at_ledger (n : Z) : World := {|
  ctx := {| sequence := n; timestamp := 5 * n; authorized _ := true |};
  token_at _ := token_view first_holder; disburse_at _ _ := true |}.
Definition long_opening : list (World * Call) :=
  [(at_ledger 10, Initialize (js "GADMIN") (js "CTOKEN") 0 0 0 false None)].
Definition opened : State := steps_rent strict_host (doing long_opening) start.
Definition long_created : State :=
  step_rent strict_host (at_ledger 20, Do (CreateProposal (js "GALICE") (js "Title") (js "Text") 600 2592000 None None)) opened.

Lemma longest_proposal_is_lost_witness :
  is_ok (exec_rent strict_host (at_ledger (20 + 518401)) (Finalise 0) long_created) = false ∧
  is_ok (exec (at_ledger (20 + 518401)) (Finalise 0) (store long_created)) = true.
Proof.
  split; [|vm_compute; reflexivity].
  apply (longest_proposal_is_lost strict_host (at_ledger 20) (at_ledger (20 + 518401)) opened long_created 518401
    (js "GALICE") (js "Title") (js "Text") 600 None None).
  - intros now u t e _. reflexivity.
  - vm_compute. split; [discriminate | reflexivity].
  - vm_compute. reflexivity.
  - vm_compute. reflexivity.
  - reflexivity.
  - reflexivity.
Defined.

Lemma lenient_host_is_transparent_witness :
  store (steps_rent lenient_host (doing voted_once) start) = steps voted_once empty.
Proof.
  apply (lenient_host_is_transparent lenient_host 1000000).
  - split; [intros; eexists; split; [reflexivity|]; lia | intros; cbn; lia].
  - repeat constructor; cbn; lia.
Defined.

End Rent.
