(* ===== verification/TokenRent.v ===== *)
(** * The life of the token's entries (token/src/storage.rs)

    Balances and delegations are persistent entries, allowances temporary ones. A
    balance is extended when it is read or written, a delegation never, and an
    allowance cannot be: a temporary entry whose life is over is gone. The host's rules on
    lives are an argument, as in [Rent], whose [bump_persistent_ttl] and
    constants this contract repeats; the accesses are those of the calls, and of the
    queries, which extend balances too. A call that fails is rolled back, and whether
    its own guards or the host refused it is not told apart. [Token] is the same
    contract on a host where no life ends. *)
From Stdlib Require Import Ascii String ZArith Lia.
From stdpp Require Import prelude list gmap strings.
From S2P Require Import Prelude JsString Soroban Events Token Rent.
Local Open Scope Z_scope.

Module TokenRent.
Import Soroban Token.

Inductive PersistentKey :=
| KBalance (a : address)
| KDelegation (a : address).
Global Instance PersistentKey_eq_dec : EqDecision PersistentKey.
Proof. solve_decision. Defined.
Global Instance PersistentKey_countable : Countable PersistentKey.
Proof.
  apply (inj_countable' (λ k, match k with KBalance a => inl a | KDelegation a => inr a end)
    (λ x, match x with inl a => KBalance a | inr a => KDelegation a end)).
  by intros [].
Defined.

(** The ledger each entry lives until. *)
Record Lives := {
  persistent : gmap PersistentKey Z;
  temporary : gmap (address * address) Z }.

(** The host: the persistent entries as in [Rent], and until when a temporary entry
    lives that is written now, given its life when it exists. *)
Record Host := {
  persistent_host : Rent.Host;
  write_temporary : Z → option Z → Z }.

Section host.
  Variable H : Host.
  Variable now : Z.

(** ** The accessors *)
Inductive Access :=
| Balance (a : address)
| SetBalance (a : address)
| Delegation (a : address)
| SetDelegation (a : address)
| RemoveDelegation (a : address)
| SetAllowance (owner spender : address).

Definition on_persistent (f : gmap PersistentKey Z → option (gmap PersistentKey Z)) (m : Lives) : option Lives :=
  p ← f (persistent m); Some {| persistent := p; temporary := temporary m |}.

(** The life a temporary entry still has. *)
Definition life (t : gmap (address * address) Z) (k : address * address) : option Z :=
  u ← t !! k; if now <=? u then Some u else None.

Definition balance_life (a : address) : gmap PersistentKey Z → option (gmap PersistentKey Z) :=
  Rent.get (persistent_host H) now (KBalance a).
Definition set_balance_life (a : address) : gmap PersistentKey Z → option (gmap PersistentKey Z) :=
  Rent.set (persistent_host H) now (KBalance a).
Definition delegation_life (a : address) (p : gmap PersistentKey Z) : option (gmap PersistentKey Z) :=
  _ ← Rent.found now (KDelegation a) p; Some p.
Definition set_delegation_life (a : address) (p : gmap PersistentKey Z) : option (gmap PersistentKey Z) :=
  b ← Rent.found now (KDelegation a) p;
  Some (if b : bool then p else <[KDelegation a := Rent.fresh (persistent_host H) now]> p).
Definition remove_delegation_life (a : address) : gmap PersistentKey Z → option (gmap PersistentKey Z) :=
  Rent.remove now (KDelegation a).
Definition set_allowance_life (owner spender : address) (m : Lives) : Lives := {|
  persistent := persistent m;
  temporary := <[(owner, spender) := write_temporary H now (life (temporary m) (owner, spender))]> (temporary m) |}.

Definition access (x : Access) (m : Lives) : option Lives :=
  match x with
  | Balance a => on_persistent (balance_life a) m
  | SetBalance a => on_persistent (set_balance_life a) m
  | Delegation a => on_persistent (delegation_life a) m
  | SetDelegation a => on_persistent (set_delegation_life a) m
  | RemoveDelegation a => on_persistent (remove_delegation_life a) m
  | SetAllowance o sp => Some (set_allowance_life o sp m)
  end.
Definition accesses (l : list Access) (m : Lives) : option Lives := foldl (λ o x, o ≫= access x) (Some m) l.

(** The allowances that are still there. *)
Definition seen (m : Lives) (s : TokenStorage) : TokenStorage :=
  set_maps (balances s) (delegations s)
    (filter (λ kv, is_Some (life (temporary m) kv.1)) (allowances s)) s.
End host.

(** ** lib.rs: calls, and queries that touch entries *)
Inductive Action :=
| Do (k : Call)
| AskBalance (owner : address)                             (* balance, balance_of, balance_at *)
| AskAllowance (owner spender : address)                   (* allowance *)
| AskDelegation (owner : address)                          (* get_delegation *)
| AskWeight (voter : address) (delegators : list address)  (* get_delegated_weight *).

(** [allowance_record] writes back the record it returns. *)
Definition read_allowance (c : Ctx) (s : TokenStorage) (o sp : address) : list Access :=
  match allowance_record c s o sp with Some _ => [SetAllowance o sp] | None => [] end.
Definition move_accesses (from to : address) : list Access :=
  [SetBalance from; Balance to; SetBalance to].
Definition weight_accesses (s : TokenStorage) (voter : address) (delegators : list address) : list Access :=
  Balance voter :: concat (List.map (λ d,
    Delegation d :: if bool_decide (delegation s d = Some voter) then [Balance d] else []) delegators).

Definition call_accesses (c : Ctx) (k : Call) (s : TokenStorage) : list Access :=
  match k with
  | Initialize a _ _ _ _ => [SetBalance a]
  | Transfer from to _ => Balance from :: if bool_decide (from = to) then [] else move_accesses from to
  | TransferFrom sp from to _ =>
      read_allowance c s from sp ++ [Balance from; SetAllowance from sp] ++ move_accesses from to
  | Approve o sp _ _ => [SetAllowance o sp]
  | Mint _ a _ | Burn _ a _ | BurnSelf a _ => [Balance a; SetBalance a]
  | Delegate o _ => [Delegation o; SetDelegation o]
  | Undelegate o => [Delegation o; RemoveDelegation o]
  | ProposeAdmin _ _ | AcceptAdmin _ | Pause _ | Unpause _ => []
  end.
Definition accesses_of (c : Ctx) (a : Action) (s : TokenStorage) : list Access :=
  match a with
  | Do k => call_accesses c k s
  | AskBalance o => [Balance o]
  | AskAllowance o sp => read_allowance c s o sp
  | AskDelegation o => [Delegation o]
  | AskWeight v ds => weight_accesses s v ds
  end.

(** The token with the lives of its entries. *)
Record State := { store : TokenStorage; lives : Lives }.
Definition start : State := {| store := empty; lives := {| persistent := ∅; temporary := ∅ |} |}.
Definition visible (c : Ctx) (s : State) : TokenStorage := seen (sequence c) (lives s) (store s).

Definition exec_rent (H : Host) (c : Ctx) (a : Action) (s : State) : result State :=
  s' ← match a with Do k => exec c k (visible c s) | _ => mret (visible c s) end;
  m ← ok_or (accesses H (sequence c) (accesses_of c a (visible c s)) (lives s)) Trap;
  mret {| store := s'; lives := m |}.
Definition step_rent (H : Host) (ca : Ctx * Action) (s : State) : State :=
  match exec_rent H ca.1 ca.2 s with Ok s' => s' | Err _ => s end.
Definition steps_rent (H : Host) (l : list (Ctx * Action)) (s : State) : State :=
  foldl (flip (step_rent H)) s l.

(** The answers of the queries. *)
Definition ask_allowance (H : Host) (c : Ctx) (o sp : address) (s : State) : result Z :=
  _ ← exec_rent H c (AskAllowance o sp) s; mret (allowance c (visible c s) o sp).
Definition ask_weight (H : Host) (c : Ctx) (v : address) (ds : list address) (s : State) : result Z :=
  _ ← exec_rent H c (AskWeight v ds) s; mret (get_delegated_weight (visible c s) v ds).

(** Writing a temporary entry that is there leaves its life. *)
Definition keeps_life (H : Host) : Prop := ∀ now u, now <= u → write_temporary H now (Some u) = u.
(** ** Lemmas *)
Section lemmas.
  Variable H : Host.

Lemma entries_stop now (l : list Access) :
  foldl (λ (o : option Lives) x, o ≫= access H now x) None l = None.
Proof. induction l as [|x l IH]; [done|]. exact IH. Qed.
Lemma entries_cons now x l m : accesses H now (x :: l) m = access H now x m ≫= accesses H now l.
Proof.
  unfold accesses. cbn [foldl]. change (Some m ≫= access H now x) with (access H now x m).
  destruct (access H now x m) as [m'|]; [done|]. apply entries_stop.
Qed.
(** What every access that goes through keeps, all of them keep. *)
Lemma accesses_keep (P : Lives → Prop) now l m m' :
  Forall (λ x, ∀ m1 m2, P m1 → access H now x m1 = Some m2 → P m2) l →
  P m → accesses H now l m = Some m' → P m'.
Proof.
  intros Hl. revert m. induction Hl as [|x l Hx _ IH]; intros m Hm Ha; [by injection Ha as <-|].
  rewrite entries_cons in Ha. apply bind_Some in Ha as (m1 & H1 & Ha). eapply IH; [|exact Ha]. by eapply Hx.
Qed.

Lemma token_rent_Ok c a s s' :
  exec_rent H c a s = Ok s' →
  (match a with Do k => exec c k (visible c s) | _ => Ok (visible c s) end) = Ok (store s') ∧
  accesses H (sequence c) (accesses_of c a (visible c s)) (lives s) = Some (lives s').
Proof.
  unfold exec_rent. intros Hs. res_simpl Hs. done.
Qed.

(** *** Allowances *)
Lemma life_alive now t k u : t !! k = Some u → now <= u → life now t k = Some u.
Proof. intros Hk Hu. unfold life. rewrite Hk. cbn. by rewrite (proj2 (Z.leb_le _ _) Hu). Qed.
Lemma life_over now t k u : t !! k = Some u → u < now → life now t k = None.
Proof. intros Hk Hu. unfold life. rewrite Hk. cbn. by rewrite (proj2 (Z.leb_gt _ _) Hu). Qed.

Lemma seen_allowance now m s k :
  allowances (seen now m s) !! k = if decide (is_Some (life now (temporary m) k)) then allowances s !! k else None.
Proof.
  cbn [seen set_maps allowances]. rewrite map_lookup_filter.
  case_decide; destruct (allowances s !! k); by simplify_option_eq.
Qed.
Lemma gone_allowance c s k :
  life (sequence c) (temporary (lives s)) k = None → allowances (visible c s) !! k = None.
Proof.
  intros Hk. unfold visible. rewrite seen_allowance, Hk. by rewrite decide_False by (intros [? [=]]).
Qed.
Lemma gone_record c s o sp :
  life (sequence c) (temporary (lives s)) (o, sp) = None → allowance_record c (visible c s) o sp = None.
Proof. intros Hk. unfold allowance_record. by rewrite gone_allowance. Qed.

(** An access leaves the life of an allowance that is alive, or is not about it. *)
Lemma access_temporary now x m m' k u :
  keeps_life H → (x = SetAllowance k.1 k.2 → now <= u) →
  temporary m !! k = Some u → access H now x m = Some m' → temporary m' !! k = Some u.
Proof.
  intros HH Hx Hk Ha. destruct x as [a|a|a|a|a|o sp]; cbn [access] in Ha;
    try (apply bind_Some in Ha as (p & _ & [= <-]); exact Hk).
  injection Ha as <-. cbn [set_allowance_life temporary].
  destruct (decide ((o, sp) = k)) as [<-|Hne]; [|by rewrite lookup_insert_ne].
  rewrite lookup_insert_eq. specialize (Hx eq_refl). by rewrite (life_alive _ _ _ u), HH.
Qed.

Definition approves (o sp : address) (a : Action) : Prop := ∃ n e, a = Do (Approve o sp n e).

(** Only approving touches an allowance that is gone. *)
Lemma touched_alive c a s s' o sp :
  exec_rent H c a s = Ok s' → SetAllowance o sp ∈ accesses_of c a (visible c s) →
  approves o sp a ∨ is_Some (life (sequence c) (temporary (lives s)) (o, sp)).
Proof.
  intros [He _]%token_rent_Ok Hin.
  destruct (life (sequence c) (temporary (lives s)) (o, sp)) as [u|] eqn:Hu; [by right|]. left.
  apply gone_record in Hu. unfold move_accesses in *.
  assert (∀ o' sp', SetAllowance o sp ∈ read_allowance c (visible c s) o' sp' → False) as Hread.
  { intros o' sp'. unfold read_allowance. destruct (allowance_record c (visible c s) o' sp') eqn:Hr; [|set_solver].
    intros [= -> ->]%list_elem_of_singleton. congruence. }
  destruct a as [k|b|o' sp'|d|v ds]; cbn [accesses_of] in Hin.
  - destruct k; cbn [call_accesses] in Hin; unfold move_accesses in *; try (by repeat case_bool_decide; set_solver).
    + apply elem_of_app in Hin as [[]%Hread|Hin]. assert (from = o ∧ spender = sp) as [-> ->] by set_solver.
      exfalso. cbn [exec] in He. apply transfer_from_Ok in He as (_ & Hn & Hle & _).
      unfold allowance in Hle. rewrite Hu in Hle. cbn in Hle. lia.
    + apply list_elem_of_singleton in Hin as [= -> ->]. by do 2 eexists.
  - set_solver.
  - by apply Hread in Hin.
  - set_solver.
  - exfalso. unfold weight_accesses in Hin. apply elem_of_cons in Hin as [?|Hin]; [done|].
    apply list_elem_of_In, in_concat in Hin as (x & Hx & Hin). apply in_map_iff in Hx as (d & <- & _).
    apply list_elem_of_In in Hin. case_bool_decide; set_solver.
Qed.
End lemmas.

Section histories.
  Variable H : Host.

Lemma steps_rent_keep (P : State → Prop) l s :
  Forall (λ ca, ∀ s1, P s1 → P (step_rent H ca s1)) l → P s → P (steps_rent H l s).
Proof.
  unfold steps_rent. intros Hl. revert s. induction Hl as [|ca l Hca _ IH]; intros s Hs; [done|].
  cbn [foldl flip]. by apply IH, Hca.
Qed.

Lemma allowance_life_kept o sp u ca s :
  keeps_life H → (approves o sp ca.2 → sequence ca.1 <= u) →
  temporary (lives s) !! (o, sp) = Some u → temporary (lives (step_rent H ca s)) !! (o, sp) = Some u.
Proof.
  intros HH Hca Hs. unfold step_rent. destruct (exec_rent H ca.1 ca.2 s) as [s'|] eqn:He; [|done].
  pose proof (token_rent_Ok _ _ _ _ _ He) as [_ Hacc].
  eapply (accesses_keep H (λ m, temporary m !! (o, sp) = Some u)); [|exact Hs|exact Hacc].
  apply Forall_forall. intros x Hx m1 m2 Hm. apply access_temporary; [done| |done].
  intros ->. cbn [fst snd] in Hx. destruct (touched_alive _ _ _ _ _ _ _ He Hx) as [Ha|[v Hv]]; [by apply Hca|].
  unfold life in Hv. rewrite Hs in Hv. cbn in Hv. by destruct (Z.leb_spec (sequence ca.1) u).
Qed.

(** *** Delegations *)
Definition about_delegation (o : address) (x : Access) : bool :=
  match x with RemoveDelegation a => bool_decide (a = o) | _ => false end.

Lemma get_other (k k' : PersistentKey) now p p' : k ≠ k' → Rent.get (persistent_host H) now k p = Some p' → p' !! k' = p !! k'.
Proof. intros Hk Hp. by apply (Rent.access_other (persistent_host H) now (Rent.Get k)). Qed.
Lemma set_other (k k' : PersistentKey) now p p' : k ≠ k' → Rent.set (persistent_host H) now k p = Some p' → p' !! k' = p !! k'.
Proof. intros Hk Hp. by apply (Rent.access_other (persistent_host H) now (Rent.Set_ k)). Qed.

Lemma access_delegation now x m m' o u :
  about_delegation o x = false →
  persistent m !! KDelegation o = Some u → access H now x m = Some m' → persistent m' !! KDelegation o = Some u.
Proof.
  intros Hx Hk Ha. destruct x as [a|a|a|a|a|o' sp]; cbn [access] in Ha;
    try (apply bind_Some in Ha as (p & Hp & [= <-]); cbn [persistent]); rewrite <- Hk.
  - by eapply get_other; [|exact Hp].
  - by eapply set_other; [|exact Hp].
  - by apply bind_Some in Hp as (b & _ & [= <-]).
  - apply bind_Some in Hp as (b & Hb & [= <-]). destruct b; [done|].
    apply lookup_insert_ne. intros [= ->]. unfold Rent.found in Hb. rewrite Hk in Hb. by case_match.
  - apply (Rent.access_other (persistent_host H) now (Rent.Remove (KDelegation a))); [|exact Hp].
    cbn. intros [= ->]. cbn in Hx. by bool_prop.
  - by injection Ha as <-.
Qed.

Lemma removed_by_undelegate c a s o :
  a ≠ Do (Undelegate o) → Forall (λ x, about_delegation o x = false) (accesses_of c a s).
Proof.
  intros Ha. apply Forall_forall. intros x Hx. destruct x as [b|b|b|b|b|o' sp]; try done. cbn.
  apply bool_decide_false. intros ->.
  assert (∀ o1 sp1, RemoveDelegation o ∈ read_allowance c s o1 sp1 → False) as Hread.
  { intros o1 sp1. unfold read_allowance. case_match; set_solver. }
  destruct a as [k|b|o1 sp1|d|v ds]; cbn [accesses_of] in Hx; try set_solver.
  - destruct k; cbn [call_accesses] in Hx; unfold move_accesses in *; try (by repeat case_bool_decide; set_solver).
  - unfold weight_accesses in Hx. apply elem_of_cons in Hx as [?|Hx]; [done|].
    apply list_elem_of_In, in_concat in Hx as (y & Hy & Hx). apply in_map_iff in Hy as (d & <- & _).
    apply list_elem_of_In in Hx. case_bool_decide; set_solver.
Qed.

Lemma delegation_life_kept o u ca s :
  ca.2 ≠ Do (Undelegate o) →
  persistent (lives s) !! KDelegation o = Some u →
  persistent (lives (step_rent H ca s)) !! KDelegation o = Some u.
Proof.
  intros Hca Hs. unfold step_rent. destruct (exec_rent H ca.1 ca.2 s) as [s'|] eqn:He; [|done].
  apply token_rent_Ok in He as [_ Hacc].
  eapply (accesses_keep H (λ m, persistent m !! KDelegation o = Some u)); [|exact Hs|exact Hacc].
  eapply Forall_impl; [by apply removed_by_undelegate|]. intros x Hx m1 m2 Hm. by eapply access_delegation.
Qed.

(** Reading a delegation whose life is over traps. *)
Lemma dead_delegation_traps now l m o u :
  persistent m !! KDelegation o = Some u → u < now →
  Forall (λ x, about_delegation o x = false) l → Delegation o ∈ l → accesses H now l m = None.
Proof.
  intros Hk Hu Hl Hin. revert m Hk. induction Hl as [|x l Hx _ IH]; [set_solver|]. intros m Hk.
  rewrite entries_cons. destruct (access H now x m) as [m1|] eqn:Hm; [|done]. cbn.
  apply elem_of_cons in Hin as [<-|Hin].
  - exfalso. cbn [access on_persistent delegation_life] in Hm. unfold on_persistent, delegation_life, Rent.found in Hm.
    rewrite Hk in Hm. cbn in Hm. by destruct (Z.leb_spec now u); [lia|].
  - apply IH; [done|]. by eapply access_delegation.
Qed.
End histories.

(** *** Hosts where no life ends *)

(** Until ledger [horizon] nothing is refused and no life ends. *)
Definition lenient (H : Host) (horizon : Z) : Prop :=
  Rent.lenient (persistent_host H) horizon ∧ ∀ now o, horizon <= write_temporary H now o.
Definition long_lived (horizon : Z) (m : Lives) : Prop :=
  Rent.long_lived horizon (persistent m) ∧ map_Forall (λ _ u, horizon <= u) (temporary m).
(** Each allowance has an entry. *)
Definition all_there (s : State) : Prop :=
  ∀ k, is_Some (allowances (store s) !! k) → is_Some (temporary (lives s) !! k).

Section lenient.
  Variables (H : Host) (horizon : Z).
  Hypothesis HH : lenient H horizon.

Lemma entry_lenient now x m :
  long_lived horizon m → now <= horizon → ∃ m', access H now x m = Some m' ∧ long_lived horizon m'.
Proof.
  intros [Hp Ht] Hn. destruct HH as [HP HT].
  assert (∀ f, (∃ p, f (persistent m) = Some p ∧ Rent.long_lived horizon p) →
    ∃ m', on_persistent f m = Some m' ∧ long_lived horizon m') as Hon.
  { intros f (p & Hf & Hl). unfold on_persistent. rewrite Hf. by eexists. }
  destruct x as [a|a|a|a|a|o sp]; cbn [access]; try apply Hon.
  - by apply (Rent.access_lenient (persistent_host H) horizon now (Rent.Get (KBalance a))).
  - by apply (Rent.access_lenient (persistent_host H) horizon now (Rent.Set_ (KBalance a))).
  - unfold delegation_life. rewrite (Rent.found_lenient horizon) by done. by eexists.
  - unfold set_delegation_life. rewrite (Rent.found_lenient horizon) by done. eexists. split; [done|].
    case_match; [done|]. apply map_Forall_insert_2; [apply HP|done].
  - by apply (Rent.access_lenient (persistent_host H) horizon now (Rent.Remove (KDelegation a))).
  - eexists. split; [done|]. split; [done|]. cbn. apply map_Forall_insert_2; [apply HT|done].
Qed.
Lemma entries_lenient now l m :
  long_lived horizon m → now <= horizon → ∃ m', accesses H now l m = Some m' ∧ long_lived horizon m'.
Proof.
  revert m. induction l as [|x l IH]; intros m Hm Hn; [by exists m|].
  destruct (entry_lenient now x m Hm Hn) as (m1 & H1 & Hm1).
  destruct (IH m1 Hm1 Hn) as (m2 & H2 & Hm2). exists m2. split; [|done]. by rewrite entries_cons, H1.
Qed.

Lemma visible_lenient c s :
  long_lived horizon (lives s) → all_there s → sequence c <= horizon → visible c s = store s.
Proof.
  intros [_ Ht] Ha Hn. unfold visible, seen. rewrite map_filter_id; [by destruct (store s)|].
  intros k d Hk. destruct (Ha k ltac:(by eexists)) as [u Hu]. pose proof (Ht k u Hu). simpl in *.
  rewrite (life_alive _ _ _ u) by (done || lia). by eexists.
Qed.
End lenient.

(** The entries written cover the allowances. *)
Lemma accesses_grow H now l m m' k :
  accesses H now l m = Some m' → is_Some (temporary m !! k) ∨ SetAllowance k.1 k.2 ∈ l →
  is_Some (temporary m' !! k).
Proof.
  revert m. induction l as [|x l IH]; intros m Hm Hk; [injection Hm as <-; destruct Hk; [done|set_solver]|].
  rewrite entries_cons in Hm. apply bind_Some in Hm as (m1 & H1 & Hm). apply (IH m1 Hm).
  rewrite elem_of_cons in Hk. destruct Hk as [Hk|[Hx|Hk]]; [left|left|by right].
  - destruct x as [a|a|a|a|a|o sp]; cbn [access] in H1;
      try (apply bind_Some in H1 as (p & _ & [= <-]); exact Hk).
    injection H1 as <-. cbn [set_allowance_life temporary]. rewrite lookup_insert. case_decide; [by eexists|done].
  - subst x. injection H1 as <-. cbn [set_allowance_life temporary]. destruct k as [o sp].
    rewrite lookup_insert_eq. by eexists.
Qed.

Lemma exec_allowances c k s s' o sp :
  exec c k s = Ok s' → is_Some (allowances s' !! (o, sp)) →
  is_Some (allowances s !! (o, sp)) ∨ SetAllowance o sp ∈ call_accesses c k s.
Proof.
  intros He Hk.
  assert (∀ o' sp' d, is_Some (<[(o', sp') := d : Allowance]> (allowances s) !! (o, sp)) →
    is_Some (allowances s !! (o, sp)) ∨ (o', sp') = (o, sp)) as Hins.
  { intros o' sp' d. rewrite lookup_insert. case_decide; auto. }
  destruct k as [a n nm sy d|f t n|sp' f t n|o' sp' n e|a t n|a f n|o' n|o' d|o'|a n|p|a|a]; cbn [exec] in He.
  1: call_simpl He initialize. 2: call_simpl He transfer. 3: call_simpl He transfer_from.
  4: call_simpl He approve. 5: call_simpl He mint. 6: call_simpl He burn. 7: call_simpl He burn_self.
  8: call_simpl He delegate. 9: call_simpl He undelegate. 10: call_simpl He propose_admin.
  11: call_simpl He accept_admin. 12: call_simpl He pause. 13: call_simpl He unpause.
  all: try (case_bool_decide; res_simpl He; guards).
  all: try match goal with Hb : burn_from _ _ _ = Ok _ |- _ => apply burn_from_Ok in Hb as [? ->] end.
  all: try (left; exact Hk).
  all: apply Hins in Hk as [Hk|[= -> ->]]; [by left|right]; cbn [call_accesses]; set_solver.
Qed.

(** The calls of a history. *)
Definition calls (l : list (Ctx * Action)) : list (Ctx * Call) :=
  omap (λ ca, match ca.2 with Do k => Some (ca.1, k) | _ => None end) l.

Lemma step_lenient H horizon c a s :
  lenient H horizon → sequence c <= horizon → long_lived horizon (lives s) → all_there s →
  store (step_rent H (c, a) s) = match a with Do k => step (c, k) (store s) | _ => store s end ∧
  long_lived horizon (lives (step_rent H (c, a) s)) ∧ all_there (step_rent H (c, a) s).
Proof.
  intros HH Hc Hl Ha. pose proof (visible_lenient horizon c s Hl Ha Hc) as Hv.
  destruct (entries_lenient H horizon HH (sequence c) (accesses_of c a (visible c s)) (lives s) Hl Hc) as (m & Hm & Hm').
  unfold step_rent, exec_rent. cbn [fst snd]. rewrite Hm, Hv.
  destruct a as [k|o|o sp|o|v ds].
  2-5: split_and!; [done..|]; intros [o' sp'] Hk; eapply accesses_grow; [exact Hm|left; by apply Ha].
  unfold step. cbn [fst snd]. destruct (exec c k (store s)) as [s'|] eqn:He; [|by split_and!].
  split_and!; [done..|]. intros [o' sp'] Hk. eapply accesses_grow; [exact Hm|].
  destruct (exec_allowances _ _ _ _ _ _ He Hk) as [Hold|Hin]; [left; by apply Ha|right].
  cbn [accesses_of fst snd]. by rewrite Hv.
Qed.

Lemma visible_wf c s : token_wf (store s) → token_wf (visible c s).
Proof. intros [Hi Hn]. split; [by eapply token_inv_same|exact Hn]. Qed.
Lemma step_rent_wf H ca s :
  (∀ k, ca.2 = Do k → sound_call k) → token_wf (store s) → token_wf (store (step_rent H ca s)).
Proof.
  intros Hk Hs. unfold step_rent. destruct (exec_rent H ca.1 ca.2 s) as [s'|] eqn:He; [|done].
  apply token_rent_Ok in He as [He _]. pose proof (visible_wf ca.1 s Hs) as Hv.
  destruct ca as [c [k|o|o sp|o|v ds]]; cbn [fst snd] in *; try (injection He as <-; exact Hv).
  split; [eapply exec_inv; [by apply Hk|exact Hv|exact He] | intros Hi; by eapply exec_uninitialised].
Qed.

(** ** Properties *)

(** Where the host ends no life up to some ledger, the lives make no difference up to
    it: the contract is the one of [Token], and the queries change nothing. *)
Theorem token_lives_transparent (H : Host) (horizon : Z) (l : list (Ctx * Action)) :
  lenient H horizon → Forall (λ ca, sequence ca.1 <= horizon) l →
  store (steps_rent H l start) = steps (calls l) empty.
Proof.
  intros HH Hl. assert (long_lived horizon (lives start)) as Hs by (split; apply map_Forall_empty).
  assert (all_there start) as Ha by (intros k [d Hd]; exact (False_ind _ (lookup_empty_Some k d Hd))).
  change empty with (store start). revert Hs Ha. generalize start.
  induction Hl as [|[c a] l Hc _ IH]; intros s Hs Ha; [done|].
  destruct (step_lenient H horizon c a s HH Hc Hs Ha) as (He & Hs' & Ha').
  unfold steps_rent in *. cbn [foldl flip]. rewrite IH by done. rewrite He. by destruct a.
Qed.

(** The supply is conserved on any host: what lives end, and when, takes nothing from
    the balances that are stored. *)
Theorem supply_conserved_on_any_host (H : Host) (l : list (Ctx * Action)) :
  Forall (λ ca, ∀ k, ca.2 = Do k → sound_call k) l →
  let s := store (steps_rent H l start) in
  map_total (λ _ v, v) (balances s) = s_total_supply s ∧ s_total_supply s <= i128_max ∧
  ∀ a, 0 <= balance s a <= s_total_supply s.
Proof.
  intros Hl s. assert (token_wf s) as [Hinv _].
  { apply (steps_rent_keep H (λ s, token_wf (store s))); [|apply empty_wf].
    eapply Forall_impl; [exact Hl|]. intros ca Hca s1. by apply step_rent_wf. }
  pose proof Hinv as (_ & Hs & Hm). split_and!; [done|done|].
  intros a. split; [by apply balance_nonneg | by apply balance_le_supply].
Qed.

(** C14. An allowance ends with its entry, whatever date it was given: the entry of a
    first approval lives as long as the host gives a new temporary entry, and nothing
    in the contract makes it live longer. Until then, and until its date, the
    allowance is what was approved; after that ledger it is zero and every transfer
    within it fails, whatever the history since the approval, renewals in the
    meantime, transfers and queries included, although the date may be years away. *)
Theorem allowance_ends_with_its_entry (H : Host) (c : Ctx) (o sp : address) (n e : Z) (s s1 : State)
    (l : list (Ctx * Action)) (c' : Ctx) :
  keeps_life H → life (sequence c) (temporary (lives s)) (o, sp) = None →
  exec_rent H c (Do (Approve o sp n e)) s = Ok s1 →
  let u := write_temporary H (sequence c) None in
  Forall (λ ca, approves o sp ca.2 → sequence ca.1 <= u) l →
  (sequence c' <= u → sequence c' <= e → allowance c' (visible c' s1) o sp = n) ∧
  (u < sequence c' → let s' := steps_rent H l s1 in
   allowance c' (visible c' s') o sp = 0 ∧
   ∀ to m, is_ok (exec_rent H c' (Do (TransferFrom sp o to m)) s') = false).
Proof.
  intros HH Hnew Happ u Hl. apply token_rent_Ok in Happ as [He Hacc].
  assert (temporary (lives s1) !! (o, sp) = Some u) as Hu.
  { injection Hacc as <-. cbn [set_allowance_life temporary]. by rewrite lookup_insert_eq, Hnew. }
  split.
  - intros Hc Hd. cbn [exec] in He. call_simpl He approve.
    unfold allowance, allowance_record, visible. rewrite seen_allowance, (life_alive _ _ _ u) by done.
    rewrite decide_True by (by eexists). rewrite <- He.
    cbn [publish set_allowance set_maps allowances]. rewrite lookup_insert_eq. cbn [expiry_ledger al_amount].
    destruct (Z.ltb_spec e (sequence c')); [lia|]. cbn [orb]. destruct (Z.leb_spec n 0); cbn; lia.
  - intros Hc s'. assert (temporary (lives s') !! (o, sp) = Some u) as Hu'.
    { apply (steps_rent_keep H (λ s, temporary (lives s) !! (o, sp) = Some u)); [|done].
      eapply Forall_impl; [exact Hl|]. intros ca Hca s2. by apply allowance_life_kept. }
    pose proof (life_over _ _ _ _ Hu' Hc) as Hover. apply gone_record in Hover.
    assert (allowance c' (visible c' s') o sp = 0) as Hz by (unfold allowance; by rewrite Hover).
    split; [done|]. intros to m. destruct (exec_rent H c' _ s') as [s2|] eqn:Ht; [|done]. exfalso.
    apply token_rent_Ok in Ht as [Ht _]. cbn [exec] in Ht. apply transfer_from_Ok in Ht as (_ & Hm & Hle & _). lia.
Qed.

(** A delegation freezes when the life of its entry ends, which nothing extends:
    after that ledger, and until the entry is restored from outside, it can neither
    be withdrawn nor replaced, and a weight that counts it cannot be asked for. *)
Theorem delegation_freezes (H : Host) (c : Ctx) (o d : address) (s s1 : State) (l : list (Ctx * Action)) (c' : Ctx) :
  persistent (lives s) !! KDelegation o = None → exec_rent H c (Do (Delegate o d)) s = Ok s1 →
  Forall (λ ca, ca.2 ≠ Do (Undelegate o)) l →
  Rent.fresh (persistent_host H) (sequence c) < sequence c' →
  let s' := steps_rent H l s1 in
  is_ok (exec_rent H c' (Do (Undelegate o)) s') = false ∧
  (∀ d', is_ok (exec_rent H c' (Do (Delegate o d')) s') = false) ∧
  (∀ v ds, o ∈ ds → is_ok (ask_weight H c' v ds s') = false).
Proof.
  intros Hnew Hd Hl Hc s'. set (u := Rent.fresh (persistent_host H) (sequence c)) in *.
  apply token_rent_Ok in Hd as [_ Hacc].
  assert (persistent (lives s1) !! KDelegation o = Some u) as Hu.
  { cbn [accesses_of call_accesses] in Hacc. rewrite !entries_cons in Hacc. cbn [access] in Hacc.
    unfold on_persistent at 1, delegation_life, Rent.found in Hacc. rewrite Hnew in Hacc. cbn in Hacc.
    unfold on_persistent, set_delegation_life, Rent.found in Hacc. cbn [persistent] in Hacc. rewrite Hnew in Hacc.
    injection Hacc as <-. apply lookup_insert_eq. }
  assert (persistent (lives s') !! KDelegation o = Some u) as Hu'.
  { apply (steps_rent_keep H (λ s, persistent (lives s) !! KDelegation o = Some u)); [|done].
    eapply Forall_impl; [exact Hl|]. intros ca Hca s2. by apply delegation_life_kept. }
  assert (∀ a, a ≠ Do (Undelegate o) → Delegation o ∈ accesses_of c' a (visible c' s') →
    is_ok (exec_rent H c' a s') = false) as Htrap.
  { intros a Ha Hin. unfold exec_rent.
    rewrite (dead_delegation_traps H _ _ _ o u Hu' Hc (removed_by_undelegate _ _ _ _ Ha) Hin).
    by destruct (match a with Do k => _ | _ => _ end). }
  split_and!.
  - unfold exec_rent. cbn [accesses_of call_accesses]. rewrite entries_cons.
    cbn [access]. unfold on_persistent, delegation_life, Rent.found. rewrite Hu'.
    destruct (Z.leb_spec (sequence c') u); [lia|]. cbn -[exec]. by destruct (exec c' (Undelegate o) (visible c' s')).
  - intros d'. apply Htrap; [done|]. cbn. set_solver.
  - intros v ds Hin. unfold ask_weight.
    assert (is_ok (exec_rent H c' (AskWeight v ds) s') = false) as Hf.
    { apply Htrap; [done|]. cbn [accesses_of]. unfold weight_accesses. apply elem_of_cons. right.
      apply list_elem_of_In, in_concat. eexists. split; [apply in_map; by apply list_elem_of_In|]. left. done. }
    by destruct (exec_rent H c' (AskWeight v ds) s').
Qed.

(** ** The theorems at a concrete host *)
Definition short_host : Host := {|
  persistent_host := Rent.strict_host;
  write_temporary now o := match o with Some u => u | None => now + 17279 end |}.
Definition long_host : Host := {|
  persistent_host := Rent.lenient_host; write_temporary _ _ := 1000000 |}.
Definition opening : list (Ctx * Action) :=
  [(everyone 1, Do (Initialize (js "GADMIN") 1000 (js "CosmosVote") (js "VOTE") 7));
   (everyone 2, Do (Transfer (js "GADMIN") (js "GALICE") 300))].
Definition opened : State := steps_rent short_host opening start.
Definition approval : Action := Do (Approve (js "GALICE") (js "GBOB") 50 900000).
Definition approved : State := step_rent short_host (everyone 3, approval) opened.
Definition meanwhile : list (Ctx * Action) :=
  [(everyone 9, Do (TransferFrom (js "GBOB") (js "GALICE") (js "GBOB") 20));
   (everyone 99, AskAllowance (js "GALICE") (js "GBOB")); (everyone 1000, approval)].

Lemma allowance_ends_with_its_entry_witness :
  let s' := steps_rent short_host meanwhile approved in
  allowance (everyone 17282) (visible (everyone 17282) s') (js "GALICE") (js "GBOB") = 50 ∧
  allowance (everyone 17283) (visible (everyone 17283) s') (js "GALICE") (js "GBOB") = 0 ∧
  balance (visible (everyone 17283) s') (js "GALICE") = 280 ∧
  allowance (everyone 17283) (steps (calls (opening ++ (everyone 3, approval) :: meanwhile)) empty)
    (js "GALICE") (js "GBOB") = 50.
Proof.
  intros s'. split; [vm_compute; reflexivity|]. split; [|split; vm_compute; reflexivity].
  refine (proj1 (proj2 (allowance_ends_with_its_entry short_host (everyone 3) (js "GALICE") (js "GBOB") 50 900000
    opened approved meanwhile (everyone 17283) _ _ _ _) _)).
  - intros now u _. reflexivity.
  - vm_compute. reflexivity.
  - vm_compute. reflexivity.
  - repeat constructor; cbn; lia.
  - reflexivity.
Defined.

Definition delegating : State :=
  step_rent short_host (everyone 3, Do (Delegate (js "GALICE") (js "GBOB"))) opened.
Lemma delegation_freezes_witness :
  is_ok (exec_rent short_host (everyone 4200) (Do (Undelegate (js "GALICE"))) delegating) = false ∧
  is_ok (exec_rent short_host (everyone 4000) (Do (Undelegate (js "GALICE"))) delegating) = true.
Proof.
  split; [|vm_compute; reflexivity].
  refine (proj1 (delegation_freezes short_host (everyone 3) (js "GALICE") (js "GBOB") opened delegating []
    (everyone 4200) _ _ _ _)).
  - vm_compute. reflexivity.
  - vm_compute. reflexivity.
  - constructor.
  - reflexivity.
Defined.

Lemma token_lives_transparent_witness :
  store (steps_rent long_host (opening ++ (everyone 3, approval) :: meanwhile) start) =
    steps (calls (opening ++ (everyone 3, approval) :: meanwhile)) empty.
Proof.
  apply (token_lives_transparent long_host 1000000).
  - split; [split; [intros; eexists; split; [reflexivity|]; lia | intros; cbn; lia] | intros; cbn; lia].
  - repeat constructor; cbn; lia.
Defined.

Lemma supply_conserved_on_any_host_witness :
  map_total (λ _ v, v) (balances (store (steps_rent short_host opening start))) = 1000.
Proof.
  refine (proj1 (supply_conserved_on_any_host short_host opening _)).
  repeat constructor; intros k [= <-]; vm_compute; repeat split; discriminate.
Defined.

End TokenRent.
