(* ===== verification/Delegated.v ===== *)
(** * Delegated voting power (contracts/governance/src/lib.rs, cast_vote, with the
    delegations of contracts/token/src)

    A holder who has delegated may not vote, and a vote weighs the voter's own
    balance: what is delegated is voted by nobody. *)
From Stdlib Require Import Ascii String ZArith Lia.
From stdpp Require Import prelude list gmap strings.
From S2P Require Import Prelude JsString Soroban ContractTypes Format Events Token Governance GovernanceLife.
Local Open Scope Z_scope.

Module Delegated.
Import Soroban ContractTypes Governance GovernanceLife.

Section delegations.
  (** The delegations while the calls are made. *)
  Context (deleg : address → option address).

Definition delegations_from (w : World) : Prop :=
  ∀ token a o, tk_get_delegation (token_at w token) a = Some o → o = deleg a.

(** Whoever has a vote on record has not delegated. *)
Definition own_votes (s : GovernanceStorage) : Prop :=
  ∀ i a r, vote_records s !! (i, a) = Some r → deleg a = None.

Lemma cast_vote_own w a i v s s' :
  delegations_from w → exec w (CastVote a i v) s = Ok s' → deleg a = None.
Proof. intros Hw He. cbn [exec] in He. gov_simpl He cast_vote. subst. symmetry. by eapply Hw. Qed.

Lemma step_own wk s : delegations_from wk.1 → own_votes s → own_votes (step wk s).
Proof.
  intros Hw Hs. unfold step. destruct (exec wk.1 wk.2 s) as [s'|] eqn:He; [|done].
  intros i a r Hr. destruct (decide (vote_records s' !! (i, a) = vote_records s !! (i, a))) as [Heq|Hne].
  - rewrite Heq in Hr. by eapply Hs.
  - pose proof (effect_records _ _ _ _ i a (exec_core _ _ _ _ He) Hne) as (_ & p & _ & _ & _ & Hk).
    cbn [core c_records] in Hk. rewrite Hr in Hk. destruct Hk as [(Hk & _)|[_ Hold]].
    + rewrite Hk in He. by eapply cast_vote_own.
    + destruct (vote_records s !! (i, a)) as [r0|] eqn:Hr0; [|done]. by eapply Hs.
Qed.
Lemma steps_own l : Forall (λ wk, delegations_from wk.1) l → own_votes (steps l empty).
Proof.
  intros Hl. assert (∀ s, own_votes s → own_votes (steps l s)) as H.
  { induction Hl as [|wk l Hw _ IH]; intros s Hs; [done|]. apply IH. by apply step_own. }
  apply H. intros i a r. cbn. by rewrite lookup_empty.
Qed.
End delegations.

(** The balance that counts: nothing for whoever has delegated. *)
Definition free_balance (deleg : address → option address) (bal : address → Z) (a : address) : Z :=
  match deleg a with None => bal a | Some _ => 0 end.

(** ** Properties *)

(** C13. What is delegated is lost: while the delegations stay as they are and the
    token answers from snapshots, the votes on a proposal never exceed the balances
    of the holders who have not delegated, to whomever the others have; so when these
    balances are below the quorum, the proposal can only be rejected. *)
Theorem delegated_power_is_lost (deleg : address → option address) (snap : Z → address → Z)
    (free : Z) (l : list (World * Call)) (i : Z) (p : Proposal) :
  (∀ ledger accounts, NoDup accounts →
     foldr (λ a n, free_balance deleg (snap ledger) a + n) 0 accounts <= free) →
  Forall (λ wk, answers_from snap wk.1 ∧ delegations_from deleg wk.1) l →
  proposals (steps l empty) !! i = Some p →
  votes_yes p + votes_no p + votes_abstain p <= free ∧
  (free < quorum p → ∀ w s', finalise w i (steps l empty) = Ok s' →
     state <$> proposals s' !! i = Some Format.Rejected).
Proof.
  intros Hsum Hl Hi. pose proof (steps_inv l) as Hc.
  assert (votes_yes p + votes_no p + votes_abstain p <= free) as Hfree.
  { rewrite (cast_weight_tallies _ i p Hc Hi).
    apply (cast_weight_voters _ i (free_balance deleg (snap (snapshot_ledger p)))); [|apply Hsum].
    intros a r Hr. unfold free_balance.
    rewrite (steps_own deleg l) with (i := i) (r := r); [|by eapply Forall_impl; [exact Hl|]; intros ? []|done].
    eapply (steps_snap snap l); [by eapply Forall_impl; [exact Hl|]; intros ? []|done|done]. }
  split; [done|]. intros Hq w s' Hf. gov_simpl Hf finalise. cbn [Governance.publish proposals].
  assert (r0 = p) as -> by congruence.
  assert (proposals (drop_active ?[s]) !! i = proposals ?s !! i) as -> by (unfold drop_active; by case_match).
  cbn [set_proposal proposals]. rewrite lookup_insert_eq. cbn.
  rewrite (proj2 (Z.leb_gt _ _)); [done|]. lia.
Qed.

(** Two holders, the larger of which has delegated to the other. *)
Definition two_holders (ledger : Z) (a : address) : Z :=
  if bool_decide (a = js "GALICE") then 400 else if bool_decide (a = js "GBOB") then 600 else 0.
Definition bob_delegates (a : address) : option address :=
  if bool_decide (a = js "GBOB") then Some (js "GALICE") else None.
Definition delegated_world (now : Z) : World := {|
  ctx := {| sequence := now; timestamp := now; authorized _ := true |};
  token_at _ := {| tk_balance a := Some (two_holders now a); tk_balance_at a n := Some (two_holders n a);
                   tk_total_supply := Some 1000; tk_get_delegation a := Some (bob_delegates a) |};
  disburse_at _ _ := true |}.
Definition delegated_calls : list (World * Call) :=
  [(delegated_world 10, Initialize (js "GADMIN") (js "CTOKEN") 0 0 0 false None);
   (delegated_world 20, CreateProposal (js "GALICE") (js "Title") (js "Text") 500 100 None None);
   (delegated_world 25, CastVote (js "GALICE") 0 Format.Yes);
   (delegated_world 26, CastVote (js "GBOB") 0 Format.Yes)].

Lemma two_holders_free ledger accounts :
  NoDup accounts → foldr (λ a n, free_balance bob_delegates (two_holders ledger) a + n) 0 accounts <= 400.
Proof.
  assert (∀ a, free_balance bob_delegates (two_holders ledger) a = if bool_decide (a = js "GALICE") then 400 else 0) as Hf.
  { intros a. unfold free_balance, bob_delegates, two_holders. repeat case_bool_decide; subst; done. }
  assert (∀ k, js "GALICE" ∉ k → foldr (λ a n, free_balance bob_delegates (two_holders ledger) a + n) 0 k = 0) as Hz.
  { induction k as [|a k IH]; [done|]. intros [Ha Hk]%not_elem_of_cons. cbn [foldr].
    rewrite IH, Hf, bool_decide_false by congruence. done. }
  induction 1 as [|a k Ha Hk IH]; [done|]. cbn [foldr]. rewrite Hf. case_bool_decide; [|lia].
  subst. rewrite Hz by done. lia.
Qed.

Lemma delegated_power_is_lost_witness :
  let p := the_proposal delegated_calls in
  quorum p = 500 ∧ votes_yes p + votes_no p + votes_abstain p <= 400 ∧
  ∀ w s', finalise w 0 (steps delegated_calls empty) = Ok s' → state <$> proposals s' !! 0 = Some Format.Rejected.
Proof.
  intros p. split; [vm_compute; reflexivity|].
  destruct (delegated_power_is_lost bob_delegates two_holders 400 delegated_calls 0 p) as [H1 H2].
  - exact two_holders_free.
  - repeat (apply Forall_cons; split; [split; [by intros ???? [= <-] | by intros ??? [= <-]]|]). by apply Forall_nil.
  - vm_compute. reflexivity.
  - split; [exact H1|]. apply H2. vm_compute. reflexivity.
Defined.

End Delegated.
