(* ===== verification/Upgrade.v ===== *)
(** * Replacing a contract's code, and the decision between several choices
    (contracts/governance/src/lib.rs and contracts/token/src/lib.rs)

    [upgrade] hands the host the hash of the new code; governance defines it twice.
    The branch of [finalise] for proposals with choices is modelled on its own: the
    choices and their votes are declared nowhere and are arguments. *)
From Stdlib Require Import Ascii String ZArith Lia.
From stdpp Require Import prelude list gmap strings.
From S2P Require Import Prelude JsString Soroban ContractTypes Format Events Token Governance GovernanceLife.
Local Open Scope Z_scope.

Module Upgrade.
Import Soroban ContractTypes ContractEvents Governance GovernanceLife.

(** ** upgrade: the hash given to the host, and the state after the call *)
Definition upgrade (w : World) (admin new_wasm_hash : jstr) (s : GovernanceStorage)
    : result (jstr * GovernanceStorage) :=
  _ ← admin_call w s admin;
  mret (new_wasm_hash, Governance.publish (contract_upgraded new_wasm_hash) s).
(** The second definition, with the other event. *)
Definition upgrade_again (w : World) (admin new_wasm_hash : jstr) (s : GovernanceStorage)
    : result (jstr * GovernanceStorage) :=
  _ ← admin_call w s admin;
  mret (new_wasm_hash, Governance.publish (upgraded new_wasm_hash) s).
(** The token's; the event it publishes is not defined. *)
Definition token_upgrade (c : Ctx) (admin new_wasm_hash : jstr) (s : Token.TokenStorage)
    : Token.result jstr :=
  _ ← require_auth c admin;
  _ ← Token.assert_admin s admin;
  mret new_wasm_hash.

(** ** finalise, for a proposal with choices *)
Fixpoint best_choice (choice_votes : nat → Z) (i n : nat) (best_index : nat) (best_weight : Z) : nat :=
  match n with
  | O => best_index
  | S n' =>
      let w := choice_votes i in
      if best_weight <? w then best_choice choice_votes (S i) n' i w
      else best_choice choice_votes (S i) n' best_index best_weight
  end.
Definition decide_choices (choices : nat) (choice_votes : nat → Z) (p : Proposal)
    : ProposalState * option nat :=
  let total_participation := votes_yes p in
  if quorum p <=? total_participation
  then (Format.Passed, Some (best_choice choice_votes 1 (choices - 1) 0 (choice_votes 0%nat)))
  else (Format.Rejected, None).

(** ** Lemmas *)
Lemma best_choice_spec votes n i b :
  (b < i)%nat → (∀ j, (j < i)%nat → votes j <= votes b) → (∀ j, (j < b)%nat → votes j < votes b) →
  let r := best_choice votes i n b (votes b) in
  (r < i + n)%nat ∧ (∀ j, (j < i + n)%nat → votes j <= votes r) ∧ (∀ j, (j < r)%nat → votes j < votes r).
Proof.
  revert i b. induction n as [|n IH]; intros i b Hb Hmax Hfirst; cbn [best_choice].
  { rewrite Nat.add_0_r. done. }
  replace (i + S n)%nat with (S i + n)%nat by lia. cbv zeta.
  destruct (Z.ltb_spec (votes b) (votes i)) as [Hlt|Hge].
  - apply IH; [lia| |].
    + intros j Hj. destruct (decide (j = i)) as [->|]; [lia|]. specialize (Hmax j ltac:(lia)). lia.
    + intros j Hj. specialize (Hmax j Hj). lia.
  - apply IH; [lia| |done].
    intros j Hj. destruct (decide (j = i)) as [->|]; [lia|]. apply Hmax. lia.
Qed.

(** ** Properties *)

(** Only the administrator can replace the code, and nothing else of the state
    changes: both definitions of the governance contract and the token's hand the
    hash over exactly when the caller is the administrator and has authorised it. *)
Theorem only_admin_upgrades (w : World) (a h : jstr) (s : GovernanceStorage) (c : Ctx) (t : Token.TokenStorage) :
  (∀ r, upgrade w a h s = Ok r ↔ admin_of w s a ∧ r = (h, Governance.publish (contract_upgraded h) s)) ∧
  (∀ r, upgrade_again w a h s = Ok r ↔ admin_of w s a ∧ r = (h, Governance.publish (upgraded h) s)) ∧
  (∀ r, token_upgrade c a h t = Ok r ↔ authorized c a = true ∧ Token.s_admin t = Some a ∧ r = h).
Proof.
  assert (∀ A (x : A) r, (_ ← admin_call w s a; mret x) = Ok r ↔ admin_of w s a ∧ r = x) as H.
  { intros A x r. split.
    - intros Hr. res_simpl Hr. split; [by eapply admin_call_Ok|done].
    - intros [[Ha Hau] ->]. unfold admin_call, require_auth, assert_admin. rewrite Hau, Ha. cbn.
      by rewrite bool_decide_true. }
  split_and!; [intros r; apply H..|]. intros r. unfold token_upgrade, require_auth. split.
  - intros Hr. res_simpl Hr. split; [done|]. split; [by eapply Token.assert_admin_Ok|done].
  - intros (Hau & Ha & ->). rewrite Hau. unfold Token.assert_admin. cbn. rewrite Ha. cbn.
    by rewrite bool_decide_true.
Qed.

(** The choice that wins is the first of those with the most votes. *)
Theorem first_past_the_post (choices : nat) (choice_votes : nat → Z) (p : Proposal) (win : nat) :
  (0 < choices)%nat → (decide_choices choices choice_votes p).2 = Some win →
  quorum p <= votes_yes p ∧ (win < choices)%nat ∧
  (∀ j, (j < choices)%nat → choice_votes j <= choice_votes win) ∧
  (∀ j, (j < win)%nat → choice_votes j < choice_votes win).
Proof.
  intros Hn. unfold decide_choices. destruct (Z.leb_spec (quorum p) (votes_yes p)); [|done].
  intros [= <-]. split; [done|].
  destruct (best_choice_spec choice_votes (choices - 1) 1 0) as (H1 & H2 & H3);
    [lia | intros j Hj; by replace j with 0%nat by lia | lia|].
  replace (1 + (choices - 1))%nat with choices in * by lia. done.
Qed.
End Upgrade.
