(* ===== verification/Queries.v ===== *)
(** * The listing queries of the governance contract (governance/src/lib.rs)

    [get_proposals] and [get_proposals_by_state] against the list of all proposals,
    in every state the contract can reach. *)
From Stdlib Require Import Ascii String ZArith Lia.
From stdpp Require Import prelude list gmap strings.
From S2P Require Import Prelude JsString Soroban ContractTypes Format Governance GovernanceLife.
Local Open Scope Z_scope.

Module Queries.
Import Soroban Governance GovernanceLife.

(** ** Identifiers have no gaps *)
Definition complete (c : Core) : Prop := ∀ i, 0 <= i < c_count c → is_Some (c_proposals c !! i).

Lemma complete_put c i p : complete c → complete (put i p c).
Proof.
  intros Hc j Hj. cbn [put c_proposals c_count] in *. destruct (decide (i = j)) as [->|Hne].
  - rewrite lookup_insert_eq. eauto.
  - rewrite lookup_insert_ne by done. by apply Hc.
Qed.
Lemma complete_write c i a r : complete c → complete (write_vote i a r c).
Proof. done. Qed.
Lemma complete_active c a : complete c → complete (with_counts (c_count c) a c).
Proof. done. Qed.

Lemma effect_complete w s k c' : effect w s k c' → complete (core s) → complete c'.
Proof.
  intros He Hc. destruct He; try done; try (by apply complete_put).
  - intros j Hj. cbn [c_count] in Hj. lia.
  - intros j Hj. cbn [with_counts put c_count c_proposals] in Hj |- *.
    destruct (decide (c_count (core s) = j)) as [<-|Hne]; [rewrite lookup_insert_eq; eauto|].
    rewrite lookup_insert_ne by done. apply Hc. lia.
Qed.
Lemma steps_complete l : complete (core (steps l empty)).
Proof.
  unfold steps. apply (fold_preserves step (λ s, complete (core s))).
  - intros [w k] s Hs. unfold step. cbn [fst snd]. destruct (exec w k s) as [s'|] eqn:He; [|done].
    eapply effect_complete; [by apply exec_core|done].
  - intros i Hi. cbn in Hi. lia.
Qed.

Section state.
  Variable s : GovernanceStorage.
Definition count : Z := i_proposal_count (instance s).
(** The proposals with the [m] identifiers from [a]. *)
Definition stored_from (a m : Z) : list Proposal := omap (λ i, proposals s !! i) (seqZ a m).
Definition all_proposals : list Proposal := stored_from 0 count.
End state.

Lemma stored_from_lookup s a (m : nat) (k : nat) :
  (∀ i, a <= i < a + Z.of_nat m → is_Some (proposals s !! i)) → (k < m)%nat →
  stored_from s a (Z.of_nat m) !! k = proposals s !! (a + Z.of_nat k).
Proof.
  revert a k. induction m as [|m IH]; intros a k Hs Hk; [lia|]. unfold stored_from.
  rewrite (seqZ_cons a (Z.of_nat (S m))) by lia. replace (Z.pred (Z.of_nat (S m))) with (Z.of_nat m) by lia.
  cbn [omap list_omap]. destruct (Hs a ltac:(lia)) as [p Hp]. rewrite Hp. destruct k as [|k].
  - change ((p :: omap (λ i, proposals s !! i) (seqZ (Z.succ a) (Z.of_nat m))) !! 0%nat) with (Some p).
    by rewrite Z.add_0_r.
  - change ((p :: omap (λ i, proposals s !! i) (seqZ (Z.succ a) (Z.of_nat m))) !! S k)
      with (stored_from s (Z.succ a) (Z.of_nat m) !! k).
    rewrite IH by (lia || (intros i Hi; apply Hs; lia)). f_equal. lia.
Qed.
Lemma stored_from_length s a (m : nat) :
  (∀ i, a <= i < a + Z.of_nat m → is_Some (proposals s !! i)) → length (stored_from s a (Z.of_nat m)) = m.
Proof.
  revert a. induction m as [|m IH]; intros a Hs; [done|]. unfold stored_from.
  rewrite (seqZ_cons a (Z.of_nat (S m))) by lia. replace (Z.pred (Z.of_nat (S m))) with (Z.of_nat m) by lia.
  cbn [omap list_omap]. destruct (Hs a ltac:(lia)) as [p Hp]. rewrite Hp. cbn [length]. f_equal.
  apply IH. intros i Hi. apply Hs. lia.
Qed.

(** ** Lemmas *)
Lemma page_limit_bounds n : 0 <= n → 0 <= page_limit n <= 20.
Proof. unfold page_limit. destruct (Z.ltb_spec 20 n); lia. Qed.

Lemma stored_from_app s a m n :
  0 <= m → 0 <= n → stored_from s a (m + n) = stored_from s a m ++ stored_from s (a + m) n.
Proof. intros Hm Hn. unfold stored_from. by rewrite seqZ_app, omap_app_lists. Qed.

Lemma stored_from_seq s a n :
  omap (λ k, proposals s !! (a + Z.of_nat k)) (seq 0 n) = stored_from s a (Z.of_nat n).
Proof.
  unfold stored_from, seqZ. rewrite Nat2Z.id. generalize (seq 0 n). intros l.
  induction l as [|k l IH]; [done|]. csimpl. rewrite IH, (Z.add_comm (Z.of_nat k)). done.
Qed.

(** One page: the proposals from [from_id] on, at most twenty, up to the last. *)
Lemma get_proposals_page s from_id limit :
  0 <= from_id → 0 <= limit → from_id + page_limit limit < 2 ^ 64 →
  get_proposals s from_id limit =
    Ok (stored_from s from_id (Z.max 0 (Z.min (page_limit limit) (count s - from_id)))).
Proof.
  intros Hf Hl Hb. pose proof (page_limit_bounds limit Hl). unfold get_proposals, add_u64, in_u64.
  rewrite (proj2 (Z.leb_le 0 _)), (proj2 (Z.ltb_lt _ _)) by lia. cbn [andb mbind res_bind].
  rewrite stored_from_seq. unfold mret, res_ret. f_equal. f_equal. unfold count. lia.
Qed.

(** The loop of [get_proposals_by_state] collects the matching proposals until it
    has enough of them. *)
Lemma by_state_filter s st (n : nat) current limit acc :
  Z.of_nat (length acc) <= limit →
  by_state s st current limit n acc =
    take (Z.to_nat limit) (acc ++ filter (λ p, state p = st) (stored_from s current (Z.of_nat n))).
Proof.
  revert current acc. induction n as [|n IH]; intros current acc Hacc; cbn [by_state].
  { unfold stored_from. cbn. by rewrite app_nil_r, take_ge by lia. }
  destruct (Z.ltb_spec (Z.of_nat (length acc)) limit) as [Hlt|Hge].
  - replace (Z.of_nat (S n)) with (1 + Z.of_nat n) by lia. rewrite stored_from_app by lia.
    unfold stored_from at 1. change (seqZ current 1) with [0 + current]. rewrite Z.add_0_l. csimpl.
    destruct (proposals s !! current) as [p|]; [|by rewrite IH].
    rewrite IH; [|case_bool_decide; [rewrite length_app; simpl|]; lia].
    rewrite filter_app. case_bool_decide as Hp; csimpl.
    + rewrite filter_cons_True by done. by rewrite <- app_assoc.
    + rewrite filter_cons_False by done. done.
  - by rewrite take_app_le, take_ge by lia.
Qed.

(** The pages that start at the multiples of their size. *)
Definition page_from (s : GovernanceStorage) (n : Z) (i : nat) : list Proposal :=
  stored_from s (Z.of_nat i * n) (Z.max 0 (Z.min n (count s - Z.of_nat i * n))).

Lemma pages_join s n k :
  0 <= n → 0 <= count s →
  mjoin (page_from s n <$> seq 0 k) = stored_from s 0 (Z.min (Z.of_nat k * n) (count s)).
Proof.
  intros Hn Hc. induction k as [|k IH]; [by rewrite Z.min_l by lia|].
  rewrite seq_S, fmap_app, join_app, IH. cbn [Nat.add]. csimpl. rewrite app_nil_r. unfold page_from.
  destruct (Z.le_gt_cases (count s) (Z.of_nat k * n)).
  - rewrite (Z.max_l 0) by lia. unfold stored_from at 2. cbn. rewrite app_nil_r.
    f_equal. nia.
  - replace (Z.min (Z.of_nat (S k) * n) (count s)) with
      (Z.of_nat k * n + Z.max 0 (Z.min n (count s - Z.of_nat k * n))) by nia.
    rewrite stored_from_app by nia. by rewrite (Z.min_l (Z.of_nat k * n)) by lia.
Qed.

Lemma stored_from_ids s a (m : nat) :
  (∀ i, a <= i < a + Z.of_nat m → ∃ p, proposals s !! i = Some p ∧ p_id p = i) →
  p_id <$> stored_from s a (Z.of_nat m) = seqZ a (Z.of_nat m).
Proof.
  revert a. induction m as [|m IH]; intros a Hs; [done|]. unfold stored_from.
  rewrite (seqZ_cons a (Z.of_nat (S m))) by lia. replace (Z.pred (Z.of_nat (S m))) with (Z.of_nat m) by lia.
  cbn [omap list_omap]. destruct (Hs a ltac:(lia)) as (p & Hp & Hid). rewrite Hp. csimpl. rewrite Hid.
  f_equal. apply IH. intros i Hi. apply Hs. lia.
Qed.

(** ** Properties *)

(** C16. Paging lists everything: in every state the contract can reach, with fewer
    than 2^64 - 20 proposals, page after page of the same size, from 1 to any number
    and capped at 20, gives all proposals, each once and in the order of their
    identifiers, as soon as the pages reach the last. *)
Theorem pages_list_everything (l : list (World * Call)) (limit : Z) (k : nat) :
  let s := steps l empty in
  1 <= limit → count s < 2 ^ 64 - 20 → count s <= Z.of_nat k * page_limit limit →
  Z.of_nat k * page_limit limit < 2 ^ 64 - 20 →
  ∃ pages, Forall2 (λ i page, get_proposals s (Z.of_nat i * page_limit limit) limit = Ok page) (seq 0 k) pages ∧
    mjoin pages = all_proposals s ∧ p_id <$> all_proposals s = seqZ 0 (count s).
Proof.
  intros s Hl Hc Hk Hb. pose proof (page_limit_bounds limit ltac:(lia)) as Hpl.
  pose proof (steps_inv l) as Hinv. pose proof (inv_count _ Hinv) as Hpos. fold s in Hinv, Hpos.
  change (c_count (core s)) with (count s) in Hpos.
  exists (page_from s (page_limit limit) <$> seq 0 k). split_and!.
  - apply Forall2_fmap_r, Forall_Forall2_diag, list.Forall_forall. intros i Hi%elem_of_seq.
    apply get_proposals_page; nia.
  - rewrite pages_join by lia. rewrite Z.min_r by lia. done.
  - unfold all_proposals. rewrite <- (Z2Nat.id (count s)) by done. apply stored_from_ids.
    intros i Hi. destruct (steps_complete l i) as [p Hp].
    { change (c_count (core (steps l empty))) with (count s). lia. }
    exists p. split; [exact Hp|]. by apply (inv_ids _ Hinv i p Hp).
Qed.

(** The listing by state: the first matching proposals from [from_id] on, in order,
    as many as asked for and at most twenty, whatever lies between them. *)
Theorem listing_by_state_exact (s : GovernanceStorage) (st : ProposalState) (from_id limit : Z) :
  0 <= limit →
  get_proposals_by_state s st from_id limit =
    take (Z.to_nat (page_limit limit))
      (filter (λ p, state p = st) (stored_from s from_id (Z.max 0 (count s - from_id)))).
Proof.
  intros Hl. pose proof (page_limit_bounds limit Hl). unfold get_proposals_by_state.
  rewrite by_state_filter by (simpl; lia). cbn [app]. do 3 f_equal. unfold count. lia.
Qed.

(** Two pages of one proposal each. *)
Lemma pages_list_everything_witness :
  let s := steps voted_once empty in
  ∃ pages, Forall2 (λ i page, get_proposals s (Z.of_nat i * page_limit 1) 1 = Ok page) (seq 0 2) pages ∧
    mjoin pages = all_proposals s ∧ p_id <$> all_proposals s = seqZ 0 (count s).
Proof. apply (pages_list_everything voted_once 1 2); vm_compute; (discriminate || reflexivity). Defined.
(** ** The configuration queries *)
Definition has_config (s : GovernanceStorage) : Prop :=
  if i_ready (instance s)
  then is_Some (i_admin (instance s)) ∧ is_Some (i_voting_token (instance s))
  else i_admin (instance s) = None ∧ i_pending_admin (instance s) = None.

Lemma configured_drop s : has_config s → has_config (drop_active s).
Proof. unfold drop_active. by case_match. Qed.

Lemma exec_configured w k s s' : exec w k s = Ok s' → has_config s → has_config s'.
Proof.
  intros H Hs.
  assert (∀ a, admin_of w s a → i_ready (instance s) = true) as Hadm.
  { intros a [Ha _]. unfold has_config in Hs. destruct (i_ready (instance s)); [done|]. naive_solver congruence. }
  destruct k; cbn [exec] in H.
  - gov_simpl H initialize. by split; eexists.
  - res_simpl H. gov_simpl Hr create_proposal. exact Hs.
  - gov_simpl H amend_proposal. exact Hs.
  - gov_simpl H cast_vote. exact Hs.
  - gov_simpl H retract_vote. destruct r as [p r]. res_simpl H. exact Hs.
  - gov_simpl H change_vote. destruct r as [p r]. res_simpl H. exact Hs.
  - gov_simpl H finalise. by apply (configured_drop (set_proposal _ _ _)).
  - gov_simpl H execute. exact Hs.
  - gov_simpl H cancel. by apply (configured_drop (set_proposal _ _ _)).
  - gov_simpl H update_quorum. exact Hs.
  - gov_simpl H propose_admin. unfold has_config in *. cbn. rewrite (Hadm admin) in * by done. exact Hs.
  - gov_simpl H update_voting_token. unfold has_config in *. cbn. rewrite (Hadm admin) in * by done.
    destruct Hs. by split; [|eexists].
  - gov_simpl H accept_admin. unfold has_config in *. cbn. destruct (i_ready (instance s)).
    + destruct Hs. by split; [eexists|].
    + destruct Hs. congruence.
  - gov_simpl H cancel_admin_transfer. unfold has_config in *. cbn. rewrite (Hadm admin) in * by done. exact Hs.
  - gov_simpl H pause. exact Hs.
  - gov_simpl H unpause. exact Hs.
  - gov_simpl H set_min_proposal_balance. exact Hs.
  - gov_simpl H set_proposal_cooldown. exact Hs.
  - gov_simpl H set_restrict_admin_vote. exact Hs.
Qed.

Lemma steps_configured l : has_config (steps l empty).
Proof.
  unfold steps. apply (fold_preserves step has_config); [|done]. intros wk s Hs. unfold step.
  destruct (exec wk.1 wk.2 s) as [s'|] eqn:He; [by eapply exec_configured | done].
Qed.

(** Once the contract has been initialised, whatever is called, its configuration
    and its administrator can be read; before, both queries trap. *)
Theorem configuration_is_readable (l : list (World * Call)) :
  let s := steps l empty in
  if i_ready (instance s)
  then ∃ a t c, get_admin s = Ok a ∧ i_voting_token (instance s) = Some t ∧ get_config s = Ok c ∧
         cfg_admin c = a ∧ cfg_voting_token c = t ∧ cfg_paused c = i_paused (instance s)
  else get_admin s = Err Trap ∧ get_config s = Err Trap.
Proof.
  intros s. pose proof (steps_configured l) as Hs. fold s in Hs. unfold has_config in Hs.
  destruct (i_ready (instance s)).
  - destruct Hs as [[a Ha] [t Ht]]. unfold get_admin, get_config. rewrite Ha, Ht. cbn. by eexists a, t, _.
  - destruct Hs as [Ha _]. unfold get_admin, get_config. by rewrite Ha.
Qed.

End Queries.
