(* ===== verification/Treasury.v ===== *)
(** * The treasury contract (contracts/treasury/src), and the three contracts together

    [Treasury] holds funds and pays them out when the governance contract asks.
    [Dao] puts a governance contract, a token contract and a treasury at their
    addresses, and runs the execution of a proposal through all three: the
    governance contract calls the treasury, the treasury calls the token.

    A call a contract makes is authorised by that contract itself ([as_caller]),
    and by what already authorised the call it is made in. The governance contract may
    be given another voting token or treasury, and an action may name another asset:
    what contracts at other addresses do when they are called is a parameter,
    [Foreign]. *)
From Stdlib Require Import Ascii String ZArith Lia.
From stdpp Require Import prelude list gmap strings.
From S2P Require Import Prelude JsString Soroban ContractTypes Format Events Token Governance GovernanceLife.
Local Open Scope Z_scope.

Module Treasury.
Import Soroban Governance.

Inductive DataKey := GovernanceKey.
(** Instance storage, and the published recipients and amounts. *)
Record TreasuryStorage := { governance : option address; disbursed : list (address * Z) }.
Definition empty : TreasuryStorage := {| governance := None; disbursed := [] |}.
(** The contract has no error type: a failure is a trap. *)
Notation result := (res (failure Empty_set)).

Definition initialize (g : address) (s : TreasuryStorage) : result TreasuryStorage :=
  match governance s with
  | Some _ => Err Trap
  | None => mret {| governance := Some g; disbursed := disbursed s |}
  end.

(** [transfer_on token from to amount] is the call of the function [transfer] of
    the contract at [token]: the state of the other contracts it leaves, or
    nothing when it fails. Native assets are paid by calling the treasury's own
    address. *)
Definition disburse {W} (transfer_on : address → address → address → Z → option W) (self : address)
    (c : Ctx) (action : TreasuryAction) (s : TreasuryStorage) : result (TreasuryStorage * W) :=
  g ← unwrap (governance s);
  _ ← require_auth c g;
  let token := match asset action with Native => self | TokenAsset token_addr => token_addr end in
  w ← unwrap (transfer_on token self (recipient action) (ta_amount action));
  mret ({| governance := governance s;
           disbursed := disbursed s ++ [(recipient action, ta_amount action)] |}, w).
End Treasury.

Module Dao.
Import Soroban ContractTypes Governance GovernanceLife.

(** The authorisation of a call made by the contract at [a]. *)
Definition as_caller (a : address) (c : Ctx) : Ctx := {|
  sequence := sequence c; timestamp := timestamp c;
  authorized x := bool_decide (x = a) || authorized c x |}.

(** A proposal is executed only from [Passed], and then is [Executed] for ever. *)
Lemma execute_Ok w admin i s s' :
  gov_inv (core s) → execute w admin i s = Ok s' →
  ∃ p, proposals s !! i = Some p ∧ admin_of w s admin ∧ state p = Format.Passed ∧
    proposals s' !! i = Some (with_state Format.Executed (cancellation_reason p) p).
Proof.
  intros Hc H. gov_simpl H execute. eexists. split_and!; try done. apply lookup_insert_eq.
Qed.

Lemma executed_stays l s i p :
  gov_inv (core s) → proposals s !! i = Some p → state p = Format.Executed →
  proposals (steps l s) !! i = Some p.
Proof.
  revert s. induction l as [|wk l IH]; intros s Hc Hi Hp; [done|].
  apply (IH (step wk s)); [by apply step_inv| |done].
  destruct (step_moves wk s i p Hc Hi) as (p' & Hi' & _ & Hm & _). unfold moves in Hm.
  rewrite Hp in Hm. by subst.
Qed.

Lemma execute_never_again l w admin i s p s' :
  gov_inv (core s) → proposals s !! i = Some p → state p = Format.Executed →
  execute w admin i (steps l s) = Ok s' → False.
Proof.
  intros Hc Hi Hp H. pose proof (executed_stays l s i p Hc Hi Hp) as Hi'.
  gov_simpl H execute. congruence.
Qed.

(** A call on one of the three contracts. *)
Inductive DaoCall :=
| OnGovernance (k : Call)
| OnToken (k : Token.Call)
| InitializeTreasury (governance : address)
| Disburse (action : TreasuryAction).

(** What the contracts at other addresses do during a call: the answers of one that is
    asked as a token (asking it changes nothing here); for one whose [transfer] or [disburse] is called, nothing when it
    fails, or else the calls it makes on the three contracts (and whose
    authorisation these have). The host refuses calls back into a contract that is
    waiting: a token that the treasury calls can reach the token here only. *)
Record Foreign := {
  f_view : address → TokenView;
  f_transfer : address → address → address → Z → option (list (Ctx * Token.Call));
  f_disburse : address → TreasuryAction → option (list (Ctx * DaoCall)) }.

(** What surrounds a call. *)
Record Env := { call_ctx : Ctx; foreign : Foreign }.

Section dao.
  (** The addresses of the three contracts. *)
  Context (gov_addr tok_addr tre_addr : address).

Record Dao := {
  gov : GovernanceStorage;
  tok : Token.TokenStorage;
  tre : Treasury.TreasuryStorage }.

(** Governance and treasury, which have no function of a token. *)
Definition no_token (a : address) : bool := bool_decide (a = gov_addr ∨ a = tre_addr).

(** A call of [transfer] from the treasury: on the token, on one of the contracts that
    lack the function, or on another contract. *)
Definition transfer_on (fo : Foreign) (c : Ctx) (d : Dao) (token from to : address) (amount : Z)
    : option Token.TokenStorage :=
  if bool_decide (token = tok_addr)
  then match Token.transfer c from to amount (tok d) with Ok t => Some t | Err _ => None end
  else if no_token token then None
  else (λ l, Token.steps l (tok d)) <$> f_transfer fo token from to amount.

Definition pay (fo : Foreign) (c : Ctx) (action : TreasuryAction) (d : Dao)
    : res (failure Empty_set) (Treasury.TreasuryStorage * Token.TokenStorage) :=
  Treasury.disburse (transfer_on fo (as_caller tre_addr c) d) tre_addr (as_caller gov_addr c) action (tre d).

Definition dead_token : TokenView := {|
  tk_balance _ := None; tk_balance_at _ _ := None; tk_total_supply := None; tk_get_delegation _ := None |}.
Definition dao_world (fo : Foreign) (c : Ctx) (d : Dao) : World := {|
  ctx := c;
  token_at a := if bool_decide (a = tok_addr) then token_view (tok d)
                else if no_token a then dead_token else f_view fo a;
  disburse_at a action :=
    if bool_decide (a = tre_addr) then match pay fo c action d with Ok _ => true | Err _ => false end
    else negb (bool_decide (a = tok_addr ∨ a = gov_addr)) && bool_decide (is_Some (f_disburse fo a action)) |}.

Definition succeeds {E A} (r : res E A) : option A := match r with Ok a => Some a | Err _ => None end.

(** A call on the token or the treasury. *)
Definition exec_inner (fo : Foreign) (c : Ctx) (k : DaoCall) (d : Dao) : option Dao :=
  match k with
  | OnGovernance _ => None
  | OnToken k => t ← succeeds (Token.exec c k (tok d)); Some {| gov := gov d; tok := t; tre := tre d |}
  | InitializeTreasury g =>
      r ← succeeds (Treasury.initialize g (tre d)); Some {| gov := gov d; tok := tok d; tre := r |}
  | Disburse action =>
      '(r, t) ← succeeds (Treasury.disburse (transfer_on fo (as_caller tre_addr c) d) tre_addr c action (tre d));
      Some {| gov := gov d; tok := t; tre := r |}
  end.
(** The calls another treasury makes while governance waits; those that fail change
    nothing. *)
Definition step_inner (fo : Foreign) (ck : Ctx * DaoCall) (d : Dao) : Dao :=
  default d (exec_inner fo ck.1 ck.2 d).
Definition steps_inner (fo : Foreign) (l : list (Ctx * DaoCall)) (d : Dao) : Dao :=
  foldl (flip (step_inner fo)) d l.

Definition with_gov (g : GovernanceStorage) (d : Dao) : Dao :=
  {| gov := g; tok := tok d; tre := tre d |}.

(** [execute], with what the nested calls leave. *)
Definition execute_all (fo : Foreign) (c : Ctx) (admin : address) (i : Z) (d : Dao) : result Dao :=
  g ← execute (dao_world fo c d) admin i (gov d);
  match proposals (gov d) !! i ≫= treasury_action, i_treasury (instance (gov d)) with
  | Some action, Some t =>
      if bool_decide (t = tre_addr) then
        match pay fo c action d with
        | Ok (r, t) => mret {| gov := g; tok := t; tre := r |}
        | Err _ => Err Trap
        end
      else match f_disburse fo t action with
           | Some l => mret (with_gov g (steps_inner fo l d))
           | None => Err Trap
           end
  | _, _ => mret (with_gov g d)
  end.

Lemma disburse_Ok fo (c c' : Ctx) d action r t :
  Treasury.disburse (transfer_on fo c' d) tre_addr c action (tre d) = Ok (r, t) →
  r = {| Treasury.governance := Treasury.governance (tre d);
         Treasury.disbursed := Treasury.disbursed (tre d) ++ [(recipient action, ta_amount action)] |} ∧
  (∃ g, Treasury.governance (tre d) = Some g ∧ authorized c g = true) ∧
  ∃ a, asset action = (if bool_decide (a = tre_addr) then asset action else TokenAsset a) ∧
    transfer_on fo c' d a tre_addr (recipient action) (ta_amount action) = Some t.
Proof.
  intros H. unfold Treasury.disburse, unwrap, require_auth in H. res_simpl H. simplify_eq.
  split; [done|]. split; [by eexists|]. eexists. split; [|eassumption].
  destruct (asset action) as [|a]; by case_bool_decide.
Qed.

(** The token a payment goes through: itself, or another contract's. *)
Lemma transfer_on_Ok fo c' d a to n t :
  transfer_on fo c' d a tre_addr to n = Some t →
  (a = tok_addr ∧ Token.transfer c' tre_addr to n (tok d) = Ok t) ∨
  (a ≠ tok_addr ∧ no_token a = false ∧
   ∃ l, f_transfer fo a tre_addr to n = Some l ∧ t = Token.steps l (tok d)).
Proof.
  unfold transfer_on. case_bool_decide as Ha.
  - destruct (Token.transfer _ _ _ _ _) eqn:Ht; [|done]. intros [= <-]. by left.
  - destruct (no_token a) eqn:Hn; [done|]. intros (l & -> & Hl)%fmap_Some. right. by eauto.
Qed.

Lemma pay_Ok fo c action d r t :
  tre_addr ≠ tok_addr → pay fo c action d = Ok (r, t) →
  Treasury.disbursed r = Treasury.disbursed (tre d) ++ [(recipient action, ta_amount action)] ∧
  ∃ a, asset action = TokenAsset a ∧
    ((a = tok_addr ∧
      Token.transfer (as_caller tre_addr c) tre_addr (recipient action) (ta_amount action) (tok d) = Ok t) ∨
     (a ≠ tok_addr ∧ no_token a = false ∧
      ∃ l, f_transfer fo a tre_addr (recipient action) (ta_amount action) = Some l ∧ t = Token.steps l (tok d))).
Proof.
  intros Hne H. apply disburse_Ok in H as (-> & _ & a & Has & Ht). split; [done|]. exists a.
  assert (no_token tre_addr = true) as Hself by (unfold no_token; apply bool_decide_true; by right).
  apply transfer_on_Ok in Ht as [[-> Ht]|(Ha & Hn & Hl)].
  - rewrite bool_decide_false in Has by done. split; [done|]. by left.
  - rewrite bool_decide_false in Has by congruence. split; [done|]. by right.
Qed.

Lemma execute_all_Ok fo c admin i d d' p action :
  proposals (gov d) !! i = Some p → treasury_action p = Some action →
  i_treasury (instance (gov d)) = Some tre_addr → execute_all fo c admin i d = Ok d' →
  execute (dao_world fo c d) admin i (gov d) = Ok (gov d') ∧ pay fo c action d = Ok (tre d', tok d').
Proof.
  intros Hi Ha Ht H. unfold execute_all in H. rewrite Hi in H. cbn [mbind option_bind] in H.
  rewrite Ha, Ht in H. rewrite bool_decide_true in H by done. res_simpl H.
  destruct (pay fo c action d) as [[r1 t1]|] eqn:Hp; [|done]. res_simpl H. done.
Qed.
(** ** Properties *)

(** A passed proposal is paid for once: when the execution of a proposal with
    a treasury action goes through, in a governance contract whose treasury is this
    one, the administrator has authorised it, the proposal had passed, the treasury
    records the payment, and no execution of the proposal ever goes through again,
    whatever is called. An action in the token of this repository moves exactly its
    amount from the treasury to the recipient and leaves the supply; what an action in
    another asset does is up to the contract of that asset. *)
Theorem disbursed_once (l : list (World * Call)) (fo : Foreign) (c : Ctx) (admin : address) (i : Z)
    (d d' : Dao) (p : Proposal) (action : TreasuryAction) :
  tre_addr ≠ tok_addr → gov d = steps l Governance.empty →
  proposals (gov d) !! i = Some p → treasury_action p = Some action →
  i_treasury (instance (gov d)) = Some tre_addr → execute_all fo c admin i d = Ok d' →
  authorized c admin = true ∧ i_admin (instance (gov d)) = Some admin ∧ state p = Format.Passed ∧
  Treasury.disbursed (tre d') = Treasury.disbursed (tre d) ++ [(recipient action, ta_amount action)] ∧
  (asset action = TokenAsset tok_addr →
   (∀ a, Token.balance (tok d') a = Token.balance (tok d) a
      + ((if decide (a = recipient action) then ta_amount action else 0)
         - (if decide (a = tre_addr) then ta_amount action else 0))) ∧
   Token.s_total_supply (tok d') = Token.s_total_supply (tok d)) ∧
  ∀ l' fo' c' admin' d1, gov d1 = steps l' (gov d') → ∀ d2, execute_all fo' c' admin' i d1 ≠ Ok d2.
Proof.
  intros Hne Hd Hi Ha Ht H.
  destruct (execute_all_Ok fo c admin i d d' p action Hi Ha Ht H) as [Hex Hpay].
  destruct (pay_Ok fo c action d _ _ Hne Hpay) as (Hdis & a & Has & Htr).
  pose proof (steps_inv l) as Hc. rewrite <- Hd in Hc.
  destruct (execute_Ok _ _ _ _ _ Hc Hex) as (q & Hq & [Hadm Hau] & Hst & Hi').
  assert (q = p) as -> by congruence. split_and!; try done.
  - intros Htok. destruct Htr as [[_ Htr]|[Hno _]]; [|congruence]. split.
    + intros b. by destruct (Token.transfer_effect _ _ _ _ _ _ b Htr).
    + by destruct (Token.transfer_effect _ _ _ _ _ _ tre_addr Htr).
  - intros l' fo' c' admin' d1 Hd1 d2 H2. unfold execute_all in H2. apply bind_Ok_inv in H2 as (g & Hg & _).
    assert (gov_inv (core (gov d'))) as Hc'
      by exact (effect_inv _ _ _ _ Hc (exec_core _ (Execute admin i) _ _ Hex)).
    rewrite Hd1 in Hg. by destruct (execute_never_again l' _ _ _ _ _ _ Hc' Hi' eq_refl Hg).
Qed.

(** Native payments never go through: the treasury pays the native asset by
    calling [transfer] on its own address, which is not a token, so a passed
    proposal with a native action can never be executed with this treasury. *)
Theorem native_payment_fails (fo : Foreign) (c : Ctx) (admin : address) (i : Z) (d : Dao)
    (p : Proposal) (action : TreasuryAction) :
  tre_addr ≠ tok_addr → proposals (gov d) !! i = Some p → treasury_action p = Some action →
  asset action = Native → i_treasury (instance (gov d)) = Some tre_addr →
  ∀ d', execute_all fo c admin i d ≠ Ok d'.
Proof.
  intros Hne Hi Ha Hn Ht d' H.
  destruct (execute_all_Ok fo c admin i d d' p action Hi Ha Ht H) as [_ Hpay].
  destruct (pay_Ok fo c action d _ _ Hne Hpay) as (_ & a & Has & _). congruence.
Qed.
End dao.

(** ** The theorems on a treasury of three hundred that pays fifty *)
Definition funded : Token.TokenStorage :=
  Token.step (Token.everyone 2, Token.Transfer (js "GALICE") (js "CTREASURY") 300) first_holder.
Definition passed (a : TreasuryAsset) : list (World * Call) :=
  [(world funded 10, Initialize (js "GADMIN") (js "CTOKEN") 0 0 0 false (Some (js "CTREASURY")));
   (world funded 20, CreateProposal (js "GALICE") (js "Title") (js "Description") 600 100 None
      (Some {| recipient := js "GBOB"; ta_amount := 50; asset := a |}));
   (world funded 25, CastVote (js "GALICE") 0 Format.Yes);
   (world funded 121, Finalise 0)].
Definition sample_dao (a : TreasuryAsset) : Dao := {|
  gov := steps (passed a) Governance.empty; tok := funded;
  tre := {| Treasury.governance := Some (js "CGOV"); Treasury.disbursed := [] |} |}.
(** Nothing else is deployed. *)
Definition nobody_else : Foreign := {|
  f_view _ := dead_token; f_transfer _ _ _ _ := None; f_disburse _ _ := None |}.
Definition paid_dao : Dao :=
  match execute_all (js "CGOV") (js "CTOKEN") (js "CTREASURY") nobody_else (Token.everyone 130) (js "GADMIN") 0
          (sample_dao (TokenAsset (js "CTOKEN"))) with
  | Ok d => d
  | Err _ => sample_dao Native
  end.

Lemma disbursed_once_witness :
  Token.balance (tok paid_dao) (js "GBOB") = 50 ∧ Token.balance (tok paid_dao) (js "CTREASURY") = 250 ∧
  Token.s_total_supply (tok paid_dao) = Token.s_total_supply funded.
Proof.
  split; [vm_compute; reflexivity|]. split; [vm_compute; reflexivity|].
  refine (proj2 (proj1 (proj2 (proj2 (proj2 (proj2 (disbursed_once (js "CGOV") (js "CTOKEN") (js "CTREASURY")
    (passed (TokenAsset (js "CTOKEN"))) nobody_else (Token.everyone 130) (js "GADMIN") 0
    (sample_dao (TokenAsset (js "CTOKEN"))) paid_dao
    (the_proposal (passed (TokenAsset (js "CTOKEN"))))
    {| recipient := js "GBOB"; ta_amount := 50; asset := TokenAsset (js "CTOKEN") |}
    _ _ _ _ _ _))))) _)).
  - vm_compute. discriminate.
  - reflexivity.
  - vm_compute. reflexivity.
  - vm_compute. reflexivity.
  - vm_compute. reflexivity.
  - vm_compute. reflexivity.
  - reflexivity.
Defined.

Lemma native_payment_fails_witness :
  state (the_proposal (passed Native)) = Format.Passed ∧
  ∀ d', execute_all (js "CGOV") (js "CTOKEN") (js "CTREASURY") nobody_else (Token.everyone 130) (js "GADMIN") 0
          (sample_dao Native) ≠ Ok d'.
Proof.
  split; [vm_compute; reflexivity|].
  apply (native_payment_fails (js "CGOV") (js "CTOKEN") (js "CTREASURY") nobody_else (Token.everyone 130) (js "GADMIN") 0
    (sample_dao Native) (the_proposal (passed Native))
    {| recipient := js "GBOB"; ta_amount := 50; asset := Native |}).
  - vm_compute. discriminate.
  - vm_compute. reflexivity.
  - vm_compute. reflexivity.
  - reflexivity.
  - vm_compute. reflexivity.
Defined.
End Dao.
