(* ===== verification/DaoLife.v ===== *)
(** * The three contracts as one system (contracts/governance, token, treasury)

    Histories of calls by anyone on any of the three contracts, each seeing the
    others as they are at that moment: the votes weigh the balances of the token, and
    an execution runs through the treasury and the token. A failing call is rolled
    back on all three. Each contract's part of a history is a history of that
    contract, so what [GovernanceLife] and [Token] show holds here; the theorems are
    about what only the whole system says: how far votes can exceed the supply, and
    what leaves the treasury. Contracts at other addresses (another voting token,
    another treasury, the asset of an action) are arbitrary: each call comes with what
    they do in it ([Foreign]). *)
From Stdlib Require Import Ascii String ZArith Lia.
From stdpp Require Import prelude list gmap strings.
From S2P Require Import Prelude JsString Soroban ContractTypes Format Events Token Governance GovernanceLife TokenRent Treasury.
Local Open Scope Z_scope.

Module DaoLife.
Import Soroban ContractTypes Governance GovernanceLife Dao.

Lemma succeeds_Some {E A} (r : res E A) a : succeeds r = Some a → r = Ok a.
Proof. destruct r; by intros [= ->]. Qed.

Section system.
  (** The addresses of the three contracts. *)
  Context (gov_addr tok_addr tre_addr : address).

Notation world_of e d := (dao_world gov_addr tok_addr tre_addr (foreign e) (call_ctx e) d).
Notation exec_inner := (exec_inner gov_addr tok_addr tre_addr).
Notation step_inner := (step_inner gov_addr tok_addr tre_addr).
Notation steps_inner := (steps_inner gov_addr tok_addr tre_addr).
Notation no_token := (no_token gov_addr tre_addr).

Definition exec_dao (e : Env) (k : DaoCall) (d : Dao) : option Dao :=
  match k with
  | OnGovernance (Execute a i) =>
      succeeds (execute_all gov_addr tok_addr tre_addr (foreign e) (call_ctx e) a i d)
  | OnGovernance k => (λ g, with_gov g d) <$> succeeds (exec (world_of e d) k (gov d))
  | _ => exec_inner (foreign e) (call_ctx e) k d
  end.
Definition step_dao (ek : Env * DaoCall) (d : Dao) : Dao := default d (exec_dao ek.1 ek.2 d).
Definition steps_dao (l : list (Env * DaoCall)) (d : Dao) : Dao := foldl (flip step_dao) d l.
Definition deployed : Dao := {| gov := empty; tok := Token.empty; tre := Treasury.empty |}.

(** ** What a call makes happen on the token

    The calls the treasury makes to pay, those of another asset's contract, and
    those of another treasury. *)
Definition pay_trace (fo : Foreign) (c : Ctx) (action : TreasuryAction) : list (Ctx * Token.Call) :=
  match asset action with
  | Native => []
  | TokenAsset a =>
      if bool_decide (a = tok_addr)
      then [(as_caller tre_addr c, Token.Transfer tre_addr (recipient action) (ta_amount action))]
      else default [] (f_transfer fo a tre_addr (recipient action) (ta_amount action))
  end.
Definition inner_trace (fo : Foreign) (c : Ctx) (k : DaoCall) : list (Ctx * Token.Call) :=
  match k with
  | OnToken k => [(c, k)]
  | Disburse action => pay_trace fo c action
  | _ => []
  end.
Fixpoint inner_traces (fo : Foreign) (l : list (Ctx * DaoCall)) (d : Dao) : list (Ctx * Token.Call) :=
  match l with
  | [] => []
  | ck :: l' =>
      (match exec_inner fo ck.1 ck.2 d with Some _ => inner_trace fo ck.1 ck.2 | None => [] end)
        ++ inner_traces fo l' (step_inner fo ck d)
  end.
Definition trace (e : Env) (k : DaoCall) (d : Dao) : list (Ctx * Token.Call) :=
  match k with
  | OnGovernance (Execute _ i) =>
      match proposals (gov d) !! i ≫= treasury_action, i_treasury (instance (gov d)) with
      | Some action, Some t =>
          if bool_decide (t = tre_addr) then pay_trace (foreign e) (call_ctx e) action
          else inner_traces (foreign e) (default [] (f_disburse (foreign e) t action)) d
      | _, _ => []
      end
  | OnGovernance _ => []
  | k => inner_trace (foreign e) (call_ctx e) k
  end.

(** A property of every call around: the one a user makes and those other contracts
    may make in it. *)
Definition every_call (P : Ctx → DaoCall → Prop) (ek : Env * DaoCall) : Prop :=
  P (call_ctx ek.1) ek.2 ∧
  (∀ a f t n l, f_transfer (foreign ek.1) a f t n = Some l → Forall (λ ck, P ck.1 (OnToken ck.2)) l) ∧
  (∀ a action l, f_disburse (foreign ek.1) a action = Some l → Forall (λ ck, P ck.1 ck.2) l).

(** The token is not initialised with a negative supply, which [initialize] of the
    token does not refuse. *)
Definition sound_dao_call (ek : Env * DaoCall) : Prop :=
  every_call (λ _ k, match k with OnToken k => Token.sound_call k | _ => True end) ek.
Notation sound_calls := (Forall (λ ck : Ctx * Token.Call, Token.sound_call ck.2)).

(** ** Each contract's part of a history is a history of the contract *)
Hypothesis distinct : tre_addr ≠ tok_addr.

Lemma token_step_Ok (c : Ctx) k (t t' : Token.TokenStorage) :
  Token.exec c k t = Ok t' → Token.steps [(c, k)] t = t'.
Proof. intros H. unfold Token.steps, Token.step. cbn. by rewrite H. Qed.

Lemma token_steps_app l l' t : Token.steps (l ++ l') t = Token.steps l' (Token.steps l t).
Proof. unfold Token.steps. by rewrite foldl_app. Qed.

(** A payment of the treasury. *)
Lemma disburse_trace fo c c' d action r t :
  Treasury.disburse (transfer_on gov_addr tok_addr tre_addr fo (as_caller tre_addr c') d) tre_addr c action (tre d) = Ok (r, t) →
  t = Token.steps (pay_trace fo c' action) (tok d) ∧
  r = {| Treasury.governance := Treasury.governance (tre d);
         Treasury.disbursed := Treasury.disbursed (tre d) ++ [(recipient action, ta_amount action)] |} ∧
  ∃ g, Treasury.governance (tre d) = Some g ∧ authorized c g = true.
Proof.
  intros H. apply disburse_Ok in H as (-> & Hg & a & Has & Ht). split; [|by split].
  assert (no_token tre_addr = true) as Hself by (unfold Dao.no_token; apply bool_decide_true; by right).
  apply transfer_on_Ok in Ht as [[-> Ht]|(Ha & Hn & l & Hl & ->)]; unfold pay_trace.
  - rewrite bool_decide_false in Has by done. rewrite Has, bool_decide_true by done.
    symmetry. by apply token_step_Ok.
  - rewrite bool_decide_false in Has by congruence. rewrite Has, bool_decide_false by done. by rewrite Hl.
Qed.

(** What a call on the token or the treasury does. *)
Lemma exec_inner_Some fo c k d d' :
  exec_inner fo c k d = Some d' →
  gov d' = gov d ∧ tok d' = Token.steps (inner_trace fo c k) (tok d) ∧
  match k with
  | OnGovernance _ => False
  | OnToken k => tre d' = tre d ∧ Token.exec c k (tok d) = Ok (tok d')
  | InitializeTreasury g =>
      Treasury.governance (tre d) = None ∧
      tre d' = {| Treasury.governance := Some g; Treasury.disbursed := Treasury.disbursed (tre d) |}
  | Disburse action =>
      tre d' = {| Treasury.governance := Treasury.governance (tre d);
                  Treasury.disbursed := Treasury.disbursed (tre d) ++ [(recipient action, ta_amount action)] |} ∧
      ∃ g, Treasury.governance (tre d) = Some g ∧ authorized c g = true
  end.
Proof.
  intros H. destruct k as [gk|tk|g|action]; cbn [Dao.exec_inner inner_trace] in *; [done|..].
  - apply bind_Some in H as (t & Ht%succeeds_Some & [= <-]). split_and!; [done| |done|exact Ht].
    symmetry. by apply token_step_Ok.
  - apply bind_Some in H as (r & Hr%succeeds_Some & [= <-]). unfold Treasury.initialize in Hr.
    destruct (Treasury.governance (tre d)) eqn:Hg; [done|]. injection Hr as <-. done.
  - apply bind_Some in H as ([r t] & Hr%succeeds_Some & [= <-]).
    destruct (disburse_trace _ _ _ _ _ _ _ Hr) as (-> & -> & Hg). done.
Qed.

Lemma step_inner_cases fo c k d :
  (exec_inner fo c k d = None ∧ step_inner fo (c, k) d = d) ∨
  exec_inner fo c k d = Some (step_inner fo (c, k) d).
Proof. unfold Dao.step_inner. cbn [fst snd]. destruct (exec_inner fo c k d); [by right|by left]. Qed.

Lemma steps_inner_tok fo l d :
  tok (steps_inner fo l d) = Token.steps (inner_traces fo l d) (tok d) ∧ gov (steps_inner fo l d) = gov d.
Proof.
  revert d. induction l as [|[c k] l IH]; intros d; [done|].
  change (steps_inner fo ((c, k) :: l) d) with (steps_inner fo l (step_inner fo (c, k) d)).
  cbn [inner_traces fst snd]. rewrite token_steps_app. destruct (IH (step_inner fo (c, k) d)) as [-> ->].
  destruct (step_inner_cases fo c k d) as [[-> ->]|Hs]; [done|]. rewrite Hs.
  apply exec_inner_Some in Hs as (-> & -> & _). done.
Qed.

Lemma exec_dao_gov e k d d' :
  exec_dao e k d = Some d' →
  (∃ gk, k = OnGovernance gk ∧ exec (world_of e d) gk (gov d) = Ok (gov d')) ∨
  ((∀ gk, k ≠ OnGovernance gk) ∧ gov d' = gov d).
Proof.
  intros H. destruct k as [gk|tk|g|action]; cbn [exec_dao] in H;
    [|right; split; [done|]; by apply exec_inner_Some in H as (-> & _)..].
  left. exists gk. split; [done|].
  destruct gk; try (apply fmap_Some in H as (g & Hg%succeeds_Some & ->); exact Hg).
  apply succeeds_Some in H. unfold execute_all in H. apply bind_Ok_inv in H as (g & Hg & H).
  cbn [exec]. rewrite Hg. f_equal. repeat case_match; by res_simpl H.
Qed.

(** What a call of the system does to the token. *)
Lemma exec_dao_tok e k d d' :
  exec_dao e k d = Some d' → tok d' = Token.steps (trace e k d) (tok d).
Proof.
  intros H. destruct k as [gk|tk|g|action]; cbn [exec_dao trace] in *;
    [|by apply exec_inner_Some in H as (_ & -> & _)..].
  destruct gk; try (by apply fmap_Some in H as (g & _ & ->)).
  apply succeeds_Some in H. unfold execute_all in H. apply bind_Ok_inv in H as (g & _ & H).
  destruct (proposals (gov d) !! i ≫= treasury_action) as [action|]; [|by res_simpl H].
  destruct (i_treasury (instance (gov d))) as [t|]; [|by res_simpl H]. case_bool_decide.
  - destruct (pay _ _ _ _ _ action d) as [[r t1]|] eqn:Hpay; [|done]. res_simpl H.
    unfold pay in Hpay. by apply disburse_trace in Hpay as (-> & _).
  - destruct (f_disburse (foreign e) t action) as [l|] eqn:Hl; [|done]. res_simpl H.
    cbn [with_gov tok default]. apply steps_inner_tok.
Qed.

Lemma step_dao_cases e k d : (exec_dao e k d = None ∧ step_dao (e, k) d = d) ∨ exec_dao e k d = Some (step_dao (e, k) d).
Proof. unfold step_dao. cbn [fst snd]. destruct (exec_dao e k d); [by right|by left]. Qed.

(** A property of every call around holds of those that reach the token, but for
    the treasury's own payment. *)
Lemma inner_trace_every (P : Ctx → DaoCall → Prop) fo c k :
  (∀ action, P (as_caller tre_addr c) (OnToken (Token.Transfer tre_addr (recipient action) (ta_amount action)))) →
  (∀ a f t n l, f_transfer fo a f t n = Some l → Forall (λ ck, P ck.1 (OnToken ck.2)) l) →
  P c k → Forall (λ ck, P ck.1 (OnToken ck.2)) (inner_trace fo c k).
Proof.
  intros Hpay Hfo Hk. destruct k as [gk|tk|g|action]; cbn [inner_trace]; [by constructor|by apply Forall_singleton|by constructor|].
  unfold pay_trace. destruct (asset action) as [|a]; [by constructor|]. case_bool_decide; [apply Forall_singleton, Hpay|].
  destruct (f_transfer _ _ _ _ _) as [l|] eqn:Hl; [|by constructor]. by eapply Hfo.
Qed.

Lemma trace_sound e k d : sound_dao_call (e, k) → sound_calls (trace e k d).
Proof.
  intros (Hk & Hf & Hd). cbn [fst snd] in *.
  assert (∀ c k', match k' with OnToken k => Token.sound_call k | _ => True end →
    sound_calls (inner_trace (foreign e) c k')) as Hin.
  { intros c k' Hk'. apply (inner_trace_every
      (λ _ k, match k with OnToken k => Token.sound_call k | _ => True end)); done. }
  destruct k as [gk|tk|g|action]; cbn [trace]; [|by apply Hin..].
  destruct gk; try (by constructor).
  destruct (proposals (gov d) !! i ≫= treasury_action) as [action|]; [|by constructor].
  destruct (i_treasury (instance (gov d))) as [t|]; [|by constructor]. case_bool_decide.
  - exact (Hin (call_ctx e) (Disburse action) I).
  - destruct (f_disburse (foreign e) t action) as [l|] eqn:Hl; [|by constructor].
    specialize (Hd _ _ _ Hl). clear Hl. cbn [default]. revert d.
    induction Hd as [|[c k'] l' Hk' _ IH]; intros d'; [by constructor|]. cbn [inner_traces].
    apply Forall_app. split; [|apply IH].
    destruct (exec_inner (foreign e) (c, k').1 (c, k').2 d'); [by apply Hin|by constructor].
Qed.

(** Histories. *)
Lemma gov_history l d : ∃ l', gov (steps_dao l d) = steps l' (gov d).
Proof.
  revert d. induction l as [|[e k] l IH]; intros d; [by exists []|]. unfold steps_dao in *. cbn [foldl flip].
  destruct (IH (step_dao (e, k) d)) as [l' ->].
  destruct (step_dao_cases e k d) as [[_ ->]|Hs]; [by exists l'|].
  destruct (exec_dao_gov _ _ _ _ Hs) as [(gk & _ & Hg)|[_ ->]]; [|by exists l'].
  exists ((world_of e d, gk) :: l'). change (steps (?x :: l') ?s) with (steps l' (step x s)). f_equal. unfold step. cbn [fst snd]. by rewrite Hg.
Qed.
Lemma tok_history l d : Forall sound_dao_call l →
  ∃ l', sound_calls l' ∧ tok (steps_dao l d) = Token.steps l' (tok d).
Proof.
  intros Hl. revert d. induction Hl as [|[e k] l Hk _ IH]; intros d; [exists []; by split; [constructor|]|].
  unfold steps_dao in *. cbn [foldl flip]. destruct (IH (step_dao (e, k) d)) as (l' & Hl' & ->).
  destruct (step_dao_cases e k d) as [[_ ->]|Hs]; [by exists l'|]. apply exec_dao_tok in Hs. rewrite Hs.
  exists (trace e k d ++ l'). split; [|by rewrite token_steps_app].
  apply Forall_app. split; [by apply trace_sound|done].
Qed.
Lemma step_dao_wf e k d :
  sound_dao_call (e, k) → Token.token_wf (tok d) → gov_inv (core (gov d)) →
  Token.token_wf (tok (step_dao (e, k) d)) ∧ gov_inv (core (gov (step_dao (e, k) d))).
Proof.
  intros Hk Hwf Hc. split.
  - destruct (tok_history [(e, k)] d) as (l' & Hl' & Ht); [by constructor|].
    change (steps_dao [(e, k)] d) with (step_dao (e, k) d) in Ht. rewrite Ht. by apply Token.steps_wf.
  - destruct (gov_history [(e, k)] d) as (l' & Hg).
    change (steps_dao [(e, k)] d) with (step_dao (e, k) d) in Hg. rewrite Hg.
    unfold steps. by apply (fold_preserves step (λ s, gov_inv (core s)) step_inv).
Qed.

(** ** What moves

    The account a call credits, and by how much, when it goes through. *)
Definition receipt (k : Token.Call) : address * Z :=
  match k with
  | Token.Initialize a n _ _ _ | Token.Transfer _ a n | Token.TransferFrom _ _ a n | Token.Mint _ a n => (a, n)
  | _ => ([], 0)
  end.
(** The amounts credited by calls on the token that go through, and in the course of a
    history. *)
Fixpoint received (l : list (Ctx * Token.Call)) (t : Token.TokenStorage) : Z :=
  match l with
  | [] => 0
  | ck :: l' =>
      (match Token.exec ck.1 ck.2 t with Ok _ => (receipt ck.2).2 | Err _ => 0 end)
        + received l' (Token.step ck t)
  end.
Fixpoint moved (l : list (Env * DaoCall)) (d : Dao) : Z :=
  match l with
  | [] => 0
  | ek :: l' =>
      (match exec_dao ek.1 ek.2 d with Some _ => received (trace ek.1 ek.2 d) (tok d) | None => 0 end)
        + moved l' (step_dao ek d)
  end.

Definition credits (s s' : Token.TokenStorage) (r : address * Z) : Prop :=
  0 <= r.2 ∧ ∀ a, Token.balance s' a <= Token.balance s a + (if decide (a = r.1) then r.2 else 0).

Lemma credits_none s s' : Token.balances s' = Token.balances s → credits s s' ([], 0).
Proof. intros Hb. split; [done|]. intros a. unfold Token.balance. rewrite Hb. cbn. case_decide; lia. Qed.
Lemma transfer_credits c f t n s s' : Token.transfer c f t n s = Ok s' → credits s s' (t, n).
Proof.
  intros H. pose proof (Token.transfer_Ok _ _ _ _ _ _ H) as (_ & Hn & _). split; [cbn; lia|]. intros a.
  destruct (Token.transfer_effect _ _ _ _ _ _ a H) as [-> _]. cbn. repeat case_decide; lia.
Qed.

Lemma token_credits c k s s' :
  Token.token_wf s → Token.sound_call k → Token.exec c k s = Ok s' → credits s s' (receipt k).
Proof.
  intros Hwf Hk H.
  destruct k as [ad n nm sy dc|f t n|sp f t n|o sp n e|ad t n|ad f n|o n|o dl|o|ad n|p|ad|ad]; cbn [Token.exec receipt] in *.
  - Token.call_simpl H Token.initialize. split; [apply Hk|]. intros a. cbn [fst snd].
    destruct Hwf as [_ Hi]. destruct (Hi ltac:(by bool_prop)) as (_ & Hb & _).
    change (Token.balance (Token.publish _ (Token.set_initialized (Token.set_meta _ _ _ ?x)))) with (Token.balance x).
    rewrite Token.balance_set_balance. unfold Token.balance. cbn. rewrite Hb, lookup_empty. cbn.
    repeat case_decide; subst; done || lia.
  - by eapply transfer_credits.
  - apply Token.transfer_from_Ok in H as (_ & Hn & _ & _ & Hb & _). split; [cbn; lia|]. intros a.
    rewrite (Token.balance_same (Token.set_balance _ _ _) s' a Hb). rewrite Token.moved_balance.
    cbn. repeat case_decide; lia.
  - Token.call_simpl H Token.approve. by apply credits_none.
  - Token.call_simpl H Token.mint. split; [cbn; lia|]. intros a. cbn [fst snd].
    change (Token.balance (Token.publish _ ?x)) with (Token.balance x). rewrite Token.balance_set_balance.
    change (Token.balance (Token.set_total_supply _ s)) with (Token.balance s). repeat case_decide; subst; done || lia.
  - Token.call_simpl H Token.burn. apply Token.burn_from_Ok in Hr3 as [_ ->]. split; [done|]. intros a. cbn [fst snd].
    change (Token.balance (Token.publish _ ?x)) with (Token.balance x). rewrite Token.balance_set_balance.
    change (Token.balance (Token.set_total_supply _ s)) with (Token.balance s). repeat case_decide; subst; lia.
  - Token.call_simpl H Token.burn_self. apply Token.burn_from_Ok in Hr1 as [_ ->]. split; [done|]. intros a. cbn [fst snd].
    change (Token.balance (Token.publish _ ?x)) with (Token.balance x). rewrite Token.balance_set_balance.
    change (Token.balance (Token.set_total_supply _ s)) with (Token.balance s). repeat case_decide; subst; lia.
  - Token.call_simpl H Token.delegate. by apply credits_none.
  - Token.call_simpl H Token.undelegate. by apply credits_none.
  - Token.call_simpl H Token.propose_admin. by apply credits_none.
  - Token.call_simpl H Token.accept_admin. by apply credits_none.
  - Token.call_simpl H Token.pause. by apply credits_none.
  - Token.call_simpl H Token.unpause. by apply credits_none.
Qed.

(** ** How far votes can exceed the supply

    What an account can have voted or may still vote on a proposal. *)
Definition record_weight (d : Dao) (i : Z) (a : address) : Z :=
  default 0 (weight <$> vote_records (gov d) !! (i, a)).
Definition stake (r : address → Z) (t : Token.TokenStorage) (a : address) : Z :=
  Z.max (r a) (Token.balance t a).
Definition stakes_within (r : address → Z) (t : Token.TokenStorage) (bound : Z) : Prop :=
  ∀ l, NoDup l → foldr (λ a n, stake r t a + n) 0 l <= bound.

(** Each vote on the proposal is cast while the token of the system is the one the
    governance contract weighs votes by. *)
Fixpoint weighed_here (i : Z) (l : list (Env * DaoCall)) (d : Dao) : Prop :=
  match l with
  | [] => True
  | ek :: l' =>
      (∀ a v, ek.2 = OnGovernance (CastVote a i v) → i_voting_token (instance (gov d)) = Some tok_addr)
      ∧ weighed_here i l' (step_dao ek d)
  end.

Lemma sum_one_more (f g : address → Z) t n l :
  0 <= n → (∀ a, g a <= f a + (if decide (a = t) then n else 0)) → NoDup l →
  foldr (λ a m, g a + m) 0 l <= foldr (λ a m, f a + m) 0 l + n.
Proof.
  intros Hn Hg Hl.
  assert (∀ k, t ∉ k → foldr (λ a m, g a + m) 0 k <= foldr (λ a m, f a + m) 0 k) as Hout.
  { induction k as [|a k IH]; [done|]. intros [Ha Hk]%not_elem_of_cons. cbn [foldr]. specialize (IH Hk).
    pose proof (Hg a). rewrite decide_False in * by congruence. lia. }
  induction Hl as [|a k Ha Hk IH]; [cbn; lia|]. cbn [foldr]. pose proof (Hg a). case_decide as Hat; [|lia].
  subst. pose proof (Hout k Ha). lia.
Qed.

Lemma token_step_within r ck t bound :
  Token.token_wf t → Token.sound_call ck.2 → stakes_within r t bound →
  stakes_within r (Token.step ck t)
    (bound + match Token.exec ck.1 ck.2 t with Ok _ => (receipt ck.2).2 | Err _ => 0 end).
Proof.
  intros Hwf Hk Hb l Hl. specialize (Hb l Hl). unfold Token.step.
  destruct (Token.exec ck.1 ck.2 t) as [t'|] eqn:He; [|lia].
  destruct (token_credits _ _ _ _ Hwf Hk He) as [Hn Hcr].
  etransitivity; [apply (sum_one_more (stake r t) _ (receipt ck.2).1 (receipt ck.2).2)|]; [done| |done|lia].
  intros a. specialize (Hcr a). unfold stake. case_decide; lia.
Qed.

Lemma token_steps_within r l t bound :
  Token.token_wf t → sound_calls l → stakes_within r t bound →
  stakes_within r (Token.steps l t) (bound + received l t).
Proof.
  intros Hwf Hl. revert t bound Hwf. induction Hl as [|ck l Hk Hl IH]; intros t bound Hwf Hb.
  { intros k Hnd. specialize (Hb k Hnd). cbn [received]. change (Token.steps [] t) with t. lia. }
  change (Token.steps (ck :: l) t) with (Token.steps l (Token.step ck t)). cbn [received].
  rewrite Z.add_assoc. apply IH; [by apply Token.step_wf|]. by apply token_step_within.
Qed.

(** A vote is recorded with no more than the voter's stake. *)
Lemma record_within e k d d' i a :
  Token.token_wf (tok d) → exec_dao e k d = Some d' →
  (∀ a v, k = OnGovernance (CastVote a i v) → i_voting_token (instance (gov d)) = Some tok_addr) →
  record_weight d' i a <= stake (record_weight d i) (tok d) a.
Proof.
  intros Hwf H Htok. unfold stake, record_weight.
  destruct (exec_dao_gov _ _ _ _ H) as [(gk & -> & Hg)|[_ ->]]; [|lia].
  destruct (decide (vote_records (gov d') !! (i, a) = vote_records (gov d) !! (i, a))) as [->|Hne]; [lia|].
  destruct (effect_records _ _ _ _ i a (exec_core _ _ _ _ Hg) Hne) as (_ & p & _ & _ & _ & Hr).
  pose proof (Token.balance_nonneg (tok d) a (proj1 Hwf)).
  cbn [core c_records] in Hr. destruct (vote_records (gov d') !! (i, a)) as [r|]; cbn; [|lia].
  destruct Hr as [(-> & _ & token & Htk & Hb)|[_ Hold]]; [|rewrite Hold; cbn; lia].
  rewrite (Htok a (vote r) eq_refl) in Htk. injection Htk as <-.
  unfold dao_world in Hb. cbn [token_at] in Hb. rewrite bool_decide_true in Hb by done.
  cbn in Hb. injection Hb as Hb. unfold Token.balance_at in Hb. lia.
Qed.

Lemma step_within e k d i bound :
  Token.token_wf (tok d) → sound_dao_call (e, k) →
  (∀ a v, k = OnGovernance (CastVote a i v) → i_voting_token (instance (gov d)) = Some tok_addr) →
  stakes_within (record_weight d i) (tok d) bound →
  stakes_within (record_weight (step_dao (e, k) d) i) (tok (step_dao (e, k) d))
    (bound + match exec_dao e k d with Some _ => received (trace e k d) (tok d) | None => 0 end).
Proof.
  intros Hwf Hk Htok Hb. destruct (step_dao_cases e k d) as [[-> ->]|Hs]; [by rewrite Z.add_0_r|].
  rewrite Hs, (exec_dao_tok _ _ _ _ Hs). apply token_steps_within; [done|by apply trace_sound|].
  intros l Hl. etransitivity; [|exact (Hb l Hl)]. clear Hl. induction l as [|a l IH]; [done|]. cbn [foldr].
  pose proof (record_within _ _ _ _ i a Hwf Hs Htok). unfold stake at 1. unfold stake in *. lia.
Qed.

Lemma steps_within l d i bound :
  Token.token_wf (tok d) → gov_inv (core (gov d)) → Forall sound_dao_call l → weighed_here i l d →
  stakes_within (record_weight d i) (tok d) bound →
  stakes_within (record_weight (steps_dao l d) i) (tok (steps_dao l d)) (bound + moved l d).
Proof.
  intros Hwf Hc Hl. revert d bound Hwf Hc. induction Hl as [|[e k] l Hk Hl IH]; intros d bound Hwf Hc Hw Hb.
  { intros k Hnd. specialize (Hb k Hnd). cbn. unfold steps_dao. cbn. lia. }
  destruct Hw as [Hw Hws]. destruct (step_dao_wf e k d Hk Hwf Hc) as [Hwf' Hc'].
  unfold steps_dao in *. cbn [foldl flip moved fst snd]. rewrite Z.add_assoc. apply IH; [done..|].
  by apply step_within.
Qed.

(** C23. Votes exceed the supply by no more than what moved. Take any history of calls
    on the three contracts, with other contracts doing what they like when they are
    called, cut where a proposal does not exist yet. Whatever is called afterwards, by
    whom and in what order, the votes on the proposal are at most the supply of the
    token at the cut and the amounts that have since been credited to anyone:
    transfers, mints, payments of the treasury. So while nothing moves, the votes stay
    within the supply, although the token keeps no snapshots. Two conditions: the token
    is not initialised with a negative supply (which its [initialize] would accept), and
    each vote on the proposal is cast while the governance contract weighs votes by
    this token ([weighed_here]); the administrator can name another one, whose
    balances are unrelated. *)
Theorem votes_bounded_by_movement (l1 l2 : list (Env * DaoCall)) (i : Z) (p : Proposal) :
  Forall sound_dao_call l1 → Forall sound_dao_call l2 →
  let d := steps_dao l1 deployed in
  weighed_here i l2 d →
  proposals (gov d) !! i = None → proposals (gov (steps_dao l2 d)) !! i = Some p →
  votes_yes p + votes_no p + votes_abstain p <= Token.s_total_supply (tok d) + moved l2 d.
Proof.
  intros Hl1 Hl2 d Hw Hnew Hp.
  assert (Token.token_wf (tok d)) as Hwf.
  { destruct (tok_history l1 deployed Hl1) as (l' & Hl' & Ht). unfold d. rewrite Ht.
    apply Token.steps_wf; [done|apply Token.empty_wf]. }
  assert (gov_inv (core (gov d))) as Hc.
  { destruct (gov_history l1 deployed) as (l' & Hg). unfold d. rewrite Hg. apply steps_inv. }
  assert (gov_inv (core (gov (steps_dao l2 d)))) as Hc2.
  { destruct (gov_history l2 d) as (l' & ->). unfold steps.
    by apply (fold_preserves step (λ s, gov_inv (core s)) step_inv). }
  assert (stakes_within (record_weight d i) (tok d) (Token.s_total_supply (tok d))) as Hb.
  { intros k Hk. transitivity (Token.sum_of (tok d) k); [|by apply Token.sum_of_le_supply; [apply Hwf|]].
    apply Z.eq_le_incl. unfold Token.sum_of. clear Hk. induction k as [|a k IH]; [done|]. cbn [foldr].
    rewrite IH. unfold stake, record_weight. destruct (vote_records (gov d) !! (i, a)) as [r|] eqn:Hr.
    - destruct (inv_records _ Hc i a r Hr) as [_ [q Hq]]. cbn in Hq. congruence.
    - pose proof (Token.balance_nonneg (tok d) a (proj1 Hwf)). cbn. lia. }
  rewrite (cast_weight_tallies _ i p Hc2 Hp).
  apply (cast_weight_voters _ i (record_weight (steps_dao l2 d) i)).
  { intros a r Hr. cbn [core c_records] in Hr. unfold record_weight. by rewrite Hr. }
  intros k Hk. pose proof (steps_within l2 d i _ Hwf Hc Hl2 Hw Hb k Hk) as Hs.
  etransitivity; [|exact Hs]. clear. induction k as [|a k IH]; [done|]. cbn [foldr].
  unfold stake at 1. lia.
Qed.

(** ** What leaves the treasury *)

(** A contract's address authorises only the calls that the contract makes; so it
    authorises no call of a user or of another contract. *)
Definition outsider (c : Ctx) : Prop := authorized c gov_addr = false ∧ authorized c tre_addr = false.
Definition outsiders (ek : Env * DaoCall) : Prop := every_call (λ c _, outsider c) ek.
Notation outsider_calls := (Forall (λ ck : Ctx * Token.Call, outsider ck.1)).

(** The payment an executed proposal stands for, and those this treasury has to make. *)
Definition executed_payment (p : Proposal) : option (address * Z) :=
  if bool_decide (state p = Format.Executed)
  then (λ action, (recipient action, ta_amount action)) <$> treasury_action p else None.
Definition payments_of (m : gmap Z Proposal) : list (address * Z) :=
  omap (λ ip, executed_payment ip.2) (map_to_list m).
Definition paid (s : GovernanceStorage) : list (address * Z) :=
  match i_treasury (instance s) with
  | Some t => if bool_decide (t = tre_addr) then payments_of (proposals s) else []
  | None => []
  end.

Lemma payments_insert m i p :
  payments_of (<[i := p]> m) ≡ₚ option_list (executed_payment p) ++ payments_of (delete i m).
Proof.
  unfold payments_of. rewrite <- insert_delete_eq, map_to_list_insert by apply lookup_delete_eq.
  cbn. by destruct (executed_payment p).
Qed.
Lemma payments_delete m i :
  payments_of m ≡ₚ option_list (m !! i ≫= executed_payment) ++ payments_of (delete i m).
Proof.
  destruct (m !! i) as [p|] eqn:Hi; [|by rewrite delete_id]. cbn.
  rewrite <- payments_insert. by rewrite insert_id.
Qed.
(** Writing a proposal adds its payment where there was none. *)
Lemma payments_put m i p x :
  m !! i ≫= executed_payment = None → executed_payment p = x → payments_of (<[i := p]> m) ≡ₚ option_list x ++ payments_of m.
Proof. intros Hi <-. rewrite payments_insert. by rewrite (payments_delete m i), Hi. Qed.

Lemma not_executed p : state p ≠ Format.Executed → executed_payment p = None.
Proof. intros Hp. unfold executed_payment. by rewrite bool_decide_false. Qed.

Lemma effect_payments w s k c' :
  gov_inv (core s) → effect w s k c' → (∀ a i, k ≠ Execute a i) →
  payments_of (c_proposals c') ≡ₚ payments_of (proposals s).
Proof.
  intros Hc He Hk.
  assert (∀ i p p', proposals s !! i = Some p → state p = Format.Active → state p' ≠ Format.Executed →
    payments_of (<[i := p']> (proposals s)) ≡ₚ payments_of (proposals s)) as Hput.
  { intros i p p' Hi Hp Hp'. apply (payments_put _ _ _ None); [|by apply not_executed].
    rewrite Hi. cbn. apply not_executed. by rewrite Hp. }
  inversion He as [|a t mb cd bps r tr Hr|who ttl desc q d l ac p Hrdy Hcap Hau Hid Hp Hst Ht Hq1 Hq2 Hs1 Hs2 Hs3
    |k' i p p' Hi Hs1 Hs2 Hf Ht|a i v p n tk Hau Hi Hst Hw1 Hw2 Hv Htok Hd Hb Hn|a i p r Hau Hi Hst Hw Hr
    |a i v p r Hau Hi Hst Hw Hv Hr Hne|i p Hi Hst Hend|a i reason p Ha Hi Hst|a i p Ha Hi Hst]; subst; clear He;
    cbn [with_counts put write_vote core c_proposals c_count]; try done.
  - apply (payments_put _ _ _ None); [|apply not_executed; congruence].
    pose proof (no_such_proposal (core s) Hc) as Hno. cbn in Hno. by rewrite Hno.
  - apply (Hput i p); [done|done|congruence].
  - apply (Hput i p); [done|done|cbn; congruence].
  - apply (Hput i p); [done|done|cbn; congruence].
  - apply (Hput i p); [done|done|cbn; congruence].
  - apply (Hput i p); [done|done|cbn; by destruct (_ && _)].
  - by apply (Hput i p).
  - by destruct (Hk a i).
Qed.

(** The treasury of the governance contract is that of its initialisation. *)
Lemma treasury_fixed w k s s' :
  exec w k s = Ok s' → i_treasury (instance s') = i_treasury (instance s) ∨ i_ready (instance s) = false.
Proof.
  assert (∀ s0, i_treasury (instance (drop_active s0)) = i_treasury (instance s0)) as Hdrop.
  { intros s0. unfold drop_active. by destruct (0 <? _). }
  intros H. destruct k; cbn [exec] in H.
  - gov_simpl H initialize. by right.
  - res_simpl H. gov_simpl Hr create_proposal. by left.
  - gov_simpl H amend_proposal. by left.
  - gov_simpl H cast_vote. by left.
  - gov_simpl H retract_vote. destruct r as [p r]. res_simpl H. by left.
  - gov_simpl H change_vote. destruct r as [p r]. res_simpl H. by left.
  - gov_simpl H finalise. left. etransitivity; [exact (Hdrop _)|done].
  - gov_simpl H execute. by left.
  - gov_simpl H cancel. left. etransitivity; [exact (Hdrop _)|done].
  - gov_simpl H update_quorum. by left.
  - gov_simpl H propose_admin. by left.
  - gov_simpl H update_voting_token. by left.
  - gov_simpl H accept_admin. by left.
  - gov_simpl H cancel_admin_transfer. by left.
  - gov_simpl H pause. by left.
  - gov_simpl H unpause. by left.
  - gov_simpl H set_min_proposal_balance. by left.
  - gov_simpl H set_proposal_cooldown. by left.
  - gov_simpl H set_restrict_admin_vote. by left.
Qed.

(** What a governance call adds to the payments: that of the proposal it executes. *)
Lemma exec_paid w k s s' :
  gov_inv (core s) → exec w k s = Ok s' →
  paid s' ≡ₚ (match k with
              | Execute _ i =>
                  match proposals s !! i ≫= treasury_action, i_treasury (instance s) with
                  | Some action, Some t =>
                      if bool_decide (t = tre_addr) then [(recipient action, ta_amount action)] else []
                  | _, _ => []
                  end
              | _ => []
              end) ++ paid s.
Proof.
  intros Hc H. destruct (treasury_fixed _ _ _ _ H) as [Htr|Hr].
  - unfold paid. rewrite Htr. destruct (i_treasury (instance s)) as [t|]; [|by destruct k; try done; case_match].
    destruct (bool_decide (t = tre_addr)); [|by destruct k; try done; case_match].
    assert ((∃ a i, k = Execute a i) ∨ (∀ a i, k ≠ Execute a i)) as [(a & i & ->)|Hk] by (destruct k; eauto).
    + cbn [exec] in H. destruct (execute_Ok _ _ _ _ _ Hc H) as (p & Hi & _ & Hst & _).
      gov_simpl H execute. assert (r0 = p) as -> by congruence. cbn [publish set_proposal proposals].
      rewrite Hi. cbn [mbind option_bind].
      rewrite (payments_put _ _ _ _ ltac:(rewrite Hi; cbn; apply not_executed; by rewrite Hst) eq_refl).
      unfold executed_payment. cbn. by destruct (treasury_action p).
    + assert (payments_of (proposals s') ≡ₚ payments_of (proposals s)) as ->.
      { apply (effect_payments w s k (core s') Hc (exec_core _ _ _ _ H)). exact Hk. }
      destruct k; try done. by destruct (Hk admin i).
  - pose proof (inv_fresh _ Hc Hr) as He. cbn in He.
    assert (∀ s0, proposals s0 = ∅ → paid s0 = []) as Hnone by (intros s0 H0; unfold paid; rewrite H0;
      destruct (i_treasury _); [|done]; by destruct (bool_decide _)).
    rewrite (Hnone s He), (Hnone s').
    + destruct k; try done. by rewrite He, lookup_empty.
    + apply exec_core in H. change (proposals s') with (c_proposals (core s')). revert H.
      generalize (core s'). intros c' H. rewrite <- He.
      inversion H; subst; try done; try (rewrite He, lookup_empty in *; discriminate). congruence.
Qed.

Lemma no_allowance_from c k s s' a :
  authorized c a = false → (∀ sp, Token.allowances s !! (a, sp) = None) → Token.exec c k s = Ok s' →
  ∀ sp, Token.allowances s' !! (a, sp) = None.
Proof.
  intros Hau Hs H sp. destruct (Token.allowances s' !! (a, sp)) as [x|] eqn:Hx; [exfalso|done].
  destruct (TokenRent.exec_allowances _ _ _ _ a sp H) as [[y Hy]|Hin]; [by rewrite Hx|by rewrite Hs in Hy|].
  assert (∀ o sp', TokenRent.SetAllowance a sp ∈ TokenRent.read_allowance c s o sp' → False) as Hread.
  { intros o sp' Ho. unfold TokenRent.read_allowance in Ho.
    destruct (Token.allowance_record c s o sp') eqn:Hr; [|set_solver].
    apply list_elem_of_singleton in Ho as [= -> ->]. unfold Token.allowance_record in Hr. by rewrite Hs in Hr. }
  destruct k; cbn [TokenRent.call_accesses] in Hin; unfold TokenRent.move_accesses in Hin;
    try (by repeat case_bool_decide; set_solver).
  - cbn [Token.exec] in H. apply Token.transfer_from_Ok in H as (_ & Hn & Hle & _).
    apply elem_of_app in Hin as [[]%Hread|Hin]. assert (from = a ∧ spender = sp) as [-> ->] by set_solver.
    unfold Token.allowance, Token.allowance_record in Hle. rewrite Hs in Hle. cbn in Hle. lia.
  - assert (owner = a) as -> by set_solver. cbn [Token.exec] in H. Token.call_simpl H Token.approve. congruence.
Qed.

Lemma no_allowances_steps l t a :
  Forall (λ ck, authorized ck.1 a = false) l → (∀ sp, Token.allowances t !! (a, sp) = None) →
  ∀ sp, Token.allowances (Token.steps l t) !! (a, sp) = None.
Proof.
  intros Hl. revert t. induction Hl as [|[c k] l Hc _ IH]; intros t Ht; [done|].
  change (Token.steps ((c, k) :: l) t) with (Token.steps l (Token.step (c, k) t)). apply IH.
  unfold Token.step. cbn [fst snd] in *. destruct (Token.exec c k t) eqn:He; [|done]. by eapply no_allowance_from.
Qed.

Lemma transfer_allowances c f t n s s' : Token.transfer c f t n s = Ok s' → Token.allowances s' = Token.allowances s.
Proof. intros H. Token.call_simpl H Token.transfer. case_bool_decide; by res_simpl H. Qed.

(** What holds of a treasury that was initialised for the governance contract. *)
Record treasury_inv (d : Dao) : Prop := {
  ti_token : Token.token_wf (tok d);
  ti_gov : gov_inv (core (gov d));
  ti_governance : Treasury.governance (tre d) = Some gov_addr;
  ti_paid : Treasury.disbursed (tre d) ≡ₚ paid (gov d);
  ti_allowances sp : Token.allowances (tok d) !! (tre_addr, sp) = None }.

(** The calls of outsiders reach the token only. *)
Lemma inner_outsider fo c k d d' :
  Treasury.governance (tre d) = Some gov_addr → outsider c → exec_inner fo c k d = Some d' →
  tre d' = tre d ∧ outsider_calls (inner_trace fo c k).
Proof.
  intros Hg Ho H. apply exec_inner_Some in H as (_ & _ & H). destruct k as [gk|tk|g|action]; [done|..].
  - destruct H as [-> _]. split; [done|]. by apply Forall_singleton.
  - destruct H as [H _]. congruence.
  - destruct H as (_ & g & Hg' & Hau). destruct Ho. congruence.
Qed.

Lemma steps_inner_outsider fo l d :
  Treasury.governance (tre d) = Some gov_addr → Forall (λ ck, outsider ck.1) l →
  tre (steps_inner fo l d) = tre d ∧ outsider_calls (inner_traces fo l d).
Proof.
  intros Hg Hl. revert d Hg. induction Hl as [|[c k] l Ho _ IH]; intros d Hg; [done|].
  change (steps_inner fo ((c, k) :: l) d) with (steps_inner fo l (step_inner fo (c, k) d)).
  cbn [inner_traces]. rewrite Forall_app. cbn [fst snd] in *.
  destruct (step_inner_cases fo c k d) as [[-> ->]|Hs].
  - destruct (IH d Hg) as [-> Hin]. split; [done|]. by split; [constructor|].
  - rewrite Hs. destruct (inner_outsider _ _ _ _ _ Hg Ho Hs) as [Htre Hout].
    destruct (IH (step_inner fo (c, k) d)) as [-> Hin]; [by rewrite Htre|]. by split.
Qed.

(** What a call among outsiders does to the treasury: nothing; or it executes a proposal
    and makes the payment. *)
Inductive tre_effect (e : Env) (k : DaoCall) (d d' : Dao) : Prop :=
| t_none :
    tre d' = tre d → outsider_calls (trace e k d) →
    (∀ a i p action, k = OnGovernance (Execute a i) → proposals (gov d) !! i = Some p →
       treasury_action p = Some action → i_treasury (instance (gov d)) = Some tre_addr → False) →
    tre_effect e k d d'
| t_pay a i p action :
    k = OnGovernance (Execute a i) → proposals (gov d) !! i = Some p → treasury_action p = Some action →
    i_treasury (instance (gov d)) = Some tre_addr →
    tre d' = {| Treasury.governance := Some gov_addr;
                Treasury.disbursed := Treasury.disbursed (tre d) ++ [(recipient action, ta_amount action)] |} →
    (asset action = TokenAsset tok_addr ∧
       trace e k d = [(as_caller tre_addr (call_ctx e), Token.Transfer tre_addr (recipient action) (ta_amount action))]) ∨
    outsider_calls (trace e k d) →
    tre_effect e k d d'.

Lemma exec_dao_tre e k d d' :
  Treasury.governance (tre d) = Some gov_addr → outsiders (e, k) → exec_dao e k d = Some d' →
  tre_effect e k d d'.
Proof.
  intros Hg (Ho & Hf & Hd) H. cbn [fst snd] in *.
  destruct k as [gk|tk|g|action]; cbn [exec_dao] in H;
    [|by destruct (inner_outsider _ _ _ _ _ Hg Ho H); apply t_none..].
  destruct gk; try (apply fmap_Some in H as (g & _ & ->); by apply t_none; [|constructor|]).
  apply succeeds_Some in H. unfold execute_all in H. apply bind_Ok_inv in H as (g & _ & H).
  destruct (proposals (gov d) !! i ≫= treasury_action) as [action|] eqn:Ha.
  2: { res_simpl H. apply t_none; [done|cbn [trace]; rewrite Ha; by constructor|].
       intros ? ? p act [= <- <-] Hp Hact _. rewrite Hp in Ha. cbn in Ha. congruence. }
  destruct (i_treasury (instance (gov d))) as [t|] eqn:Ht.
  2: { res_simpl H. apply t_none; [done|cbn [trace]; rewrite Ha, Ht; by constructor|congruence]. }
  case_bool_decide as Htre.
  - subst t. destruct (pay _ _ _ _ _ action d) as [[r t1]|] eqn:Hpay; [|done]. res_simpl H.
    apply bind_Some in Ha as (p & Hp & Hact). unfold pay in Hpay. apply disburse_trace in Hpay as (_ & -> & _).
    apply (t_pay _ _ _ _ admin i p action); try done; [cbn [tre]; by rewrite Hg|].
    cbn [trace]. rewrite Hp. cbn [mbind option_bind]. rewrite Hact, Ht, bool_decide_true by done.
    unfold pay_trace. destruct (asset action) as [|a]; [right; by constructor|].
    case_bool_decide as Hasset; [left; by subst|]. right.
    destruct (f_transfer _ _ _ _ _) as [l|] eqn:Hl; [|by constructor]. by eapply Hf.
  - destruct (f_disburse (foreign e) t action) as [l|] eqn:Hl; [|done]. res_simpl H.
    destruct (steps_inner_outsider (foreign e) l d Hg (Hd _ _ _ Hl)) as [Htr Hin].
    apply t_none; [exact Htr| |intros; congruence].
    cbn [trace]. rewrite Ha, Ht, bool_decide_false by done. by rewrite Hl.
Qed.

Lemma exec_treasury_inv e k d d' :
  sound_dao_call (e, k) → outsiders (e, k) → treasury_inv d → exec_dao e k d = Some d' → treasury_inv d'.
Proof.
  intros Hk Ho [Hwf Hc Hgov Hpaid Hal] H.
  assert (step_dao (e, k) d = d') as Hstep by (unfold step_dao; cbn [fst snd]; by rewrite H).
  destruct (step_dao_wf e k d Hk Hwf Hc) as [Hwf' Hc']. rewrite Hstep in Hwf', Hc'.
  pose proof (exec_dao_gov _ _ _ _ H) as Hge. pose proof (exec_dao_tok _ _ _ _ H) as Htok.
  assert (outsider_calls (trace e k d) → ∀ sp, Token.allowances (tok d') !! (tre_addr, sp) = None) as Hout.
  { intros Hout. rewrite Htok. apply no_allowances_steps; [|done].
    eapply Forall_impl; [exact Hout|]. by intros ? []. }
  destruct (exec_dao_tre _ _ _ _ Hgov Ho H) as [Htre Htr Hno|a i p action -> Hp Ha Hs Htre Htr].
  - split; try done; [by rewrite Htre| |by apply Hout].
    rewrite Htre, Hpaid. destruct Hge as [(gk & -> & He)|[_ ->]]; [|done].
    rewrite (exec_paid _ _ _ _ Hc He). destruct gk; try done.
    destruct (proposals (gov d) !! i) as [p|] eqn:Hp; [|done]. cbn.
    destruct (treasury_action p) as [action|] eqn:Ha; [|done].
    destruct (i_treasury (instance (gov d))) as [t|] eqn:Hs; [|done].
    case_bool_decide; [subst|done]. exfalso. by eapply Hno.
  - split; try done; [by rewrite Htre| |].
    + rewrite Htre. cbn [Treasury.disbursed]. destruct Hge as [(gk & [= <-] & He)|[Hno _]]; [|by destruct (Hno (Execute a i))].
      rewrite (exec_paid _ _ _ _ Hc He), Hp. cbn [mbind option_bind].
      rewrite Ha, Hs, bool_decide_true, Hpaid by done. by rewrite Permutation_app_comm.
    + destruct Htr as [[_ Htr]|Htr]; [|by apply Hout]. rewrite Htok, Htr. unfold Token.steps, Token.step. cbn.
      destruct (Token.transfer _ _ _ _ (tok d)) eqn:He; [|done]. intros sp. by rewrite (transfer_allowances _ _ _ _ _ _ He).
Qed.

Lemma steps_treasury_inv l d :
  Forall (λ ek, sound_dao_call ek ∧ outsiders ek) l → treasury_inv d → treasury_inv (steps_dao l d).
Proof.
  intros Hl. revert d. induction Hl as [|[e k] l [Hk Ho] _ IH]; intros d Hd; [done|].
  unfold steps_dao in *. cbn [foldl flip]. apply IH. destruct (step_dao_cases e k d) as [[_ ->]|Hs]; [done|].
  by eapply exec_treasury_inv.
Qed.

(** The system with the treasury initialised for the governance contract. *)
Definition ready : Dao := {|
  gov := empty; tok := Token.empty;
  tre := {| Treasury.governance := Some gov_addr; Treasury.disbursed := [] |} |}.
Lemma ready_inv : treasury_inv ready.
Proof. split; [apply Token.empty_wf|apply empty_inv|done..]. Qed.

(** Whose call lowers the balance of an account that authorises nothing and has
    given no allowance: the administrator's burn. *)
Lemma token_debit c k s s' a :
  Token.token_wf s → Token.sound_call k → Token.exec c k s = Ok s' → authorized c a = false →
  (∀ sp, Token.allowances s !! (a, sp) = None) → Token.balance s' a < Token.balance s a →
  ∃ admin n, k = Token.Burn admin a n ∧ Token.s_admin s = Some admin ∧ authorized c admin = true.
Proof.
  intros Hwf Hk H Hau Hal Hlt.
  assert (Token.s_initialized s = true) as Hi.
  { destruct (Token.s_initialized s) eqn:Hi; [done|exfalso]. destruct Hwf as [Hinv Hn].
    destruct (Hn Hi) as (_ & Hb & _). pose proof (Token.exec_inv _ _ _ _ Hk (conj Hinv Hn) H) as Hinv'.
    pose proof (Token.balance_nonneg s' a Hinv'). unfold Token.balance at 2 in Hlt. rewrite Hb, lookup_empty in Hlt.
    cbn in Hlt. lia. }
  destruct (Token.exec_effect c k s s' a Hi H) as [He _]. rewrite He in Hlt.
  destruct k as [ad n nm sy dc|f t n|sp f t n|o sp n e|ad t n|ad f n|o n|o dl|o|ad n|p|ad|ad];
    cbn [Token.exec Token.balance_change] in *; try lia.
  - apply Token.transfer_Ok in H as (Hf & Hn & _). repeat case_decide; subst; try lia. congruence.
  - apply Token.transfer_from_Ok in H as (_ & Hn & Hle & _). repeat case_decide; subst; try lia.
    unfold Token.allowance, Token.allowance_record in Hle. rewrite Hal in Hle. cbn in Hle. lia.
  - Token.call_simpl H Token.mint. case_decide; lia.
  - Token.call_simpl H Token.burn. case_decide; subst; [|lia]. by exists ad, n.
  - Token.call_simpl H Token.burn_self. case_decide; subst; [congruence|lia].
Qed.

(** Among the calls that lower its balance there is such a burn. *)
Lemma token_debits l t a :
  Token.token_wf t → sound_calls l → Forall (λ ck, authorized ck.1 a = false) l →
  (∀ sp, Token.allowances t !! (a, sp) = None) → Token.balance (Token.steps l t) a < Token.balance t a →
  ∃ l1 c admin n l2, l = l1 ++ (c, Token.Burn admin a n) :: l2 ∧
    Token.s_admin (Token.steps l1 t) = Some admin ∧ authorized c admin = true.
Proof.
  intros Hwf Hk. revert t Hwf. induction Hk as [|[c k] l Hck Hk IH]; intros t Hwf Hau Hal Hlt; [by apply Z.lt_irrefl in Hlt|].
  apply Forall_cons in Hau as [Hc Hau]. cbn [fst snd] in *.
  change (Token.steps ((c, k) :: l) t) with (Token.steps l (Token.step (c, k) t)) in Hlt.
  destruct (decide (Token.balance (Token.step (c, k) t) a < Token.balance t a)) as [Hnow|Hnow].
  - unfold Token.step in Hnow. cbn [fst snd] in Hnow. destruct (Token.exec c k t) as [t'|] eqn:He; [|lia].
    destruct (token_debit _ _ _ _ a Hwf Hck He Hc Hal Hnow) as (ad & n & -> & Had & Hn).
    by exists [], c, ad, n, l.
  - destruct (IH (Token.step (c, k) t)) as (l1 & c1 & ad & n & l2 & -> & Had & Hn); [by apply Token.step_wf|done| |lia|].
    + intros sp. by apply (no_allowances_steps [(c, k)] t a); [apply Forall_singleton|].
    + by exists ((c, k) :: l1), c1, ad, n, l2.
Qed.

(** C7. The treasury pays what was voted, once, and loses nothing else but to the
    administrator of the token. Let it have been initialised for the governance
    contract (whoever calls [initialize] first decides that, see
    [first_initializer_owns_treasury]), and take any history of calls on the three
    contracts, with contracts at other addresses (another treasury, another voting
    token, another asset) doing what they like when they are called. Assumed is that
    no call of a user or of another contract is authorised by the governance contract
    or by the treasury themselves ([outsiders]), and that the token is not initialised
    with a negative supply ([sound_dao_call]). Then the payments of the treasury are,
    in some order, exactly those of the proposals that were executed, each proposal's
    once (none, when the governance contract was given another treasury). And when a
    further call lowers the treasury's balance of the token, it is the execution,
    authorised by the administrator, of a proposal that had passed and is executed
    afterwards, whose action is in this token, and the balance falls by exactly its
    amount; or among the calls on the token that it makes happen there is a burn of
    the treasury's tokens by the administrator of the token, which no proposal has to
    allow. *)
Theorem treasury_pays_what_was_voted (l : list (Env * DaoCall)) (e : Env) (k : DaoCall) :
  Forall (λ ek, sound_dao_call ek ∧ outsiders ek) l → sound_dao_call (e, k) → outsiders (e, k) →
  let d := steps_dao l ready in let d' := step_dao (e, k) d in
  Treasury.disbursed (tre d) ≡ₚ paid (gov d) ∧
  (Token.balance (tok d') tre_addr < Token.balance (tok d) tre_addr →
   (∃ admin i p action, k = OnGovernance (Execute admin i) ∧ proposals (gov d) !! i = Some p ∧
      state p = Format.Passed ∧ treasury_action p = Some action ∧ asset action = TokenAsset tok_addr ∧
      i_treasury (instance (gov d)) = Some tre_addr ∧ admin_of (world_of e d) (gov d) admin ∧
      (state <$> proposals (gov d') !! i) = Some Format.Executed ∧
      Token.balance (tok d) tre_addr - Token.balance (tok d') tre_addr = ta_amount action) ∨
   (∃ l1 c admin n l2, trace e k d = l1 ++ (c, Token.Burn admin tre_addr n) :: l2 ∧
      Token.s_admin (Token.steps l1 (tok d)) = Some admin ∧ authorized c admin = true)).
Proof.
  intros Hl Hk Ho d d'. pose proof (steps_treasury_inv l ready Hl ready_inv) as [Hwf Hc Hgov Hpaid Hal].
  fold d in Hwf, Hc, Hgov, Hpaid, Hal. split; [done|]. intros Hlt. unfold d' in *. clear d'.
  destruct (step_dao_cases e k d) as [[_ He]|Hs]; [rewrite He in Hlt; lia|].
  pose proof (exec_dao_tok _ _ _ _ Hs) as Htok.
  assert (outsider_calls (trace e k d) → ∃ l1 c admin n l2, trace e k d = l1 ++ (c, Token.Burn admin tre_addr n) :: l2 ∧
    Token.s_admin (Token.steps l1 (tok d)) = Some admin ∧ authorized c admin = true) as Hburn.
  { intros Hout. apply token_debits; [done|by apply trace_sound| |done|by rewrite <- Htok].
    eapply Forall_impl; [exact Hout|]. by intros ? []. }
  destruct (exec_dao_tre _ _ _ _ Hgov Ho Hs) as [_ Htr _|a i p action -> Hp Ha Hst _ [[Has Htr]|Htr]];
    [right; by apply Hburn| |right; by apply Hburn].
  left. destruct (exec_dao_gov _ _ _ _ Hs) as [(gk & [= <-] & He)|[Hno _]]; [|by destruct (Hno (Execute a i))].
  destruct (execute_Ok _ _ _ _ _ Hc He) as (q & Hq & Hadm & Hstate & Hafter).
  assert (q = p) as -> by congruence.
  exists a, i, p, action. split_and!; try done; [by rewrite Hafter|].
  rewrite Htok, Htr in Hlt |- *. unfold Token.steps, Token.step in *. cbn [foldl flip fst snd Token.exec] in *.
  destruct (Token.transfer _ _ _ _ (tok d)) as [t|] eqn:Ht; [|lia].
  destruct (Token.transfer_effect _ _ _ _ _ _ tre_addr Ht) as [Hb _]. rewrite Hb in Hlt |- *.
  rewrite (decide_True (P := tre_addr = tre_addr)) in * by done. case_decide; lia.
Qed.

(** Whoever initialises the treasury first owns it: [initialize] asks for no
    authorisation, and from then on a call of [disburse] that the chosen address
    authorises pays any amount the treasury has to anyone, without a vote. *)
Theorem first_initializer_owns_treasury (e : Env) (g : address) (action : TreasuryAction) (d : Dao) :
  Token.token_wf (tok d) → Token.s_paused (tok d) = false → Treasury.governance (tre d) = None →
  authorized (call_ctx e) g = true → asset action = TokenAsset tok_addr →
  0 < ta_amount action <= Token.balance (tok d) tre_addr →
  ∃ d', exec_dao e (Disburse action) (step_dao (e, InitializeTreasury g) d) = Some d' ∧
    ∀ a, Token.balance (tok d') a =
      Token.balance (tok d) a + Token.balance_change (Token.Transfer tre_addr (recipient action) (ta_amount action)) a.
Proof.
  intros Hwf Hp Hnone Hau Has Hn.
  assert (step_dao (e, InitializeTreasury g) d = {| gov := gov d; tok := tok d;
    tre := {| Treasury.governance := Some g; Treasury.disbursed := Treasury.disbursed (tre d) |} |}) as ->.
  { unfold step_dao. cbn [fst snd exec_dao Dao.exec_inner]. unfold Treasury.initialize. by rewrite Hnone. }
  pose proof (Token.transfer_total (as_caller tre_addr (call_ctx e)) tre_addr (recipient action) (ta_amount action) (tok d) Hwf) as Ht.
  unfold Token.transfer_error in Ht. cbn [as_caller authorized] in Ht. rewrite bool_decide_true, Hp in Ht by done.
  cbn [orb negb] in Ht. destruct (Z.leb_spec (ta_amount action) 0); [lia|].
  destruct (Z.ltb_spec (Token.balance (tok d) tre_addr) (ta_amount action)); [lia|].
  destruct Ht as (t & Ht & Hb).
  set (d1 := {| gov := _; tok := _; tre := _ |}).
  assert (transfer_on gov_addr tok_addr tre_addr (foreign e) (as_caller tre_addr (call_ctx e)) d1 tok_addr tre_addr
    (recipient action) (ta_amount action) = Some t) as Hpay.
  { unfold transfer_on. rewrite bool_decide_true by done. cbn [tok d1]. by rewrite Ht. }
  eexists {| gov := gov d; tok := t; tre := _ |}. split; [|exact Hb]. cbn [exec_dao Dao.exec_inner]. unfold Treasury.disburse. cbn [d1 tre Treasury.governance].
  unfold unwrap, require_auth. cbn [ok_or mbind res_bind]. rewrite Hau. cbn [ensure mbind res_bind].
  rewrite Has. fold d1. rewrite Hpay. reflexivity.
Qed.

End system.

(** ** The theorems on small histories *)
Definition at_time (n : Z) : Env := {|
  call_ctx := {|
    sequence := n; timestamp := n;
    authorized a := negb (bool_decide (a = js "CGOV") || bool_decide (a = js "CTREASURY")) |};
  foreign := nobody_else |}.
Definition reward : TreasuryAction := {|
  recipient := js "GBOB"; ta_amount := 50; asset := TokenAsset (js "CTOKEN") |}.
Definition founding : list (Env * DaoCall) :=
  [(at_time 1, OnToken (Token.Initialize (js "GALICE") 1000 (js "CosmosVote") (js "VOTE") 7));
   (at_time 2, OnToken (Token.Transfer (js "GALICE") (js "CTREASURY") 300));
   (at_time 10, OnGovernance (Initialize (js "GADMIN") (js "CTOKEN") 0 0 0 false (Some (js "CTREASURY"))))].
Definition voting : list (Env * DaoCall) :=
  [(at_time 20, OnGovernance (CreateProposal (js "GALICE") (js "Title") (js "Text") 600 100 None (Some reward)));
   (at_time 25, OnGovernance (CastVote (js "GALICE") 0 Format.Yes));
   (at_time 30, OnToken (Token.Transfer (js "GALICE") (js "GBOB") 600));
   (at_time 35, OnGovernance (CastVote (js "GBOB") 0 Format.No))].
Notation run_sample := (steps_dao (js "CGOV") (js "CTOKEN") (js "CTREASURY")).
Definition founded : Dao := run_sample founding deployed.
Definition voted_dao : Dao := run_sample voting founded.
Definition proposal_of (d : Dao) : Proposal :=
  default (Build_Proposal 0 [] [] [] None 0 0 0 0 0 0 Format.Active 0 0 None None) (proposals (gov d) !! 0).

Lemma nobody_every (P : Ctx → DaoCall → Prop) n k : P (call_ctx (at_time n)) k → every_call P (at_time n, k).
Proof. intros H. split; [exact H|]. split; intros; discriminate. Qed.
Lemma sample_outsiders n k : outsiders (js "CGOV") (js "CTREASURY") (at_time n, k).
Proof. apply nobody_every. split; vm_compute; reflexivity. Qed.

Lemma sample_calls_sound : Forall sound_dao_call founding ∧ Forall sound_dao_call voting.
Proof.
  unfold founding, voting. split;
    repeat (apply Forall_cons_2; [apply nobody_every; first [exact I | vm_compute; split; discriminate]|]);
    apply Forall_nil_2.
Qed.

Lemma votes_bounded_by_movement_witness :
  let p := proposal_of voted_dao in
  votes_yes p + votes_no p + votes_abstain p = 1300 ∧
  votes_yes p + votes_no p + votes_abstain p <= 1000 + 600.
Proof.
  intros p. split; [vm_compute; reflexivity|].
  refine (votes_bounded_by_movement (js "CGOV") (js "CTOKEN") (js "CTREASURY") _ founding voting 0 p _ _ _ _ _).
  - vm_compute. discriminate.
  - apply sample_calls_sound.
  - apply sample_calls_sound.
  - cbn [weighed_here voting]. repeat split; intros a v _; vm_compute; reflexivity.
  - vm_compute. reflexivity.
  - vm_compute. reflexivity.
Defined.

Definition approving : list (Env * DaoCall) :=
  founding ++ take 2 voting ++ [(at_time 121, OnGovernance (Finalise 0))].
Definition approved : Dao := run_sample approving (ready (js "CGOV")).
Definition rewarded : Dao :=
  step_dao (js "CGOV") (js "CTOKEN") (js "CTREASURY") (at_time 130, OnGovernance (Execute (js "GADMIN") 0)) approved.

Lemma treasury_pays_what_was_voted_witness :
  Token.balance (tok rewarded) (js "CTREASURY") = 250 ∧ Treasury.disbursed (tre rewarded) = [(js "GBOB", 50)] ∧
  ∃ admin i p action, OnGovernance (Execute (js "GADMIN") 0) = OnGovernance (Execute admin i) ∧
    proposals (gov approved) !! i = Some p ∧ state p = Format.Passed ∧ treasury_action p = Some action ∧
    Token.balance (tok approved) (js "CTREASURY") - Token.balance (tok rewarded) (js "CTREASURY") = ta_amount action.
Proof.
  split; [vm_compute; reflexivity|]. split; [vm_compute; reflexivity|].
  destruct (treasury_pays_what_was_voted (js "CGOV") (js "CTOKEN") (js "CTREASURY") ltac:(vm_compute; discriminate)
    approving (at_time 130) (OnGovernance (Execute (js "GADMIN") 0))) as [_ H].
  - unfold approving, founding, voting. cbn [app take].
      repeat (apply Forall_cons_2;
        [split; [apply nobody_every; first [exact I | vm_compute; split; discriminate] | exact (sample_outsiders _ _)]|]);
      apply Forall_nil_2.
  - apply nobody_every. exact I.
  - exact (sample_outsiders _ _).
  - destruct H as [(ad & i & p & act & H1 & H2 & H3 & H4 & _ & _ & _ & _ & H5)|(l1 & c & ad & n & l2 & H1 & _)];
      [vm_compute; reflexivity| |].
    + exists ad, i, p, act. split; [exact H1|]. split; [exact H2|]. split; [exact H3|]. split; [exact H4|exact H5].
    + exfalso.
      assert (trace (js "CGOV") (js "CTOKEN") (js "CTREASURY") (at_time 130) (OnGovernance (Execute (js "GADMIN") 0)) approved =
        [(as_caller (js "CTREASURY") (call_ctx (at_time 130)), Token.Transfer (js "CTREASURY") (js "GBOB") 50)]) as Ht
        by (vm_compute; reflexivity).
      pose proof (eq_trans (eq_sym Ht) H1) as H2. destruct l1 as [|x [|y l1]]; discriminate H2.
Defined.

Lemma first_initializer_owns_treasury_witness :
  ∃ d', exec_dao (js "CGOV") (js "CTOKEN") (js "CTREASURY") (at_time 11) (Disburse reward)
      (step_dao (js "CGOV") (js "CTOKEN") (js "CTREASURY") (at_time 11, InitializeTreasury (js "GMALLORY")) founded) = Some d'.
Proof.
  destruct (first_initializer_owns_treasury (js "CGOV") (js "CTOKEN") (js "CTREASURY") (at_time 11) (js "GMALLORY")
    reward founded) as (d' & Hd & _); [..|by exists d'].
  - destruct (tok_history (js "CGOV") (js "CTOKEN") (js "CTREASURY") ltac:(vm_compute; discriminate) founding deployed
      (proj1 sample_calls_sound)) as (l' & Hl' & Ht). unfold founded. rewrite Ht.
    apply Token.steps_wf; [exact Hl'|apply Token.empty_wf].
  - vm_compute. reflexivity.
  - vm_compute. reflexivity.
  - vm_compute. reflexivity.
  - reflexivity.
  - vm_compute. split; [reflexivity|discriminate].
Defined.
End DaoLife.
