(* ===== verification/Prefs.v ===== *)
(** * Browser state of the front end
    (frontend/src/useTheme.ts, i18n.ts, components/LanguageSwitcher.tsx,
    analytics.ts, useMeta.ts, usePWAInstall.ts and main.tsx)

    These modules keep their state in localStorage, which all tabs share and
    which may refuse to be read or written, in the document, and in module
    variables. Writing a different value under a key sends a storage event to
    every other tab. *)
From Stdlib Require Import Ascii String ZArith Lia.
From stdpp Require Import prelude list gmap strings.
From S2P Require Import Prelude JsString Api.
Local Open Scope Z_scope.

(** localStorage: [getItem] and [setItem] throw when it is not available, and
    [setItem] also when the quota is used up. *)
Module Storage.

Record Storage := { readable : bool; writable : bool; items : gmap jstr jstr }.

Definition getItem (s : Storage) (k : jstr) : res () (option jstr) :=
  if readable s then Ok (items s !! k) else Err ().
Definition setItem (s : Storage) (k v : jstr) : res () Storage :=
  if writable s then Ok {| readable := readable s; writable := true; items := <[k := v]> (items s) |}
  else Err ().
(** [try { setItem } catch {}] *)
Definition try_set (s : Storage) (k v : jstr) : Storage :=
  match setItem s k v with Ok s' => s' | Err _ => s end.
End Storage.

Module Theme.
Import Storage.

Inductive Theme := light | dark.
Global Instance Theme_eq_dec : EqDecision Theme.
Proof. solve_decision. Defined.
Definition theme_text (t : Theme) : jstr := match t with light => js "light" | dark => js "dark" end.
Definition other (t : Theme) : Theme := match t with light => dark | dark => light end.

Definition STORAGE_KEY : jstr := js "cosmosvote-theme".

(** [v === 'light' || v === 'dark'] *)
Definition theme_of (v : option jstr) : option Theme :=
  match v with
  | Some s => if bool_decide (s = js "light") then Some light
              else if bool_decide (s = js "dark") then Some dark else None
  | None => None
  end.

Definition resolveInitialTheme (st : Storage) (prefers_dark : bool) : Theme :=
  let stored := match getItem st STORAGE_KEY with Ok v => theme_of v | Err _ => None end in
  match stored with
  | Some t => t
  | None => if prefers_dark then dark else light
  end.

(** A tab: the hook's state, the [data-theme] attribute of its document and the
    storage events on their way to it, as (key, newValue). *)
Record Tab := { theme : Theme; attr : option Theme; inbox : list (jstr * option jstr) }.
Record Browser := { storage : Storage; tabs : list Tab }.

Definition applyTheme (t : Theme) (tab : Tab) : Tab :=
  {| theme := t; attr := Some t; inbox := inbox tab |}.

Definition notify (k v : jstr) (tab : Tab) : Tab :=
  {| theme := theme tab; attr := attr tab; inbox := inbox tab ++ [(k, Some v)] |}.

(** [persistTheme] in tab [i]: the browser tells the other tabs if the value
    changed. *)
Definition persistTheme (i : nat) (t : Theme) (b : Browser) : Browser :=
  let st' := try_set (storage b) STORAGE_KEY (theme_text t) in
  let changed := bool_decide (items st' !! STORAGE_KEY ≠ items (storage b) !! STORAGE_KEY) in
  {| storage := st';
     tabs := imap (λ j tab, if bool_decide (j ≠ i) && changed
                            then notify STORAGE_KEY (theme_text t) tab else tab) (tabs b) |}.

(** Tab [i] renders with theme [t]; the effect runs when the theme is new. *)
Definition set_theme (i : nat) (t : Theme) (b : Browser) : Browser :=
  match tabs b !! i with
  | Some tab =>
      if decide (theme tab = t) then b
      else persistTheme i t {| storage := storage b; tabs := <[i := applyTheme t tab]> (tabs b) |}
  | None => b
  end.

Definition toggleTheme (i : nat) (b : Browser) : Browser :=
  match tabs b !! i with
  | Some tab => set_theme i (other (theme tab)) b
  | None => b
  end.

(** A new tab: the initial theme, then the first run of the effect. *)
Definition open_tab (prefers_dark : bool) (b : Browser) : Browser :=
  let t := resolveInitialTheme (storage b) prefers_dark in
  persistTheme (length (tabs b)) t
    {| storage := storage b; tabs := tabs b ++ [{| theme := t; attr := Some t; inbox := [] |}] |}.

(** Tab [i] handles the oldest storage event on its way to it. *)
Definition deliver (i : nat) (b : Browser) : Browser :=
  match tabs b !! i with
  | Some tab =>
      match inbox tab with
      | [] => b
      | (k, v) :: rest =>
          let b' := {| storage := storage b;
                       tabs := <[i := {| theme := theme tab; attr := attr tab; inbox := rest |}]>
                                 (tabs b) |} in
          if bool_decide (k = STORAGE_KEY)
          then match theme_of v with Some t => set_theme i t b' | None => b' end
          else b'
      end
  | None => b
  end.
Definition deliver_all (order : list nat) (b : Browser) : Browser := foldl (flip deliver) b order.

(** ** Lemmas *)
Definition settled (t : Theme) : Tab := {| theme := t; attr := Some t; inbox := [] |}.
(** A tab that has not handled the event announcing [t] yet. *)
Definition awaiting (t : Theme) : Tab :=
  {| theme := other t; attr := Some (other t); inbox := [(STORAGE_KEY, Some (theme_text t))] |}.

Definition stored (t : Theme) (b : Browser) : Prop :=
  writable (storage b) = true ∧ items (storage b) !! STORAGE_KEY = Some (theme_text t).
Definition agree (t : Theme) (b : Browser) : Prop :=
  stored t b ∧ Forall (λ tab, tab = settled t) (tabs b).
(** On the way to agreement on [t]: the tabs in [P] have not heard of it. *)
Definition spreading (t : Theme) (P : nat → Prop) (b : Browser) : Prop :=
  stored t b ∧
  ∀ j tab, tabs b !! j = Some tab → tab = settled t ∨ (tab = awaiting t ∧ P j).

Lemma theme_of_text t : theme_of (Some (theme_text t)) = Some t.
Proof. by destruct t. Qed.
Lemma other_ne t : other t ≠ t.
Proof. by destruct t. Qed.
Lemma theme_text_inj t u : theme_text t = theme_text u → t = u.
Proof. by destruct t, u. Qed.

Definition changes (t : Theme) (b : Browser) : bool :=
  bool_decide (items (try_set (storage b) STORAGE_KEY (theme_text t)) !! STORAGE_KEY
               ≠ items (storage b) !! STORAGE_KEY).

Lemma persist_lookup i t b j :
  tabs (persistTheme i t b) !! j =
    (λ tab, if bool_decide (j ≠ i) && changes t b
            then notify STORAGE_KEY (theme_text t) tab else tab) <$> tabs b !! j.
Proof. unfold persistTheme. cbn [tabs]. by rewrite list_lookup_imap. Qed.

Lemma persist_length i t b : length (tabs (persistTheme i t b)) = length (tabs b).
Proof. unfold persistTheme. cbn [tabs]. by rewrite length_imap. Qed.

Lemma persist_stored i t b :
  writable (storage b) = true → stored t (persistTheme i t b).
Proof.
  intros Hw. unfold stored, persistTheme, try_set, setItem. rewrite Hw. cbn [storage writable items].
  by rewrite lookup_insert_eq.
Qed.

Lemma changes_stored t u b : stored u b → changes t b = bool_decide (t ≠ u).
Proof.
  intros [Hw Hi]. unfold changes, try_set, setItem. rewrite Hw. cbn [items].
  rewrite lookup_insert_eq, Hi. apply bool_decide_ext. split; [congruence|].
  intros Hne [= Heq]. by apply Hne, theme_text_inj.
Qed.

Lemma deliver_length i b : length (tabs (deliver i b)) = length (tabs b).
Proof.
  unfold deliver, set_theme. destruct (tabs b !! i) as [tab|]; [|done].
  destruct (inbox tab) as [|[k v] rest]; [done|].
  case_bool_decide; [|by cbn [tabs]; rewrite length_insert].
  destruct (theme_of v); cbn [tabs]; [|by rewrite length_insert].
  destruct (<[i:=_]> (tabs b) !! i) as [tab'|]; [|by cbn [tabs]; rewrite length_insert].
  destruct (decide _); [by cbn [tabs]; rewrite length_insert|].
  rewrite persist_length. cbn [tabs]. by rewrite !length_insert.
Qed.

(** Tab [i] hears of the theme that is stored: it takes it over and writes
    nothing new. *)
Lemma deliver_awaiting i t b :
  stored t b → tabs b !! i = Some (awaiting t) →
  stored t (deliver i b) ∧ tabs (deliver i b) = <[i := settled t]> (tabs b).
Proof.
  intros Hst Hi. pose proof (lookup_lt_Some _ _ _ Hi) as Hlt.
  unfold deliver. rewrite Hi. cbn [awaiting inbox]. rewrite bool_decide_true, theme_of_text by done.
  unfold set_theme. cbn [tabs]. rewrite list_lookup_insert_eq by done.
  destruct (decide _) as [Heq|Hne]; [by apply other_ne in Heq|]. cbn [storage].
  set (b' := {| storage := _; tabs := _ |}). assert (stored t b') as Hst' by done.
  split; [apply persist_stored, Hst|]. apply list_eq. intros j.
  rewrite persist_lookup, (changes_stored t t) by done.
  rewrite (bool_decide_false (t ≠ t)), andb_false_r by (by intros []).
  unfold b'. cbn [tabs]. rewrite list_insert_insert_eq, list_fmap_id || rewrite list_insert_insert_eq.
  destruct (decide (i = j)) as [->|Hij].
  - by rewrite !list_lookup_insert_eq by done.
  - rewrite !list_lookup_insert_ne by done. by destruct (tabs b !! j).
Qed.

Lemma deliver_spreading i t P b :
  spreading t P b → spreading t (λ j, P j ∧ j ≠ i) (deliver i b).
Proof.
  intros [Hst Htabs]. destruct (tabs b !! i) as [tab|] eqn:Hi.
  - destruct (Htabs i tab Hi) as [->|[-> HP]].
    + assert (deliver i b = b) as -> by (unfold deliver; by rewrite Hi).
      split; [done|]. intros j tab Hj. destruct (decide (j = i)) as [->|Hji].
      * left. congruence.
      * destruct (Htabs j tab Hj) as [|[]]; [by left | by right].
    + destruct (deliver_awaiting i t b Hst Hi) as [Hst' Ht]. split; [done|]. rewrite Ht.
      intros j tab [(-> & <- & _)|[Hne Hj]]%list_lookup_insert_Some; [by left|].
      destruct (Htabs j tab Hj) as [|[]]; [by left | by right].
  - assert (deliver i b = b) as -> by (unfold deliver; by rewrite Hi).
    split; [done|]. intros j tab Hj.
    destruct (Htabs j tab Hj) as [|[]]; [by left | right]. split_and!; [done..|congruence].
Qed.

Lemma deliver_all_spreading order t P b :
  spreading t P b →
  spreading t (λ j, P j ∧ j ∉ order) (deliver_all order b) ∧
  length (tabs (deliver_all order b)) = length (tabs b).
Proof.
  revert P b. induction order as [|i order IH]; intros P b Hb.
  - split; [|done]. destruct Hb as [Hst Ht]. split; [done|]. intros j tab Hj.
    destruct (Ht j tab Hj) as [|[]]; [by left | right]. split_and!; [done..|apply not_elem_of_nil].
  - apply (deliver_spreading i) in Hb. apply IH in Hb as [[Hst Ht] Hl].
    change (deliver_all (i :: order) b) with (deliver_all order (deliver i b)).
    split; [|by rewrite Hl, deliver_length]. split; [done|]. intros j tab Hj.
    destruct (Ht j tab Hj) as [|(-> & [HP Hji] & Hno)]; [by left | right].
    split_and!; [done..|]. by apply not_elem_of_cons.
Qed.

Lemma toggle_spreading i t b :
  agree t b → (i < length (tabs b))%nat →
  spreading (other t) (λ j, j ≠ i) (toggleTheme i b) ∧
  length (tabs (toggleTheme i b)) = length (tabs b).
Proof.
  intros [Hst Hall] Hi. destruct (lookup_lt_is_Some_2 _ _ Hi) as [tab Htab].
  assert (tab = settled t) as -> by (eapply (Forall_lookup_1 (λ tab, tab = settled t)); done).
  unfold toggleTheme, set_theme. rewrite Htab. cbn [settled theme].
  destruct (decide _) as [Heq|Hne]; [by symmetry in Heq; apply other_ne in Heq|].
  split; [|by rewrite persist_length; cbn [tabs]; rewrite length_insert].
  split; [apply persist_stored, Hst|]. intros j tab. rewrite persist_lookup.
  rewrite (changes_stored _ t) by done. rewrite (bool_decide_true (other t ≠ t)), andb_true_r
    by apply other_ne.
  cbn [tabs]. intros (tab0 & Heq & Hj)%fmap_Some. destruct (decide (j = i)) as [->|Hji].
  - left. rewrite list_lookup_insert_eq in Heq by done. rewrite bool_decide_false in Hj by (by intros []).
    injection Heq as <-. by rewrite Hj.
  - right. rewrite list_lookup_insert_ne in Heq by done. rewrite bool_decide_true in Hj by done.
    assert (tab0 = settled t) as -> by (eapply (Forall_lookup_1 (λ tab, tab = settled t)); done).
    split; [|done]. subst tab. by destruct t.
Qed.

(** ** Properties *)

(** A theme change reaches every tab: when all tabs agree on a theme and one
    toggles it, then once every other tab has handled its storage event, in any
    order, all tabs and the stored preference agree on the new theme, the
    document attributes included, and no event is left. *)
Theorem theme_change_reaches_all_tabs (t : Theme) (i : nat) (order : list nat) (b : Browser) :
  agree t b → (i < length (tabs b))%nat →
  (∀ j, (j < length (tabs b))%nat → j ≠ i → j ∈ order) →
  agree (other t) (deliver_all order (toggleTheme i b)).
Proof.
  intros Hb Hi Hord. destruct (toggle_spreading i t b Hb Hi) as [Hs Hl].
  apply (deliver_all_spreading order) in Hs as [[Hst Ht] Hl']. split; [done|].
  apply Forall_lookup_2. intros j tab Hj.
  destruct (Ht j tab Hj) as [|(_ & Hne & Hno)]; [done|]. exfalso. apply Hno, Hord; [|done].
  rewrite <- Hl, <- Hl'. by eapply lookup_lt_Some.
Qed.

Definition two_tabs (t : Theme) : Browser := {|
  storage := {| readable := true; writable := true; items := {[STORAGE_KEY := theme_text t]} |};
  tabs := [settled t; settled t] |}.

Lemma theme_change_reaches_all_tabs_witness :
  agree dark (deliver_all [1%nat] (toggleTheme 0 (two_tabs light))).
Proof.
  apply (theme_change_reaches_all_tabs light 0 [1%nat] (two_tabs light)).
  - split; [by split; [|apply lookup_singleton_eq] | by repeat constructor].
  - cbn. lia.
  - intros j Hj Hne. cbn in Hj. assert (j = 1%nat) as -> by lia. by left.
Defined.

(** Two quick changes make two tabs flip for ever: after a tab has toggled
    twice before the other one has handled an event, each round in which both
    handle what they have received ends in the very same state, with two events
    still on their way and the stored preference flipped twice in between. *)
Theorem double_toggle_oscillates (t : Theme) (k : nat) :
  let b := toggleTheme 0 (toggleTheme 0 (two_tabs t)) in
  let later := deliver_all (mjoin (replicate k [1; 1; 0; 0]%nat)) b in
  storage later = storage b ∧ tabs later = tabs b ∧
  (length ∘ inbox <$> tabs later) = [0; 2]%nat ∧
  items (storage (deliver 1 later)) !! STORAGE_KEY ≠ items (storage later) !! STORAGE_KEY.
Proof.
  intros b. assert (deliver_all [1; 1; 0; 0]%nat b = b) as Hcycle by (by destruct t; vm_compute).
  assert (∀ n, deliver_all (mjoin (replicate n [1; 1; 0; 0]%nat)) b = b) as Hall.
  { induction n as [|n IH]; [done|]. unfold deliver_all in *. cbn [replicate mjoin list_join].
    by rewrite foldl_app, Hcycle. }
  cbv zeta. rewrite Hall. split_and!; [done|done|by destruct t; vm_compute|].
  by destruct t; vm_compute.
Qed.
End Theme.

Module I18n.
Import Storage.

Definition SUPPORTED_LOCALES : list (jstr * jstr * jstr) :=
  [(js "en", js "English", js "English"); (js "es", js "Spanish", js "Español");
   (js "fr", js "French", js "Français")].

(** The names every object inherits: [name in LOCALES] holds for them too. *)
Definition inherited_names : list jstr :=
  [js "constructor"; js "__defineGetter__"; js "__defineSetter__"; js "hasOwnProperty";
   js "__lookupGetter__"; js "__lookupSetter__"; js "isPrototypeOf"; js "propertyIsEnumerable";
   js "toString"; js "valueOf"; js "__proto__"; js "toLocaleString"].

Section i18n.
  (** The locale files locales/en.json, es.json and fr.json. *)
  Variables en es fr : gmap jstr jstr.

Definition LOCALES : list (jstr * gmap jstr jstr) := [(js "en", en); (js "es", es); (js "fr", fr)].

Definition in_LOCALES (name : jstr) : bool :=
  bool_decide (name ∈ LOCALES.*1) || bool_decide (name ∈ inherited_names).

Definition STORAGE_KEY : jstr := js "cv_locale".

Definition readStoredLocale (st : Storage) (language : jstr) : jstr :=
  let from_browser :=
    let browserLang := default [] (head (split_unit 45 language)) in
    if in_LOCALES browserLang then browserLang else js "en" in
  match getItem st STORAGE_KEY with
  | Ok (Some ((_ :: _) as stored)) => if in_LOCALES stored then stored else from_browser
  | _ => from_browser
  end.

Record Provider := { locale : jstr; html_lang : jstr; storage : Storage }.

(** Mounting: the stored locale, then the effect on the document. *)
Definition mount (st : Storage) (language : jstr) : Provider :=
  let l := readStoredLocale st language in
  {| locale := l; html_lang := l; storage := st |}.
Definition setLocale (next : jstr) (p : Provider) : Provider :=
  {| locale := next; html_lang := next; storage := try_set (storage p) STORAGE_KEY next |}.

(** [LOCALES[locale][key] ?? en[key] ?? key]: an inherited object has none of the
    keys. *)
Definition t (p : Provider) (key : jstr) : jstr :=
  default key (nullish (assoc (locale p) LOCALES ≫= λ m, m !! key) (en !! key)).

(** LanguageSwitcher: value, label and whether it is the one selected. *)
Definition LanguageSwitcher (p : Provider) : list (jstr * jstr * bool) :=
  (λ '(code, _, nativeLabel), (code, nativeLabel, bool_decide (locale p = code))) <$> SUPPORTED_LOCALES.

(** A language chosen in the switcher is remembered: after setting a
    supported locale and reloading, whatever the browser's language, the locale
    and the document's language are the chosen one and every key the locale
    defines is translated by it, other keys by English. The check on loading is
    [in], so a stored name that objects inherit is taken for a locale as well;
    then every key is translated by English. *)
Theorem locale_survives_reload (p : Provider) (l language key : jstr) :
  readable (storage p) = true → writable (storage p) = true →
  l ∈ LOCALES.*1 ∨ l ∈ inherited_names →
  let reloaded := mount (storage (setLocale l p)) language in
  locale reloaded = l ∧ html_lang reloaded = l ∧
  t reloaded key = match assoc l LOCALES ≫= λ m, m !! key with
                   | Some v => v
                   | None => default key (en !! key)
                   end.
Proof.
  intros Hr Hw Hl reloaded.
  assert (in_LOCALES l = true) as Hin.
  { unfold in_LOCALES. apply orb_true_iff. rewrite !bool_decide_eq_true. done. }
  assert (l ≠ []) as Hne.
  { intros ->. by vm_compute in Hin. }
  assert (locale reloaded = l) as Hloc.
  { unfold reloaded, mount, setLocale, readStoredLocale, getItem, try_set, setItem.
    cbn [storage locale]. rewrite Hw. cbn [readable items]. rewrite Hr, lookup_insert_eq.
    destruct l as [|u l]; [done|]. by rewrite Hin. }
  split_and!; [done|done|]. unfold t. rewrite Hloc.
  by destruct (assoc l LOCALES ≫= _).
Qed.
End i18n.
End I18n.

Module Analytics.

(** ** analytics.ts *)
Record AnalyticsEvent := {
  name : jstr;
  props : list (jstr * jstr);
  sessionId : jstr;
  ts : Z }.

(** What localStorage holds under "_analytics_queue": nothing, the JSON of a
    queue, or text that is not JSON. Other JSON values are not represented. *)
Inductive Saved := Absent | Queue (q : list AnalyticsEvent) | Garbage.
Definition parse_saved (readable : bool) (s : Saved) : list AnalyticsEvent :=
  match readable, s with
  | true, Queue q => q
  | _, _ => []
  end.

(** The module's queue, its saved copy, the batches of requests under way, and
    where batches ended: answered by the server, or dropped for want of an
    endpoint. *)
Record State := {
  queue : list AnalyticsEvent;
  saved : Saved;
  inflight : list (list AnalyticsEvent);
  sent : list AnalyticsEvent;
  dropped : list AnalyticsEvent }.

Definition BATCH_SIZE : nat := 10.

Section analytics.
  Variables (ENABLED : bool) (ENDPOINT : option jstr) (readable writable : bool).

Definition load_module (s : Saved) : State := {|
  queue := parse_saved readable s; saved := s; inflight := []; sent := []; dropped := [] |}.

Definition persist (s : State) : State := {|
  queue := queue s; saved := if writable then Queue (queue s) else saved s;
  inflight := inflight s; sent := sent s; dropped := dropped s |}.

Definition flush (s : State) : State :=
  match queue s with
  | [] => s
  | batch =>
      let s1 := persist {| queue := []; saved := saved s; inflight := inflight s; sent := sent s;
                           dropped := dropped s |} in
      if truthy ENDPOINT
      then {| queue := queue s1; saved := saved s1; inflight := inflight s1 ++ [batch];
              sent := sent s1; dropped := dropped s1 |}
      else {| queue := queue s1; saved := saved s1; inflight := inflight s1; sent := sent s1;
              dropped := dropped s1 ++ batch |}
  end.

(** The [i]th request under way settles; [fetch] resolves whatever the HTTP status. *)
Definition settle (i : nat) (resolved : bool) (s : State) : State :=
  match inflight s !! i with
  | None => s
  | Some batch =>
      if resolved
      then {| queue := queue s; saved := saved s; inflight := delete i (inflight s);
              sent := sent s ++ batch; dropped := dropped s |}
      else persist {| queue := batch ++ queue s; saved := saved s; inflight := delete i (inflight s);
                      sent := sent s; dropped := dropped s |}
  end.

Definition trackEvent (e : AnalyticsEvent) (s : State) : State :=
  if ENABLED then
    let s1 := persist {| queue := queue s ++ [e]; saved := saved s; inflight := inflight s;
                         sent := sent s; dropped := dropped s |} in
    if (BATCH_SIZE <=? length (queue s1))%nat then flush s1 else s1
  else s.

Inductive Action :=
| Track (e : AnalyticsEvent)
| Interval
| VisibilityChange (hidden : bool)
| Settle (i : nat) (resolved : bool).

(** The interval and the listener exist only when analytics are enabled. *)
Definition act (a : Action) (s : State) : State :=
  match a with
  | Track e => trackEvent e s
  | Interval => if ENABLED then flush s else s
  | VisibilityChange hidden => if ENABLED && hidden then flush s else s
  | Settle i r => settle i r s
  end.
Definition acts (l : list Action) (s : State) : State := foldl (flip act) s l.

(** ** Lemmas *)
Definition held (s : State) : list AnalyticsEvent :=
  queue s ++ mjoin (inflight s) ++ sent s ++ dropped s.
Definition tracked (l : list Action) : list AnalyticsEvent :=
  omap (λ a, match a with Track e => Some e | _ => None end) l.

Lemma flush_held s : held (flush s) ≡ₚ held s.
Proof.
  unfold flush, held. destruct (queue s) as [|e q] eqn:Hq; [by rewrite Hq|].
  destruct (truthy ENDPOINT); cbn [persist queue inflight sent dropped].
  - rewrite join_app. cbn [mjoin list_join]. rewrite app_nil_r. cbn [app]. solve_Permutation.
  - solve_Permutation.
Qed.

Lemma join_delete {A} (l : list (list A)) i x :
  l !! i = Some x → mjoin l ≡ₚ x ++ mjoin (delete i l).
Proof.
  revert i. induction l as [|y l IH]; intros [|i] Hi; [done..|simpl in Hi; by injection Hi as -> |].
  simpl in *. rewrite (IH i Hi). solve_Permutation.
Qed.

Lemma settle_held i r s : held (settle i r s) ≡ₚ held s.
Proof.
  unfold settle, held. destruct (inflight s !! i) as [batch|] eqn:Hi; [|done].
  apply join_delete in Hi. rewrite Hi.
  destruct r; cbn [persist queue inflight sent dropped]; solve_Permutation.
Qed.

Lemma act_held a s :
  held (act a s) ≡ₚ held s ++ (if ENABLED then tracked [a] else []).
Proof.
  destruct a as [e| |h|i r]; cbn [act tracked omap list_omap].
  - unfold trackEvent. destruct ENABLED; [|by rewrite app_nil_r].
    case_match; rewrite ?flush_held; unfold held; cbn [persist queue inflight sent dropped];
      solve_Permutation.
  - destruct ENABLED; by rewrite ?flush_held, app_nil_r.
  - destruct ENABLED, h; cbn [andb]; by rewrite ?flush_held, app_nil_r.
  - destruct ENABLED; by rewrite settle_held, app_nil_r.
Qed.

Lemma acts_held l s : held (acts l s) ≡ₚ held s ++ (if ENABLED then tracked l else []).
Proof.
  revert s. induction l as [|a l IH]; intros s; [by destruct ENABLED; rewrite app_nil_r|].
  change (acts (a :: l) s) with (acts l (act a s)). rewrite IH, act_held.
  destruct ENABLED; [|by rewrite !app_nil_r].
  rewrite <- app_assoc. f_equiv. by destruct a.
Qed.

(** The saved copy is the queue, and nothing is dropped when there is an endpoint. *)
Definition kept (s : State) : Prop :=
  (readable = true → writable = true → parse_saved readable (saved s) = queue s) ∧
  (truthy ENDPOINT = true → dropped s = []).

Lemma persist_kept s : (truthy ENDPOINT = true → dropped s = []) → kept (persist s).
Proof. intros Hd. split; [|done]. intros Hr Hw. cbn. by rewrite Hr, Hw. Qed.

Lemma flush_kept s : kept s → kept (flush s).
Proof.
  intros [Hs Hd]. unfold flush. destruct (queue s) as [|e q] eqn:Hq; [by split; rewrite ?Hq|].
  split; destruct (truthy ENDPOINT) eqn:He; cbn [saved queue dropped persist]; try done;
    intros Hr Hw; by rewrite Hr, Hw.
Qed.

Lemma act_kept a s : kept s → kept (act a s).
Proof.
  intros Hk. destruct a as [e| |h|i r]; cbn [act].
  - unfold trackEvent. destruct ENABLED; [|done].
    assert (kept (persist {| queue := queue s ++ [e]; saved := saved s; inflight := inflight s;
                             sent := sent s; dropped := dropped s |})) by (apply persist_kept, Hk).
    cbv zeta. case_match; [by apply flush_kept | done].
  - destruct ENABLED; [by apply flush_kept | done].
  - destruct (ENABLED && h); [by apply flush_kept | done].
  - unfold settle. destruct (inflight s !! i); [|done]. destruct r; [done|].
    apply persist_kept, Hk.
Qed.

Lemma acts_kept l s : kept s → kept (acts l s).
Proof. apply fold_preserves. intros. by apply act_kept. Qed.

(** ** Properties *)

(** Analytics lose and duplicate nothing within a page: at any moment the
    events loaded from storage and those tracked since are, as a multiset, those
    queued, in a request under way, answered, or dropped for want of an
    endpoint; with an endpoint none is dropped, and with a working localStorage
    the saved copy is the queue. Nothing is recorded when analytics are off. *)
Theorem analytics_conserves_events (l : list Action) (s0 : Saved) :
  let s := acts l (load_module s0) in
  queue s ++ mjoin (inflight s) ++ sent s ++ dropped s
    ≡ₚ parse_saved readable s0 ++ (if ENABLED then tracked l else []) ∧
  (truthy ENDPOINT = true → dropped s = []) ∧
  (readable = true → writable = true → parse_saved readable (saved s) = queue s).
Proof.
  intros s. split.
  - pose proof (acts_held l (load_module s0)) as H. unfold held in H. fold s in H. rewrite H.
    cbn [load_module queue inflight sent dropped mjoin list_join app]. by rewrite app_nil_r.
  - destruct (acts_kept l (load_module s0)) as [Hs Hd]; [by split | by split].
Qed.
End analytics.
End Analytics.

Module Document.

(** ** useMeta.ts: the title and the description tag of the document. *)
Record Doc := { title : jstr; description : option jstr }.
Definition DEFAULT_TITLE : jstr := js "CosmosVote — Governance".
Definition DEFAULT_DESCRIPTION : jstr := js "On-chain governance and voting on Stellar Soroban".

Definition useMeta (t : option jstr) (d : option jstr) (doc : Doc) : Doc := {|
  title := match t with
           | Some ((_ :: _) as t') => t' ++ js " | CosmosVote"
           | _ => DEFAULT_TITLE
           end;
  description := Some (default DEFAULT_DESCRIPTION d) |}.
Definition cleanup (doc : Doc) : Doc :=
  {| title := DEFAULT_TITLE; description := Some DEFAULT_DESCRIPTION |}.

(** ** AriaLive.tsx: the texts of the polite and the assertive region. *)
Definition AriaLive (polite assertive : option jstr) : list (jstr * jstr) :=
  [(js "polite", default [] polite); (js "assertive", default [] assertive)].

(** ** usePWAInstall.ts: the prompt kept, whether installing is offered, the
    prompts shown, and the user choices being waited for. *)
Record Install := { canInstall : bool; promptRef : option nat; prompted : list nat; waiting : nat }.
Definition no_install : Install :=
  {| canInstall := false; promptRef := None; prompted := []; waiting := 0 |}.
Definition beforeinstallprompt (e : nat) (i : Install) : Install :=
  {| canInstall := true; promptRef := Some e; prompted := prompted i; waiting := waiting i |}.
Definition install (i : Install) : Install :=
  match promptRef i with
  | None => i
  | Some e => {| canInstall := canInstall i; promptRef := Some e; prompted := prompted i ++ [e];
                 waiting := S (waiting i) |}
  end.
Definition user_chose (i : Install) : Install :=
  match waiting i with
  | O => i
  | S n => {| canInstall := false; promptRef := None; prompted := prompted i; waiting := n |}
  end.

(** The button is offered exactly while a prompt is kept. *)
Definition offered (i : Install) : Prop := canInstall i = true ↔ promptRef i ≠ None.
Lemma install_offered e i :
  offered i → offered (beforeinstallprompt e i) ∧ offered (install i) ∧ offered (user_chose i).
Proof.
  unfold offered, install, user_chose. intros Hi.
  destruct (promptRef i) eqn:Hp, (waiting i); cbn; rewrite ?Hp; naive_solver.
Qed.

(** ** main.tsx: the page shown at the start. *)
Inductive Page := AppPage | InvalidConfiguration (paragraph : jstr).
Definition main (root : bool) (env : Config.Env) : res jstr Page :=
  _ ← ensure root (js "Root element not found");
  match Config.validateConfig env with
  | Ok _ => mret AppPage
  | Err m => mret (InvalidConfiguration (join (js "<br/>") (split_unit 10 m)))
  end.

(** The application is shown exactly when both contract identifiers are
    well-formed. *)
Lemma main_shows_app env :
  main true env = Ok AppPage ↔
    Config.bad_contract_id (Config.governanceContractId (Config.config env)) = false ∧
    Config.bad_contract_id (Config.tokenContractId (Config.config env)) = false.
Proof.
  unfold main, Config.validateConfig.
  destruct (Config.bad_contract_id (Config.governanceContractId _)),
    (Config.bad_contract_id (Config.tokenContractId _)); cbn [ensure mbind res_bind app];
    naive_solver.
Qed.
End Document.
