(* ===== verification/Unused.v ===== *)
(** * Contexts, and two modules that nothing uses
    (useI18n of i18n.ts, useToast of ToastContext.tsx, I18nContext.tsx and the
    error texts of WalletContext.tsx)

    I18nContext.tsx imports names that i18n.ts does not export, so [locales] and [t]
    are arguments; it keeps the language under a key of its own, and what either
    provider stores the other never reads. *)
From Stdlib Require Import Ascii String ZArith Lia.
From stdpp Require Import prelude list gmap strings.
From S2P Require Import Prelude JsString Prefs.
Local Open Scope Z_scope.

(** ** Hooks that need a provider around them *)
Module Hooks.
(** [useContext] gives the value of the nearest provider, null where there is none. *)
Definition from_context {V} (message : jstr) (ctx : option V) : res jstr V := ok_or ctx message.
Definition useI18n {V} : option V → res jstr V := from_context (js "useI18n must be used within an <I18nProvider>").
Definition useToast {V} : option V → res jstr V := from_context (js "useToast must be used within ToastProvider").
End Hooks.

(** ** I18nContext.tsx *)
Module I18nContext.
Import Storage.

Section context.
  Context {Key Vars : Type}.
  (** The keys of [locales], and [t(locale, key, vars)]. *)
  Variables (locales : list jstr) (t : jstr → Key → Vars → jstr).

Definition KEY : jstr := js "locale".

Record Provider := { locale : jstr; storage : Storage }.

(** Mounting; the access to the storage is not guarded. *)
Definition mount (st : Storage) : res () Provider :=
  item ← getItem st KEY;
  let saved := default (js "en") item in
  mret {| locale := if bool_decide (saved ∈ locales) then saved else js "en"; storage := st |}.
Definition setLocale (l : jstr) (p : Provider) : res () Provider :=
  st ← setItem (storage p) KEY l; mret {| locale := l; storage := st |}.
Definition translate (p : Provider) : Key → Vars → jstr := t (locale p).

Definition useI18n (ctx : option Provider) : res jstr Provider :=
  Hooks.from_context (js "useI18n must be used within I18nProvider") ctx.

(** A language chosen with this provider is there after a reload, if it is one of
    the languages; where the storage refuses, choosing fails and the page cannot be
    mounted. *)
Theorem choice_survives_reload (l : jstr) (p : Provider) :
  match setLocale l p with
  | Ok p' => locale p' = l ∧ (readable (storage p) = true → l ∈ locales → mount (storage p') = Ok p')
  | Err _ => writable (storage p) = false
  end.
Proof.
  unfold setLocale, setItem, mount, getItem. destruct (writable (storage p)) eqn:Hw; [|done].
  cbn [mbind res_bind mret res_ret locale storage readable items]. split; [done|]. intros Hr Hl. rewrite Hr.
  cbn [mbind res_bind]. rewrite lookup_insert_eq. cbn [default from_option id]. by rewrite bool_decide_true.
Qed.

(** The two providers of the front end do not see each other's choice: they keep it
    under different keys. *)
Theorem providers_do_not_share (en es fr : gmap jstr jstr) (l language : jstr) (p : Provider) (q : I18n.Provider) :
  (∀ p', setLocale l p = Ok p' →
     I18n.readStoredLocale en es fr (storage p') language = I18n.readStoredLocale en es fr (storage p) language) ∧
  locale <$> mount (I18n.storage (I18n.setLocale l q)) = locale <$> mount (I18n.storage q).
Proof.
  assert (KEY ≠ I18n.STORAGE_KEY) as Hk by (vm_compute; discriminate). split.
  - intros p' H. unfold setLocale, setItem in H. destruct (writable (storage p)); [|done]. injection H as <-.
    unfold I18n.readStoredLocale, getItem. cbn [storage readable items]. by rewrite lookup_insert_ne.
  - unfold I18n.setLocale, try_set, setItem. cbn [I18n.storage]. destruct (writable (I18n.storage q)); [|done].
    unfold mount, getItem. cbn [readable items]. destruct (readable (I18n.storage q)); [|done].
    cbn [mbind res_bind]. by rewrite lookup_insert_ne.
Qed.
End context.
End I18nContext.

(** ** WalletContext.tsx *)
Module WalletContext.
Section errors.
  (** [toLowerCase] of the language, and whether the extension put its object into the
      window. *)
  Variables (toLowerCase : jstr → jstr) (freighter_in_window : bool).

Definition detectFreighterError (msg : jstr) : jstr :=
  let has w := includes (toLowerCase msg) (js w) in
  if negb freighter_in_window then js "Freighter wallet extension not found. Please install it and refresh."
  else if has "user rejected" || has "denied"
       then js "Connection rejected. Click " ++ [34] ++ js "Retry" ++ [34] ++ js " to try again."
  else if has "network" || has "timeout"
       then js "Network error connecting to wallet. Check your connection and retry."
  else js "Wallet connection failed: " ++ msg.
End errors.

(** Every message is told in one of four ways, the missing extension before all, a
    rejection before a failing network; only the last quotes the message. *)
Theorem detectFreighterError_order (toLowerCase : jstr → jstr) (freighter : bool) (msg : jstr) :
  let says w := includes (toLowerCase msg) (js w) = true in
  let told := detectFreighterError toLowerCase freighter msg in
  (startsWith told (js "Freighter") = true ↔ freighter = false) ∧
  (startsWith told (js "Connection") = true ↔ freighter = true ∧ (says "user rejected" ∨ says "denied")) ∧
  (startsWith told (js "Network") = true ↔
     freighter = true ∧ ¬ (says "user rejected" ∨ says "denied") ∧ (says "network" ∨ says "timeout")) ∧
  (startsWith told (js "Wallet") = true →
     told = js "Wallet connection failed: " ++ msg).
Proof.
  intros says told. unfold says, told, detectFreighterError. clear.
  destruct freighter; cbn [negb];
    destruct (includes (toLowerCase msg) (js "user rejected")), (includes (toLowerCase msg) (js "denied")),
      (includes (toLowerCase msg) (js "network")), (includes (toLowerCase msg) (js "timeout"));
    cbn [orb]; split_and!; try done; vm_compute; intuition congruence.
Qed.
End WalletContext.
