(* ===== verification/App.v ===== *)
(** * The application component (frontend/src/App.tsx)

    Around the list of Pagination.v: the warning about the RPC server, the wallet's
    address in the header, the dialog of a proposal with the scroll position and
    the element to return to, the document's title, and what is shown when. The
    component declares its wallet state several times; here the wallet is what the
    rest of the component is given. *)
From Stdlib Require Import Ascii String ZArith Lia.
From stdpp Require Import prelude list gmap strings.
From S2P Require Import Prelude JsString Format Pagination Api Prefs.
Local Open Scope Z_scope.

Module App.
Import Format ProposalList.

Record AppState := {
  listing : ListState;
  rpcWarning : option jstr;
  showFullAddress : bool;
  scrollY : Z;                      (* of the window *)
  scrollPosition : Z;               (* scrollPositionRef *)
  trigger : option nat }.           (* triggerRef: the element clicked *)
Definition opened (y : Z) : AppState := {|
  listing := initial; rpcWarning := None; showFullAddress := false; scrollY := y; scrollPosition := 0; trigger := None |}.

Definition with_list (f : ListState → ListState) (s : AppState) : AppState := {|
  listing := f (listing s); rpcWarning := rpcWarning s; showFullAddress := showFullAddress s;
  scrollY := scrollY s; scrollPosition := scrollPosition s; trigger := trigger s |}.
Definition scroll_to (y : Z) (s : AppState) : AppState := {|
  listing := listing s; rpcWarning := rpcWarning s; showFullAddress := showFullAddress s;
  scrollY := y; scrollPosition := scrollPosition s; trigger := trigger s |}.

(** The check of the RPC server settles. *)
Definition rpc_checked (r : res jstr ()) (s : AppState) : AppState :=
  match r with
  | Ok _ => s
  | Err m => {|
      listing := listing s; rpcWarning := Some (js "Error: " ++ m); showFullAddress := showFullAddress s;
      scrollY := scrollY s; scrollPosition := scrollPosition s; trigger := trigger s |}
  end.
(** The second of the two [handleProposalCreated]: only the announcement changes,
    the list is not refreshed. *)
Definition handleProposalCreated (id_ : Z) (l : ListState) : ListState := {|
  proposals := proposals l; decimals := decimals l; loading := loading l; progress := progress l;
  error := error l; announcement := js "Proposal #" ++ dec_of id_ ++ js " created. Refreshing list…";
  search := search l; stateFilter := stateFilter l; page := page l; selected := selected l |}.

Inductive Event :=
| FirstLoad (r : res jstr (list Proposal * Z))
| RefreshProposals (r : res jstr (list Proposal))
| RpcChecked (r : res jstr ())
| ProposalCreated (id_ : Z)
| SearchFor (q : jstr) | FilterBy (f : option ProposalState)
| PrevPage | NextPage
| Scroll (y : Z)
| OpenCard (p : Proposal) (element : option nat)
| CloseDetail
| ToggleAddress.

Section app.
  Variable toLowerCase : jstr → jstr.

(** Whether the buttons of the navigation call their handlers. *)
Definition nav_shown (s : ListState) : bool :=
  negb (loading s) && negb (bool_decide (filtered toLowerCase s = [])).
Definition can_prev (s : ListState) : bool := nav_shown s && negb (safePage toLowerCase s <=? 1).
Definition can_next (s : ListState) : bool := nav_shown s && negb (totalPages toLowerCase s <=? safePage toLowerCase s).
Definition can_open (p : Proposal) (s : ListState) : bool :=
  negb (loading s) && bool_decide (p ∈ pagedProposals toLowerCase s).

Definition handle (e : Event) (s : AppState) : AppState :=
  match e with
  | FirstLoad r => with_list (loaded r) s
  | RefreshProposals (Ok ps) => with_list (set_proposals ps) s
  | RefreshProposals (Err _) => s
  | RpcChecked r => rpc_checked r s
  | ProposalCreated i => with_list (handleProposalCreated i) s
  | SearchFor q => with_list (λ l, set_query q (stateFilter l) l) s
  | FilterBy f => with_list (λ l, set_query (search l) f l) s
  | PrevPage => if can_prev (listing s) then scroll_to 0 (with_list onPrev s) else s
  | NextPage => if can_next (listing s) then scroll_to 0 (with_list (onNext toLowerCase) s) else s
  | Scroll y => scroll_to y s
  | OpenCard p el =>
      if can_open p (listing s) then {|
        listing := select (Some p) (listing s); rpcWarning := rpcWarning s; showFullAddress := showFullAddress s;
        scrollY := scrollY s; scrollPosition := scrollY s; trigger := el |}
      else s
  | CloseDetail =>
      if bool_decide (is_Some (selected (listing s)))
      then scroll_to (scrollPosition s) (with_list (select None) s) else s
  | ToggleAddress => {|
      listing := listing s; rpcWarning := rpcWarning s; showFullAddress := negb (showFullAddress s);
      scrollY := scrollY s; scrollPosition := scrollPosition s; trigger := trigger s |}
  end.
Definition handle_all (es : list Event) (s : AppState) : AppState := foldl (flip handle) s es.

(** ** What is shown *)
(** The entries of the list's grid. *)
Inductive Item :=
| Progress (line : jstr)
| Skeleton
| NoProposals
| Card (p : Proposal).
Definition grid (s : ListState) : list Item :=
  (if loading s
   then match progress s with
        | Some (l, t) => [Progress (js "Loading proposals… " ++ dec_of l ++ js "/" ++ dec_of t)]
        | None => []
        end ++ [Skeleton; Skeleton; Skeleton]
   else []) ++
  (if negb (loading s) && negb (truthy (error s)) && bool_decide (filtered toLowerCase s = []) then [NoProposals] else []) ++
  (if loading s then [] else Card <$> pagedProposals toLowerCase s).

(** The wallet's corner of the header; [t_connect] is the label of the button. *)
Inductive WalletCorner :=
| Connected (address : jstr) (tooltip label : jstr) (balance : option jstr)
| ConnectButton (label : jstr).
Definition wallet_corner (walletAddress : option jstr) (tokenBalance : option Z) (dec : nat) (t_connect : jstr)
    (s : AppState) : WalletCorner :=
  match walletAddress with
  | Some ((_ :: _) as a) =>
      Connected (if showFullAddress s then a else maskAddress a)
        (if showFullAddress s then js "Click to hide address" else a)
        (if showFullAddress s then js "Click to hide full address" else js "Click to reveal full address")
        ((λ b, formatTokenAmount b dec) <$> tokenBalance)
  | _ => ConnectButton t_connect
  end.

Record View := {
  live : list (jstr * jstr);
  subtitle : jstr;
  theme_button : jstr * jstr;
  filter_options : list jstr;
  rpc_banner : option jstr;
  stats_bar : list (jstr * Z);
  error_line : option jstr;
  items : list Item;
  navigation : option Pagination.View;
  dialog : option Proposal }.
Definition render (network : jstr) (dark : bool) (all_states : jstr) (s : AppState) : View :=
  let l := listing s in {|
    live := Document.AriaLive (Some (announcement l)) (error l);
    subtitle := js "On-chain governance · " ++ network;
    theme_button := (js "Switch to " ++ (if dark then js "light" else js "dark") ++ js " mode",
                     if dark then js "☀️" else js "🌙");
    filter_options := all_states :: (state_name <$> ALL_STATES);
    rpc_banner := match rpcWarning s with Some ((_ :: _) as w) => Some (js "RPC warning: " ++ w) | _ => None end;
    stats_bar := stats l;
    error_line := match error l with Some ((_ :: _) as e) => Some (js "Error: " ++ e) | _ => None end;
    items := grid l;
    navigation := if nav_shown l
                  then Some (Pagination.Pagination (safePage toLowerCase l) (totalPages toLowerCase l)
                               (Z.of_nat (length (filtered toLowerCase l))) PAGE_SIZE false)
                  else None;
    dialog := selected l |}.

(** The title and description the document is given. *)
Definition meta (s : ListState) : jstr * jstr :=
  match selected s with
  | Some p => (title p, title p ++ js " — " ++ slice (description p) 0 120)
  | None => (js "Proposals",
             js "Browse and vote on on-chain governance proposals for CosmosVote on Stellar Soroban.")
  end.

(** ** Lemmas *)
Lemma paged_nonempty s : 1 <= page s → filtered toLowerCase s ≠ [] → pagedProposals toLowerCase s ≠ [].
Proof.
  intros Hp Hne Hnil. pose proof (safePage_range toLowerCase s Hp) as Hsp.
  set (n := Z.of_nat (length (filtered toLowerCase s))).
  assert (0 < n) by (unfold n; destruct (filtered toLowerCase s); [done|cbn; lia]).
  pose proof (pages_for_last n (safePage toLowerCase s) ltac:(done) Hsp) as Hl.
  apply (f_equal (λ l, Z.of_nat (length l))) in Hnil. unfold pagedProposals in Hnil.
  rewrite page_slice_length in Hnil by lia. fold n in Hnil. unfold PAGE_SIZE in *. cbn in Hnil. lia.
Qed.
Lemma paged_nil s : filtered toLowerCase s = [] → pagedProposals toLowerCase s = [].
Proof. intros H. unfold pagedProposals, page_slice. by rewrite H, drop_nil, take_nil. Qed.

Lemma app_step_page e s : 1 <= page (listing s) → 1 <= page (listing (handle e s)).
Proof.
  intros Hp.
  assert (∀ q f l, 1 <= page l → 1 <= page (set_query q f l)) as Hq
    by (intros q f l ?; cbn [set_query page]; by destruct (_ && _)).
  destruct e as [r|[ps|m]|[u|m]|i|q|f| | |y|p el| |]; cbn [handle]; try done; try (by apply Hq).
  - destruct (can_prev (listing s)); [|done]. cbn. lia.
  - destruct (can_next (listing s)); [|done]. cbn [scroll_to with_list listing onNext set_page page].
    unfold totalPages, pages_for. lia.
  - by destruct (can_open p (listing s)).
  - by case_bool_decide.
Qed.
Lemma app_page_positive es y : 1 <= page (listing (handle_all es (opened y))).
Proof.
  apply (fold_preserves handle (λ s, 1 <= page (listing s))); [intros; by apply app_step_page | cbn; lia].
Qed.

(** ** Properties *)

(** The list's area says one thing at a time: after any history, while the first
    load is under way it shows three placeholders and nothing else; then, if a
    proposal matches, exactly the cards of the current page, at least one, with the
    navigation; if none matches, no navigation, and the message that there is none
    exactly when there is no error to show instead. *)
Theorem list_area_consistent (es : list Event) (y : Z) (network all_states : jstr) (dark : bool) :
  let s := handle_all es (opened y) in
  let v := render network dark all_states s in
  if loading (listing s)
  then items v = match progress (listing s) with
                 | Some (l, t) => [Progress (js "Loading proposals… " ++ dec_of l ++ js "/" ++ dec_of t)]
                 | None => []
                 end ++ [Skeleton; Skeleton; Skeleton] ∧ navigation v = None
  else if bool_decide (filtered toLowerCase (listing s) = [])
  then navigation v = None ∧ items v = (if truthy (error (listing s)) then [] else [NoProposals])
  else items v = Card <$> pagedProposals toLowerCase (listing s) ∧ items v ≠ [] ∧ is_Some (navigation v).
Proof.
  intros s v. unfold v, render, grid, nav_shown. cbn [items navigation].
  destruct (loading (listing s)); cbn [negb andb app]; [by rewrite app_nil_r|].
  case_bool_decide as Hf; cbn [negb].
  - rewrite paged_nil by done. rewrite andb_true_r. split; [done|]. by destruct (truthy (error (listing s))).
  - rewrite andb_false_r. cbn [app]. split_and!; [done| |by eexists].
    intros Hnil. apply (paged_nonempty (listing s) (app_page_positive es y) Hf).
    by destruct (pagedProposals toLowerCase (listing s)).
Qed.

(** Closing the dialog returns to where it was opened: whatever is scrolled,
    searched, loaded or toggled in between, as long as no other card is opened. *)
Definition keeps_place (e : Event) : bool := match e with OpenCard _ _ | CloseDetail => false | _ => true end.
Theorem close_restores_scroll (s : AppState) (p : Proposal) (el : option nat) (es : list Event) :
  can_open p (listing s) = true → forallb keeps_place es = true →
  let s' := handle CloseDetail (handle_all es (handle (OpenCard p el) s)) in
  scrollY s' = scrollY s ∧ selected (listing s') = None ∧ trigger s' = el.
Proof.
  intros Ho Hes. cbn [handle]. rewrite Ho.
  set (s1 := {| listing := _; scrollY := _; scrollPosition := _ |}).
  assert (∀ es s2, forallb keeps_place es = true →
    scrollPosition s2 = scrollY s ∧ selected (listing s2) = Some p ∧ trigger s2 = el →
    let s3 := handle_all es s2 in scrollPosition s3 = scrollY s ∧ selected (listing s3) = Some p ∧ trigger s3 = el)
    as H.
  { clear. intros es. induction es as [|e es IH]; intros s2 Hes Hs2; [done|].
    cbn [forallb] in Hes. apply andb_true_iff in Hes as [He Hes]. cbn [handle_all foldl flip].
    apply IH; [done|]. destruct e as [r|[ps|m]|[u|m]|i|q|f| | |y|p' el'| |]; cbn [handle]; try done.
    - by destruct (can_prev (listing s2)).
    - by destruct (can_next (listing s2)). }
  destruct (H es s1 Hes (conj eq_refl (conj eq_refl eq_refl))) as (H1 & H2 & H3).
  rewrite bool_decide_true by (by rewrite H2). cbn. by rewrite H1.
Qed.
End app.
End App.
