(* ===== verification/AppWallet.v ===== *)
(** * The wallet of the application component (frontend/src/App.tsx)

    App.tsx declares [connect] five times and the effect that fetches the balance
    three times, so that it does not compile as committed; the bodies differ only in
    whether connecting fetches the balance too. Both are modelled, with any number of
    copies of the effect, and requests that are answered in any order. *)
From Stdlib Require Import Ascii String ZArith Lia.
From stdpp Require Import prelude list strings.
From S2P Require Import Prelude JsString.
Local Open Scope Z_scope.

Module AppWallet.

(** [type ActiveTab] *)
Inductive ActiveTab := TabProposals | TabDashboard | TabTreasury.

Record State := {
  walletAddress : option jstr;
  tokenBalance : option Z;
  activeTab : ActiveTab;
  in_flight : list jstr }.          (* the addresses whose balance is asked for *)
Definition initial : State := {|
  walletAddress := None; tokenBalance := None; activeTab := TabProposals; in_flight := [] |}.

Section wallet.
  (** The copies of the effect, and whether [connect] fetches the balance. *)
  Variables (effects : nat) (fetching : bool).

(** [useEffect(..., [walletAddress])], run after a render that changed the address. *)
Definition effect (before : option jstr) (s : State) : State :=
  if bool_decide (walletAddress s = before) then s
  else match walletAddress s with
       | Some ((_ :: _) as a) => {|
           walletAddress := walletAddress s; tokenBalance := tokenBalance s; activeTab := activeTab s;
           in_flight := in_flight s ++ replicate effects a |}
       | _ => {|
           walletAddress := walletAddress s; tokenBalance := None; activeTab := activeTab s;
           in_flight := in_flight s |}
       end.

(** [connect] and [handleConnect]: what the prompt returned. *)
Definition connect (addr : option jstr) (s : State) : State :=
  match addr with
  | Some a =>
      if startsWith a (js "G")
      then effect (walletAddress s) {|
             walletAddress := Some a; tokenBalance := tokenBalance s; activeTab := activeTab s;
             in_flight := in_flight s ++ (if fetching then [a] else []) |}
      else s
  | None => s
  end.
Definition disconnect (s : State) : State :=
  effect (walletAddress s) {|
    walletAddress := None; tokenBalance := tokenBalance s; activeTab := activeTab s; in_flight := in_flight s |}.
Definition handleDisconnect (s : State) : State :=
  effect (walletAddress s) {|
    walletAddress := None; tokenBalance := None; activeTab := TabProposals; in_flight := in_flight s |}.

(** [.then(setTokenBalance).catch(() => setTokenBalance(null))]: the [i]-th request
    is answered with the balance, or rejected. *)
Definition settle (i : nat) (answer : option Z) (s : State) : State :=
  match in_flight s !! i with
  | Some _ => {| walletAddress := walletAddress s; tokenBalance := answer; activeTab := activeTab s;
                 in_flight := delete i (in_flight s) |}
  | None => s
  end.

Inductive Action := Connect (addr : option jstr) | Disconnect | HandleDisconnect | Settle (i : nat) (answer : option Z).
Definition act (x : Action) (s : State) : State :=
  match x with
  | Connect addr => connect addr s
  | Disconnect => disconnect s
  | HandleDisconnect => handleDisconnect s
  | Settle i answer => settle i answer s
  end.
Definition acts (l : list Action) (s : State) : State := foldl (flip act) s l.

(** ** Properties *)

(** The answers come in order, and each is what the server says of the address. *)
Definition answered_by (server : jstr → option Z) (x : Action) (s : State) : Prop :=
  match x with Settle i answer => i = 0%nat ∧ ∀ a, in_flight s !! i = Some a → answer = server a | _ => True end.
Fixpoint in_order (server : jstr → option Z) (l : list Action) (s : State) : Prop :=
  match l with
  | [] => True
  | x :: l' => answered_by server x s ∧ in_order server l' (act x s)
  end.

(** The last request is for the connected address; without one, the balance is its. *)
Definition coherent (server : jstr → option Z) (s : State) : Prop :=
  match walletAddress s with
  | Some a => startsWith a (js "G") = true ∧
      match last (in_flight s) with Some b => b = a | None => tokenBalance s = server a end
  | None => True
  end.

Lemma g_address a : startsWith a (js "G") = true → ∃ a', a = 71 :: a'.
Proof. intros [k ->]%startsWith_spec. by eexists. Qed.
Lemma last_replicate_app {A} (l : list A) n x : (0 < n)%nat → last (l ++ replicate n x) = Some x.
Proof.
  intros Hn. destruct n as [|n]; [lia|]. rewrite <- (Nat.add_1_r n), replicate_add. cbn [replicate].
  by rewrite app_assoc, last_snoc.
Qed.

Lemma act_coherent server x s :
  (0 < effects)%nat → answered_by server x s → coherent server s → coherent server (act x s).
Proof.
  intros He Hx Hs. destruct x as [[a|]| | |i answer]; cbn [act].
  - unfold connect. destruct (startsWith a (js "G")) eqn:Hg; [|done].
    destruct (g_address a Hg) as [a' ->]. unfold effect. cbn [walletAddress]. case_bool_decide as Heq.
    + unfold coherent in *. cbn [walletAddress in_flight tokenBalance]. rewrite <- Heq in Hs.
      destruct Hs as [_ Hs]. split; [done|]. destruct fetching; [by rewrite last_snoc|by rewrite app_nil_r].
    + unfold coherent. cbn [walletAddress in_flight tokenBalance]. split; [done|]. by rewrite last_replicate_app.
  - exact Hs.
  - unfold disconnect, effect. cbn [walletAddress]. by case_bool_decide.
  - unfold handleDisconnect, effect. cbn [walletAddress]. by case_bool_decide.
  - destruct Hx as [-> Hans]. unfold settle. destruct (in_flight s) as [|b q] eqn:Hq; [done|].
    cbn [lookup list_lookup]. unfold coherent in *. cbn [walletAddress in_flight tokenBalance].
    destruct (walletAddress s) as [a|]; [|done]. destruct Hs as [Hg Hs]. split; [done|].
    change (delete 0%nat (b :: q)) with q. rewrite Hq in Hs. destruct q as [|c q].
    + cbn in Hs. subst b. by apply Hans.
    + change (last (b :: c :: q)) with (last (c :: q)) in Hs.
      destruct (last (c :: q)) eqn:Hl; [done|]. by apply last_None in Hl.
Qed.

(** Once every request has been answered, in order, the balance shown for a connected
    account is the account's, whichever declarations are kept; the address starts
    with G. *)
Theorem settled_balance_is_the_accounts (server : jstr → option Z) (l : list Action) (a : jstr) :
  (0 < effects)%nat → in_order server l initial →
  walletAddress (acts l initial) = Some a → in_flight (acts l initial) = [] →
  startsWith a (js "G") = true ∧ tokenBalance (acts l initial) = server a.
Proof.
  intros He Hl Ha Hq.
  assert (∀ s, coherent server s → in_order server l s → coherent server (acts l s)) as H.
  { clear Hl Ha Hq. induction l as [|x l IH]; intros s Hs Hl; [done|]. destruct Hl as [Hx Hl].
    apply (IH (act x s)); [|done]. by apply act_coherent. }
  specialize (H initial I Hl). unfold coherent in H. rewrite Ha, Hq in H. exact H.
Qed.
End wallet.

(** A late answer shows the balance of an account that is no longer connected: the
    requests are neither cancelled nor compared with the address. *)
Theorem late_answer_shows_other_balance :
  let s := acts 1 false [Connect (Some (js "GALICE")); Connect (Some (js "GBOB"));
                         Settle 1 (Some 7); Settle 0 (Some 1000)] initial in
  walletAddress s = Some (js "GBOB") ∧ tokenBalance s = Some 1000 ∧ in_flight s = [].
Proof. split_and!; reflexivity. Qed.

Lemma settled_balance_witness :
  tokenBalance (acts 3 true [Connect (Some (js "GBOB")); Settle 0 (Some 7); Settle 0 (Some 7);
                             Settle 0 (Some 7); Settle 0 (Some 7)] initial) = Some 7.
Proof.
  apply (settled_balance_is_the_accounts 3 true (λ _, Some 7) _ (js "GBOB")); [lia| |reflexivity|reflexivity].
  repeat (split; [first [exact I | split; [reflexivity | intros a _; reflexivity]]|]). exact I.
Defined.
End AppWallet.
